(* ===== verification/_CoqProject ===== *)
-Q . S2P
Prelude.v
Ip.v
Float.v
FloatBound.v
Spec.v
Event.v
Config.v
Transmit.v
Bytes.v
Pcap.v
SimStep.v
Serde.v
Replayed.v
Verifier.v
History.v
Window.v
Throughput.v
Quinn.v
Cli.v
Cancel.v
QuicClient.v
QuicServer.v
Certificate.v
Endpoints.v
VerifierInv.v
VerifierLog.v
VerifierThms.v
VerifierTotal.v
VerifierSteps.v
Custody.v
VerifierProps.v
VerifierFindings.v
VerifierNew.v
Heap.v
InboundQueue.v
Node.v
Link.v
Network.v
Tracer.v
NetworkInit.v
NetworkInv.v
NetworkSteady.v
NetworkRng.v
NetworkLinks.v
NetworkBuffers.v
NetworkStart.v
NetworkArrivals.v
NetworkWired.v
NetworkTold.v
NetworkRoutes.v
NetworkCustody.v
NetworkCarry.v
NetworkExample.v
Sockets.v
Connectivity.v
Workbench.v
NetworkContents.v
Tasks.v
Crossing.v
Ping.v
NetworkTests.v
QuicTest.v
NetworkTasks.v
NetworkPace.v
NetworkProps.v
NetworkVerified.v
NetworkFindings.v
Report.v
Golden.v
PingRun.v
ThroughputRun.v
QuicRun.v
QuicMain.v
Main.v
