(* ===== verification/Prelude.v ===== *)
(** * A verification development for the QUIC workbench

    The workbench simulates QUIC and UDP traffic over a network of hosts,
    routers and links that lives in memory.  This development models the network
    (the crate [src/in-memory-network]), the tools that run over it (the crate
    [src/quinn-workbench]) and the runner of its golden tests
    ([src/golden-tests]), and proves what their parts promise.

    ** The program

    A JSON description becomes a [NetworkSpec] (nodes with addresses, routes and
    a buffer; links with a delay and a bandwidth) and a list of timed
    [NetworkEvents] (links and nodes go down and come up, buffers are cleared).
    [InMemoryNetwork::initialize] builds the network and spawns its tasks: one
    per node takes packets from the node's buffer and offers them to the links
    that lead to their destination; one per link waits until the link may send
    and sends; one per link delivers what comes out of the link to the next
    node; one processes the events.  Hosts send and receive through sockets.
    Everything that happens is recorded in a replay log, and after the run a
    verifier replays the log and checks it against the specification.  The
    tools ([ping], [throughput], [quic]) set a network up, spawn tasks that use
    the sockets of two hosts, wait for them, verify the log and print a report.

    ** The files

    The network and its verifier:

    - [Prelude]: results and panics, machine integers and durations, sums,
      stable sorting (with [sort_by_key_id], [sort_by_key_stable]), the hint
      database [workbench].
    - [Ip] ([network/ip.rs], [network/route.rs], and the address parser of the
      standard library they call): CIDR blocks, ranges, routes.
    - [Float]: [f64] as the IEEE 754 binary64 of [SpecFloat], with the
      conversions the links use.  [FloatBound]: how exact its products and
      quotients are.
    - [Spec] ([network/spec.rs]), [Event] ([network/event.rs]), [Transmit]
      ([transmit.rs], [InTransitData] of [lib.rs]), [SimStep]
      ([tracing/simulation_step.rs], [simulation_stepper.rs], [stats.rs]).
      [Serde] (the serde attributes of these and [util/mod.rs]): how a log is
      stored and read.
    - [Replayed], [Verifier] ([tracing/simulation_verifier.rs]): the verifier.
      [VM] is its monad: a state, non-fatal errors that accumulate, and a result
      that is a value, a fatal error or a panic.
    - [History], [Custody]: the specification of the verifier.  [History] reads off
      a log what the verifier should know at each point: statuses, buffered
      packets, packets in flight, bits in a link's window (by [Window], which
      the throughput test shares).  [Custody] says which steps may follow which:
      a log is lawful if every step continues the life of its packet.
    - [VerifierInv], [VerifierLog], [VerifierThms], [VerifierTotal],
      [VerifierSteps]: the verifier's state mirrors those readings; the errors of
      a step, of a log; the buffer maxima; the absence of panics.  [VerifierNew]:
      which networks have a verifier.  [VerifierProps], [VerifierFindings]: the
      theorems.
    - [Heap]: the interface of [BinaryHeap] and a list implementation of it.
      [InboundQueue] ([network/inbound_queue.rs]): the queue and its future.
    - [Node] ([network/node.rs], [outbound_buffer.rs]), [Link]
      ([network/link.rs]).
    - [Network] ([network/mod.rs], the waiting part of [link.rs], the recording
      part of [tracing/tracer.rs], the sockets of [quinn_interop.rs]): the
      shared state [World], the tasks, and [Reach], the executions.
      [NetworkInit]: [initialize].  [Sockets]: the rest of [quinn_interop.rs],
      the buffers and the metadata that a read fills.  [Connectivity]: the
      queries of [network/mod.rs] and its connectivity check; [Crossing]: what
      the times it returns are.
    - [NetworkInv] (the log), [NetworkSteady] (what only events change),
      [NetworkLinks] (no transmission over a link that is down),
      [NetworkBuffers] (buffer capacities), [NetworkArrivals] (what waits in a
      host has arrived there), [NetworkContents] (packets are not altered):
      invariants, each proved operation by operation.  [NetworkStart]: they hold
      initially.  [NetworkRoutes], [NetworkTasks]: what routing and single runs
      of a task do.  [NetworkPace]: the traffic of a link and its bandwidth.
    - [NetworkWired], [NetworkTold], [NetworkCustody], [NetworkCarry],
      [NetworkVerified]: the simulation of the verifier by the network.  The
      network is wired as the verifier was told; its statuses are those the log
      tells; every packet it holds has an owner in the log; every operation keeps
      that, so its log is lawful and the verifier accepts it.  [NetworkRng]: the
      interface these files have to the source of packet ids, and the generator
      that records what it returns, by which the theorems speak of the ids
      that an execution draws.
    - [NetworkExample]: an example network and scripted executions.
      [NetworkTests] (the tests in [lib.rs]): the tests of the network, run in
      a model of the runtime with a paused clock.  [NetworkProps],
      [NetworkFindings]: the theorems.
    - [QuicTest]: the test of [lib.rs] that runs QUIC, its tasks.
    - [Tracer] ([tracing/tracer.rs]): the tracer as a component, with the warnings it
      prints, which [Network] leaves out.
    - [Bytes], [Pcap] ([pcap_exporter.rs]): the packet capture.

    The tools:

    - [Cli] ([config/cli.rs]), [Config] ([config/network.rs], [config/quinn.rs]):
      the options and the files; [Workbench]: what all tools set up.
    - [Quinn] ([quinn_extensions], [quic/mod.rs]): congestion controllers,
      connection ids and the transport configuration.
    - [Cancel] ([CancellationToken] of [util.rs]); [Tasks]: what the models of the
      tools share, actions of the network and of an application in one state.
    - [Report] ([util.rs]): what is printed of a verified simulation; with
      [simulation_reported], which all tools use: a network that was set up
      from the files either has no verifier, or its log is accepted and printed.
    - [Ping], [PingRun] ([udp/ping.rs]): the tasks of the ping, and [run] itself.
      [Throughput], [ThroughputRun] ([udp/throughput.rs]): the numbers, and the
      tasks and [run].
    - [Certificate]: the certificate and the key of [quic/server.rs], with a reader
      of DER that checks them.  [Endpoints] ([server_endpoint], [client_endpoint],
      [client_config] and their files): the endpoints of a run.
    - [QuicClient] ([quic/client.rs]), [QuicServer] ([server_listen] of
      [quic/server.rs]), [QuicRun] ([run] of [quic/simulation.rs] from the point
      where the endpoints exist), [QuicMain] (all of [run], with the
      connectivity check, the endpoints, and [run_and_report_stats]).
    - [Main] ([main.rs], [new_rt] of [async_rt.rs]): loading the files, and what a
      command runs, on which clock.
    - [Golden] ([golden-tests/src/main.rs]): loading, running and judging tests.

    ** How state and operations correspond to the code

    Instants and durations are numbers of nanoseconds; an instant counts from
    the creation of the tracer.  [usize] and [u64] arithmetic wraps around, as
    it does in a release build; [Duration] arithmetic panics on overflow, as it
    always does.  Identifiers of packets are numbers below [2^128], those of nodes
    and links strings.  An [Arc<Mutex<_>>] that several parts share is an entry of a map of
    the [World], referred to by a number.  A one-shot channel is a number that is
    in [w_fired] once it was fired; a watch channel an entry of [w_handled].

    The tasks are cooperative: a task runs until its next [await], so a task is
    a state machine ([LinkPhase] holds the suspension points of a link's task,
    [NextPacketDelivery] is the state of a forwarder or a receiving socket) and
    [run_buffer], [run_link], [run_forwarder] and [run_events] run it from one
    suspension to the next.  [NetStep] lets any task run, or a host send or
    receive, or time pass, in any order; the scheduler of the runtime picks some
    of these orders, so what holds of every world [Reach] relates to the initial
    one holds of the program.  A run that panics has no successor: the model
    gives [None].

    The tools work the same way: [PingRun], [TestRun] and [quic_exec] interleave
    the tasks of a tool, its [run] and the steps of the network, in any order.  A sender sends what the code sends between two of its sleeps, a
    receiver takes one iteration of its loop at a time.  For the QUIC tasks quinn
    is the environment: whether and when a connection is made, a stream opened
    or a request answered is an event of the execution.  What is printed is kept
    as data ([Line], [PingReport]), in order and with its numbers.

    Parameters of the model are the code outside the repository: the random
    number generator ([rng_f64], [rng_u128] on an arbitrary state; any functions,
    of whose results [in_transit_data] and [forward] keep 128 bits as packet ids;
    no theorem assumes more of them, but those that need different ids for
    different packets are about the executions in which no id is drawn twice,
    [NoDup (drawn w)]), the timers of
    the runtime ([timer_elapsed deadline now]; theorems that need it assume a
    timer never elapses early), the iteration order of hash maps
    ([hash_order s], a permutation of the elements of [s]; [iter_nodes],
    [iter_links], [iter_ids]), the binary heap (the laws of [Heap]), the event of
    [event_listener] (the laws of [EventListener]), the setters of packet headers and the
    writes to the capture file, which may fail ([Pnet] and [accepts] in [Pcap]), the file system and the JSON parser (in
    [Main]), the data format of the log (the laws of [Format] in [Serde]), what
    rustls, quinn and the file system accept ([Environment] in [Endpoints],
    [stored]), and the workbench as a process and the writes that fail (in [Golden]).

    ** What the theorems show

    - The network refines the verifier: whatever the tasks, the hosts and the
      events do, if no packet id is drawn twice the verifier accepts the log,
      and what it reports is what a correct network can provoke
      ([network_log_accepted]).
    - The verifier: it never panics on logs whose sizes and times fit the
      machine, and fails exactly with the first fault of the log
      ([verify_verdict]); the errors it reports are, in order, those each step
      deserves ([verify_errors_in_order]); it exists exactly for networks whose
      links connect nodes with addresses of their own ([verifier_created]);
      each kind of error is reported exactly when the log has the violation it
      stands for (the theorems ending in [_reported]); buffer maxima are exact
      unless a buffer overflow is reported ([max_buffer_usage_exact]).
    - The network: the log is append-only and ordered by time; no execution
      sends over a link that is down, so the verifier never reports it; the
      packets a node stores, those handed to links included, stay within the
      capacity of its buffer ([buffers_within_capacity]); the traffic of a link
      stays within its bandwidth ([traffic_within_bandwidth]); a link's task handles each packet at most
      once; every packet that arrives at a node is accounted for exactly once;
      packets are offered to links in the order of cost; the wait of a link's
      task neither spins nor blocks needlessly; what a socket receives was sent
      to it, unaltered ([network_delivers_what_was_sent], [receive_faithful]).
    - The queue, addresses: delivery of exactly the due packets in order, round
      trips of CIDR blocks.
    - The log: what is stored reads back exactly if no flag was left out of it, so the
      logs of real runs do not ([log_reads_back]); the tracer records the same muted or
      not, and warns of every loss once and of every full buffer once per node
      ([tracer_warns]).
    - Setting up: it never panics, and the printed initial statuses are right
      ([setup_prints_statuses]); the times of the connectivity check are those at
      which the two packets it sent arrived ([connectivity_arrivals]).
    - The tools: every ping is in flight, lost or received
      ([ping_accounting]); the throughput test measures exactly the deliveries in
      the log ([throughput_measures_deliveries]); a token's waiters end exactly
      when it is cancelled ([cancelled_once_cancelled]).
    - From the configuration to the report, for each of the tools: its assertions
      hold, it returns without a panic, and if the network has a verifier and no
      packet id was drawn twice the log is accepted and the report is printed ([ping_run_reports],
      [throughput_run_reports], [quic_run_reported]).
    - QUIC: the endpoints of a run get the first two seeds of the generator, the settings of
      their hosts, and a client that trusts the server's certificate
      ([endpoints_created]), whose key is the server's ([certificate_matches_key]);
      requests are shared out without loss, with the configured pace and
      concurrency, and the client terminates; a run that succeeds made every
      request once, had it answered, and served it in full ([quic_run_result]);
      it returns once all connections have ended ([quic_run_returns]).
    - The report does not depend on hash orders ([report_independent_of_hash_order]);
      the capture has the secrets first and every packet that was sent or read
      once ([capture_complete], [secrets_block_read]); the verdict of a golden test,
      and what it records ([golden_verdict], [golden_rerun]); the tests of the
      network pass in the model ([default_network_tests], [quic_test_passes]).
    - [NetworkFindings], [VerifierFindings], the last theorems of [Link] and
      [InboundQueue], [no_links_panics], [no_streams_hang] and
      [no_connections_hang]: executions in which the code does not do what it
      means to.

    ** Bounds and fuel

    [poll_loop] takes [poll_fuel]: one iteration per packet of the queue and
    three more, which [poll_delivers_due] shows to be enough.  The mutually
    recursive loop of [sleep_until_ready_to_send] takes [sleep_fuel], 5: nothing
    else runs while it does not wait, so it returns or suspends after at most
    four calls; [sleep_loop_terminates] shows that more fuel changes nothing in
    any reachable world.  [send_loop] takes [send_fuel], one unit more than the
    full packets of an interval ([interval_packets_exact]).  The verifier is
    structurally recursive on the log.  [verify_verdict] assumes sizes of at
    most 64 bits in total and times at least ten seconds below the largest
    duration, and the theorems about runs inherit these bounds.

    ** What is not modelled

    quinn, rustls and tokio, of which the calls, their order and what they decide are
    kept; the two constants of [quic/server.rs] for ECDSA, which nothing uses, and the
    set-up of TLS in the test of QUIC; the parsers of clap and serde and the text of
    JSON; the text around the printed numbers, the texts of the verifier's errors and
    the warnings of [initialize] and [process_link_event]; the bytes of the files of
    the packet capture beyond their blocks; and the textual difference of the golden
    tests, which is formatting around a library.  A [Waker]
    matters only in [InboundQueue]: the executions of [Network] may poll any
    task at any time. *)

From Stdlib Require Import ZArith Lia Sorting.Sorted.
From stdpp Require Export prelude gmap strings list.
From Stdlib Require Export ZArith Lia Sorting.Sorted.

#[export] Set Default Proof Using "Type".
Declare Scope rust_scope.
Delimit Scope rust_scope with rust.
Global Open Scope Z_scope.

(** ** Outcomes of Rust computations

    [Ok] and [Err] are the constructors of [Result]; [Panic] is a computation
    that aborts its thread ([unwrap] on [None], a failed [assert!], an
    overflowing [Duration] operation, an index out of range). *)
Inductive outcome (E A : Type) : Type :=
  | Ok (a : A)
  | Err (e : E)
  | Panic.
Arguments Ok {E A} a.
Arguments Err {E A} e.
Arguments Panic {E A}.

#[export] Instance outcome_ret {E} : MRet (outcome E) := λ A a, Ok a.
#[export] Instance outcome_bind {E} : MBind (outcome E) := λ A B f m,
  match m with Ok a => f a | Err e => Err e | Panic => Panic end.
#[export] Instance outcome_fmap {E} : FMap (outcome E) := λ A B f m,
  match m with Ok a => Ok (f a) | Err e => Err e | Panic => Panic end.

(** [o.ok_or(e)] *)
Definition ok_or {E A} (o : option A) (e : E) : outcome E A :=
  match o with Some a => Ok a | None => Err e end.

(** [o.unwrap()] *)
Definition unwrap {E A} (o : option A) : outcome E A :=
  match o with Some a => Ok a | None => Panic end.

(** [assert!(b)] *)
Definition rassert {E} (b : bool) : outcome E unit :=
  if b then Ok () else Panic.

Definition is_ok {E A} (o : outcome E A) : bool :=
  match o with Ok _ => true | _ => false end.

Lemma outcome_bind_Ok {E A B} (m : outcome E A) (f : A → outcome E B) b :
  m ≫= f = Ok b ↔ ∃ a, m = Ok a ∧ f a = Ok b.
Proof.
  destruct m as [a|e|]; naive_solver.
Qed.

(** A [for] loop over [l] that may fail. *)
Fixpoint foldM {E A B} (f : A → B → outcome E A) (l : list B) (a : A) : outcome E A :=
  match l with
  | [] => Ok a
  | b :: l' => a' ← f a b; foldM f l' a'
  end.

(** ** Machine integers

    [usize] and [u64] values are integers of [Z] in [[0, 2^64)].  Arithmetic
    written with the plain operators wraps around, as it does in the release
    profile the workbench is run with. *)
Definition u8_max : Z := 2 ^ 8 - 1.
Definition u32_max : Z := 2 ^ 32 - 1.
Definition u64_max : Z := 2 ^ 64 - 1.

Definition wrap64 (z : Z) : Z := z mod 2 ^ 64.
Definition wrap32 (z : Z) : Z := z mod 2 ^ 32.
Definition wrap128 (z : Z) : Z := z mod 2 ^ 128.

Definition in_u64 (z : Z) : Prop := 0 ≤ z < 2 ^ 64.

(** [a.checked_sub(b)] on [usize] *)
Definition checked_sub (a b : Z) : option Z :=
  if a <? b then None else Some (a - b).

(** [a.saturating_mul(b)] on [usize] *)
Definition saturating_mul64 (a b : Z) : Z := Z.min (a * b) u64_max.

Lemma wrap64_small z : in_u64 z → wrap64 z = z.
Proof. unfold in_u64, wrap64. apply Z.mod_small. Qed.

Lemma wrap64_range z : 0 ≤ wrap64 z < 2 ^ 64.
Proof. apply Z.mod_pos_bound. lia. Qed.

Lemma wrap64_add_l a b : wrap64 (wrap64 a + b) = wrap64 (a + b).
Proof. unfold wrap64. by rewrite Zplus_mod_idemp_l. Qed.

Lemma wrap64_sub_l a b : wrap64 (wrap64 a - b) = wrap64 (a - b).
Proof. unfold wrap64. by rewrite Zminus_mod_idemp_l. Qed.

Lemma checked_sub_Some a b : b ≤ a → checked_sub a b = Some (a - b).
Proof. intros. unfold checked_sub. destruct (Z.ltb_spec a b); [lia|done]. Qed.

(** ** Durations and instants

    A [Duration] is a number of nanoseconds; it holds less than [2^64]
    seconds.  An [Instant] is the number of nanoseconds since the start of the
    simulation: the workbench only compares instants, subtracts them from one
    another and adds durations to them.  [Duration] addition and subtraction
    panic on overflow. *)
Definition ns_per_ms : Z := 1000000.
Definition ns_per_sec : Z := 1000000000.
Definition duration_max : Z := 2 ^ 64 * ns_per_sec - 1.

Definition from_millis (ms : Z) : Z := ms * ns_per_ms.
Definition from_secs (s : Z) : Z := s * ns_per_sec.

Definition dur_add {E} (a b : Z) : outcome E Z :=
  if a + b <=? duration_max then Ok (a + b) else Panic.
Definition dur_sub {E} (a b : Z) : outcome E Z :=
  if b <=? a then Ok (a - b) else Panic.

Lemma dur_add_ok {E} a b : a + b ≤ duration_max → dur_add (E:=E) a b = Ok (a + b).
Proof. intros. unfold dur_add. destruct (Z.leb_spec (a + b) duration_max); [done|lia]. Qed.

Lemma dur_sub_ok {E} a b : b ≤ a → dur_sub (E:=E) a b = Ok (a - b).
Proof. intros. unfold dur_sub. destruct (Z.leb_spec b a); [done|lia]. Qed.

Lemma dur_add_inv {E} a b c : dur_add (E:=E) a b = Ok c → c = a + b.
Proof. unfold dur_add. case_match; by intros [= <-]. Qed.

Lemma dur_sub_inv {E} a b c : dur_sub (E:=E) a b = Ok c → c = a - b ∧ b ≤ a.
Proof. unfold dur_sub. destruct (Z.leb_spec b a); intros [= <-]. lia. Qed.

(** ** Sums over lists *)
Definition sumZ {A} (f : A → Z) (l : list A) : Z := foldr (λ x s, f x + s) 0 l.

Lemma sumZ_app {A} (f : A → Z) l k : sumZ f (l ++ k) = sumZ f l + sumZ f k.
Proof. induction l as [|x l IH]; simpl; lia. Qed.

Lemma sumZ_nonneg {A} (f : A → Z) l : (∀ x, x ∈ l → 0 ≤ f x) → 0 ≤ sumZ f l.
Proof.
  induction l as [|x l IH]; simpl; intros H; [lia|].
  pose proof (H x (list_elem_of_here _ _)).
  assert (0 ≤ sumZ f l) by (apply IH; intros; apply H; by right). lia.
Qed.

Lemma sumZ_insert {A} (f : A → Z) l i x y :
  l !! i = Some y → sumZ f (<[i := x]> l) = sumZ f l - f y + f x.
Proof.
  revert i. induction l as [|z l IH]; intros [|i]; simpl; [done..| |].
  - intros [= ->]. lia.
  - intros Hi. rewrite (IH i Hi). lia.
Qed.

#[export] Instance sumZ_perm {A} (f : A → Z) : Proper ((≡ₚ) ==> eq) (sumZ f).
Proof. intros l k H. induction H; simpl; lia. Qed.

(** The sum over the values of a finite map. *)
Definition map_sumZ {K A} `{Countable K} (f : A → Z) (m : gmap K A) : Z :=
  sumZ (λ kv, f kv.2) (map_to_list m).

Lemma map_sumZ_empty {K A} `{Countable K} (f : A → Z) :
  map_sumZ (K:=K) f ∅ = 0.
Proof. unfold map_sumZ. by rewrite map_to_list_empty. Qed.

Lemma map_sumZ_insert {K A} `{Countable K} (f : A → Z) (m : gmap K A) k x :
  m !! k = None → map_sumZ f (<[k:=x]> m) = f x + map_sumZ f m.
Proof.
  intros Hk. unfold map_sumZ. rewrite map_to_list_insert by done. done.
Qed.

Lemma map_sumZ_delete {K A} `{Countable K} (f : A → Z) (m : gmap K A) k x :
  m !! k = Some x → map_sumZ f (delete k m) = map_sumZ f m - f x.
Proof.
  intros Hk. rewrite <-(insert_delete_id m k x) at 2 by done.
  rewrite map_sumZ_insert by apply lookup_delete_eq. lia.
Qed.

Lemma map_sumZ_nonneg {K A} `{Countable K} (f : A → Z) (m : gmap K A) :
  (∀ k x, m !! k = Some x → 0 ≤ f x) → 0 ≤ map_sumZ f m.
Proof.
  intros H'. apply sumZ_nonneg. intros [k x] Hin.
  apply (H' k), elem_of_map_to_list, Hin.
Qed.

Lemma elem_of_option {A B} (f : A → B) (o : option A) y :
  y ∈ (match o with Some x => [f x] | None => [] end) ↔ ∃ x, o = Some x ∧ y = f x.
Proof. destruct o; rewrite ?list_elem_of_singleton, ?elem_of_nil; naive_solver. Qed.

Lemma elem_of_if {A} (b : bool) (l : list A) y : y ∈ (if b then l else []) ↔ b = true ∧ y ∈ l.
Proof. destruct b; rewrite ?elem_of_nil; naive_solver. Qed.

Lemma filter_all {A} (P : A → Prop) `{!∀ x, Decision (P x)} (l : list A) :
  (∀ x : A, x ∈ l → P x) → filter P l = l.
Proof.
  induction l as [|x l IH]; intros Hall; [done|].
  rewrite filter_cons_True by (apply Hall; left). f_equal. apply IH. intros y ?. apply Hall. by right.
Qed.

(** ** Stable sorting

    [slice::sort_by_key] is stable and sorts in ascending order;
    [is_sorted_by_key] is its test. *)
Section sort.
Context {A : Type} (key : A → Z).

Fixpoint insert_by_key (x : A) (l : list A) : list A :=
  match l with
  | [] => [x]
  | y :: l' => if key x <=? key y then x :: l else y :: insert_by_key x l'
  end.

Fixpoint sort_by_key (l : list A) : list A :=
  match l with
  | [] => []
  | x :: l' => insert_by_key x (sort_by_key l')
  end.

Fixpoint is_sorted_by_key (l : list A) : bool :=
  match l with
  | x :: (y :: _) as l' => (key x <=? key y) && is_sorted_by_key l'
  | _ => true
  end.

Definition sorted_by_key (l : list A) : Prop := StronglySorted (λ x y, key x ≤ key y) l.

Lemma insert_by_key_perm x l : insert_by_key x l ≡ₚ x :: l.
Proof.
  induction l as [|y l IH]; simpl; [done|]. case_match; [done|].
  rewrite IH. constructor.
Qed.

Lemma sort_by_key_perm l : sort_by_key l ≡ₚ l.
Proof.
  induction l as [|x l IH]; simpl; [done|]. by rewrite insert_by_key_perm, IH.
Qed.

Lemma insert_by_key_sorted x l : sorted_by_key l → sorted_by_key (insert_by_key x l).
Proof.
  unfold sorted_by_key. induction 1 as [|y l Hl IH Hy]; simpl.
  - repeat constructor.
  - destruct (Z.leb_spec (key x) (key y)).
    + repeat constructor; try done. eapply Forall_impl; [done|]. simpl; lia.
    + constructor; [done|]. rewrite insert_by_key_perm. constructor; [lia|done].
Qed.

Lemma sort_by_key_sorted l : sorted_by_key (sort_by_key l).
Proof.
  induction l as [|x l IH]; simpl; [constructor|by apply insert_by_key_sorted].
Qed.

Lemma insert_by_key_filter k x l :
  filter (λ y, key y = k) (insert_by_key x l) = filter (λ y, key y = k) (x :: l).
Proof.
  induction l as [|y l IH]; simpl; [done|].
  destruct (Z.leb_spec (key x) (key y)); [done|].
  rewrite !filter_cons in *. rewrite IH. repeat case_decide; naive_solver lia.
Qed.

(** Stability: elements with equal keys keep their order. *)
Lemma sort_by_key_stable k l :
  filter (λ y, key y = k) (sort_by_key l) = filter (λ y, key y = k) l.
Proof.
  induction l as [|x l IH]; simpl; [done|]. rewrite insert_by_key_filter.
  rewrite !filter_cons. by rewrite IH.
Qed.

Lemma is_sorted_by_key_spec l : is_sorted_by_key l = true ↔ sorted_by_key l.
Proof.
  unfold sorted_by_key. induction l as [|x l IH]; [split; [constructor|done]|].
  destruct l as [|y l]; [split; [repeat constructor|done]|].
  change (is_sorted_by_key (x :: y :: l))
    with ((key x <=? key y) && is_sorted_by_key (y :: l)).
  rewrite andb_true_iff, Z.leb_le, IH. split.
  - intros [Hxy Hs]. constructor; [done|].
    apply StronglySorted_inv in Hs as [_ Hs]. constructor; [done|].
    eapply Forall_impl; [done|]. simpl; lia.
  - intros [Hs Hx]%StronglySorted_inv. by apply Forall_cons in Hx as [??].
Qed.

Lemma sort_by_key_id l : sorted_by_key l → sort_by_key l = l.
Proof.
  unfold sorted_by_key. induction 1 as [|x l Hl IH Hx]; simpl; [done|].
  rewrite IH. destruct l as [|y l]; simpl; [done|].
  apply Forall_cons in Hx as [Hxy _]. by rewrite (proj2 (Z.leb_le _ _) Hxy).
Qed.
End sort.

(** ** Tactics and hints *)
Create HintDb workbench discriminated.
#[export] Hint Constants Opaque : workbench.
#[export] Hint Variables Opaque : workbench.
#[export] Hint Resolve wrap64_small dur_add_ok dur_sub_ok : workbench.

(** Splits every [match] and [if] of the goal or of a hypothesis. *)
Ltac split_matches :=
  repeat (case_match || simplify_eq/=).

(** Linear arithmetic with division and remainder by constants, powers of two
    included. *)
Ltac eval_pow2 :=
  repeat match goal with
  | |- context [2 ^ (Zpos ?p)] =>
      let v := eval vm_compute in (2 ^ (Zpos p)) in change (2 ^ (Zpos p)) with v
  | H : context [2 ^ (Zpos ?p)] |- _ =>
      let v := eval vm_compute in (2 ^ (Zpos p)) in change (2 ^ (Zpos p)) with v in H
  end.
Ltac divlia := eval_pow2; Z.to_euclidean_division_equations; lia.

(** Inverts [m ≫= f = Ok _] hypotheses. *)
Ltac inv_bind H :=
  let x := fresh "a" in let Hm := fresh H "m" in
  apply outcome_bind_Ok in H as (x & Hm & H).

Lemma foldM_inv {E A B} (P : A → Prop) (f : A → B → outcome E A) l a a' :
  P a → (∀ x b x', P x → b ∈ l → f x b = Ok x' → P x') → foldM f l a = Ok a' → P a'.
Proof.
  revert a. induction l as [|b l IH]; simpl; intros a Ha Hstep H.
  { by injection H as <-. }
  inv_bind H. eapply IH; [| |done].
  - eapply Hstep; [done| |done]. left.
  - intros x b' x' Hx Hb. apply Hstep; [done|by right].
Qed.

(** The invariant may mention the elements the fold has seen. *)
Lemma foldM_inv_prefix {E A B} (P : list B → A → Prop) (f : A → B → outcome E A) l a a' :
  P [] a → (∀ pre b post x x', l = pre ++ b :: post → P pre x → f x b = Ok x' → P (pre ++ [b]) x') →
  foldM f l a = Ok a' → P l a'.
Proof.
  intros Ha Hstep. change l with ([] ++ l) at 2.
  assert (∃ pre, l = pre ++ l ∧ pre = []) as (pre & Hl & Hpre) by by exists [].
  rewrite <-Hpre in Ha |- *. clear Hpre. revert a pre Ha Hl. generalize l at 2 3 4 as rest.
  induction rest as [|b rest IH]; simpl; intros a pre Ha Hl H.
  { injection H as <-. by rewrite app_nil_r. }
  inv_bind H. rewrite cons_middle, app_assoc in Hl |- *.
  eapply IH; [|done|done]. eapply Hstep; [|done|done]. by rewrite Hl, <-app_assoc.
Qed.

(** The same for a fold that must not panic. *)
Lemma foldM_cases {E A B} (P : list B → A → Prop) (Q : E → Prop) (f : A → B → outcome E A) l a :
  P [] a →
  (∀ pre b post x, l = pre ++ b :: post → P pre x →
    match f x b with Ok x' => P (pre ++ [b]) x' | Err e => Q e | Panic => False end) →
  match foldM f l a with Ok a' => P l a' | Err e => Q e | Panic => False end.
Proof.
  intros Ha Hstep. change l with ([] ++ l) at 2.
  assert (∃ pre, l = pre ++ l ∧ pre = []) as (pre & Hl & Hpre) by by exists [].
  rewrite <-Hpre in Ha |- *. clear Hpre. revert a pre Ha Hl. generalize l at 2 3 4 as rest.
  induction rest as [|b rest IH]; simpl; intros a pre Ha Hl; [by rewrite app_nil_r|].
  specialize (Hstep pre b rest a Hl Ha). destruct (f a b) as [x'|e|]; simpl; [|done|done].
  rewrite cons_middle, app_assoc in Hl |- *. by apply IH.
Qed.

Lemma foldM_total_prefix {E A B} (P : list B → A → Prop) (f : A → B → outcome E A) l a :
  P [] a →
  (∀ pre b post x, l = pre ++ b :: post → P pre x →
    match f x b with Ok x' => P (pre ++ [b]) x' | Err _ => True | Panic => False end) →
  match foldM f l a with Ok a' => P l a' | Err _ => True | Panic => False end.
Proof. apply (foldM_cases P (λ _, True)). Qed.
