(* ===== verification/Ip.v ===== *)
(** * IP addresses, CIDR blocks and routes

    Models [in-memory-network/src/network/ip.rs] and
    [in-memory-network/src/network/route.rs], with the parts of [std::net]
    they use: the address types, their order, their parser and the printer of
    IPv4 addresses.  An IPv4 address is its 32-bit big-endian value
    ([Ipv4Addr::to_bits]), an IPv6 address its 128-bit value. *)

From Stdlib Require Import Ascii String.
From S2P Require Import Prelude.

Inductive IpAddr : Type :=
  | V4 (bits : Z)
  | V6 (bits : Z).

#[export] Instance IpAddr_eq_dec : EqDecision IpAddr.
Proof. solve_decision. Defined.

#[export] Instance IpAddr_countable : Countable IpAddr.
Proof.
  refine (inj_countable' (λ a, match a with V4 b => inl b | V6 b => inr b end)
    (λ s, match s with inl b => V4 b | inr b => V6 b end) _).
  by intros [].
Defined.

(** The derived order of [IpAddr]: every IPv4 address is below every IPv6
    address. *)
Definition ip_le (a b : IpAddr) : bool :=
  match a, b with
  | V4 x, V4 y | V6 x, V6 y => x <=? y
  | V4 _, V6 _ => true
  | V6 _, V4 _ => false
  end.

(** ** The parser of [std::net], as used by [str::parse::<IpAddr>] *)
Module Parser.
(** [char::to_digit] for the radices 10 and 16 *)
Definition to_digit (radix : Z) (c : ascii) : option Z :=
  let n := Z.of_N (N_of_ascii c) in
  let d :=
    if (48 <=? n) && (n <=? 57) then n - 48
    else if (97 <=? n) && (n <=? 122) then n - 87
    else if (65 <=? n) && (n <=? 90) then n - 55
    else radix in
  if d <? radix then Some d else None.

Fixpoint read_digits (radix : Z) (max_digits : nat) (result : Z) (count : nat)
    (s : list ascii) : option (Z * nat * list ascii) :=
  match s with
  | [] => Some (result, count, [])
  | c :: s' =>
      match to_digit radix c with
      | None => Some (result, count, s)
      | Some d =>
          if (max_digits <? S count)%nat then None
          else read_digits radix max_digits (result * radix + d) (S count) s'
      end
  end.

Definition read_number (radix : Z) (max_digits : nat) (allow_zero_prefix : bool)
    (max : Z) (s : list ascii) : option (Z * list ascii) :=
  let has_leading_zero := match s with c :: _ => Ascii.eqb c "0" | [] => false end in
  match read_digits radix max_digits 0 0 s with
  | None => None
  | Some (result, count, rest) =>
      if (count =? 0)%nat then None
      else if negb allow_zero_prefix && has_leading_zero && (1 <? count)%nat then None
      else if result <=? max then Some (result, rest) else None
  end.

Definition read_given_char (c : ascii) (s : list ascii) : option (list ascii) :=
  match s with
  | c' :: s' => if Ascii.eqb c c' then Some s' else None
  | [] => None
  end.

Definition read_separator {A} (sep : ascii) (index : nat)
    (inner : list ascii → option (A * list ascii)) (s : list ascii)
    : option (A * list ascii) :=
  if (0 <? index)%nat then
    match read_given_char sep s with Some s' => inner s' | None => None end
  else inner s.

Definition read_octet (i : nat) : list ascii → option (Z * list ascii) :=
  read_separator "." i (read_number 10 3 false u8_max).

Definition read_ipv4_addr (s : list ascii) : option (Z * list ascii) :=
  '(a, s) ← read_octet 0 s;
  '(b, s) ← read_octet 1 s;
  '(c, s) ← read_octet 2 s;
  '(d, s) ← read_octet 3 s;
  Some (a * 2 ^ 24 + b * 2 ^ 16 + c * 2 ^ 8 + d, s).

(** [read_groups] fills up to [n] groups, starting at group [i]; it returns
    the groups read, and whether an embedded IPv4 address ended them. *)
Fixpoint read_groups (n i : nat) (s : list ascii) : list Z * bool * list ascii :=
  match n with
  | O => ([], false, s)
  | S n' =>
      let ipv4 :=
        if (0 <? n')%nat then read_separator ":" i read_ipv4_addr s else None in
      match ipv4 with
      | Some (v4, s') => ([v4 / 2 ^ 16; v4 mod 2 ^ 16], true, s')
      | None =>
          match read_separator ":" i (read_number 16 4 true (2 ^ 16 - 1)) s with
          | None => ([], false, s)
          | Some (g, s') =>
              let '(gs, v4, s'') := read_groups n' (S i) s' in (g :: gs, v4, s'')
          end
      end
  end.

Definition groups_to_bits (gs : list Z) : Z := foldl (λ acc g, acc * 2 ^ 16 + g) 0 gs.

Definition read_ipv6_addr (s : list ascii) : option (Z * list ascii) :=
  let '(head, head_ipv4, s) := read_groups 8 0 s in
  let head_size := length head in
  if (head_size =? 8)%nat then Some (groups_to_bits head, s)
  else if head_ipv4 then None
  else
    s ← read_given_char ":" s;
    s ← read_given_char ":" s;
    let '(tail, _, s) := read_groups (8 - (head_size + 1)) 0 s in
    Some (groups_to_bits
            (head ++ replicate (8 - head_size - length tail) 0 ++ tail), s).

Definition read_ip_addr (s : list ascii) : option (IpAddr * list ascii) :=
  match read_ipv4_addr s with
  | Some (a, s') => Some (V4 a, s')
  | None =>
      match read_ipv6_addr s with
      | Some (a, s') => Some (V6 a, s')
      | None => None
      end
  end.

(** [str::parse::<IpAddr>]: the whole input must be consumed. *)
Definition parse_ip (s : list ascii) : option IpAddr :=
  match read_ip_addr s with
  | Some (a, []) => Some a
  | _ => None
  end.

(** [str::parse::<u8>]: an optional [+], then decimal digits. *)
Fixpoint u8_digits (result : Z) (s : list ascii) : option Z :=
  match s with
  | [] => Some result
  | c :: s' =>
      d ← to_digit 10 c;
      if result * 10 + d <=? u8_max then u8_digits (result * 10 + d) s' else None
  end.

Definition parse_u8 (s : list ascii) : option Z :=
  match s with
  | [] => None
  | c :: s' =>
      if Ascii.eqb c "+"
      then match s' with [] => None | _ => u8_digits 0 s' end
      else u8_digits 0 s
  end.

(** [str::split(c)]; it yields at least one part. *)
Fixpoint split (sep : ascii) (s : list ascii) : list ascii * list (list ascii) :=
  match s with
  | [] => ([], [])
  | c :: s' =>
      let '(p, ps) := split sep s' in
      if Ascii.eqb c sep then ([], p :: ps) else (c :: p, ps)
  end.
End Parser.

(** ** Printing an IPv4 address *)
Definition digit (d : Z) : ascii := ascii_of_N (Z.to_N (48 + d)).

Definition show_u8 (n : Z) : list ascii :=
  if n <? 10 then [digit n]
  else if n <? 100 then [digit (n / 10); digit (n mod 10)]
  else [digit (n / 100); digit (n / 10 mod 10); digit (n mod 10)].

Definition octets (a : Z) : Z * Z * Z * Z :=
  (a / 2 ^ 24, a / 2 ^ 16 mod 2 ^ 8, a / 2 ^ 8 mod 2 ^ 8, a mod 2 ^ 8).

Definition show_ipv4 (a : Z) : list ascii :=
  let '(x, y, z, w) := octets a in
  show_u8 x ++ "."%char :: show_u8 y ++ "."%char :: show_u8 z ++ "."%char :: show_u8 w.

(** ** [ip.rs] *)
Record Ipv4Cidr : Type := mkCidr {
  address : Z;
  network_prefix : Z;
}.

Definition as_ip_addr (c : Ipv4Cidr) : IpAddr := V4 (address c).

(** [impl Display for Ipv4Cidr] *)
Definition cidr_to_string (c : Ipv4Cidr) : list ascii :=
  show_ipv4 (address c) ++ "/"%char :: show_u8 (network_prefix c).

Inductive CidrError : Type :=
  | InvalidIpAddress
  | OnlyIpv4Supported
  | InvalidNetworkPrefix
  | NetworkPrefixZero
  | NetworkPrefixTooHigh
  | TrailingCharacters.

(** [impl FromStr for Ipv4Cidr] *)
Definition cidr_from_str (s : list ascii) : outcome CidrError Ipv4Cidr :=
  let '(part, parts) := Parser.split "/" s in
  base_ip ← ok_or (Parser.parse_ip part) InvalidIpAddress;
  base_ip ← match base_ip with V4 a => Ok a | V6 _ => Err OnlyIpv4Supported end;
  network_prefix ←
    ok_or (Parser.parse_u8 (default (list_ascii_of_string "32") (head parts)))
      InvalidNetworkPrefix;
  if network_prefix =? 0 then Err NetworkPrefixZero
  else if 32 <? network_prefix then Err NetworkPrefixTooHigh
  else match tail parts with
       | _ :: _ => Err TrailingCharacters
       | [] => Ok (mkCidr base_ip network_prefix)
       end.

Definition cidr_valid (c : Ipv4Cidr) : Prop :=
  0 ≤ address c < 2 ^ 32 ∧ 1 ≤ network_prefix c ≤ 32.

(** ** [route.rs] *)
Record IpRange : Type := mkRange {
  start : IpAddr;
  end_inclusive : IpAddr;
}.

(** [x << n] on [u32], whose shift amount is taken modulo 32 *)
Definition shl32 (x n : Z) : Z := wrap32 (Z.shiftl x (n mod 32)).
(** [!x] on [u32] *)
Definition not32 (x : Z) : Z := Z.lxor x u32_max.

Definition from_cidr (addr : Ipv4Cidr) : IpRange :=
  let base_ip_bits := address addr in
  let mask := shl32 u32_max (32 - network_prefix addr) in
  mkRange (V4 (Z.land base_ip_bits mask)) (V4 (Z.lor base_ip_bits (not32 mask))).

(** [impl FromStr for IpRange] *)
Definition range_from_str (s : list ascii) : outcome CidrError IpRange :=
  addr ← cidr_from_str s; Ok (from_cidr addr).

Record Route : Type := mkRoute {
  destination : IpRange;
  next : IpAddr;
  cost : Z;
}.

Definition range_contains (r : IpRange) (ip : IpAddr) : bool :=
  ip_le (start r) ip && ip_le ip (end_inclusive r).

Definition next_hop_towards_destination (r : Route) (ip : IpAddr) : option IpAddr :=
  if range_contains (destination r) ip then Some (next r) else None.

(** ** Octets and their text *)
Definition stops_number (rest : list ascii) : Prop :=
  match rest with [] => True | c :: _ => Parser.to_digit 10 c = None end.

Lemma digit_spec d :
  0 ≤ d < 10 →
  Parser.to_digit 10 (digit d) = Some d ∧ Ascii.eqb (digit d) "0" = (d =? 0) ∧
  Ascii.eqb (digit d) "+" = false.
Proof.
  intros Hd. assert (d ∈ seqZ 0 10) as Hin by (apply elem_of_seqZ; lia).
  clear Hd. revert d Hin. apply Forall_forall, (bool_decide_unpack _). by vm_compute.
Qed.

(** The decimal digits of an octet, most significant first. *)
Lemma show_u8_cases n (P : list ascii → Prop) :
  0 ≤ n < 256 →
  (∀ d, n = d → 0 ≤ d < 10 → P [digit d]) →
  (∀ a b, n = 10 * a + b → 1 ≤ a < 10 → 0 ≤ b < 10 → P [digit a; digit b]) →
  (∀ a b c, n = 100 * a + 10 * b + c → 1 ≤ a < 10 → 0 ≤ b < 10 → 0 ≤ c < 10 →
     P [digit a; digit b; digit c]) →
  P (show_u8 n).
Proof.
  intros Hn H1 H2 H3. unfold show_u8.
  destruct (Z.ltb_spec n 10); [apply H1; lia|].
  destruct (Z.ltb_spec n 100); [apply H2; divlia|].
  apply H3; divlia.
Qed.

Ltac use_digit :=
  repeat match goal with
  | |- context [digit ?d] =>
      let H1 := fresh in let H2 := fresh in let H3 := fresh in
      destruct (digit_spec d) as (H1 & H2 & H3); [lia|];
      generalize dependent (digit d); intros
  end.

Lemma read_number_show n rest :
  0 ≤ n < 256 → stops_number rest →
  Parser.read_number 10 3 false u8_max (show_u8 n ++ rest) = Some (n, rest).
Proof.
  intros Hn Hrest.
  assert (∀ k r, Parser.read_digits 10 3 r k rest = Some (r, k, rest)) as Hstop.
  { intros. destruct rest as [|c rest]; simpl in *; [done|by rewrite Hrest]. }
  assert ((n <=? u8_max) = true) as Hmax by (apply Z.leb_le; unfold u8_max; lia).
  apply show_u8_cases; [done|intros d Hd ?|intros a b Hd ??|intros a b c Hd ???];
    use_digit; unfold Parser.read_number; simpl; repeat match goal with H : Parser.to_digit 10 _ = Some _ |- _ =>
      rewrite H; simpl; clear H end; rewrite Hstop; simpl;
    repeat match goal with H : (_ =? "0")%char = _ |- _ => rewrite H; clear H end.
  - rewrite andb_false_r. replace (0 * 10 + d) with n by lia. by rewrite Hmax.
  - destruct (Z.eqb_spec a 0); [lia|]. simpl.
    replace ((0 * 10 + a) * 10 + b) with n by lia. by rewrite Hmax.
  - destruct (Z.eqb_spec a 0); [lia|]. simpl.
    replace (((0 * 10 + a) * 10 + b) * 10 + c) with n by lia. by rewrite Hmax.
Qed.

Lemma parse_u8_show n : 0 ≤ n < 256 → Parser.parse_u8 (show_u8 n) = Some n.
Proof.
  intros Hn.
  apply show_u8_cases; [done|..]; intros; use_digit; simpl;
    repeat match goal with H : (_ =? "+")%char = _ |- _ => rewrite H; clear H end; simpl;
    repeat match goal with H : Parser.to_digit 10 _ = Some _ |- _ => rewrite H; clear H end;
    repeat (simpl; match goal with |- context [?x <=? u8_max] =>
      destruct (Z.leb_spec x u8_max); [|unfold u8_max in *; lia] end);
    f_equal; lia.
Qed.

Lemma octets_range a x y z w :
  0 ≤ a < 2 ^ 32 → octets a = (x, y, z, w) →
  (0 ≤ x < 256 ∧ 0 ≤ y < 256 ∧ 0 ≤ z < 256 ∧ 0 ≤ w < 256) ∧
  a = x * 2 ^ 24 + y * 2 ^ 16 + z * 2 ^ 8 + w.
Proof. intros Ha [= <- <- <- <-]. divlia. Qed.

Lemma parse_ip_show a : 0 ≤ a < 2 ^ 32 → Parser.parse_ip (show_ipv4 a) = Some (V4 a).
Proof.
  intros Ha. unfold Parser.parse_ip, Parser.read_ip_addr, show_ipv4.
  destruct (octets a) as [[[x y] z] w] eqn:Ho.
  apply octets_range in Ho as ((?&?&?&?)&->); [|done].
  unfold Parser.read_ipv4_addr, Parser.read_octet, Parser.read_separator; simpl.
  repeat (rewrite read_number_show by (done || by vm_compute); simpl).
  by rewrite <-(app_nil_r (show_u8 w)), read_number_show.
Qed.

Lemma split_no_sep sep p :
  sep ∉ p → Parser.split sep p = (p, []).
Proof.
  induction p as [|c p IH]; simpl; [done|]. intros [Hc Hp]%not_elem_of_cons.
  rewrite IH by done. destruct (Ascii.eqb_spec c sep); congruence.
Qed.

Lemma split_app sep p q :
  sep ∉ p →
  Parser.split sep (p ++ sep :: q) =
    (p, let '(q1, qs) := Parser.split sep q in q1 :: qs).
Proof.
  induction p as [|c p IH]; simpl.
  - intros _. destruct (Parser.split sep q). by rewrite Ascii.eqb_refl.
  - intros [Hc Hp]%not_elem_of_cons. rewrite IH by done.
    destruct (Parser.split sep q). destruct (Ascii.eqb_spec c sep); congruence.
Qed.

Lemma slash_not_digit d : 0 ≤ d < 10 → "/"%char ≠ digit d.
Proof. intros Hd%digit_spec Heq. rewrite <-Heq in Hd. by destruct Hd. Qed.

Lemma slash_notin_show_u8 n : 0 ≤ n < 256 → "/"%char ∉ show_u8 n.
Proof.
  intros. apply show_u8_cases; [done|..]; intros;
    repeat (apply not_elem_of_cons; split; [apply slash_not_digit; lia|]);
    apply not_elem_of_nil.
Qed.

Lemma slash_notin_show_ipv4 a : 0 ≤ a < 2 ^ 32 → "/"%char ∉ show_ipv4 a.
Proof.
  intros Ha. unfold show_ipv4.
  destruct (octets a) as [[[x y] z] w] eqn:Ho.
  apply octets_range in Ho as ((?&?&?&?)&->); [|done].
  rewrite !not_elem_of_app, !not_elem_of_cons, !not_elem_of_app, !not_elem_of_cons,
    !not_elem_of_app, !not_elem_of_cons.
  split_and!; by (apply slash_notin_show_u8 || done).
Qed.

(** C23: Printing a CIDR block ([Display]) and parsing it back ([FromStr])
    gives the block itself, for every address and every prefix length from 1
    to 32. *)
Theorem cidr_print_parse (c : Ipv4Cidr) :
  cidr_valid c → cidr_from_str (cidr_to_string c) = Ok c.
Proof.
  destruct c as [a p]. intros [Ha Hp]; simpl in *.
  unfold cidr_from_str, cidr_to_string; simpl.
  rewrite split_app by (by apply slash_notin_show_ipv4).
  rewrite split_no_sep by (apply slash_notin_show_u8; lia). simpl.
  rewrite parse_ip_show by done. simpl. rewrite parse_u8_show by lia. simpl.
  destruct (Z.eqb_spec p 0); [lia|]. by destruct (Z.ltb_spec 32 p); [lia|].
Qed.

Lemma cidr_print_parse_witness :
  cidr_from_str (cidr_to_string (mkCidr 167772283 24)) = Ok (mkCidr 167772283 24).
Proof. apply cidr_print_parse. split; simpl; lia. Defined.

Lemma to_digit_nonneg r c d : 0 ≤ r → Parser.to_digit r c = Some d → 0 ≤ d.
Proof.
  intros Hr. unfold Parser.to_digit.
  destruct (Z.leb_spec 48 (Z.of_N (N_of_ascii c))), (Z.leb_spec 97 (Z.of_N (N_of_ascii c))),
    (Z.leb_spec 65 (Z.of_N (N_of_ascii c)));
    simpl; repeat case_match; intros [= <-]; lia.
Qed.

Lemma read_digits_range m r k s r' k' s' :
  0 ≤ r → Parser.read_digits 10 m r k s = Some (r', k', s') → 0 ≤ r'.
Proof.
  revert r k. induction s as [|c s IH]; simpl; intros r k Hr H; [by simplify_eq|].
  destruct (Parser.to_digit 10 c) as [d|] eqn:Hd; [|by simplify_eq].
  case_match; [done|]. eapply IH, H.
  apply to_digit_nonneg in Hd; lia.
Qed.

Lemma read_octet_range i s n s' : Parser.read_octet i s = Some (n, s') → 0 ≤ n < 256.
Proof.
  assert (∀ s, Parser.read_number 10 3 false u8_max s = Some (n, s') → 0 ≤ n < 256) as Hr.
  { clear. intros s. unfold Parser.read_number, u8_max.
    destruct (Parser.read_digits _ _ _ _ _) as [[[r k] s'']|] eqn:Hd; [|done].
    apply read_digits_range in Hd; [|lia].
    repeat case_match; intros [=]; subst; rewrite Z.leb_le in *; lia. }
  unfold Parser.read_octet, Parser.read_separator. repeat case_match; naive_solver.
Qed.

Lemma read_ipv4_addr_range s a s' :
  Parser.read_ipv4_addr s = Some (a, s') → 0 ≤ a < 2 ^ 32.
Proof.
  unfold Parser.read_ipv4_addr.
  destruct (Parser.read_octet 0 s) as [[x s1]|] eqn:H1; simpl; [|done].
  destruct (Parser.read_octet 1 s1) as [[y s2]|] eqn:H2; simpl; [|done].
  destruct (Parser.read_octet 2 s2) as [[z s3]|] eqn:H3; simpl; [|done].
  destruct (Parser.read_octet 3 s3) as [[w s4]|] eqn:H4; simpl; [|done].
  apply read_octet_range in H1, H2, H3, H4. intros [= <- <-]. lia.
Qed.

Lemma parse_ip_range s a : Parser.parse_ip s = Some (V4 a) → 0 ≤ a < 2 ^ 32.
Proof.
  unfold Parser.parse_ip, Parser.read_ip_addr.
  destruct (Parser.read_ipv4_addr s) as [[b s']|] eqn:Hs.
  - apply read_ipv4_addr_range in Hs. destruct s'; [|done]. by intros [= <-].
  - destruct (Parser.read_ipv6_addr s) as [[b [|]]|]; done.
Qed.

Lemma parse_u8_nonneg s n : Parser.parse_u8 s = Some n → 0 ≤ n.
Proof.
  assert (∀ s r, 0 ≤ r → Parser.u8_digits r s = Some n → 0 ≤ n) as Hd.
  { clear. induction s as [|c s IH]; simpl; intros r Hr H; [by simplify_eq|].
    destruct (Parser.to_digit 10 c) as [d|] eqn:Hd; [|done]. simpl in H.
    case_match; [|done]. eapply IH, H.
    apply to_digit_nonneg in Hd; lia. }
  unfold Parser.parse_u8. repeat case_match; intros H'; try done; eapply Hd, H'; lia.
Qed.

(** Whatever the parser accepts is a valid block: the prefix length never makes
    the shift of [from_cidr] overflow. *)
Lemma cidr_from_str_valid s c : cidr_from_str s = Ok c → cidr_valid c.
Proof.
  unfold cidr_from_str, ok_or. destruct (Parser.split "/" s) as [part parts].
  destruct (Parser.parse_ip part) as [[a|a]|] eqn:Hip; [|done..]. simpl.
  destruct (Parser.parse_u8 _) as [n|] eqn:Hn; [|done]. simpl.
  apply parse_ip_range in Hip. apply parse_u8_nonneg in Hn.
  destruct (Z.eqb_spec n 0); [done|]. destruct (Z.ltb_spec 32 n); [done|].
  case_match; intros [= <-]. split; cbn [address network_prefix]; lia.
Qed.

(** ** The block denoted by a CIDR *)
Lemma shl32_ones k : 0 ≤ k < 32 → shl32 u32_max k = 2 ^ 32 - 2 ^ k.
Proof.
  intros Hk. unfold shl32, wrap32, u32_max.
  rewrite (Z.mod_small k 32) by lia. rewrite Z.shiftl_mul_pow2 by lia.
  replace ((2 ^ 32 - 1) * 2 ^ k) with ((2 ^ 32 - 2 ^ k) + (2 ^ k - 1) * 2 ^ 32) by ring.
  rewrite Z_mod_plus_full. apply Z.mod_small.
  pose proof (Z.pow_pos_nonneg 2 k). assert (2 ^ k ≤ 2 ^ 31) by (apply Z.pow_le_mono_r; lia).
  lia.
Qed.

Lemma mask_testbit k i :
  0 ≤ k < 32 → 0 ≤ i → Z.testbit (2 ^ 32 - 2 ^ k) i = (k <=? i) && (i <? 32).
Proof.
  intros Hk Hi.
  replace (2 ^ 32 - 2 ^ k) with (Z.shiftl (Z.ones (32 - k)) k).
  - rewrite Z.shiftl_spec by lia. destruct (Z.leb_spec k i); simpl.
    + rewrite Z.testbit_ones_nonneg by lia.
      destruct (Z.ltb_spec (i - k) (32 - k)), (Z.ltb_spec i 32); lia.
    + by rewrite Z.testbit_neg_r by lia.
  - rewrite Z.shiftl_mul_pow2, Z.ones_equiv by lia.
    replace (2 ^ 32) with (2 ^ (32 - k) * 2 ^ k) by (rewrite <-Z.pow_add_r by lia; f_equal; lia).
    lia.
Qed.

Lemma land_mask a k :
  0 ≤ a < 2 ^ 32 → 0 ≤ k < 32 → Z.land a (2 ^ 32 - 2 ^ k) = a / 2 ^ k * 2 ^ k.
Proof.
  intros Ha Hk. rewrite <-Z.shiftr_div_pow2, <-Z.shiftl_mul_pow2 by lia.
  apply Z.bits_inj'. intros i Hi. rewrite Z.land_spec, mask_testbit by lia.
  rewrite Z.shiftl_spec by lia. destruct (Z.leb_spec k i); simpl.
  - rewrite Z.shiftr_spec by lia. rewrite Z.sub_add.
    destruct (Z.ltb_spec i 32); rewrite ?andb_true_r, ?andb_false_r; [done|].
    destruct (decide (a = 0)) as [->|]; [by rewrite Z.bits_0|].
    symmetry. apply Z.bits_above_log2; [lia|].
    apply Z.log2_lt_pow2; [lia|]. apply Z.lt_le_trans with (2 ^ 32); [lia|].
    by apply Z.pow_le_mono_r.
  - rewrite andb_false_r. by rewrite Z.testbit_neg_r by lia.
Qed.

Lemma lor_not_mask a k :
  0 ≤ a < 2 ^ 32 → 0 ≤ k < 32 →
  Z.lor a (not32 (2 ^ 32 - 2 ^ k)) = a / 2 ^ k * 2 ^ k + (2 ^ k - 1).
Proof.
  intros Ha Hk.
  assert (not32 (2 ^ 32 - 2 ^ k) = Z.ones k) as ->.
  { unfold not32, u32_max. apply Z.bits_inj'. intros i Hi.
    rewrite Z.lxor_spec, mask_testbit by lia.
    replace (2 ^ 32 - 1) with (Z.ones 32) by reflexivity.
    rewrite !Z.testbit_ones_nonneg by lia.
    destruct (Z.leb_spec k i), (Z.ltb_spec i 32), (Z.ltb_spec i k); simpl; lia. }
  assert (Z.ones k = 2 ^ k - 1) as Hones by (rewrite Z.ones_equiv; lia).
  rewrite <-Hones, <-Z.shiftr_div_pow2, <-Z.shiftl_mul_pow2 by lia.
  set (h := Z.shiftl (Z.shiftr a k) k).
  assert (∀ i, 0 ≤ i → Z.testbit h i = (k <=? i) && Z.testbit a i) as Hbit.
  { intros i Hi. unfold h. rewrite Z.shiftl_spec by lia. destruct (Z.leb_spec k i); simpl.
    - rewrite Z.shiftr_spec by lia. by rewrite Z.sub_add.
    - by rewrite Z.testbit_neg_r by lia. }
  rewrite <-(Z.add_lor_land h).
  assert (Z.land h (Z.ones k) = 0) as ->.
  { apply Z.bits_inj'. intros i Hi. rewrite Z.land_spec, Hbit, Z.bits_0 by done.
    rewrite Z.testbit_ones_nonneg by lia.
    destruct (Z.leb_spec k i), (Z.ltb_spec i k); simpl; [lia|..|lia];
      by rewrite ?andb_false_r. }
  rewrite Z.add_0_r. apply Z.bits_inj'. intros i Hi.
  rewrite !Z.lor_spec, Hbit by done. rewrite Z.testbit_ones_nonneg by lia.
  destruct (Z.leb_spec k i), (Z.ltb_spec i k); simpl; [lia|done| |lia];
    by rewrite ?orb_true_r.
Qed.

Lemma div_block a b k :
  0 ≤ k → (a / 2 ^ k * 2 ^ k ≤ b ≤ a / 2 ^ k * 2 ^ k + (2 ^ k - 1)) ↔ b / 2 ^ k = a / 2 ^ k.
Proof.
  intros Hk. pose proof (Z.pow_pos_nonneg 2 k). split.
  - intros [Hlo Hhi]. symmetry. apply Z.div_unique with (b - a / 2 ^ k * 2 ^ k); lia.
  - intros <-. pose proof (Z.div_mod b (2 ^ k)). pose proof (Z.mod_pos_bound b (2 ^ k)). lia.
Qed.

(** A route whose destination was built from a CIDR block with [from_cidr]
    offers its next hop exactly to the IPv4 addresses that share the block's
    network prefix; no IPv6 address matches. *)
Theorem next_hop_of_cidr (c : Ipv4Cidr) (nxt : IpAddr) (n : Z) (ip : IpAddr) :
  cidr_valid c →
  next_hop_towards_destination (mkRoute (from_cidr c) nxt n) ip =
    match ip with
    | V4 a =>
        if a / 2 ^ (32 - network_prefix c) =? address c / 2 ^ (32 - network_prefix c)
        then Some nxt else None
    | V6 _ => None
    end.
Proof.
  destruct c as [a p]. intros [Ha Hp]; simpl in *.
  unfold next_hop_towards_destination, range_contains, from_cidr; simpl.
  rewrite shl32_ones, land_mask, lor_not_mask by lia.
  destruct ip as [b|b]; simpl; [|done].
  pose proof (div_block a b (32 - p) ltac:(lia)) as Hb.
  destruct (Z.leb_spec (a / 2 ^ (32 - p) * 2 ^ (32 - p)) b),
    (Z.leb_spec b (a / 2 ^ (32 - p) * 2 ^ (32 - p) + (2 ^ (32 - p) - 1))),
    (Z.eqb_spec (b / 2 ^ (32 - p)) (a / 2 ^ (32 - p))); simpl; try done; lia.
Qed.

Lemma next_hop_of_cidr_witness :
  next_hop_towards_destination (mkRoute (from_cidr (mkCidr 167772283 24)) (V4 1) 0)
    (V4 167772161) = Some (V4 1).
Proof.
  rewrite (next_hop_of_cidr (mkCidr 167772283 24) (V4 1) 0 (V4 167772161));
    [reflexivity|split; simpl; lia].
Defined.
