(* ===== verification/Float.v ===== *)
(** * The [f64] operations the workbench uses

    An [f64] is a [spec_float] of the Standard Library with the binary64
    parameters (precision 53, emax 1024), rounded to nearest, ties to even.
    The definitions compute. *)

From Stdlib Require Import SpecFloat.
From S2P Require Import Prelude.

Definition prec : Z := 53.
Definition emax : Z := 1024.

Abbreviation f64 := spec_float.

Definition f64_zero : f64 := S754_zero false.

(** [x as f64] for an unsigned integer *)
Definition f64_of_Z (x : Z) : f64 := binary_normalize prec emax x 0 false.

Definition f64_div : f64 → f64 → f64 := SFdiv prec emax.
Definition f64_mul : f64 → f64 → f64 := SFmul prec emax.
Definition f64_add : f64 → f64 → f64 := SFadd prec emax.

(** [x < y]; false when either side is a NaN *)
Definition f64_lt : f64 → f64 → bool := SFltb.

(** [⌈m · 2^e⌉] *)
Definition ceil_pow (m e : Z) : Z :=
  if 0 <=? e then m * 2 ^ e else - ((- m) / 2 ^ (- e)).

(** [x.ceil()] *)
Definition f64_ceil (x : f64) : f64 :=
  match x with
  | S754_finite s m e =>
      if 0 <=? e then x
      else binary_normalize prec emax (ceil_pow (cond_Zopp s (Zpos m)) e) 0 s
  | _ => x
  end.

(** [x as u64]: truncation towards zero that saturates at both ends; a NaN
    becomes 0. *)
Definition f64_to_u64 (x : f64) : Z :=
  match x with
  | S754_zero _ | S754_nan => 0
  | S754_infinity s => if s then 0 else u64_max
  | S754_finite s m e =>
      if s then 0
      else Z.min (if 0 <=? e then Zpos m * 2 ^ e else Zpos m / 2 ^ (- e)) u64_max
  end.

Lemma f64_to_u64_range x : 0 ≤ f64_to_u64 x ≤ u64_max.
Proof.
  assert (0 ≤ u64_max) by by vm_compute.
  destruct x as [s|s| |s m e]; simpl; try lia.
  - destruct s; lia.
  - destruct s; [lia|]. split; [|lia]. apply Z.min_glb; [|done].
    destruct (Z.leb_spec 0 e).
    + pose proof (Z.pow_nonneg 2 e). lia.
    + apply Z.div_pos; [lia|]. apply Z.pow_pos_nonneg; lia.
Qed.
