(* ===== verification/FloatBound.v ===== *)
(** * How exact the arithmetic of [f64] is

    The bounds the pacing of links relies on: integers below [2^53] are
    represented exactly, and the quotient and the product of positive numbers
    are within one part in [2^52] of the exact ones.  Numbers are compared as
    integers: [scale e] is [2^e], times a power of two that makes it one. *)

From Stdlib Require Import SpecFloat.
From S2P Require Import Prelude Float.

(** [2^e], scaled *)
Definition scale (e : Z) : Z := 2 ^ (e + 2000).

Lemma scale_pos e : -2000 ≤ e → 0 < scale e.
Proof. intros He. unfold scale. apply Z.pow_pos_nonneg; lia. Qed.

Lemma scale_add e n : -2000 ≤ e → 0 ≤ n → scale (e + n) = scale e * 2 ^ n.
Proof. intros He Hn. unfold scale. rewrite <-Z.pow_add_r by lia. f_equal. lia. Qed.

Lemma scale_mul a b : -2000 ≤ a → -2000 ≤ b → -2000 ≤ a + b → scale (a + b) * scale 0 = scale a * scale b.
Proof. intros Ha Hb Hab. unfold scale. rewrite <-!Z.pow_add_r by lia. f_equal. lia. Qed.

#[global] Opaque scale.

(** ** Digits and shifts *)
Lemma digits_bounds p : 2 ^ (Zpos (digits2_pos p) - 1) ≤ Zpos p < 2 ^ Zpos (digits2_pos p).
Proof.
  induction p as [p IH|p IH|]; simpl digits2_pos; [..|by vm_compute].
  all: rewrite Pos2Z.inj_succ; replace (Z.succ (Zpos (digits2_pos p)) - 1) with (Z.succ (Zpos (digits2_pos p) - 1)) by lia;
    rewrite !Z.pow_succ_r by lia; lia.
Qed.

Lemma digits_unique m d : 0 < m → 0 < d → 2 ^ (d - 1) ≤ m < 2 ^ d → Zdigits2 m = d.
Proof.
  intros Hm Hd [Hlo Hhi]. destruct m as [|p|p]; [lia| |lia]. simpl. pose proof (digits_bounds p) as [Dlo Dhi].
  assert (d - 1 < Zpos (digits2_pos p)) by (apply (Z.pow_lt_mono_r_iff 2); lia).
  assert (Zpos (digits2_pos p) - 1 < d) by (apply (Z.pow_lt_mono_r_iff 2); lia). lia.
Qed.

Lemma shr_1_m mrs : 0 ≤ shr_m mrs → shr_m (shr_1 mrs) = shr_m mrs / 2.
Proof.
  destruct mrs as [m r s]. simpl. intros Hm. destruct m as [|p|p]; [done| |lia].
  destruct p as [p|p|]; simpl; [..|done].
  - rewrite Pos2Z.inj_xI, Z.add_comm, Z.mul_comm, Z.div_add by lia. done.
  - rewrite Pos2Z.inj_xO, Z.mul_comm, Z.div_mul by lia. done.
Qed.

Lemma iter_shr_m p mrs : 0 ≤ shr_m mrs → shr_m (SpecFloat.iter_pos shr_1 p mrs) = shr_m mrs / 2 ^ Zpos p.
Proof.
  revert mrs. induction p as [p IH|p IH|]; intros mrs Hm; simpl SpecFloat.iter_pos.
  - assert (0 ≤ shr_m (shr_1 mrs)) by (rewrite shr_1_m by done; apply Z.div_pos; lia).
    assert (0 ≤ shr_m (SpecFloat.iter_pos shr_1 p (shr_1 mrs)))
      by (rewrite IH by done; apply Z.div_pos; [done|apply Z.pow_pos_nonneg; lia]).
    rewrite !IH, shr_1_m by done. rewrite !Z.div_div by (try apply Z.pow_nonzero; try apply Z.pow_pos_nonneg; lia).
    f_equal. rewrite Pos2Z.inj_xI. replace (2 * Zpos p + 1) with (1 + Zpos p + Zpos p) by lia.
    rewrite !Z.pow_add_r, ?Z.pow_1_r by lia. ring.
  - assert (0 ≤ shr_m (SpecFloat.iter_pos shr_1 p mrs))
      by (rewrite IH by done; apply Z.div_pos; [done|apply Z.pow_pos_nonneg; lia]).
    rewrite !IH by done. rewrite !Z.div_div by (try apply Z.pow_nonzero; try apply Z.pow_pos_nonneg; lia).
    f_equal. replace (Zpos p~0) with (Zpos p + Zpos p) by lia. by rewrite Z.pow_add_r by lia.
  - by rewrite shr_1_m.
Qed.

(** A mantissa of at least 53 digits is cut to 53 digits. *)
Lemma shr_fexp_normal m e l : 2 ^ 52 ≤ m → -1074 ≤ e →
  ∃ mrs, shr_fexp prec emax m e l = (mrs, e + (Zdigits2 m - 53)) ∧ 53 ≤ Zdigits2 m ∧
    shr_m mrs = m / 2 ^ (Zdigits2 m - 53) ∧ (Zdigits2 m = 53 → mrs = shr_record_of_loc m l).
Proof.
  intros Hm He. destruct m as [|p|p]; [lia| |lia]. unfold shr_fexp, fexp, emin, prec, emax. simpl Zdigits2.
  set (d := Zpos (digits2_pos p)). pose proof (digits_bounds p) as [Dlo Dhi]. fold d in Dlo, Dhi.
  assert (52 < d) as Hd by (apply (Z.pow_lt_mono_r_iff 2); lia).
  replace (Z.max (d + e - 53) (3 - 1024 - 53) - e) with (d - 53) by lia.
  assert (shr_m (shr_record_of_loc (Zpos p) l) = Zpos p) as Hrec by by destruct l as [|[]].
  destruct (d - 53) as [|n|n] eqn:Hn; [..|lia].
  - eexists. split; [unfold shr; by rewrite Z.add_0_r|]. rewrite Hrec, Z.pow_0_r, Z.div_1_r. split_and!; [lia|done|done].
  - eexists. split; [reflexivity|]. rewrite iter_shr_m, Hrec by (rewrite Hrec; lia). split_and!; [lia|done|lia].
Qed.

Lemma round_even_cases m l : round_nearest_even m l = m ∨ round_nearest_even m l = m + 1.
Proof. destruct l as [|[]]; simpl; auto. destruct (Z.even m); auto. Qed.

(** The parts of a number in the normal range. *)
Definition normal (m e : Z) : Prop := 2 ^ 52 ≤ m < 2 ^ 53 ∧ -1074 ≤ e ≤ 971.

(** ** Rounding *)

(** The mantissa [mx] is the integer part of [n / d]; the result is within one part in [2^52] of
    [n / d * 2^ex]. *)
Lemma round_bounds n d mx ex l : 0 < d → mx = n / d → 2 ^ 52 ≤ mx → -1074 ≤ ex → Zdigits2 mx + ex ≤ 1000 →
  ∃ p e, binary_round_aux prec emax false mx ex l = S754_finite false p e ∧ normal (Zpos p) e ∧
    ex ≤ e ≤ ex + (Zdigits2 mx - 52) ∧
    n * scale ex * (2 ^ 52 - 1) ≤ Zpos p * scale e * d * 2 ^ 52 ≤ n * scale ex * (2 ^ 52 + 1).
Proof.
  intros Hd Hmx Hm He Hov. destruct (shr_fexp_normal mx ex l Hm He) as (mrs & Hs & H53 & Hmr & _).
  set (k := Zdigits2 mx - 53) in *. set (m1 := shr_m mrs) in *.
  assert (2 ^ 52 ≤ m1 < 2 ^ 53) as Hm1.
  { rewrite Hmr. destruct mx as [|p|p]; [lia| |lia]. pose proof (digits_bounds p) as [Dlo Dhi]. simpl Zdigits2 in *.
    split; [apply Z.div_le_lower_bound|apply Z.div_lt_upper_bound]; try (apply Z.pow_pos_nonneg; lia);
      rewrite <-Z.pow_add_r by lia; (eapply Z.le_trans || eapply Z.lt_le_trans); try eassumption;
      apply Z.pow_le_mono_r; lia. }
  assert (0 < 2 ^ k) as Hk by (apply Z.pow_pos_nonneg; lia).
  assert (m1 * 2 ^ k * d ≤ n < (m1 + 1) * 2 ^ k * d) as Hn.
  { rewrite Hmr, Hmx, Z.div_div by lia. set (q := n / (d * 2 ^ k)).
    assert (0 < d * 2 ^ k) as Hdk by lia.
    pose proof (Z.mul_div_le n (d * 2 ^ k) Hdk). pose proof (Z.mul_succ_div_gt n (d * 2 ^ k) Hdk). fold q in H, H0. lia. }
  assert (∃ p e, binary_round_aux prec emax false mx ex l = S754_finite false p e ∧ normal (Zpos p) e ∧
    ex + k ≤ e ≤ ex + k + 1 ∧
    (Zpos p * scale e = m1 * scale (ex + k) ∨ Zpos p * scale e = (m1 + 1) * scale (ex + k))) as (p & e & Hr & Hno & Hle & Hv).
  { unfold binary_round_aux. rewrite Hs. fold m1. set (m2 := round_nearest_even m1 _).
    assert (m2 = m1 ∨ m2 = m1 + 1) as Hm2 by apply round_even_cases.
    destruct (shr_fexp_normal m2 (ex + k) loc_Exact) as (mrs2 & Hs2 & H53' & Hmr2 & _); [lia..|]. rewrite Hs2.
    destruct (Z.eq_dec m2 (2 ^ 53)) as [Hb|Hb].
    - assert (Zdigits2 m2 = 54) as Hd2 by (apply digits_unique; rewrite ?Hb; by vm_compute).
      rewrite Hd2 in *. assert (shr_m mrs2 = 2 ^ 52) as Hx by (rewrite Hmr2, Hb; by vm_compute).
      rewrite Hx. change (2 ^ 52) with (Zpos 4503599627370496).
      rewrite (proj2 (Z.leb_le _ _)) by (unfold prec, emax; lia).
      exists 4503599627370496%positive, (ex + k + (54 - 53)). split; [done|]. split; [by split; lia|]. split; [lia|].
      right. replace (m1 + 1) with (2 ^ 53) by lia. rewrite scale_add by lia.
      change (2 ^ (54 - 53)) with 2. change (2 ^ 53) with (4503599627370496 * 2). lia.
    - assert (Zdigits2 m2 = 53) as Hd2 by (apply digits_unique; [lia..|]; change (53 - 1) with 52; lia).
      rewrite Hd2 in *. change (2 ^ (53 - 53)) with 1 in Hmr2. rewrite Z.div_1_r in Hmr2. rewrite Hmr2.
      destruct m2 as [|p2|p2] eqn:E2; [lia| |lia]. rewrite (proj2 (Z.leb_le _ _)) by (unfold prec, emax; lia).
      exists p2, (ex + k + (53 - 53)). replace (ex + k + (53 - 53)) with (ex + k) by lia.
      split; [done|]. split; [by split; lia|]. split; [lia|]. destruct Hm2 as [<-|<-]; auto. }
  exists p, e. split; [done|]. split; [done|]. split; [unfold k in *; lia|].
  rewrite scale_add in Hv by lia. pose proof (scale_pos ex ltac:(lia)) as Hsc.
  assert (n * (2 ^ 52 - 1) ≤ m1 * 2 ^ k * d * 2 ^ 52) as Hlo.
  { assert (n * (2 ^ 52 - 1) ≤ (m1 + 1) * 2 ^ k * d * (2 ^ 52 - 1)) by (apply Z.mul_le_mono_nonneg_r; lia).
    enough ((m1 + 1) * (2 ^ 52 - 1) * (2 ^ k * d) ≤ m1 * 2 ^ 52 * (2 ^ k * d)) by lia.
    apply Z.mul_le_mono_nonneg_r; lia. }
  assert ((m1 + 1) * 2 ^ k * d * 2 ^ 52 ≤ n * (2 ^ 52 + 1)) as Hhi.
  { enough (2 ^ 52 * (2 ^ k * d) ≤ m1 * (2 ^ k * d)) by lia. apply Z.mul_le_mono_nonneg_r; lia. }
  assert (m1 * 2 ^ k * d * 2 ^ 52 ≤ (m1 + 1) * 2 ^ k * d * 2 ^ 52) as Hmid.
  { enough (0 ≤ 2 ^ k * d * 2 ^ 52) by lia. lia. }
  apply (Z.mul_le_mono_nonneg_r _ _ (scale ex)) in Hlo, Hmid, Hhi; [|lia..].
  destruct Hv as [-> | ->]; lia.
Qed.

Lemma digits_le m k : 0 < m < 2 ^ k → 0 ≤ k → Zdigits2 m ≤ k.
Proof.
  intros [Hm Hk] Hk0. destruct m as [|p|p]; [lia| |lia]. simpl. pose proof (digits_bounds p) as [Dlo _].
  enough (Zpos (digits2_pos p) - 1 < k) by lia. apply (Z.pow_lt_mono_r_iff 2); lia.
Qed.

(** The quotient of two numbers. *)
Lemma div_bounds m1 e1 m2 e2 : normal (Zpos m1) e1 → normal (Zpos m2) e2 → -900 ≤ e1 - e2 ≤ 900 →
  ∃ p e, f64_div (S754_finite false m1 e1) (S754_finite false m2 e2) = S754_finite false p e ∧ normal (Zpos p) e ∧
    e1 - e2 - 53 ≤ e ≤ e1 - e2 - 50 ∧
    Zpos m1 * scale (e1 - e2) * (2 ^ 52 - 1) ≤ Zpos p * scale e * Zpos m2 * 2 ^ 52 ≤
      Zpos m1 * scale (e1 - e2) * (2 ^ 52 + 1).
Proof.
  intros [Hm1 He1] [Hm2 He2] He. unfold f64_div, SFdiv, SFdiv_core_binary.
  assert (Zdigits2 (Zpos m1) = 53 ∧ Zdigits2 (Zpos m2) = 53) as [-> ->]
    by (split; apply digits_unique; change (53 - 1) with 52; lia).
  replace (fexp prec emax (53 + e1 - (53 + e2))) with (e1 - e2 - 53) by (unfold fexp, emin, prec, emax; lia).
  rewrite Z.min_l by lia. replace (e1 - e2 - (e1 - e2 - 53)) with 53 by lia.
  rewrite Z.shiftl_mul_pow2 by lia.
  rewrite (surjective_pairing (Z.div_eucl (Zpos m1 * 2 ^ 53) (Zpos m2))).
  change (fst (Z.div_eucl (Zpos m1 * 2 ^ 53) (Zpos m2))) with (Zpos m1 * 2 ^ 53 / Zpos m2).
  set (q := Zpos m1 * 2 ^ 53 / Zpos m2).
  assert (2 ^ 52 ≤ q < 2 ^ 55) as Hq.
  { split; [apply Z.div_le_lower_bound|apply Z.div_lt_upper_bound]; lia. }
  pose proof (digits_le q 55 ltac:(lia) ltac:(lia)) as Hdq.
  destruct (round_bounds (Zpos m1 * 2 ^ 53) (Zpos m2) q (e1 - e2 - 53)
    (new_location (Zpos m2) (snd (Z.div_eucl (Zpos m1 * 2 ^ 53) (Zpos m2))))) as
    (p & e & Hr & Hno & Hle & Hb); [lia|done|lia..|].
  exists p, e. split; [exact Hr|]. split; [done|]. split; [lia|].
  replace (Zpos m1 * scale (e1 - e2)) with (Zpos m1 * 2 ^ 53 * scale (e1 - e2 - 53)); [done|].
  pose proof (scale_add (e1 - e2 - 53) 53 ltac:(lia) ltac:(lia)) as Hs.
  rewrite Z.sub_add in Hs. rewrite Hs. ring.
Qed.

(** The product of two numbers. *)
Lemma mul_bounds m1 e1 m2 e2 : normal (Zpos m1) e1 → normal (Zpos m2) e2 → -900 ≤ e1 + e2 ≤ 800 →
  ∃ p e, f64_mul (S754_finite false m1 e1) (S754_finite false m2 e2) = S754_finite false p e ∧ normal (Zpos p) e ∧
    Zpos m1 * Zpos m2 * scale (e1 + e2) * (2 ^ 52 - 1) ≤ Zpos p * scale e * 2 ^ 52 ≤
      Zpos m1 * Zpos m2 * scale (e1 + e2) * (2 ^ 52 + 1).
Proof.
  intros [Hm1 He1] [Hm2 He2] He. unfold f64_mul, SFmul. simpl xorb. rewrite Pos2Z.inj_mul.
  set (q := Zpos m1 * Zpos m2).
  assert (2 ^ 52 ≤ q < 2 ^ 106) as Hq by (change (2 ^ 106) with (2 ^ 53 * 2 ^ 53); unfold q; nia).
  pose proof (digits_le q 106 ltac:(lia) ltac:(lia)) as Hdq.
  destruct (round_bounds q 1 q (e1 + e2) loc_Exact) as (p & e & Hr & Hno & Hle & Hb); [lia|by rewrite Z.div_1_r|lia..|].
  exists p, e. split; [exact Hr|]. split; [done|]. rewrite Z.mul_1_r in Hb. done.
Qed.

(** ** Integers *)
Lemma iter_xO m n : Zpos (Pos.iter xO m n) = Zpos m * 2 ^ Zpos n.
Proof.
  induction n as [|n IH] using Pos.peano_ind; [simpl; lia|].
  rewrite Pos.iter_succ, Pos2Z.inj_xO, IH, Pos2Z.inj_succ, Z.pow_succ_r by lia. ring.
Qed.

(** A mantissa of 53 digits is kept as it is. *)
Lemma round_exact p e : normal (Zpos p) e → binary_round_aux prec emax false (Zpos p) e loc_Exact = S754_finite false p e.
Proof.
  intros [Hp He]. unfold binary_round_aux.
  assert (Zdigits2 (Zpos p) = 53) as Hd by (apply digits_unique; change (53 - 1) with 52; lia).
  destruct (shr_fexp_normal (Zpos p) e loc_Exact) as (mrs & Hs & _ & _ & Hm); [lia..|].
  rewrite Hs, Hd, (Hm Hd). simpl shr_m. cbn [loc_of_shr_record shr_record_of_loc round_nearest_even].
  replace (e + (53 - 53)) with e by lia. rewrite Hs, Hd, (Hm Hd). simpl shr_m. cbn [shr_record_of_loc].
  replace (e + (53 - 53)) with e by lia. by rewrite (proj2 (Z.leb_le _ _)) by (unfold prec, emax; lia).
Qed.

Lemma of_Z_exact x : 0 < x < 2 ^ 53 →
  ∃ p e, f64_of_Z x = S754_finite false p e ∧ normal (Zpos p) e ∧ -53 ≤ e ≤ 0 ∧ Zpos p = x * 2 ^ (- e).
Proof.
  intros [Hx Hhi]. destruct x as [|x|x]; [lia| |lia]. unfold f64_of_Z, binary_normalize, binary_round.
  pose proof (digits_bounds x) as [Dlo Dhi]. pose proof (digits_le (Zpos x) 53 ltac:(lia) ltac:(lia)) as Hd. simpl in Hd.
  set (d := Zpos (digits2_pos x)) in *. rewrite Z.add_0_r.
  replace (fexp prec emax d) with (d - 53) by (unfold fexp, emin, prec, emax; lia).
  unfold shl_align. rewrite Z.sub_0_r. destruct (d - 53) as [|n|n] eqn:Hn; [|lia|].
  - assert (d = 53) as Hd53 by lia. rewrite Hd53 in *. assert (normal (Zpos x) 0) as Hno by (split; [split|]; lia).
    exists x, 0. rewrite round_exact by done. split_and!; try done; try apply Hno; lia.
  - assert (normal (Zpos (Pos.iter xO x n)) (Zneg n)) as Hno.
    { split; [|lia]. rewrite iter_xO. replace (Zpos n) with (53 - d) by lia. split.
      - replace 52 with ((d - 1) + (53 - d)) by lia. rewrite Z.pow_add_r by lia.
        apply Z.mul_le_mono_nonneg_r; [apply Z.pow_nonneg; lia|done].
      - replace 53 with (d + (53 - d)) at 2 by lia. rewrite (Z.pow_add_r 2 d) by lia.
        apply Z.mul_lt_mono_pos_r; [apply Z.pow_pos_nonneg; lia|done]. }
    exists (Pos.iter xO x n), (Zneg n). rewrite round_exact by done. split_and!; try done; try apply Hno; [lia..|].
    rewrite iter_xO. done.
Qed.

Lemma of_Z_scale x p e : 0 < x → Zpos p = x * 2 ^ (- e) → -2000 ≤ e ≤ 0 → Zpos p * scale e = x * scale 0.
Proof.
  intros Hx -> He. pose proof (scale_add e (- e) ltac:(lia) ltac:(lia)) as Hs.
  rewrite Z.add_opp_diag_r in Hs. rewrite Hs. ring.
Qed.

Lemma to_u64_of_Z x : 0 < x < 2 ^ 53 → f64_to_u64 (f64_of_Z x) = x.
Proof.
  intros Hx. destruct (of_Z_exact x Hx) as (p & e & -> & Hno & He & Hp). unfold f64_to_u64.
  assert (x ≤ u64_max) by (unfold u64_max; lia). destruct (Z.leb_spec 0 e) as [Hle|Hlt].
  - assert (e = 0) as -> by lia. simpl in *. lia.
  - rewrite Hp, Z.div_mul by (apply Z.pow_nonzero; lia). lia.
Qed.

(** [x.ceil() as u64]: the integer that is not smaller, by less than one. *)
Lemma ceil_bounds p e : normal (Zpos p) e → Zpos p * scale e ≤ u64_max * scale 0 →
  let c := f64_to_u64 (f64_ceil (S754_finite false p e)) in
  (c - 1) * scale 0 < Zpos p * scale e ≤ c * scale 0.
Proof.
  intros [Hp He] Hmax. cbv zeta. unfold f64_ceil. pose proof (scale_pos 0 ltac:(lia)) as H0.
  destruct (Z.leb_spec 0 e) as [Hle|Hlt].
  - unfold f64_to_u64. rewrite (proj2 (Z.leb_le _ _)) by done.
    pose proof (scale_add 0 e ltac:(lia) ltac:(lia)) as Hs. rewrite Z.add_0_l in Hs. rewrite Hs in Hmax. rewrite Hs.
    assert (Zpos p * 2 ^ e ≤ u64_max) as Hv.
    { apply (Z.mul_le_mono_pos_r _ _ (scale 0)); [done|]. lia. }
    rewrite Z.min_l by lia. lia.
  - simpl cond_Zopp. unfold ceil_pow. rewrite (proj2 (Z.leb_gt _ _)) by done.
    set (k := - e) in *. assert (0 < 2 ^ k) as Hk by (apply Z.pow_pos_nonneg; lia).
    assert (2 ≤ 2 ^ k) as Hk2 by (replace 2 with (2 ^ 1) at 1 by done; apply Z.pow_le_mono_r; lia).
    set (c := - (- Zpos p / 2 ^ k)).
    assert ((c - 1) * 2 ^ k < Zpos p ≤ c * 2 ^ k) as Hc.
    { pose proof (Z.mul_div_le (- Zpos p) (2 ^ k) Hk). pose proof (Z.mul_succ_div_gt (- Zpos p) (2 ^ k) Hk).
      subst c. lia. }
    assert (0 < c < 2 ^ 53) as Hcr by nia.
    change (binary_normalize prec emax c 0 false) with (f64_of_Z c). rewrite to_u64_of_Z by done.
    assert (scale 0 = scale e * 2 ^ k) as ->.
    { rewrite <-scale_add by lia. f_equal. lia. }
    pose proof (scale_pos e ltac:(lia)) as Hs. rewrite !(Z.mul_comm (scale e)), !Z.mul_assoc.
    split; [apply Z.mul_lt_mono_pos_r|apply Z.mul_le_mono_nonneg_r]; lia.
Qed.
