(* ===== verification/Spec.v ===== *)
(** * The network specification

    Models [in-memory-network/src/network/spec.rs]: the nodes and links a
    network is built from. *)

From S2P Require Import Prelude Float Ip.

Inductive NodeKind : Type := Host | Router.

#[export] Instance NodeKind_eq_dec : EqDecision NodeKind.
Proof. solve_decision. Defined.

Record NetworkInterface : Type := mkInterface {
  addresses : list Ipv4Cidr;
  routes : list Route;
}.

Record NetworkNodeSpec : Type := mkNodeSpec {
  node_id : string;
  buffer_size_bytes : Z;
  kind : NodeKind;
  interfaces : list NetworkInterface;
  packet_loss_ratio : f64;
  packet_duplication_ratio : f64;
}.

Definition node_addresses (n : NetworkNodeSpec) : list IpAddr :=
  i ← interfaces n; as_ip_addr <$> addresses i.

Record NetworkLinkSpec : Type := mkLinkSpec {
  link_id : string;
  source : IpAddr;
  target : IpAddr;
  delay : Z;
  bandwidth_bps : Z;
  congestion_event_ratio : f64;
  extra_delay : Z;
  extra_delay_ratio : f64;
}.

Record NetworkSpec : Type := mkSpec {
  nodes : list NetworkNodeSpec;
  links : list NetworkLinkSpec;
}.
