(* ===== verification/Event.v ===== *)
(** * Network events

    Models [in-memory-network/src/network/event.rs]: the timed changes of link
    and node status, and the initial statuses derived from them. *)

From S2P Require Import Prelude Float Spec.

Inductive UpdateNodeStatus : Type := NodeUp | NodeDown.
Inductive UpdateLinkStatus : Type := LinkUp | LinkDown.

#[export] Instance UpdateNodeStatus_eq_dec : EqDecision UpdateNodeStatus.
Proof. solve_decision. Defined.
#[export] Instance UpdateLinkStatus_eq_dec : EqDecision UpdateLinkStatus.
Proof. solve_decision. Defined.

Record NodeEventPayload : Type := mkNodeEvent {
  ne_node_id : string;
  ne_status : option UpdateNodeStatus;
  ne_clear_buffer : bool;
}.

Record LinkEventPayload : Type := mkLinkEvent {
  le_link_id : string;
  le_status : option UpdateLinkStatus;
  le_bandwidth_bps : option Z;
  le_delay : option Z;
  le_extra_delay : option Z;
  le_extra_delay_ratio : option f64;
  le_packet_duplication_ratio : option f64;
  le_packet_loss_ratio : option f64;
  le_congestion_event_ratio : option f64;
}.

Inductive NetworkEventKind : Type :=
  | LinkEvent (p : LinkEventPayload)
  | NodeEvent (p : NodeEventPayload).

Record NetworkEvent : Type := mkEvent {
  relative_time : Z;
  ev_kind : NetworkEventKind;
}.

Record NetworkEvents : Type := mkEvents {
  sorted_events : list NetworkEvent;
  initial_link_events : list LinkEventPayload;
  initial_node_events : list NodeEventPayload;
}.

Definition link_status_only (id : string) (s : UpdateLinkStatus) : LinkEventPayload :=
  mkLinkEvent id (Some s) None None None None None None None.

Definition opposite_link (s : UpdateLinkStatus) : UpdateLinkStatus :=
  match s with LinkUp => LinkDown | LinkDown => LinkUp end.
Definition opposite_node (s : UpdateNodeStatus) : UpdateNodeStatus :=
  match s with NodeUp => NodeDown | NodeDown => NodeUp end.

(** The first loop of [get_initial_status_for_links_with_events]: the links
    seen and the initial events pushed so far. *)
Definition initial_link_step (acc : gset string * list LinkEventPayload)
    (event : NetworkEvent) : gset string * list LinkEventPayload :=
  let '(seen_links, initial_events) := acc in
  match ev_kind event with
  | LinkEvent link_payload =>
      match le_status link_payload with
      | Some updated_status =>
          if decide (le_link_id link_payload ∈ seen_links) then acc
          else ({[le_link_id link_payload]} ∪ seen_links,
                initial_events ++
                [link_status_only (le_link_id link_payload) (opposite_link updated_status)])
      | None => acc
      end
  | NodeEvent _ => acc
  end.

Definition get_initial_status_for_links_with_events (sorted_events : list NetworkEvent)
    (links : list NetworkLinkSpec) : list LinkEventPayload :=
  let '(seen_links, initial_events) := foldl initial_link_step (∅, []) sorted_events in
  foldl (λ initial_events link,
    if decide (link_id link ∈ seen_links) then initial_events
    else initial_events ++ [link_status_only (link_id link) LinkUp])
    initial_events links.

Definition initial_node_step (acc : gset string * list NodeEventPayload)
    (event : NetworkEvent) : gset string * list NodeEventPayload :=
  let '(seen_nodes, initial_events) := acc in
  match ev_kind event with
  | NodeEvent node_payload =>
      match ne_status node_payload with
      | Some updated_status =>
          if decide (ne_node_id node_payload ∈ seen_nodes) then acc
          else ({[ne_node_id node_payload]} ∪ seen_nodes,
                initial_events ++
                [mkNodeEvent (ne_node_id node_payload)
                   (Some (opposite_node updated_status)) false])
      | None => acc
      end
  | LinkEvent _ => acc
  end.

Definition get_initial_status_for_nodes_with_events (sorted_events : list NetworkEvent)
    (nodes : list NetworkNodeSpec) : list NodeEventPayload :=
  let '(seen_nodes, initial_events) := foldl initial_node_step (∅, []) sorted_events in
  foldl (λ initial_events node,
    if decide (node_id node ∈ seen_nodes) then initial_events
    else initial_events ++ [mkNodeEvent (node_id node) (Some NodeUp) false])
    initial_events nodes.

(** [NetworkEvents::new] *)
Definition NetworkEvents_new (events : list NetworkEvent) (nodes : list NetworkNodeSpec)
    (links : list NetworkLinkSpec) : NetworkEvents :=
  let events := sort_by_key relative_time events in
  mkEvents events
    (get_initial_status_for_links_with_events events links)
    (get_initial_status_for_nodes_with_events events nodes).

(** ** Reading the initial statuses off the events

    Both loops have the same shape; the lemmas are proved once, for events read
    by [get] and payloads built by [mk]. *)
Section initial.
Context {S P E X : Type}.
Context (get : E → option (string * S)) (opp : S → S).
Context (mk : string → S → P) (pid : P → string) (xid : X → string) (up : S).
Context (pid_mk : ∀ id s, pid (mk id s) = id).

Definition initial_step (acc : gset string * list P) (e : E) : gset string * list P :=
  match get e with
  | Some (id, s) =>
      if decide (id ∈ acc.1) then acc
      else ({[id]} ∪ acc.1, acc.2 ++ [mk id (opp s)])
  | None => acc
  end.

Definition add_missing (seen : gset string) (acc : list P) (x : X) : list P :=
  if decide (xid x ∈ seen) then acc else acc ++ [mk (xid x) up].

(** The status the first event for [id] sets. *)
Fixpoint first_status (id : string) (l : list E) : option S :=
  match l with
  | [] => None
  | e :: l' =>
      match get e with
      | Some (id', s) => if decide (id' = id) then Some s else first_status id l'
      | None => first_status id l'
      end
  end.

Lemma first_status_snoc id l e :
  first_status id (l ++ [e]) =
    match first_status id l with
    | Some s => Some s
    | None => match get e with
              | Some (id', s) => if decide (id' = id) then Some s else None
              | None => None
              end
    end.
Proof. induction l as [|e' l IH]; simpl; repeat case_match; naive_solver. Qed.

Lemma initial_loop_spec l :
  let '(seen, ps) := foldl initial_step (∅, []) l in
  ∀ id, (id ∈ seen ↔ is_Some (first_status id l)) ∧
        filter (λ p, pid p = id) ps =
          match first_status id l with Some s => [mk id (opp s)] | None => [] end.
Proof using pid_mk.
  induction l as [|e l IH] using rev_ind; simpl.
  { intros id. split; [|done]. split; [set_solver|by intros []]. }
  rewrite foldl_app. simpl. destruct (foldl initial_step (∅, []) l) as [seen ps].
  unfold initial_step; simpl. destruct (get e) as [[i s]|] eqn:He.
  - destruct (decide (i ∈ seen)) as [Hi|Hi].
    + intros id. rewrite first_status_snoc, He. destruct (IH id) as [IH1 IH2].
      rewrite IH1, IH2. destruct (first_status id l) eqn:Hf; [done|].
      destruct (decide (i = id)) as [->|]; [|done].
      apply IH1 in Hi as [? ?]; congruence.
    + intros id. rewrite first_status_snoc, He. destruct (IH id) as [IH1 IH2].
      rewrite filter_app, IH2. rewrite elem_of_union, elem_of_singleton, IH1.
      destruct (decide (i = id)) as [->|Hne].
      * assert (first_status id l = None) as ->.
        { apply eq_None_not_Some. by rewrite <-IH1. }
        rewrite filter_cons_True by apply pid_mk. simpl.
        split; [|done]. split; [eauto|]. by left.
      * rewrite filter_cons_False by (by rewrite pid_mk). rewrite app_nil_r.
        destruct (first_status id l); naive_solver.
  - intros id. rewrite first_status_snoc, He. destruct (IH id) as [IH1 IH2].
    rewrite IH1, IH2. by destruct (first_status id l).
Qed.

Lemma add_missing_spec seen acc xs id :
  filter (λ p, pid p = id) (foldl (add_missing seen) acc xs) =
    filter (λ p, pid p = id) acc ++
    (if decide (id ∈ seen) then []
     else replicate (length (filter (λ x, xid x = id) xs)) (mk id up)).
Proof using pid_mk.
  revert acc. induction xs as [|x xs IH]; intros acc; simpl.
  { by case_decide; rewrite app_nil_r. }
  rewrite IH. unfold add_missing. destruct (decide (xid x = id)) as [<-|Hne].
  - rewrite filter_cons_True by done. destruct (decide (xid x ∈ seen)); [done|].
    rewrite filter_app, filter_cons_True by apply pid_mk. simpl. by rewrite <-app_assoc.
  - rewrite filter_cons_False by done. f_equal.
    destruct (decide (xid x ∈ seen)); [done|].
    rewrite filter_app, filter_cons_False by (by rewrite pid_mk). by rewrite app_nil_r.
Qed.

Lemma initial_events_spec l xs id :
  filter (λ p, pid p = id)
    (let '(seen, ps) := foldl initial_step (∅, []) l in foldl (add_missing seen) ps xs) =
    match first_status id l with
    | Some s => [mk id (opp s)]
    | None => replicate (length (filter (λ x, xid x = id) xs)) (mk id up)
    end.
Proof using pid_mk.
  pose proof (initial_loop_spec l) as H.
  destruct (foldl initial_step (∅, []) l) as [seen ps]. destruct (H id) as [H1 H2].
  rewrite add_missing_spec, H2. destruct (first_status id l) as [s|].
  - destruct (decide (id ∈ seen)); [done|]. destruct n. apply H1. eauto.
  - destruct (decide (id ∈ seen)) as [Hi|]; [|done].
    apply H1 in Hi as [? ?]; congruence.
Qed.
End initial.

Definition event_link_status (e : NetworkEvent) : option (string * UpdateLinkStatus) :=
  match ev_kind e with
  | LinkEvent p => pair (le_link_id p) <$> le_status p
  | NodeEvent _ => None
  end.

Definition event_node_status (e : NetworkEvent) : option (string * UpdateNodeStatus) :=
  match ev_kind e with
  | NodeEvent p => pair (ne_node_id p) <$> ne_status p
  | LinkEvent _ => None
  end.

Definition node_status_only (id : string) (s : UpdateNodeStatus) : NodeEventPayload :=
  mkNodeEvent id (Some s) false.

Lemma initial_link_step_eq acc e :
  initial_link_step acc e =
    initial_step event_link_status opposite_link link_status_only acc e.
Proof.
  destruct acc as [seen ps]. unfold initial_link_step, initial_step, event_link_status.
  destruct (ev_kind e) as [p|p]; simpl; [|done]. by destruct (le_status p).
Qed.

Lemma initial_node_step_eq acc e :
  initial_node_step acc e =
    initial_step event_node_status opposite_node node_status_only acc e.
Proof.
  destruct acc as [seen ps]. unfold initial_node_step, initial_step, event_node_status.
  destruct (ev_kind e) as [p|p]; simpl; [done|]. by destruct (ne_status p).
Qed.

Lemma foldl_ext_eq {A B} (f g : A → B → A) l a :
  (∀ a b, f a b = g a b) → foldl f a l = foldl g a l.
Proof. intros H. revert a. induction l as [|b l IH]; intros a; simpl; [done|by rewrite H, IH]. Qed.

(** The initial link events: a link whose status some event changes starts
    in the status opposite to the one its earliest event sets, exactly once, so
    that event is a real transition; every other link of the network starts
    up. *)
Theorem initial_links_spec (evs : list NetworkEvent) (ls : list NetworkLinkSpec) (id : string) :
  filter (λ p, le_link_id p = id) (get_initial_status_for_links_with_events evs ls) =
    match first_status event_link_status id evs with
    | Some s => [link_status_only id (opposite_link s)]
    | None =>
        replicate (length (filter (λ l, link_id l = id) ls)) (link_status_only id LinkUp)
    end.
Proof.
  unfold get_initial_status_for_links_with_events.
  rewrite (foldl_ext_eq _ _ _ _ initial_link_step_eq).
  by apply (initial_events_spec event_link_status opposite_link link_status_only
    le_link_id link_id LinkUp).
Qed.

(** The initial node events, with the same reading as for links: the
    opposite of the earliest status event, and up for a node without one. *)
Theorem initial_nodes_spec (evs : list NetworkEvent) (ns : list NetworkNodeSpec) (id : string) :
  filter (λ p, ne_node_id p = id) (get_initial_status_for_nodes_with_events evs ns) =
    match first_status event_node_status id evs with
    | Some s => [mkNodeEvent id (Some (opposite_node s)) false]
    | None =>
        replicate (length (filter (λ n, node_id n = id) ns)) (mkNodeEvent id (Some NodeUp) false)
    end.
Proof.
  unfold get_initial_status_for_nodes_with_events.
  rewrite (foldl_ext_eq _ _ _ _ initial_node_step_eq).
  by apply (initial_events_spec event_node_status opposite_node node_status_only
    ne_node_id node_id NodeUp).
Qed.

(** [NetworkEvents::new] orders the events by time, keeps every event, and
    keeps the configured order of events that happen at the same time. *)
Theorem events_sorted_stable (evs : list NetworkEvent) ns ls :
  sorted_by_key relative_time (sorted_events (NetworkEvents_new evs ns ls)) ∧
  sorted_events (NetworkEvents_new evs ns ls) ≡ₚ evs ∧
  ∀ t, filter (λ e, relative_time e = t) (sorted_events (NetworkEvents_new evs ns ls)) =
       filter (λ e, relative_time e = t) evs.
Proof.
  split_and!; [apply sort_by_key_sorted|apply sort_by_key_perm|].
  intros t. apply sort_by_key_stable.
Qed.
