(* ===== verification/Config.v ===== *)
(** * The configuration files

    Models [quinn-workbench/src/config/network.rs] and [config/mod.rs]: the
    records the JSON files of the network graph and of the network events are
    parsed into, and their conversion to what the network is built from.  The
    parser is serde's; a value of these records is what it returns, so numbers
    of type [u64] are in range.  The [_type] fields are ignored by the code. *)

From S2P Require Import Prelude Float Ip Spec Event.

(** [QuinnJsonConfig] of [config/quinn.rs] is opaque to this file. *)
Section config.
Context {QuinnJsonConfig : Type} (quinn_default : QuinnJsonConfig).

(** ** The network graph *)
Inductive NetworkNodeKindJson : Type := JsonRouter | JsonHost.

Record NetworkRouteJson : Type := mkRouteJson {
  rj_destination : IpRange;
  rj_next : IpAddr;
  rj_cost : Z;
}.

Record NetworkInterfaceJson : Type := mkInterfaceJson {
  ij_addresses : list Ipv4Cidr;
  ij_routes : list NetworkRouteJson;
}.

Record NetworkNodeJson : Type := mkNodeJson {
  nj_id : string;
  nj_buffer_size_bytes : Z;
  nj_kind : NetworkNodeKindJson;
  nj_quic : option QuinnJsonConfig;
  nj_interfaces : list NetworkInterfaceJson;
  nj_packet_duplication_ratio : f64;
  nj_packet_loss_ratio : f64;
}.

Record NetworkLinkJson : Type := mkLinkJson {
  lj_id : string;
  lj_source : IpAddr;
  lj_target : IpAddr;
  lj_bandwidth_bps : Z;
  lj_delay_ms : Z;
  lj_extra_delay_ms : Z;
  lj_extra_delay_ratio : f64;
  lj_congestion_event_ratio : f64;
}.

Record NetworkSpecJson : Type := mkSpecJson {
  sj_nodes : list NetworkNodeJson;
  sj_links : list NetworkLinkJson;
}.

(** The QUIC configuration of every host; of two hosts with the same id the
    last one counts. *)
Definition quic_configs (json : NetworkSpecJson) : gmap string QuinnJsonConfig :=
  foldl (λ configs node,
    match nj_kind node with
    | JsonHost => <[nj_id node := default quinn_default (nj_quic node)]> configs
    | JsonRouter => configs
    end) ∅ (sj_nodes json).

Definition route_from_json (r : NetworkRouteJson) : Route :=
  mkRoute (rj_destination r) (rj_next r) (rj_cost r).

Definition interface_from_json (i : NetworkInterfaceJson) : NetworkInterface :=
  mkInterface (ij_addresses i) (route_from_json <$> ij_routes i).

Definition node_from_json (n : NetworkNodeJson) : NetworkNodeSpec :=
  mkNodeSpec (nj_id n) (nj_buffer_size_bytes n)
    (match nj_kind n with JsonRouter => Router | JsonHost => Host end)
    (interface_from_json <$> nj_interfaces n)
    (nj_packet_loss_ratio n) (nj_packet_duplication_ratio n).

Definition link_from_json (l : NetworkLinkJson) : NetworkLinkSpec :=
  mkLinkSpec (lj_id l) (lj_source l) (lj_target l) (from_millis (lj_delay_ms l))
    (lj_bandwidth_bps l) (lj_congestion_event_ratio l) (from_millis (lj_extra_delay_ms l))
    (lj_extra_delay_ratio l).

Definition spec_from_json (json : NetworkSpecJson) : NetworkSpec :=
  mkSpec (node_from_json <$> sj_nodes json) (link_from_json <$> sj_links json).

(** ** The network events *)
Inductive NetworkLinkStatusJson : Type := JsonLinkUp | JsonLinkDown.
Inductive NetworkNodeStatusJson : Type := JsonNodeUp | JsonNodeDown.

Record NodeEventPayloadJson : Type := mkNodeEventJson {
  nej_id : string;
  nej_status : option NetworkNodeStatusJson;
  nej_clear_buffer : bool;
}.

Record LinkEventPayloadJson : Type := mkLinkEventJson {
  lej_id : string;
  lej_status : option NetworkLinkStatusJson;
  lej_bandwidth_bps : option Z;
  lej_delay_ms : option Z;
  lej_extra_delay_ms : option Z;
  lej_extra_delay_ratio : option f64;
  lej_packet_duplication_ratio : option f64;
  lej_packet_loss_ratio : option f64;
  lej_congestion_event_ratio : option f64;
}.

Record RawNetworkEventJson : Type := mkRawEventJson {
  raw_relative_time_ms : Z;
  raw_link : option LinkEventPayloadJson;
  raw_node : option NodeEventPayloadJson;
}.

Inductive EventPayloadJson : Type :=
  | NodePayloadJson (p : NodeEventPayloadJson)
  | LinkPayloadJson (p : LinkEventPayloadJson).

Record NetworkEventJson : Type := mkEventJson {
  evj_relative_time_ms : Z;
  evj_payload : EventPayloadJson;
}.

Inductive EventJsonError : Type := BothPresent | NonePresent.

(** [TryFrom<RawNetworkEventJson>] *)
Definition event_try_from (raw : RawNetworkEventJson) : outcome EventJsonError NetworkEventJson :=
  payload ← match raw_link raw, raw_node raw with
            | Some link, None => Ok (LinkPayloadJson link)
            | None, Some node => Ok (NodePayloadJson node)
            | Some _, Some _ => Err BothPresent
            | None, None => Err NonePresent
            end;
  Ok (mkEventJson (raw_relative_time_ms raw) payload).

Definition node_status_from_json (s : NetworkNodeStatusJson) : UpdateNodeStatus :=
  match s with JsonNodeUp => NodeUp | JsonNodeDown => NodeDown end.
Definition link_status_from_json (s : NetworkLinkStatusJson) : UpdateLinkStatus :=
  match s with JsonLinkUp => LinkUp | JsonLinkDown => LinkDown end.

(** [From<NetworkEventJson> for NetworkEvent] *)
Definition event_from_json (json : NetworkEventJson) : NetworkEvent :=
  let kind :=
    match evj_payload json with
    | NodePayloadJson n =>
        NodeEvent (mkNodeEvent (nej_id n) (node_status_from_json <$> nej_status n)
          (nej_clear_buffer n))
    | LinkPayloadJson l =>
        LinkEvent (mkLinkEvent (lej_id l) (link_status_from_json <$> lej_status l)
          (lej_bandwidth_bps l) (from_millis <$> lej_delay_ms l)
          (from_millis <$> lej_extra_delay_ms l) (lej_extra_delay_ratio l)
          (lej_packet_duplication_ratio l) (lej_packet_loss_ratio l)
          (lej_congestion_event_ratio l))
    end in
  mkEvent (from_millis (evj_relative_time_ms json)) kind.

(** [NetworkConfig] of [config/mod.rs] *)
Record NetworkConfig : Type := mkNetworkConfig {
  network_graph : NetworkSpecJson;
  network_events : list NetworkEventJson;
}.

(** What every simulation builds from its configuration before it initializes
    a network. *)
Definition load (c : NetworkConfig) : NetworkSpec * NetworkEvents :=
  let spec := spec_from_json (network_graph c) in
  (spec, NetworkEvents_new (event_from_json <$> network_events c) (nodes spec) (links spec)).
End config.
Arguments NetworkNodeJson : clear implicits.
Arguments NetworkSpecJson : clear implicits.
Arguments NetworkConfig : clear implicits.

(** ** Properties *)
Section properties.
Context {QuinnJsonConfig : Type} (quinn_default : QuinnJsonConfig).
Abbreviation SpecJson := (NetworkSpecJson QuinnJsonConfig).

(** The fields the parser accepts are machine integers. *)
Definition node_json_typed (n : NetworkNodeJson QuinnJsonConfig) : Prop :=
  in_u64 (nj_buffer_size_bytes n).
Definition link_json_typed (l : NetworkLinkJson) : Prop :=
  in_u64 (lj_bandwidth_bps l) ∧ in_u64 (lj_delay_ms l) ∧ in_u64 (lj_extra_delay_ms l).
Definition spec_json_typed (json : SpecJson) : Prop :=
  Forall node_json_typed (sj_nodes json) ∧ Forall link_json_typed (sj_links json).

Lemma from_millis_fits ms : in_u64 ms → 0 ≤ from_millis ms ≤ duration_max.
Proof. unfold in_u64, from_millis, duration_max, ns_per_ms, ns_per_sec. lia. Qed.

Lemma quic_configs_app l (m : gmap string QuinnJsonConfig) id :
  is_Some (foldl (λ configs node,
    match nj_kind node with
    | JsonHost => <[nj_id node := default quinn_default (nj_quic node)]> configs
    | JsonRouter => configs
    end) m l !! id) ↔
  is_Some (m !! id) ∨ ∃ n, n ∈ l ∧ nj_kind n = JsonHost ∧ nj_id n = id.
Proof.
  revert m. induction l as [|n l IH]; intros m; simpl.
  - split; [by left|]. by intros [?|(n & ?%not_elem_of_nil & _)].
  - rewrite IH. setoid_rewrite elem_of_cons. clear IH. destruct (nj_kind n) eqn:Hk.
    + split; [intros [?|(y & ? & ? & ?)]; eauto 10|].
      intros [?|(y & [->|?] & ? & ?)]; [by left|congruence|eauto 10].
    + rewrite lookup_insert_is_Some'. split; [intros [[?|?]|(y & ? & ? & ?)]; eauto 10|].
      intros [?|(y & [->|?] & ? & ?)]; eauto 10.
Qed.

(** The hosts, and only they, have a QUIC configuration. *)
Lemma quic_configs_hosts (json : SpecJson) id :
  is_Some (quic_configs quinn_default json !! id) ↔
  ∃ ns, ns ∈ nodes (spec_from_json json) ∧ kind ns = Host ∧ node_id ns = id.
Proof.
  unfold quic_configs. rewrite quic_configs_app. split.
  - rewrite lookup_empty. intros [[]|(n & Hn & Hk & <-)]; [done|]. exists (node_from_json n).
    split; [by apply list_elem_of_fmap_2|]. unfold node_from_json. simpl. by rewrite Hk.
  - intros (ns & (n & -> & Hn)%list_elem_of_fmap & Hk & <-). right. exists n. split_and!; [done| |done].
    unfold node_from_json in Hk. simpl in Hk. by destruct (nj_kind n).
Qed.

(** An entry of the events file is accepted exactly when it names a link or a node, but not
    both; the event it becomes concerns that link or node, at the time the entry says. *)
Theorem event_try_from_spec raw :
  match event_try_from raw with
  | Ok json =>
      relative_time (event_from_json json) = from_millis (raw_relative_time_ms raw) ∧
      match ev_kind (event_from_json json) with
      | LinkEvent p => ∃ l, raw_link raw = Some l ∧ raw_node raw = None ∧
          le_link_id p = lej_id l ∧ le_status p = link_status_from_json <$> lej_status l
      | NodeEvent p => ∃ n, raw_node raw = Some n ∧ raw_link raw = None ∧
          ne_node_id p = nej_id n ∧ ne_status p = node_status_from_json <$> nej_status n ∧
          ne_clear_buffer p = nej_clear_buffer n
      end
  | Err BothPresent => is_Some (raw_link raw) ∧ is_Some (raw_node raw)
  | Err NonePresent => raw_link raw = None ∧ raw_node raw = None
  | Panic => False
  end.
Proof.
  unfold event_try_from. destruct (raw_link raw) as [l|], (raw_node raw) as [n|]; simpl; eauto 10.
Qed.
End properties.
