(* ===== verification/Transmit.v ===== *)
(** * Datagrams travelling through the network

    Models [in-memory-network/src/transmit.rs] and the [InTransitData] record
    of [in-memory-network/src/lib.rs]. *)

From Stdlib Require Import Init.Byte.
From S2P Require Import Prelude Ip.

Definition UDP_OVERHEAD : Z := 8.
Definition IPV4_OVERHEAD : Z := 20.
Definition IPV6_OVERHEAD : Z := 40.

Record SocketAddr : Type := mkSocketAddr { sa_ip : IpAddr; sa_port : Z }.

#[export] Instance SocketAddr_eq_dec : EqDecision SocketAddr.
Proof. solve_decision. Defined.

(** The ECN codepoint is its [u8] value: [0b10] (ECT(0)), [0b01] (ECT(1)) or
    [0b11] (CE). *)
Record OwnedTransmit : Type := mkTransmit {
  t_destination : SocketAddr;
  t_ecn : option Z;
  t_contents : list byte;
  t_segment_size : option Z;
}.

Definition is_ipv4 (a : IpAddr) : bool :=
  match a with V4 _ => true | V6 _ => false end.

Definition packet_size (t : OwnedTransmit) : Z :=
  let ip_overhead :=
    if is_ipv4 (sa_ip (t_destination t)) then IPV4_OVERHEAD else IPV6_OVERHEAD in
  wrap64 (UDP_OVERHEAD + ip_overhead + Z.of_nat (length (t_contents t))).

Definition set_ecn (e : option Z) (t : OwnedTransmit) : OwnedTransmit :=
  mkTransmit (t_destination t) e (t_contents t) (t_segment_size t).

(** [id] is the packet's 128-bit uuid; of the source endpoint only the address
    is read. *)
Record InTransitData : Type := mkData {
  d_id : Z;
  d_duplicate : bool;
  d_source_endpoint : SocketAddr;
  d_source_id : string;
  d_transmit : OwnedTransmit;
  d_number : Z;
}.

Definition d_size (d : InTransitData) : Z := packet_size (d_transmit d).

Lemma packet_size_range t : 0 ≤ packet_size t < 2 ^ 64.
Proof. apply wrap64_range. Qed.

Lemma packet_size_set_ecn e t : packet_size (set_ecn e t) = packet_size t.
Proof. done. Qed.

(** A datagram is never empty on the wire. *)
Lemma packet_size_pos t :
  Z.of_nat (length (t_contents t)) < 2 ^ 63 → 28 ≤ packet_size t.
Proof.
  intros Hl. unfold packet_size. rewrite wrap64_small.
  - unfold UDP_OVERHEAD, IPV4_OVERHEAD, IPV6_OVERHEAD. case_match; lia.
  - unfold in_u64, UDP_OVERHEAD, IPV4_OVERHEAD, IPV6_OVERHEAD. case_match; lia.
Qed.
