(* ===== verification/Bytes.v ===== *)
(** * Machine integers as bytes

    [to_le_bytes] and [to_be_bytes] of the unsigned integers of Rust, with the
    functions that read them back. *)

From Stdlib Require Import Init.Byte.
From S2P Require Import Prelude.

#[export] Instance byte_eq_dec : EqDecision byte.
Proof. exact Byte.byte_eq_dec. Defined.

Definition u8 (z : Z) : byte := default Byte.x00 (Byte.of_N (Z.to_N (z mod 256))).
Definition of_u8 (b : byte) : Z := Z.of_N (Byte.to_N b).

Fixpoint to_le (bytes : nat) (n : Z) : list byte :=
  match bytes with O => [] | S bytes => u8 n :: to_le bytes (Z.shiftr n 8) end.
Fixpoint from_le (bytes : list byte) : Z :=
  match bytes with [] => 0 | b :: bytes => of_u8 b + Z.shiftl (from_le bytes) 8 end.

Lemma of_u8_u8 z : of_u8 (u8 z) = z mod 256.
Proof.
  pose proof (Z.mod_pos_bound z 256 ltac:(lia)) as Hz. unfold u8, of_u8.
  destruct (Byte.of_N (Z.to_N (z mod 256))) as [b|] eqn:E; simpl.
  - apply Byte.to_of_N in E. rewrite E, Z2N.id; lia.
  - apply Byte.of_N_None_iff in E. lia.
Qed.

Lemma from_to_le bytes n : 0 ≤ n < 2 ^ (8 * Z.of_nat bytes) → from_le (to_le bytes n) = n.
Proof.
  revert n. induction bytes as [|k IH]; intros n Hn; [simpl in *; lia|].
  simpl. rewrite of_u8_u8, Z.shiftr_div_pow2, Z.shiftl_mul_pow2 by lia.
  rewrite Nat2Z.inj_succ, Z.mul_succ_r, Z.pow_add_r in Hn by lia. change (2 ^ 8) with 256 in *.
  rewrite IH.
  - pose proof (Z.div_mod n 256 ltac:(lia)). lia.
  - split; [apply Z.div_pos; lia|]. apply Z.div_lt_upper_bound; lia.
Qed.

Lemma length_to_le bytes n : length (to_le bytes n) = bytes.
Proof. revert n. induction bytes as [|k IH]; intros n; simpl; [done|]. by rewrite IH. Qed.

(** Network byte order *)
Definition to_be (bytes : nat) (n : Z) : list byte := rev (to_le bytes n).
Definition from_be (bytes : list byte) : Z := from_le (rev bytes).

Lemma from_to_be bytes n : 0 ≤ n < 2 ^ (8 * Z.of_nat bytes) → from_be (to_be bytes n) = n.
Proof. intros Hn. unfold from_be, to_be. rewrite rev_involutive. by apply from_to_le. Qed.

Lemma length_to_be bytes n : length (to_be bytes n) = bytes.
Proof. unfold to_be. by rewrite length_rev, length_to_le. Qed.
