(* ===== verification/Pcap.v ===== *)
(** * The packet capture

    Models [in-memory-network/src/pcap_exporter.rs]: the exporter that writes
    the packets a socket sends and reads to a pcapng file, preceded by the TLS
    secrets that decrypt them.  The blocks written so far are the state of the
    writer; whether it takes another block is up to the environment.  The
    setters of IP and UDP packets are those of [pnet_packet], called on the
    buffer in the order of the code, and the check of a raw block is that of
    [pcap_file]; both are parameters. *)

From Stdlib Require Import Init.Byte SpecFloat ZifyNat.
From S2P Require Import Prelude Float Ip Transmit Bytes.

(** ** The key log *)

(** [format!("{label} {client_random} {secret}")] *)
Definition key_line (hex_encode : list byte → list byte) (label client_random secret : list byte)
    : list byte :=
  label ++ [Byte.x20] ++ hex_encode client_random ++ [Byte.x20] ++ hex_encode secret.

(** ** Blocks of the file *)

Inductive Block : Type :=
  | SectionHeader (big_endian : bool) (major_version minor_version section_length : Z)
  | InterfaceDescription (linktype snaplen : Z)
  | RawBlock (data : list byte)
  | EnhancedPacket (interface_id timestamp original_len : Z) (data : list byte).

(** [DataLink::IPV4] *)
Definition LINKTYPE_IPV4 : Z := 228.

Record PcapExporter : Type := mkPcapExporter {
  capture_start : Z;
  total_tracked_packets : Z;
  writer : list Block;
  buffered_packets : list (SocketAddr * OwnedTransmit);
  has_keylog : bool;
  keylog_written : bool;
}.

(** ** The block with the secrets *)

(** The loop that pads to a boundary of four bytes. *)
Fixpoint pad (fuel : nat) (block : list byte) : option (list byte) :=
  match fuel with
  | O => None
  | S fuel =>
      if (length block mod 4 =? 0)%nat then Some block else pad fuel (block ++ [Byte.x00])
  end.

(** [log.join("\n")] and a last newline *)
Fixpoint join_lines (log : list (list byte)) : list byte :=
  match log with
  | [] => []
  | [line] => line
  | line :: log => line ++ [Byte.x0a] ++ join_lines log
  end.
Definition secrets_of (log : list (list byte)) : list byte := join_lines log ++ [Byte.x0a].

(** [block[offset..offset + n].copy_from_slice(data)] *)
Definition copy_from_slice (offset : nat) (data block : list byte) : list byte :=
  take offset block ++ data ++ drop (offset + length data) block.

Definition block_type : Z := 0x0000000A.
Definition secrets_type : Z := 0x544c534b.

Definition secrets_block (log : list (list byte)) : option (list byte) :=
  let secrets := secrets_of log in
  let block := to_be 4 block_type in
  let length_offset := length block in
  let block := block ++ replicate 4 Byte.x00 in
  let block := block ++ to_be 4 secrets_type in
  let block := block ++ to_be 4 (wrap32 (Z.of_nat (length secrets))) ++ secrets in
  block ← pad 4 block;
  let total_length := wrap32 (wrap32 (Z.of_nat (length block)) + 4) in
  let block := block ++ to_be 4 total_length in
  Some (copy_from_slice length_offset (to_be 4 total_length) block).

(** ** Timestamps *)

(** [Duration::as_secs_f64] *)
Definition as_secs_f64 (d : Z) : f64 :=
  f64_add (f64_of_Z (d / ns_per_sec)) (f64_div (f64_of_Z (d mod ns_per_sec)) (f64_of_Z ns_per_sec)).

(** [f64::round] of a number that is not negative: half away from zero *)
Definition f64_round (x : f64) : f64 :=
  match x with
  | S754_finite s m e =>
      if 0 <=? e then x
      else binary_normalize prec emax
             (cond_Zopp s ((Zpos m + 2 ^ (- e - 1)) / 2 ^ (- e))) 0 s
  | _ => x
  end.

(** [Duration::from_secs_f64]: the nearest number of nanoseconds, ties to
    even; it panics on negative numbers, on those that do not fit and on NaN. *)
Definition from_secs_f64 (x : f64) : option Z :=
  match x with
  | S754_zero _ => Some 0
  | S754_finite false m e =>
      let n := Zpos m * ns_per_sec in
      let nanos :=
        if 0 <=? e then n * 2 ^ e
        else let q := n / 2 ^ (- e) in
             let r := n mod 2 ^ (- e) in
             if (2 ^ (- e) <? 2 * r) || ((2 ^ (- e) =? 2 * r) && Z.odd q) then q + 1 else q in
      if nanos <=? duration_max then Some nanos else None
  | _ => None
  end.

Definition correct_timestamp (d : Z) : option Z :=
  let millis := f64_round (f64_mul (as_secs_f64 d) (f64_of_Z 1000)) in
  from_secs_f64 (f64_div millis (f64_of_Z 1000000)).

Example correct_timestamp_example :
  correct_timestamp <$> [0; from_millis 1; from_millis 1234; 1499999; 1500000; from_secs 7200] =
  [Some 0; Some 1000; Some 1234000; Some 1000; Some 2000; Some (from_secs 7200 / 1000)].
Proof. vm_compute. reflexivity. Qed.

(** ** The packets that are captured *)

(** The packets of [pnet_packet]: whether a buffer is large enough to be one, the setters, which write
    to the buffer or panic ([None]), and the checksums. *)
Class Pnet : Type := {
  udp_fits : list byte → bool;
  udp_set_source : Z → list byte → option (list byte);
  udp_set_destination : Z → list byte → option (list byte);
  udp_set_length : Z → list byte → option (list byte);
  udp_set_payload : list byte → list byte → option (list byte);
  udp_ipv4_checksum : list byte → Z → Z → Z;
  udp_set_checksum : Z → list byte → option (list byte);
  ip_fits : list byte → bool;
  ip_set_version : Z → list byte → option (list byte);
  ip_set_header_length : Z → list byte → option (list byte);
  ip_set_dscp : Z → list byte → option (list byte);
  ip_set_identification : Z → list byte → option (list byte);
  ip_set_flags : Z → list byte → option (list byte);
  ip_set_fragment_offset : Z → list byte → option (list byte);
  ip_set_ttl : Z → list byte → option (list byte);
  ip_set_next_level_protocol : Z → list byte → option (list byte);
  ip_set_source : Z → list byte → option (list byte);
  ip_set_destination : Z → list byte → option (list byte);
  ip_set_payload : list byte → list byte → option (list byte);
  ip_set_total_length : Z → list byte → option (list byte);
  ip_set_ecn : Z → list byte → option (list byte);
  ip_checksum : list byte → Z;
  ip_set_checksum : Z → list byte → option (list byte);
  ip_packet_size : list byte → nat;
}.

(** [buffer[0..n].to_vec()] *)
Definition slice_to (n : nat) (buffer : list byte) : option (list byte) :=
  if (n <=? length buffer)%nat then Some (take n buffer) else None.

Section capture.
Context {pnet : Pnet}.
(** [RawBlock::from_slice::<BigEndian>], and its result written *)
Context (raw_block_from_slice : list byte → option (list byte)).
(** Whether the writer takes a block, after those it took before. *)
Context (accepts : list Block → Block → bool).

Definition BUFFER : nat := 2000.

(** The addresses; those of version 6 are [unreachable!()]. *)
Definition ipv4 (a : SocketAddr) : option Z := match sa_ip a with V4 bits => Some bits | V6 _ => None end.

(** The UDP packet in the buffer. *)
Definition write_udp (source destination : Z) (source_addr : SocketAddr) (transmit : OwnedTransmit)
    (udp_packet_length : Z) (buffer : list byte) : option (list byte) :=
  if udp_fits buffer then
    buffer ← udp_set_source (sa_port source_addr) buffer;
    buffer ← udp_set_destination (sa_port (t_destination transmit)) buffer;
    buffer ← udp_set_length udp_packet_length buffer;
    buffer ← udp_set_payload (t_contents transmit) buffer;
    let checksum := udp_ipv4_checksum buffer source destination in
    udp_set_checksum checksum buffer
  else None.

(** The IP packet around it, in the same buffer. *)
Definition write_ip (source destination : Z) (transmit : OwnedTransmit) (udp_packet : list byte)
    (ip_packet_length : Z) (buffer : list byte) : option (list byte) :=
  if ip_fits buffer then
    buffer ← ip_set_version 4 buffer;
    buffer ← ip_set_header_length 5 buffer;
    buffer ← ip_set_dscp 0 buffer;
    buffer ← ip_set_identification 0 buffer;
    buffer ← ip_set_flags 2 buffer;
    buffer ← ip_set_fragment_offset 0 buffer;
    buffer ← ip_set_ttl 64 buffer;
    buffer ← ip_set_next_level_protocol 17 buffer;
    buffer ← ip_set_source source buffer;
    buffer ← ip_set_destination destination buffer;
    buffer ← ip_set_payload udp_packet buffer;
    buffer ← ip_set_total_length ip_packet_length buffer;
    buffer ← ip_set_ecn (default 0 (t_ecn transmit)) buffer;
    let checksum := ip_checksum buffer in
    ip_set_checksum checksum buffer
  else None.

(** The packet that is written: the data in a UDP packet in an IP packet. *)
Definition capture_packet (source_addr : SocketAddr) (transmit : OwnedTransmit) : option (list byte) :=
  source ← ipv4 source_addr;
  destination ← ipv4 (t_destination transmit);
  let buffer := replicate BUFFER Byte.x00 in
  let udp_packet_length := (8 + Z.of_nat (length (t_contents transmit)) mod 2 ^ 16) mod 2 ^ 16 in
  buffer ← write_udp source destination source_addr transmit udp_packet_length buffer;
  udp_packet ← slice_to (Z.to_nat udp_packet_length) buffer;
  let ip_packet_length := (20 + udp_packet_length) mod 2 ^ 16 in
  buffer ← write_ip source destination transmit udp_packet ip_packet_length buffer;
  slice_to (ip_packet_size buffer) buffer.

(** A block is written, or the result is unwrapped. *)
Definition write_block (block : Block) (p : PcapExporter) : option PcapExporter :=
  if accepts (writer p) block then
    Some (mkPcapExporter (capture_start p) (total_tracked_packets p) (writer p ++ [block])
      (buffered_packets p) (has_keylog p) (keylog_written p))
  else None.

Definition PcapExporter_new (now : Z) (keylog : bool) : option PcapExporter :=
  p ← write_block (SectionHeader true 1 0 0) (mkPcapExporter now 0 [] [] keylog false);
  write_block (InterfaceDescription LINKTYPE_IPV4 65535) p.

(** [write_pcapng_transmit] at [now] *)
Definition write_pcapng_transmit (now : Z) (source_addr : SocketAddr) (transmit : OwnedTransmit)
    (p : PcapExporter) : option PcapExporter :=
  ip_packet ← capture_packet source_addr transmit;
  let p := mkPcapExporter (capture_start p) (wrap64 (total_tracked_packets p + 1)) (writer p)
             (buffered_packets p) (has_keylog p) (keylog_written p) in
  timestamp ← correct_timestamp (Z.max 0 (now - capture_start p));
  write_block (EnhancedPacket 0 timestamp (wrap32 (Z.of_nat (length ip_packet))) ip_packet) p.

Fixpoint write_all (now : Z) (l : list (SocketAddr * OwnedTransmit)) (p : PcapExporter)
    : option PcapExporter :=
  match l with
  | [] => Some p
  | (source_addr, transmit) :: l => p ← write_pcapng_transmit now source_addr transmit p; write_all now l p
  end.

(** [std::mem::take(&mut *self.buffered_packets.lock())], and the packets written *)
Definition flush (now : Z) (p : PcapExporter) : option PcapExporter :=
  write_all now (buffered_packets p)
    (mkPcapExporter (capture_start p) (total_tracked_packets p) (writer p) [] (has_keylog p)
       (keylog_written p)).

(** The secrets are written, once. *)
Definition write_secrets (log : list (list byte)) (p : PcapExporter) : option PcapExporter :=
  let p := mkPcapExporter (capture_start p) (total_tracked_packets p) (writer p) (buffered_packets p)
             (has_keylog p) true in
  block ← secrets_block log;
  raw_block ← raw_block_from_slice block;
  write_block (RawBlock raw_block) p.

(** [track_transmit]; [log] is the content of the key log. *)
Definition track_transmit (now : Z) (log : list (list byte)) (source_addr : SocketAddr)
    (transmit : OwnedTransmit) (p : PcapExporter) : option PcapExporter :=
  if has_keylog p && negb (keylog_written p) then
    if (length log <? 5)%nat then
      Some (mkPcapExporter (capture_start p) (total_tracked_packets p) (writer p)
        (buffered_packets p ++ [(source_addr, transmit)]) (has_keylog p) (keylog_written p))
    else
      p ← write_secrets log p;
      p ← flush now p;
      write_pcapng_transmit now source_addr transmit p
  else write_pcapng_transmit now source_addr transmit p.

(** [Drop] *)
Definition drop_exporter (now : Z) (p : PcapExporter) : option PcapExporter := flush now p.

(** What happens to the exporter of a socket: a line is added to its key log, the socket sends a
    packet ([try_send], with the address of the node), or it reads one that arrived ([poll_recv],
    with the address of the sender). *)
Inductive CaptureEvent : Type :=
  | KeyLogged (line : list byte)
  | Sent (now : Z) (quic_addr : SocketAddr) (transmit : OwnedTransmit)
  | Received (now : Z) (source_endpoint : SocketAddr) (transmit : OwnedTransmit).

Definition capture_step (s : list (list byte) * PcapExporter) (e : CaptureEvent)
    : option (list (list byte) * PcapExporter) :=
  match e with
  | KeyLogged line => Some (s.1 ++ [line], s.2)
  | Sent now source_addr transmit | Received now source_addr transmit =>
      p ← track_transmit now s.1 source_addr transmit s.2; Some (s.1, p)
  end.

Definition capture (start : Z) (keylog : bool) (l : list CaptureEvent)
    : option (list (list byte) * PcapExporter) :=
  p ← PcapExporter_new start keylog;
  foldl (λ o e, s ← o; capture_step s e) (Some ([], p)) l.
End capture.

(** ** The block with the secrets is well formed *)

(** Division of natural numbers. *)
Ltac natdiv := zify; Z.to_euclidean_division_equations; lia.

(** What a reader of the file relies on: the length is a multiple of four, it
    is stated at both ends, and covers at least both lengths and the type. *)
Definition well_formed_block (b : list byte) : Prop :=
  (length b mod 4 = 0)%nat ∧ (12 ≤ length b)%nat ∧
  from_be (take 4 (drop 4 b)) = Z.of_nat (length b) ∧
  from_be (drop (length b - 4) b) = Z.of_nat (length b).

(** How a reader finds the secrets. *)
Definition read_secrets (b : list byte) : list byte :=
  take (Z.to_nat (from_be (take 4 (drop 12 b)))) (drop 16 b).

Lemma pad_step k b : (length b mod 4 ≠ 0)%nat → pad (S k) b = pad k (b ++ [Byte.x00]).
Proof. intros Hb. cbn [pad]. by rewrite (proj2 (Nat.eqb_neq _ _) Hb). Qed.

Lemma pad_done k b : (length b mod 4 = 0)%nat → pad (S k) b = Some b.
Proof. intros Hb. cbn [pad]. by rewrite (proj2 (Nat.eqb_eq _ _) Hb). Qed.

(** Four iterations are enough for any block. *)
Lemma pad_total b : ∃ k, (k < 4)%nat ∧ pad 4 b = Some (b ++ replicate k Byte.x00) ∧
  ((length b + k) mod 4 = 0)%nat.
Proof.
  assert (∀ fuel b, (((4 - length b mod 4) mod 4 < fuel)%nat →
    pad fuel b = Some (b ++ replicate ((4 - length b mod 4) mod 4) Byte.x00))) as Hpad.
  { induction fuel as [|fuel IH]; intros c Hc; [lia|].
    destruct (decide (length c mod 4 = 0)%nat) as [H0|H0].
    - rewrite pad_done, H0 by done. simpl. by rewrite app_nil_r.
    - rewrite pad_step, IH by (done || rewrite length_app; cbn [length]; natdiv).
      rewrite length_app. cbn [length]. rewrite <-app_assoc. do 2 f_equal.
      replace ((4 - length c mod 4) mod 4)%nat with (S ((4 - (length c + 1) mod 4) mod 4)) by natdiv.
      done. }
  exists ((4 - length b mod 4) mod 4)%nat. split; [natdiv|].
  split; [apply Hpad; natdiv|natdiv].
Qed.

Lemma secrets_block_shape log : Z.of_nat (length (secrets_of log)) < 2 ^ 32 - 32 →
  ∃ k, (k < 4)%nat ∧ ((length (secrets_of log) + k) mod 4 = 0)%nat ∧
    let total := to_be 4 (Z.of_nat (20 + length (secrets_of log) + k)) in
    secrets_block log = Some (to_be 4 block_type ++ total ++ to_be 4 secrets_type ++
      to_be 4 (Z.of_nat (length (secrets_of log))) ++ secrets_of log ++ replicate k Byte.x00 ++ total).
Proof.
  intros Hlen. unfold secrets_block. set (secrets := secrets_of log) in *.
  match goal with |- context [pad 4 ?b] => destruct (pad_total b) as (k & Hk & -> & Hmod) end.
  rewrite !length_app, !length_to_be, length_replicate in Hmod. exists k. split; [done|]. split; [natdiv|].
  cbv zeta. cbn [mbind option_bind]. f_equal. rewrite !length_app, !length_to_be, !length_replicate.
  assert (wrap32 (wrap32 (Z.of_nat (4 + 4 + 4 + (4 + length secrets) + k)) + 4) =
    Z.of_nat (20 + length secrets + k)) as ->.
  { unfold wrap32. rewrite Zplus_mod_idemp_l, Z.mod_small by lia. lia. }
  assert (wrap32 (Z.of_nat (length secrets)) = Z.of_nat (length secrets)) as ->
    by (unfold wrap32; by rewrite Z.mod_small by lia).
  unfold copy_from_slice. rewrite length_to_be. set (total := to_be 4 (Z.of_nat (20 + length secrets + k))).
  rewrite <-!app_assoc. rewrite take_app_length' by (by rewrite length_to_be). do 2 f_equal.
Qed.

(** The block with the secrets is one that readers of the format accept, its length is stated
    right at both ends, and what they read from it are the lines of the key log. *)
Theorem secrets_block_read log :
  Z.of_nat (length (secrets_of log)) < 2 ^ 32 - 32 →
  ∃ block, secrets_block log = Some block ∧ well_formed_block block ∧
    from_be (take 4 block) = block_type ∧ read_secrets block = secrets_of log.
Proof.
  intros Hlen. destruct (secrets_block_shape log Hlen) as (k & Hk & Hmod & ->).
  set (secrets := secrets_of log) in *. set (total := to_be 4 (Z.of_nat (20 + length secrets + k))).
  eexists. split; [reflexivity|].
  assert (length total = 4%nat) as Htl by apply length_to_be.
  assert (from_be total = Z.of_nat (20 + length secrets + k)) as Htot
    by (apply from_to_be; change (2 ^ (8 * Z.of_nat 4)) with (2 ^ 32); lia).
  assert (∀ n rest, take 4 (to_be 4 n ++ rest) = to_be 4 n) as Htake
    by (intros; apply take_app_length'; by rewrite length_to_be).
  assert (∀ rest, drop 4 (to_be 4 block_type ++ rest) = rest) as Hd4
    by (intros; apply drop_app_length'; by rewrite length_to_be).
  split; [unfold well_formed_block; rewrite !length_app, !length_to_be, Htl, length_replicate; split_and!|split].
  - natdiv.
  - lia.
  - rewrite Hd4. unfold total at 1. rewrite Htake. fold total. rewrite Htot. lia.
  - rewrite !app_assoc, drop_app_length'; [rewrite Htot; lia|].
    rewrite !length_app, !length_to_be, Htl, length_replicate. lia.
  - rewrite Htake. apply from_to_be. done.
  - unfold read_secrets.
    assert (∀ rest, drop 12 (to_be 4 block_type ++ total ++ to_be 4 secrets_type ++ rest) = rest) as Hd12.
    { intros rest. rewrite !app_assoc. apply drop_app_length'. by rewrite !length_app, !length_to_be, Htl. }
    assert (∀ n rest, drop 16 (to_be 4 block_type ++ total ++ to_be 4 secrets_type ++ to_be 4 n ++ rest) = rest) as Hd16.
    { intros n rest. rewrite !app_assoc. apply drop_app_length'. by rewrite !length_app, !length_to_be, Htl. }
    rewrite Hd12, Hd16, Htake, from_to_be by (change (2 ^ (8 * Z.of_nat 4)) with (2 ^ 32); lia).
    rewrite Nat2Z.id. by apply take_app_length'.
Qed.

(** ** What a capture contains *)
Definition packet_data (b : Block) : option (list byte) :=
  match b with EnhancedPacket _ _ _ data => Some data | _ => None end.

(** The packets the socket sent or read, with the address of the sender. *)
Definition event_packet (e : CaptureEvent) : option (Z * SocketAddr * OwnedTransmit) :=
  match e with Sent now s t | Received now s t => Some (now, s, t) | KeyLogged _ => None end.
Definition tracked (l : list CaptureEvent) : list (SocketAddr * OwnedTransmit) :=
  omap (λ e, '(_, s, t) ← event_packet e; Some (s, t)) l.
Definition logged (l : list CaptureEvent) : list (list byte) :=
  omap (λ e, match e with KeyLogged line => Some line | _ => None end) l.

(** A time whose timestamp can be represented. *)
Definition stampable (start now : Z) : Prop := is_Some (correct_timestamp (Z.max 0 (now - start))).

Definition file_header : list Block :=
  [SectionHeader true 1 0 0; InterfaceDescription LINKTYPE_IPV4 65535].

Section theorems.
Context {pnet : Pnet}.
Context (raw_block_from_slice : list byte → option (list byte)).
Context (Hraw : ∀ b, well_formed_block b → raw_block_from_slice b = Some b).
Context (accepts : list Block → Block → bool) (start : Z) (keylog : bool).

Abbreviation write := (write_pcapng_transmit accepts).
Abbreviation track := (track_transmit raw_block_from_slice accepts).
Abbreviation run := (capture raw_block_from_slice accepts start keylog).

(** The bytes that are captured of a packet, if [pnet_packet] lays it out. *)
Definition datum (st : SocketAddr * OwnedTransmit) : option (list byte) := capture_packet st.1 st.2.

(** Writing a packet adds its block, and nothing else changes. *)
Record wrote (l : list (SocketAddr * OwnedTransmit)) (p p' : PcapExporter) : Prop := mkWrote {
  wr_start : capture_start p' = capture_start p;
  wr_buffered : buffered_packets p' = buffered_packets p;
  wr_keylog : has_keylog p' = has_keylog p;
  wr_written : keylog_written p' = keylog_written p;
  wr_blocks : ∃ blocks, writer p' = writer p ++ blocks ∧ packet_data <$> blocks = datum <$> l;
}.

Lemma write_block_inv block p p' : write_block accepts block p = Some p' →
  p' = mkPcapExporter (capture_start p) (total_tracked_packets p) (writer p ++ [block])
         (buffered_packets p) (has_keylog p) (keylog_written p).
Proof. unfold write_block. destruct (accepts _ _); [by intros [= <-]|done]. Qed.

Lemma write_wrote now s t p p' : write now s t p = Some p' → wrote [(s, t)] p p'.
Proof.
  unfold write_pcapng_transmit. destruct (capture_packet s t) as [data|] eqn:Hp; [|done].
  cbn [mbind option_bind]. destruct (correct_timestamp _) as [ts|]; [|done]. cbn [mbind option_bind].
  intros ->%write_block_inv. split; simpl; try done. eexists. split; [reflexivity|].
  unfold datum. simpl. by rewrite Hp.
Qed.

Lemma write_all_wrote now l p p' : write_all accepts now l p = Some p' → wrote l p p'.
Proof.
  revert p. induction l as [|[s t] l IH]; intros p Hm.
  { injection Hm as <-. split; try done. exists []. by rewrite app_nil_r. }
  cbn [write_all] in Hm. destruct (write now s t p) as [p1|] eqn:H1; [|done]. cbn [mbind option_bind] in Hm.
  apply write_wrote in H1 as [A1 A2 A3 A4 (b1 & A5 & A6)]. apply IH in Hm as [B1 B2 B3 B4 (b2 & B5 & B6)].
  split; try congruence. exists (b1 ++ b2). split; [by rewrite B5, A5, app_assoc|].
  rewrite fmap_app, A6, B6. done.
Qed.

(** With a writer that takes every block, the rest is up to [pnet_packet] and the clock. *)
Lemma write_total now s t p : (∀ file block, accepts file block = true) →
  stampable (capture_start p) now → is_Some (datum (s, t)) → is_Some (write now s t p).
Proof.
  intros Hacc [ts Hts] [data Hd]. unfold datum in Hd. simpl in Hd. unfold write_pcapng_transmit.
  rewrite Hd. cbn [mbind option_bind]. simpl. rewrite Hts. cbn [mbind option_bind]. unfold write_block.
  rewrite Hacc. by eexists.
Qed.

Lemma write_all_total now l p : (∀ file block, accepts file block = true) →
  stampable (capture_start p) now → Forall (λ st, is_Some (datum st)) l → is_Some (write_all accepts now l p).
Proof.
  intros Hacc Hst Hl. revert p Hst. induction Hl as [|[s t] l Hd _ IH]; intros p Hst; [by eexists|].
  destruct (write_total now s t p Hacc Hst Hd) as [p1 H1]. cbn [write_all]. rewrite H1.
  cbn [mbind option_bind]. apply IH. apply write_wrote in H1 as [-> _ _ _ _]. done.
Qed.

(** The secrets in the file: none, or those of at least five lines of the log. *)
Definition secrets_ok (written : bool) (log : list (list byte)) (secrets : list Block) : Prop :=
  if written then ∃ keys block, keys `prefix_of` log ∧ (5 ≤ length keys)%nat ∧
    secrets_block keys = Some block ∧ secrets = [RawBlock block]
  else secrets = [].

Record captured (l : list CaptureEvent) (p : PcapExporter) : Prop := mkCaptured {
  cp_start : capture_start p = start;
  cp_keylog : has_keylog p = keylog;
  cp_file : ∃ secrets packets, writer p = file_header ++ secrets ++ packets ∧
    secrets_ok (keylog_written p) (logged l) secrets ∧
    (packet_data <$> packets) ++ (datum <$> buffered_packets p) = datum <$> tracked l ∧
    (buffered_packets p ≠ [] → keylog = true ∧ keylog_written p = false) ∧
    (keylog = true → keylog_written p = false → packets = []);
}.

Lemma new_captured p : PcapExporter_new accepts start keylog = Some p → captured [] p.
Proof.
  unfold PcapExporter_new. destruct (write_block _ _ _) as [q|] eqn:Hq; [|done]. cbn [mbind option_bind].
  apply write_block_inv in Hq as ->. intros ->%write_block_inv. split; simpl; try done.
  by exists [], [].
Qed.

Lemma logged_app l l' : logged (l ++ l') = logged l ++ logged l'.
Proof. apply omap_app. Qed.
Lemma tracked_app l l' : tracked (l ++ l') = tracked l ++ tracked l'.
Proof. apply omap_app. Qed.

Lemma captured_logged l p line : captured l p → captured (l ++ [KeyLogged line]) p.
Proof.
  intros [C1 C2 (secrets & packets & Hw & Hs & Hd & Hbuf & Hnone)]. split; try done.
  exists secrets, packets. rewrite logged_app, tracked_app. simpl. rewrite app_nil_r. split_and!; try done.
  unfold secrets_ok in *. destruct (keylog_written p); [|done].
  destruct Hs as (keys & block & Hk & ?). exists keys, block. split; [|done]. by apply prefix_app_r.
Qed.

Lemma captured_write l p e now s t p' : event_packet e = Some (now, s, t) → captured l p →
  (keylog = true → keylog_written p = true) → write now s t p = Some p' → captured (l ++ [e]) p'.
Proof.
  intros He [C1 C2 (secrets & packets & Hw & Hs & Hd & Hbuf & _)] Hwritten Hm.
  destruct (write_wrote now s t p p' Hm) as [W1 W2 W3 W4 (blocks & W5 & W6)].
  assert (buffered_packets p = []) as Hempty.
  { destruct (buffered_packets p); [done|]. destruct Hbuf as [Hk Hkw]; [done|]. by rewrite Hwritten in Hkw. }
  split; [congruence|congruence|].
  exists secrets, (packets ++ blocks). rewrite W2, W4, W5, Hw, logged_app, tracked_app. split_and!.
  - by rewrite <-!app_assoc.
  - destruct e; [done|..]; simpl; by rewrite app_nil_r.
  - rewrite Hempty, app_nil_r in Hd |- *. rewrite !fmap_app, Hd, W6. simpl. by rewrite He.
  - by rewrite Hempty.
  - intros Hk Hkw. by rewrite Hwritten in Hkw.
Qed.

Lemma join_lines_prefix k l : k `prefix_of` l → (length (secrets_of k) ≤ length (secrets_of l))%nat.
Proof.
  intros [rest ->]. unfold secrets_of. rewrite !length_app.
  enough (length (join_lines k) ≤ length (join_lines (k ++ rest)))%nat by lia.
  induction k as [|x k IH]; simpl; [lia|]. destruct k as [|y k]; simpl in *.
  - destruct rest; simpl; [lia|]. rewrite length_app. lia.
  - rewrite !length_app in *. simpl in *. lia.
Qed.

(** The packets that were kept back are written after the secrets. *)
Lemma captured_secrets l p now p1 p2 : captured l p → keylog = true → keylog_written p = false →
  (5 ≤ length (logged l))%nat → Z.of_nat (length (secrets_of (logged l))) < 2 ^ 32 - 32 →
  write_secrets raw_block_from_slice accepts (logged l) p = Some p1 → flush accepts now p1 = Some p2 →
  captured l p2 ∧ keylog_written p2 = true.
Proof using Hraw.
  intros [C1 C2 (secrets & packets & Hw & Hs & Hd & Hbuf & Hnone)] Hk Hkw Hmany Hlen Hm1 Hm2.
  destruct (secrets_block_read (logged l) Hlen) as (block & Hblock & Hwf & _).
  unfold write_secrets in Hm1. rewrite Hblock in Hm1. cbn [mbind option_bind] in Hm1. rewrite (Hraw block Hwf) in Hm1.
  cbn [mbind option_bind] in Hm1. apply write_block_inv in Hm1 as ->. unfold flush in Hm2. simpl in Hm2.
  apply write_all_wrote in Hm2 as [W1 W2 W3 W4 (blocks & W5 & W6)]. simpl in *.
  rewrite Hkw in Hs. simpl in Hs. rewrite Hs, Hnone in Hw by done. split; [|done]. split; [congruence|congruence|].
  exists [RawBlock block], blocks. rewrite W2, W4, W5, Hw. split_and!; try done.
  - exists (logged l), block. by split_and!.
  - rewrite W6, app_nil_r. rewrite Hnone in Hd by done. done.
Qed.

Lemma captured_track l p e now s t p' : event_packet e = Some (now, s, t) → captured l p →
  Z.of_nat (length (secrets_of (logged l))) < 2 ^ 32 - 32 → track now (logged l) s t p = Some p' →
  captured (l ++ [e]) p'.
Proof using Hraw.
  intros He Hc Hlen Hm. pose proof Hc as [C1 C2 (secrets & packets & Hw & Hs & Hd & Hbuf & Hnone)].
  unfold track_transmit in Hm. rewrite C2 in Hm. destruct (keylog && negb (keylog_written p)) eqn:Hk.
  2: { eapply (captured_write _ p); [exact He|done| |exact Hm]. intros ->. by destruct (keylog_written p). }
  apply andb_true_iff in Hk as [Hkey Hkw%negb_true_iff].
  destruct (Nat.ltb_spec (length (logged l)) 5) as [Hfew|Hmany].
  - injection Hm as <-. split; simpl; try done. exists secrets, packets.
    rewrite logged_app, tracked_app, !fmap_app, app_assoc, Hd. split_and!; try done.
    + destruct e; [done|..]; simpl; by rewrite app_nil_r.
    + simpl. by rewrite He.
  - destruct (write_secrets _ _ _ _) as [p1|] eqn:H1; [|done]. cbn [mbind option_bind] in Hm.
    destruct (flush _ _ _) as [p2|] eqn:H2; [|done]. cbn [mbind option_bind] in Hm.
    destruct (captured_secrets l p now p1 p2 Hc Hkey Hkw Hmany Hlen H1 H2) as [Hc2 Hkw2].
    by eapply (captured_write _ p2).
Qed.

Lemma track_total l p now s t : (∀ file block, accepts file block = true) → captured l p →
  Forall (λ st, is_Some (datum st)) (buffered_packets p) →
  Z.of_nat (length (secrets_of (logged l))) < 2 ^ 32 - 32 → stampable start now → is_Some (datum (s, t)) →
  is_Some (track now (logged l) s t p).
Proof using Hraw.
  intros Hacc [C1 C2 _] Hbuf Hlen Hst Hd. unfold track_transmit.
  destruct (has_keylog p && negb (keylog_written p)); [|apply write_total; by rewrite ?C1].
  destruct (length (logged l) <? 5)%nat; [by eexists|].
  destruct (secrets_block_read (logged l) Hlen) as (block & Hblock & Hwf & _).
  unfold write_secrets. rewrite Hblock. cbn [mbind option_bind]. rewrite (Hraw block Hwf).
  cbn [mbind option_bind]. unfold write_block. rewrite Hacc. cbn [mbind option_bind]. unfold flush. simpl.
  match goal with |- context [write_all accepts now ?b ?q] =>
    destruct (write_all_total now b q Hacc) as [p1 H1] end; [simpl; by rewrite C1|done|].
  rewrite H1. cbn [mbind option_bind]. apply write_total; [done| |done].
  apply write_all_wrote in H1 as [-> _ _ _ _]. simpl. by rewrite C1.
Qed.

Lemma capture_snoc l e : run (l ++ [e]) = (s ← run l; capture_step raw_block_from_slice accepts s e).
Proof.
  unfold capture. destruct (PcapExporter_new _ _ _); [|done]. cbn [mbind option_bind].
  by rewrite foldl_app.
Qed.

Lemma capture_captured l log p : Z.of_nat (length (secrets_of (logged l))) < 2 ^ 32 - 32 →
  run l = Some (log, p) → log = logged l ∧ captured l p.
Proof using Hraw.
  revert log p. induction l as [|e l IH] using rev_ind; intros log p Hlen Hm.
  { unfold capture in Hm. destruct (PcapExporter_new _ _ _) as [q|] eqn:Hq; [|done]. cbn in Hm.
    injection Hm as <- <-. split; [done|]. by apply new_captured. }
  assert (Z.of_nat (length (secrets_of (logged l))) < 2 ^ 32 - 32) as Hlen'.
  { enough (length (secrets_of (logged l)) ≤ length (secrets_of (logged (l ++ [e]))))%nat by lia.
    apply join_lines_prefix. rewrite logged_app. by apply prefix_app_r. }
  rewrite capture_snoc in Hm. destruct (run l) as [[log1 p1]|] eqn:H1; [|done]. cbn [mbind option_bind] in Hm.
  destruct (IH log1 p1 Hlen' eq_refl) as [-> Hc]. rewrite logged_app.
  destruct e as [line|now s t|now s t]; simpl in Hm.
  - injection Hm as <- <-. split; [done|]. by apply captured_logged.
  - destruct (track now (logged l) s t p1) as [p2|] eqn:H2; [|done]. injection Hm as <- <-. simpl.
    rewrite app_nil_r. split; [done|]. by eapply captured_track.
  - destruct (track now (logged l) s t p1) as [p2|] eqn:H2; [|done]. injection Hm as <- <-. simpl.
    rewrite app_nil_r. split; [done|]. by eapply captured_track.
Qed.

(** The packets that are kept back are packets that were tracked. *)
Lemma captured_buffered l p : captured l p → Forall (λ st, is_Some (datum st)) (tracked l) →
  Forall (λ st, is_Some (datum st)) (buffered_packets p).
Proof.
  intros [_ _ (secrets & packets & _ & _ & Hd & _)] Hl. rewrite Forall_forall in Hl |- *. intros st Hst.
  assert (datum st ∈ datum <$> tracked l) as Hin.
  { rewrite <-Hd. apply elem_of_app. right. apply list_elem_of_fmap. by exists st. }
  apply list_elem_of_fmap in Hin as (x & Heq & Hx). rewrite Heq. by apply Hl.
Qed.

Lemma capture_total l : (∀ file block, accepts file block = true) →
  Forall (λ e, ∀ now s t, event_packet e = Some (now, s, t) → stampable start now ∧ is_Some (datum (s, t))) l →
  Z.of_nat (length (secrets_of (logged l))) < 2 ^ 32 - 32 → is_Some (run l).
Proof using Hraw.
  intros Hacc. induction l as [|e l IH] using rev_ind; intros Hl Hlen.
  { unfold capture, PcapExporter_new, write_block. rewrite Hacc. cbn [mbind option_bind]. rewrite Hacc. by eexists. }
  apply Forall_app in Hl as [Hl He]. rewrite Forall_singleton in He.
  assert (Z.of_nat (length (secrets_of (logged l))) < 2 ^ 32 - 32) as Hlen'.
  { enough (length (secrets_of (logged l)) ≤ length (secrets_of (logged (l ++ [e]))))%nat by lia.
    apply join_lines_prefix. rewrite logged_app. by apply prefix_app_r. }
  destruct (IH Hl Hlen') as [[log p] H1]. rewrite capture_snoc, H1. cbn [mbind option_bind].
  destruct (capture_captured l log p Hlen' H1) as [-> Hc].
  assert (Forall (λ st, is_Some (datum st)) (tracked l)) as Htr.
  { apply Forall_forall. intros [s t] (e' & He' & Hp)%list_elem_of_omap. rewrite Forall_forall in Hl.
    destruct (event_packet e') as [[[now s'] t']|] eqn:E; [|done]. injection Hp as -> ->.
    by apply (Hl e' He' now s t). }
  pose proof (captured_buffered l p Hc Htr) as Hbuf.
  destruct e as [line|now s t|now s t]; simpl; [by eexists|..];
    (destruct (He now s t eq_refl) as [Hst Hd];
     destruct (track_total l p now s t Hacc Hc Hbuf Hlen' Hst Hd) as [p' ->]; by eexists).
Qed.

End theorems.

(** ** Witnesses *)

(** The layout of RFC 768 and RFC 791, without checksums. *)
Definition poke (offset : nat) (data buffer : list byte) : option (list byte) :=
  if (offset + length data <=? length buffer)%nat then Some (copy_from_slice offset data buffer) else None.
Definition peek (offset n : nat) (buffer : list byte) : Z := from_be (take n (drop offset buffer)).

(** The [high] bits above the lowest [k] of a byte, or those lowest bits. *)
Definition set_high (offset : nat) (k value : Z) (buffer : list byte) : option (list byte) :=
  poke offset (to_be 1 (Z.shiftl value k + peek offset 1 buffer mod 2 ^ k)) buffer.
Definition set_low (offset : nat) (k value : Z) (buffer : list byte) : option (list byte) :=
  poke offset (to_be 1 (Z.shiftl (Z.shiftr (peek offset 1 buffer) k) k + value)) buffer.

Definition example_pnet : Pnet := {|
  udp_fits b := (8 <=? length b)%nat;
  udp_set_source v := poke 0 (to_be 2 v);
  udp_set_destination v := poke 2 (to_be 2 v);
  udp_set_length v := poke 4 (to_be 2 v);
  udp_set_payload data := poke 8 data;
  udp_ipv4_checksum _ _ _ := 0;
  udp_set_checksum v := poke 6 (to_be 2 v);
  ip_fits b := (20 <=? length b)%nat;
  ip_set_version v := set_high 0 4 v;
  ip_set_header_length v := set_low 0 4 v;
  ip_set_dscp v := set_high 1 2 v;
  ip_set_identification v := poke 4 (to_be 2 v);
  ip_set_flags v := set_high 6 5 v;
  ip_set_fragment_offset v b := poke 6 (to_be 2 (Z.shiftl (Z.shiftr (peek 6 2 b) 13) 13 + v)) b;
  ip_set_ttl v := poke 8 (to_be 1 v);
  ip_set_next_level_protocol v := poke 9 (to_be 1 v);
  ip_set_source v := poke 12 (to_be 4 v);
  ip_set_destination v := poke 16 (to_be 4 v);
  ip_set_payload data := poke 20 data;
  ip_set_total_length v := poke 2 (to_be 2 v);
  ip_set_ecn v := set_low 1 2 v;
  ip_checksum _ := 0;
  ip_set_checksum v := poke 10 (to_be 2 v);
  ip_packet_size b := Z.to_nat (peek 2 2 b);
|}.

Definition example_transmit (b : byte) : OwnedTransmit :=
  mkTransmit (mkSocketAddr (V4 2) 8080) (Some 2) [b; b] None.
Definition example_sent (b : byte) : CaptureEvent :=
  Sent (from_millis 2) (mkSocketAddr (V4 1) 8080) (example_transmit b).

(** 0x1f90 is port 8080. *)
Example example_layout : @capture_packet example_pnet (mkSocketAddr (V4 1) 8080) (example_transmit Byte.x03) =
  Some [Byte.x45; Byte.x02; Byte.x00; Byte.x1e; Byte.x00; Byte.x00; Byte.x40; Byte.x00;
        Byte.x40; Byte.x11; Byte.x00; Byte.x00; Byte.x00; Byte.x00; Byte.x00; Byte.x01;
        Byte.x00; Byte.x00; Byte.x00; Byte.x02;
        Byte.x1f; Byte.x90; Byte.x1f; Byte.x90; Byte.x00; Byte.x0a; Byte.x00; Byte.x00; Byte.x03; Byte.x03].
Proof. vm_compute. reflexivity. Qed.

(** Two packets before the secrets are known, and one after. *)
Definition example_capture : list CaptureEvent :=
  [KeyLogged [Byte.x41]; example_sent Byte.x01; KeyLogged [Byte.x42]; KeyLogged [Byte.x43];
   KeyLogged [Byte.x44];
   Received (from_millis 3) (mkSocketAddr (V4 2) 8080)
     (mkTransmit (mkSocketAddr (V4 1) 8080) None [Byte.x02] None);
   KeyLogged [Byte.x45]; example_sent Byte.x03].

Lemma example_capturable : Forall (λ e, ∀ now s t, event_packet e = Some (now, s, t) →
  stampable 0 now ∧ is_Some (datum (pnet := example_pnet) (s, t))) example_capture.
Proof.
  repeat apply Forall_cons_2; try apply Forall_nil_2; intros now s t [= <- <- <-]; split; vm_compute; by eexists.
Qed.


Example example_captured : (λ s, (length (writer s.2), length (buffered_packets s.2), keylog_written s.2)) <$>
  @capture example_pnet Some (λ _ _, true) 0 true example_capture = Some (6%nat, 0%nat, true).
Proof. vm_compute. reflexivity. Qed.

(** A file that takes three blocks: the exporter panics when it writes the packets. *)
Example example_disk_full :
  @capture example_pnet Some (λ file _, (length file <? 3)%nat) 0 true example_capture = None.
Proof. vm_compute. reflexivity. Qed.

Lemma secrets_block_read_witness : ∃ block, secrets_block (logged example_capture) = Some block ∧
  read_secrets block = secrets_of (logged example_capture).
Proof.
  destruct (secrets_block_read (logged example_capture)) as (block & H1 & _ & _ & H2);
    [vm_compute; reflexivity|]. exists block. exact (conj H1 H2).
Defined.
