(* ===== verification/SimStep.v ===== *)
(** * The replay log

    Models [in-memory-network/src/tracing/simulation_step.rs] (the steps of a
    replay log), [simulation_stepper.rs] (the recorder and its queries) and
    [stats.rs] (packet counters). *)

From S2P Require Import Prelude Event.

Inductive DropReason : Type := Random | BufferFull | BufferCleared.

Record GenericPacketEvent : Type := mkGeneric {
  g_packet_id : Z;
  g_packet_number : Z;
  g_packet_size_bytes : Z;
  g_node_id : string;
}.

Record PacketInNode_ : Type := mkInNode {
  in_packet_id : Z;
  in_packet_number : Z;
  in_packet_size_bytes : Z;
  in_node_id : string;
  in_dropped_on_arrival : bool;
}.

Record PacketDropped_ : Type := mkDropped {
  dr_packet_id : Z;
  dr_node_id : string;
  dr_reason : DropReason;
}.

Record PacketHasExtraDelay : Type := mkExtraDelay {
  xd_packet_id : Z;
  xd_node_id : string;
  xd_extra_delay : Z;
}.

Record PacketInTransit_ : Type := mkInTransit {
  tr_packet_id : Z;
  tr_node_id : string;
  tr_link_id : string;
}.

Record PacketLostInTransit_ : Type := mkLost {
  lo_packet_id : Z;
  lo_link_id : string;
}.

Record NetworkEvent_ : Type := mkNetEvent {
  ev_link : option LinkEventPayload;
  ev_node : option NodeEventPayload;
}.

Inductive SimulationStepKind : Type :=
  | PacketInNode (s : PacketInNode_)
  | PacketDropped (s : PacketDropped_)
  | PacketLostInTransit (s : PacketLostInTransit_)
  | PacketDuplicated (s : GenericPacketEvent)
  | PacketExtraDelay (s : PacketHasExtraDelay)
  | PacketCongestionEvent (s : GenericPacketEvent)
  | PacketInTransit (s : PacketInTransit_)
  | PacketDeliveredToApplication (s : GenericPacketEvent)
  | NetworkEventStep (e : NetworkEvent_).

Record SimulationStep : Type := mkStep {
  step_time : Z;
  step_kind : SimulationStepKind;
}.

(** ** [stats.rs] *)
Record PacketStats : Type := mkStats { packets : Z; bytes : Z }.

Definition stats_default : PacketStats := mkStats 0 0.

Definition track_one (size_bytes : Z) (s : PacketStats) : PacketStats :=
  mkStats (wrap64 (packets s + 1)) (wrap64 (bytes s + size_bytes)).

Definition join (s other : PacketStats) : PacketStats :=
  mkStats (wrap64 (packets s + packets other)) (wrap64 (bytes s + bytes other)).

Record LinkStats : Type := mkLinkStats {
  dropped_in_transit : PacketStats;
  max_used_bandwidth_bps : Z;
}.

Definition linkstats_default : LinkStats := mkLinkStats stats_default 0.

Record NodeStats : Type := mkNodeStats {
  ns_sent : PacketStats;
  ns_received : PacketStats;
  ns_dropped_on_arrival : PacketStats;
  ns_dropped_injected : PacketStats;
  ns_dropped_buffer_full : PacketStats;
  ns_dropped_buffer_cleared : PacketStats;
  ns_duplicates : PacketStats;
  ns_received_out_of_order : PacketStats;
  ns_congestion_experienced : PacketStats;
  ns_max_buffer_usage : Z;
}.

(** ** [simulation_stepper.rs] *)
Definition record (step : SimulationStep) (steps : list SimulationStep) : list SimulationStep :=
  steps ++ [step].

Definition get_packet_hops (steps : list SimulationStep) (id : Z) : list (Z * string) :=
  foldl (λ hops step,
    match step_kind step with
    | PacketInNode s =>
        if in_packet_id s =? id then hops ++ [(step_time step, in_node_id s)] else hops
    | _ => hops
    end) [] steps.

Definition get_packet_path (steps : list SimulationStep) (id : Z) : list string :=
  snd <$> get_packet_hops steps id.

Definition get_packet_arrived_at (steps : list SimulationStep) (packet_id : Z)
    (node_id : string) : option Z :=
  head (omap (λ s,
    match step_kind s with
    | PacketInNode k =>
        if (in_packet_id k =? packet_id) && bool_decide (in_node_id k = node_id)
        then Some (step_time s) else None
    | _ => None
    end) steps).

(** ** Lemmas *)
Lemma get_packet_hops_app steps steps' id :
  get_packet_hops (steps ++ steps') id = get_packet_hops steps id ++ get_packet_hops steps' id.
Proof.
  unfold get_packet_hops. rewrite foldl_app.
  generalize (foldl (λ (hops : list (Z * string)) (step : SimulationStep),
    match step_kind step with
    | PacketInNode s =>
        if in_packet_id s =? id then hops ++ [(step_time step, in_node_id s)] else hops
    | _ => hops
    end) [] steps).
  induction steps' as [|s steps' IH] using rev_ind; intros l; simpl; [by rewrite app_nil_r|].
  rewrite !foldl_app, IH. simpl. repeat case_match; by rewrite ?app_assoc.
Qed.

(** The arrival time the connectivity check reports is the time of the packet's
    first hop at the node. *)
Lemma get_packet_arrived_at_hops steps id node :
  get_packet_arrived_at steps id node =
    fst <$> head (filter (λ h, h.2 = node) (get_packet_hops steps id)).
Proof.
  induction steps as [|s steps IH]; [done|].
  change (s :: steps) with ([s] ++ steps). rewrite get_packet_hops_app, filter_app.
  unfold get_packet_arrived_at in *. simpl.
  unfold get_packet_hops at 1. simpl.
  destruct (step_kind s) as [k| | | | | | | |]; try (simpl; exact IH).
  destruct (in_packet_id k =? id); simpl; [|exact IH].
  rewrite filter_cons. simpl. case_bool_decide; case_decide; try done.
Qed.
