(* ===== verification/Serde.v ===== *)
(** * The serialization of the replay log

    Models the serde attributes of [in-memory-network/src/tracing/simulation_step.rs]
    and [network/event.rs], and the helpers they name ([util/mod.rs]).  The data
    format is an interface, [Format], with the documented laws of serde_json: what
    it makes of a string, a number or a struct, it reads back.  The functions below
    are what the attributes ask for: [rename] and [rename_all] give the keys,
    [skip_serializing_if] leaves a field out, and a field that is not there reads as
    [None] if it is an [Option] and is an error otherwise, because no field has the
    attribute [default]. *)

From Stdlib Require Import Floats.SpecFloat.
From S2P Require Import Prelude Float Event SimStep.

(** ** The data format *)

(** What a visitor of strings makes of a borrowed and of an owned string; [None] is
    an error. *)
Record Visitor (A : Type) : Type := mkVisitor {
  visit_str : string → option A;
  visit_string : string → option A;
}.
Arguments mkVisitor {A} _ _.
Arguments visit_str {A} _ _.
Arguments visit_string {A} _ _.

(** A format with numbers, strings, sequences and structs.  [is_null] is what an
    [Option] reads as [None]; [serialize_nanos] is [DurationNanoSeconds], which
    fails beyond 64 bits; [serialize_duration] is how serde writes a [Duration]. *)
Class Format (V : Type) := {
  serialize_str : string → V;
  deserialize_string : ∀ A, Visitor A → V → option A;
  serialize_bool : bool → V;
  deserialize_bool : V → option bool;
  serialize_u64 : Z → V;
  deserialize_u64 : V → option Z;
  serialize_f64 : f64 → V;
  deserialize_f64 : V → option f64;
  serialize_nanos : Z → option V;
  deserialize_nanos : V → option Z;
  serialize_duration : Z → V;
  deserialize_duration : V → option Z;
  serialize_uuid : Z → V;
  deserialize_uuid : V → option Z;
  is_null : V → bool;
  serialize_seq : list V → V;
  deserialize_seq : V → option (list V);
  serialize_struct : list (string * V) → V;
  deserialize_struct : V → option (gmap string V);
}.

Class FormatLaws (V : Type) `{Format V} : Prop := {
  string_read : ∀ A (visitor : Visitor A) s,
    deserialize_string A visitor (serialize_str s) = visit_str visitor s ∨
    deserialize_string A visitor (serialize_str s) = visit_string visitor s;
  bool_read : ∀ b, deserialize_bool (serialize_bool b) = Some b;
  u64_read : ∀ z, deserialize_u64 (serialize_u64 z) = Some z;
  nanos_read : ∀ d v, serialize_nanos d = Some v → deserialize_nanos v = Some d;
  nanos_written : ∀ d, 0 ≤ d < 2 ^ 64 → is_Some (serialize_nanos d);
  duration_read : ∀ d, deserialize_duration (serialize_duration d) = Some d;
  uuid_read : ∀ id, deserialize_uuid (serialize_uuid id) = Some id;
  string_not_null : ∀ s, is_null (serialize_str s) = false;
  u64_not_null : ∀ z, is_null (serialize_u64 z) = false;
  duration_not_null : ∀ d, is_null (serialize_duration d) = false;
  struct_not_null : ∀ fields, is_null (serialize_struct fields) = false;
  seq_read : ∀ l, deserialize_seq (serialize_seq l) = Some l;
  struct_read : ∀ fields, NoDup fields.*1 →
    deserialize_struct (serialize_struct fields) = Some (list_to_map fields);
}.

Arguments deserialize_string {V _ A} _ _.

Section serde.
Context {V : Type} `{Format V}.

(** ** The helpers *)
Definition is_false (x : bool) : bool := negb x.

Definition serde_arc_str_serialize (s : string) : V := serialize_str s.

Definition visit_owned (v : string) : option string := Some v.
Definition ArcStrVisitor : Visitor string := mkVisitor (λ v, visit_owned v) visit_owned.

Definition serde_arc_str_deserialize (v : V) : option string := deserialize_string ArcStrVisitor v.

(** ** What the attributes ask for *)

(** A struct, without the fields that are left out. *)
Definition struct_of (fields : list (string * option V)) : V :=
  serialize_struct (omap (λ '(key, v), pair key <$> v) fields).

Definition skip_if_none {A} (f : A → V) (x : option A) : option V := f <$> x.
Definition skip_if_false (x : bool) : option V := if is_false x then None else Some (serialize_bool x).

Definition read_field {A} (f : V → option A) (key : string) (m : gmap string V) : option A := m !! key ≫= f.

Definition read_option {A} (f : V → option A) (v : V) : option (option A) :=
  if is_null v then Some None else Some <$> f v.

Definition read_optional {A} (f : V → option A) (key : string) (m : gmap string V) : option (option A) :=
  match m !! key with
  | None => Some None
  | Some v => read_option f v
  end.

(** The name of a variant without data. *)
Definition read_variant {A} (of_name : string → option A) (v : V) : option A :=
  deserialize_string (mkVisitor of_name of_name) v.

(** ** Events *)
Definition node_status_name (s : UpdateNodeStatus) : string := match s with NodeUp => "up" | NodeDown => "down" end.
Definition node_status_of_name (s : string) : option UpdateNodeStatus :=
  if decide (s = "up") then Some NodeUp else if decide (s = "down") then Some NodeDown else None.

Definition link_status_name (s : UpdateLinkStatus) : string := match s with LinkUp => "up" | LinkDown => "down" end.
Definition link_status_of_name (s : string) : option UpdateLinkStatus :=
  if decide (s = "up") then Some LinkUp else if decide (s = "down") then Some LinkDown else None.

Definition serialize_node_event (e : NodeEventPayload) : V :=
  struct_of [("node_id", Some (serde_arc_str_serialize (ne_node_id e)));
             ("status", skip_if_none (λ s, serialize_str (node_status_name s)) (ne_status e));
             ("clear_buffer", skip_if_false (ne_clear_buffer e))].

Definition deserialize_node_event (v : V) : option NodeEventPayload :=
  m ← deserialize_struct v;
  node_id ← read_field serde_arc_str_deserialize "node_id" m;
  status ← read_optional (read_variant node_status_of_name) "status" m;
  clear_buffer ← read_field deserialize_bool "clear_buffer" m;
  Some (mkNodeEvent node_id status clear_buffer).

Definition serialize_link_event (e : LinkEventPayload) : V :=
  struct_of [("linkId", Some (serde_arc_str_serialize (le_link_id e)));
             ("status", skip_if_none (λ s, serialize_str (link_status_name s)) (le_status e));
             ("bandwidthBps", skip_if_none serialize_u64 (le_bandwidth_bps e));
             ("delay", skip_if_none serialize_duration (le_delay e));
             ("extraDelay", skip_if_none serialize_duration (le_extra_delay e));
             ("extraDelayRatio", skip_if_none serialize_f64 (le_extra_delay_ratio e));
             ("packetDuplicationRatio", skip_if_none serialize_f64 (le_packet_duplication_ratio e));
             ("packetLossRatio", skip_if_none serialize_f64 (le_packet_loss_ratio e));
             ("congestionEventRatio", skip_if_none serialize_f64 (le_congestion_event_ratio e))].

Definition deserialize_link_event (v : V) : option LinkEventPayload :=
  m ← deserialize_struct v;
  link_id ← read_field serde_arc_str_deserialize "linkId" m;
  status ← read_optional (read_variant link_status_of_name) "status" m;
  bandwidth_bps ← read_optional deserialize_u64 "bandwidthBps" m;
  delay ← read_optional deserialize_duration "delay" m;
  extra_delay ← read_optional deserialize_duration "extraDelay" m;
  extra_delay_ratio ← read_optional deserialize_f64 "extraDelayRatio" m;
  packet_duplication_ratio ← read_optional deserialize_f64 "packetDuplicationRatio" m;
  packet_loss_ratio ← read_optional deserialize_f64 "packetLossRatio" m;
  congestion_event_ratio ← read_optional deserialize_f64 "congestionEventRatio" m;
  Some (mkLinkEvent link_id status bandwidth_bps delay extra_delay extra_delay_ratio
          packet_duplication_ratio packet_loss_ratio congestion_event_ratio).

(** ** Steps *)
Definition serialize_network_event (e : NetworkEvent_) : V :=
  struct_of [("link", skip_if_none serialize_link_event (ev_link e));
             ("node", skip_if_none serialize_node_event (ev_node e))].

Definition deserialize_network_event (v : V) : option NetworkEvent_ :=
  m ← deserialize_struct v;
  link ← read_optional deserialize_link_event "link" m;
  node ← read_optional deserialize_node_event "node" m;
  Some (mkNetEvent link node).

Definition serialize_generic (p : GenericPacketEvent) : V :=
  struct_of [("packet_id", Some (serialize_uuid (g_packet_id p)));
             ("packet_number", Some (serialize_u64 (g_packet_number p)));
             ("packet_size_bytes", Some (serialize_u64 (g_packet_size_bytes p)));
             ("node_id", Some (serde_arc_str_serialize (g_node_id p)))].

Definition deserialize_generic (v : V) : option GenericPacketEvent :=
  m ← deserialize_struct v;
  packet_id ← read_field deserialize_uuid "packet_id" m;
  packet_number ← read_field deserialize_u64 "packet_number" m;
  packet_size_bytes ← read_field deserialize_u64 "packet_size_bytes" m;
  node_id ← read_field serde_arc_str_deserialize "node_id" m;
  Some (mkGeneric packet_id packet_number packet_size_bytes node_id).

Definition serialize_in_node (p : PacketInNode_) : V :=
  struct_of [("packet_id", Some (serialize_uuid (in_packet_id p)));
             ("packet_number", Some (serialize_u64 (in_packet_number p)));
             ("packet_size_bytes", Some (serialize_u64 (in_packet_size_bytes p)));
             ("node_id", Some (serde_arc_str_serialize (in_node_id p)));
             ("dropped_on_arrival", skip_if_false (in_dropped_on_arrival p))].

Definition deserialize_in_node (v : V) : option PacketInNode_ :=
  m ← deserialize_struct v;
  packet_id ← read_field deserialize_uuid "packet_id" m;
  packet_number ← read_field deserialize_u64 "packet_number" m;
  packet_size_bytes ← read_field deserialize_u64 "packet_size_bytes" m;
  node_id ← read_field serde_arc_str_deserialize "node_id" m;
  dropped_on_arrival ← read_field deserialize_bool "dropped_on_arrival" m;
  Some (mkInNode packet_id packet_number packet_size_bytes node_id dropped_on_arrival).

Definition drop_reason_name (r : DropReason) : string :=
  match r with Random => "Random" | BufferFull => "BufferFull" | BufferCleared => "BufferCleared" end.
Definition drop_reason_of_name (s : string) : option DropReason :=
  if decide (s = "Random") then Some Random
  else if decide (s = "BufferFull") then Some BufferFull
  else if decide (s = "BufferCleared") then Some BufferCleared
  else None.

Definition serialize_dropped (p : PacketDropped_) : V :=
  struct_of [("packet_id", Some (serialize_uuid (dr_packet_id p)));
             ("node_id", Some (serde_arc_str_serialize (dr_node_id p)));
             ("reason", Some (serialize_str (drop_reason_name (dr_reason p))))].

Definition deserialize_dropped (v : V) : option PacketDropped_ :=
  m ← deserialize_struct v;
  packet_id ← read_field deserialize_uuid "packet_id" m;
  node_id ← read_field serde_arc_str_deserialize "node_id" m;
  reason ← read_field (read_variant drop_reason_of_name) "reason" m;
  Some (mkDropped packet_id node_id reason).

Definition serialize_extra_delay (p : PacketHasExtraDelay) : option V :=
  extra_delay_ns ← serialize_nanos (xd_extra_delay p);
  Some (struct_of [("packet_id", Some (serialize_uuid (xd_packet_id p)));
                   ("node_id", Some (serde_arc_str_serialize (xd_node_id p)));
                   ("extra_delay_ns", Some extra_delay_ns)]).

Definition deserialize_extra_delay (v : V) : option PacketHasExtraDelay :=
  m ← deserialize_struct v;
  packet_id ← read_field deserialize_uuid "packet_id" m;
  node_id ← read_field serde_arc_str_deserialize "node_id" m;
  extra_delay ← read_field deserialize_nanos "extra_delay_ns" m;
  Some (mkExtraDelay packet_id node_id extra_delay).

Definition serialize_in_transit (p : PacketInTransit_) : V :=
  struct_of [("packet_id", Some (serialize_uuid (tr_packet_id p)));
             ("node_id", Some (serde_arc_str_serialize (tr_node_id p)));
             ("link_id", Some (serde_arc_str_serialize (tr_link_id p)))].

Definition deserialize_in_transit (v : V) : option PacketInTransit_ :=
  m ← deserialize_struct v;
  packet_id ← read_field deserialize_uuid "packet_id" m;
  node_id ← read_field serde_arc_str_deserialize "node_id" m;
  link_id ← read_field serde_arc_str_deserialize "link_id" m;
  Some (mkInTransit packet_id node_id link_id).

Definition serialize_lost (p : PacketLostInTransit_) : V :=
  struct_of [("packet_id", Some (serialize_uuid (lo_packet_id p)));
             ("link_id", Some (serde_arc_str_serialize (lo_link_id p)))].

Definition deserialize_lost (v : V) : option PacketLostInTransit_ :=
  m ← deserialize_struct v;
  packet_id ← read_field deserialize_uuid "packet_id" m;
  link_id ← read_field serde_arc_str_deserialize "link_id" m;
  Some (mkLost packet_id link_id).

(** The name of a variant of [SimulationStepKind], and its data. *)
Definition kind_name (k : SimulationStepKind) : string :=
  match k with
  | PacketInNode _ => "packetInNode"
  | PacketDropped _ => "packetDropped"
  | PacketLostInTransit _ => "packetLostInTransit"
  | PacketDuplicated _ => "packetDuplicated"
  | PacketExtraDelay _ => "packetExtraDelay"
  | PacketCongestionEvent _ => "packetCongestionEvent"
  | PacketInTransit _ => "packetInTransit"
  | PacketDeliveredToApplication _ => "packetDeliveredToApplication"
  | NetworkEventStep _ => "networkEvent"
  end.

Definition kind_data (k : SimulationStepKind) : option V :=
  match k with
  | PacketInNode p => Some (serialize_in_node p)
  | PacketDropped p => Some (serialize_dropped p)
  | PacketLostInTransit p => Some (serialize_lost p)
  | PacketDuplicated p => Some (serialize_generic p)
  | PacketExtraDelay p => serialize_extra_delay p
  | PacketCongestionEvent p => Some (serialize_generic p)
  | PacketInTransit p => Some (serialize_in_transit p)
  | PacketDeliveredToApplication p => Some (serialize_generic p)
  | NetworkEventStep e => Some (serialize_network_event e)
  end.

Definition kind_of (name : string) (data : V) : option SimulationStepKind :=
  if decide (name = "packetInNode") then PacketInNode <$> deserialize_in_node data
  else if decide (name = "packetDropped") then PacketDropped <$> deserialize_dropped data
  else if decide (name = "packetLostInTransit") then PacketLostInTransit <$> deserialize_lost data
  else if decide (name = "packetDuplicated") then PacketDuplicated <$> deserialize_generic data
  else if decide (name = "packetExtraDelay") then PacketExtraDelay <$> deserialize_extra_delay data
  else if decide (name = "packetCongestionEvent") then PacketCongestionEvent <$> deserialize_generic data
  else if decide (name = "packetInTransit") then PacketInTransit <$> deserialize_in_transit data
  else if decide (name = "packetDeliveredToApplication") then
    PacketDeliveredToApplication <$> deserialize_generic data
  else if decide (name = "networkEvent") then NetworkEventStep <$> deserialize_network_event data
  else None.

(** A step: the fields of the kind are flattened into those of the step. *)
Definition serialize_step (s : SimulationStep) : option V :=
  relative_time_ns ← serialize_nanos (step_time s);
  data ← kind_data (step_kind s);
  Some (struct_of [("relative_time_ns", Some relative_time_ns);
                   ("type", Some (serialize_str (kind_name (step_kind s))));
                   ("data", Some data)]).

Definition deserialize_step (v : V) : option SimulationStep :=
  m ← deserialize_struct v;
  relative_time ← read_field deserialize_nanos "relative_time_ns" m;
  name ← read_field (read_variant Some) "type" m;
  data ← m !! "data";
  kind ← kind_of name data;
  Some (mkStep relative_time kind).

(** What a run stores in its replay log; [None] if it panics. *)
Definition serialize_log (steps : list SimulationStep) : option V := serialize_seq <$> mapM serialize_step steps.

Definition deserialize_log (v : V) : option (list SimulationStep) := deserialize_seq v ≫= mapM deserialize_step.
End serde.

(** ** Reading a struct back *)
Section laws.
Context {V : Type} {F : Format V} {L : FormatLaws V}.

(** The keys of the fields that are written are among the keys of the struct. *)
Lemma written_key (fields : list (string * option V)) key :
  key ∈ (omap (λ '(key, v), pair key <$> v) fields).*1 → key ∈ fields.*1.
Proof.
  induction fields as [|[k [v|]] fields IH]; simpl; [done| |].
  - rewrite !elem_of_cons. intros [?|?]; auto.
  - rewrite elem_of_cons. auto.
Qed.

Lemma struct_fields (fields : list (string * option V)) :
  NoDup fields.*1 → ∃ m, deserialize_struct (struct_of fields) = Some m ∧
  ∀ key v, (key, v) ∈ fields → m !! key = v.
Proof using L.
  intros Hd. eexists. split.
  { apply struct_read. induction fields as [|[k [v|]] fields IH]; simpl in *; [constructor|..];
      apply NoDup_cons in Hd as [Hk Hd]; [constructor|]; auto. intros ?%written_key. done. }
  induction fields as [|[k o] fields IH]; simpl in *; [by intros key v ?%not_elem_of_nil|].
  apply NoDup_cons in Hd as [Hk Hd]. intros key v [[= -> ->]|Hin]%elem_of_cons.
  - destruct o as [x|]; simpl; [by rewrite lookup_insert_eq|].
    apply not_elem_of_list_to_map. intros ?%written_key. done.
  - assert (key ≠ k) as Hne by (intros ->; apply Hk; by apply (list_elem_of_fmap_2 fst _ (k, v))).
    destruct o as [x|]; simpl; [rewrite lookup_insert_ne by done|]; by apply IH.
Qed.

Lemma arc_str_read s : serde_arc_str_deserialize (serde_arc_str_serialize s) = Some s.
Proof using L. by destruct (string_read _ ArcStrVisitor s). Qed.

Lemma variant_read {A} (of_name : string → option A) (s : string) :
  read_variant of_name (serialize_str s) = of_name s.
Proof using L. by destruct (string_read _ (mkVisitor of_name of_name) s). Qed.

(** An optional field reads back if its values do and are not null. *)
Lemma optional_read {A} (ser : A → V) (de : V → option A) key (m : gmap string V) x :
  m !! key = skip_if_none ser x → (∀ y, x = Some y → read_option de (ser y) = Some (Some y)) →
  read_optional de key m = Some x.
Proof using. intros Hm Hx. unfold read_optional. rewrite Hm. destruct x as [y|]; simpl; [by apply Hx|done]. Qed.

Lemma option_read {A} (de : V → option A) v x :
  is_null v = false → de v = Some x → read_option de v = Some (Some x).
Proof using. unfold read_option. by intros -> ->. Qed.

Lemma field_read {A} (f : V → option A) key (m : gmap string V) v :
  m !! key = Some v → read_field f key m = f v.
Proof using. unfold read_field. by intros ->. Qed.

(** A flag that is not set is left out, and a struct without it is an error. *)
Lemma flag_read key (m : gmap string V) b :
  m !! key = skip_if_false b → read_field deserialize_bool key m = if b then Some true else None.
Proof using L. intros Hm. unfold read_field. rewrite Hm. destruct b; simpl; [apply bool_read|done]. Qed.

(** The fields of a struct that was written. *)
Ltac in_fields := repeat first [apply list_elem_of_here | apply list_elem_of_further].
Ltac read_struct :=
  match goal with
  | |- context [deserialize_struct (struct_of ?fields)] =>
      let m := fresh "m" in let Hm := fresh "Hm" in let Hf := fresh "Hf" in
      destruct (struct_fields fields ltac:(by apply (bool_decide_unpack _))) as (m & Hm & Hf);
      rewrite Hm; cbn -[read_field read_optional lookup]; clear Hm
  end.
Ltac read_fields :=
  repeat match goal with
  | Hf : ∀ key v, (key, v) ∈ _ → ?m !! key = v |- context [read_field deserialize_bool ?key ?m] =>
      rewrite (flag_read key m _ (Hf key _ ltac:(in_fields)))
  | Hf : ∀ key v, (key, v) ∈ _ → ?m !! key = v |- context [read_field ?f ?key ?m] =>
      rewrite (field_read f key m _ (Hf key _ ltac:(in_fields)))
  end; rewrite ?uuid_read, ?u64_read, ?arc_str_read, ?variant_read; cbn -[read_field read_optional lookup].

Lemma generic_read p : deserialize_generic (serialize_generic p) = Some p.
Proof using L.
  unfold deserialize_generic, serialize_generic. read_struct. read_fields. by destruct p.
Qed.

Lemma in_node_read p :
  deserialize_in_node (serialize_in_node p) = if in_dropped_on_arrival p then Some p else None.
Proof using L.
  unfold deserialize_in_node, serialize_in_node. read_struct. read_fields. by destruct p as [? ? ? ? []].
Qed.

Lemma dropped_read p : deserialize_dropped (serialize_dropped p) = Some p.
Proof using L.
  unfold deserialize_dropped, serialize_dropped. read_struct. read_fields. by destruct p as [? ? []].
Qed.

Lemma in_transit_read p : deserialize_in_transit (serialize_in_transit p) = Some p.
Proof using L. unfold deserialize_in_transit, serialize_in_transit. read_struct. read_fields. by destruct p. Qed.

Lemma lost_read p : deserialize_lost (serialize_lost p) = Some p.
Proof using L. unfold deserialize_lost, serialize_lost. read_struct. read_fields. by destruct p. Qed.
Lemma extra_delay_read p v : serialize_extra_delay p = Some v → deserialize_extra_delay v = Some p.
Proof using L.
  intros (d & Hd & [= <-])%bind_Some. unfold deserialize_extra_delay. read_struct. read_fields.
  rewrite (nanos_read _ _ Hd). by destruct p.
Qed.

Lemma node_status_read s :
  read_option (read_variant node_status_of_name) (serialize_str (node_status_name s)) = Some (Some s).
Proof using L. apply option_read; [apply string_not_null|]. rewrite variant_read. by destruct s. Qed.

Lemma link_status_read s :
  read_option (read_variant link_status_of_name) (serialize_str (link_status_name s)) = Some (Some s).
Proof using L. apply option_read; [apply string_not_null|]. rewrite variant_read. by destruct s. Qed.

Lemma node_event_read e :
  deserialize_node_event (serialize_node_event e) = if ne_clear_buffer e then Some e else None.
Proof using L.
  unfold deserialize_node_event, serialize_node_event. read_struct. read_fields.
  erewrite optional_read by (try (apply Hf; in_fields); intros; apply node_status_read).
  by destruct e as [? ? []].
Qed.

(** The ratios of an event that are there read back: those that are not finite do
    not, and how digits are rounded is up to the format. *)
Definition ratio_reads (r : option f64) : Prop :=
  match r with None => True | Some r => read_option deserialize_f64 (serialize_f64 r) = Some (Some r) end.

Definition ratios_read (e : LinkEventPayload) : Prop :=
  ratio_reads (le_extra_delay_ratio e) ∧ ratio_reads (le_packet_duplication_ratio e) ∧
  ratio_reads (le_packet_loss_ratio e) ∧ ratio_reads (le_congestion_event_ratio e).

Lemma ratio_read key (m : gmap string V) r :
  m !! key = skip_if_none serialize_f64 r → read_optional deserialize_f64 key m = Some r ↔ ratio_reads r.
Proof using. intros Hm. unfold read_optional. rewrite Hm. by destruct r. Qed.

Lemma link_event_read e : deserialize_link_event (serialize_link_event e) = Some e ↔ ratios_read e.
Proof using L.
  unfold deserialize_link_event, serialize_link_event, ratios_read. read_struct. read_fields.
  rewrite (optional_read _ _ "status" m _ (Hf "status" _ ltac:(in_fields))) by (intros; apply link_status_read).
  rewrite (optional_read _ _ "bandwidthBps" m _ (Hf "bandwidthBps" _ ltac:(in_fields)))
    by (intros; apply option_read; [apply u64_not_null|apply u64_read]).
  rewrite (optional_read _ _ "delay" m _ (Hf "delay" _ ltac:(in_fields)))
    by (intros; apply option_read; [apply duration_not_null|apply duration_read]).
  rewrite (optional_read _ _ "extraDelay" m _ (Hf "extraDelay" _ ltac:(in_fields)))
    by (intros; apply option_read; [apply duration_not_null|apply duration_read]).
  rewrite <- (ratio_read "extraDelayRatio" m), <- (ratio_read "packetDuplicationRatio" m),
    <- (ratio_read "packetLossRatio" m), <- (ratio_read "congestionEventRatio" m) by (apply Hf; in_fields).
  destruct e as [? ? ? ? ? r1 r2 r3 r4]. simpl. split.
  - intros (x1 & -> & (x2 & -> & (x3 & -> & (x4 & -> & [= -> -> -> ->])%bind_Some)%bind_Some)%bind_Some)%bind_Some.
    done.
  - by intros (-> & -> & -> & ->).
Qed.
Lemma link_field_read l :
  read_option deserialize_link_event (serialize_link_event l) = Some (Some l) ↔ ratios_read l.
Proof using L.
  unfold read_option. rewrite <- link_event_read. rewrite (struct_not_null _ : is_null (serialize_link_event l) = false).
  destruct (deserialize_link_event _); simpl; split; congruence.
Qed.

Lemma node_field_read n :
  read_option deserialize_node_event (serialize_node_event n) =
    if ne_clear_buffer n then Some (Some n) else None.
Proof using L. unfold read_option. rewrite node_event_read. rewrite (struct_not_null _ : is_null (serialize_node_event n) = false). by destruct (ne_clear_buffer n). Qed.

(** What is lost in the log: the flags that are not set. *)
Definition flag_left_out (k : SimulationStepKind) : bool :=
  match k with
  | PacketInNode p => negb (in_dropped_on_arrival p)
  | NetworkEventStep (mkNetEvent _ (Some n)) => negb (ne_clear_buffer n)
  | _ => false
  end.

Definition kind_ratios_read (k : SimulationStepKind) : Prop :=
  match k with NetworkEventStep (mkNetEvent (Some l) _) => ratios_read l | _ => True end.

Lemma network_event_read e :
  (deserialize_network_event (serialize_network_event e) = Some e ↔
    kind_ratios_read (NetworkEventStep e) ∧ flag_left_out (NetworkEventStep e) = false) ∧
  (flag_left_out (NetworkEventStep e) = true → deserialize_network_event (serialize_network_event e) = None).
Proof using L.
  unfold deserialize_network_event, serialize_network_event. read_struct.
  unfold read_optional. rewrite (Hf "link" _ ltac:(in_fields)), (Hf "node" _ ltac:(in_fields)).
  destruct e as [[l|] [n|]]; simpl; rewrite ?node_field_read; [| |by destruct (ne_clear_buffer n); naive_solver|done].
  - rewrite <- link_field_read. destruct (read_option _ _) as [x|]; simpl; destruct (ne_clear_buffer n); naive_solver.
  - rewrite <- link_field_read. destruct (read_option _ _) as [x|]; naive_solver.
Qed.

Lemma kind_read k v :
  kind_data k = Some v →
  (kind_of (kind_name k) v = Some k ↔ kind_ratios_read k ∧ flag_left_out k = false) ∧
  (flag_left_out k = true → kind_of (kind_name k) v = None).
Proof using L.
  destruct k as [p|p|p|p|p|p|p|p|e]; simpl; try (intros [= <-]); try intros Hv; unfold kind_of; simpl.
  - rewrite in_node_read. destruct (in_dropped_on_arrival p); simpl; naive_solver.
  - rewrite dropped_read. naive_solver.
  - rewrite lost_read. naive_solver.
  - rewrite generic_read. naive_solver.
  - rewrite (extra_delay_read _ _ Hv). naive_solver.
  - rewrite generic_read. naive_solver.
  - rewrite in_transit_read. naive_solver.
  - rewrite generic_read. naive_solver.
  - destruct (network_event_read e) as [[H1 H2] H3]. split; [split|].
    + intros (x & Hx & [= ->])%fmap_Some. auto.
    + intros Hk. by rewrite (H2 Hk).
    + intros Hk. by rewrite (H3 Hk).
Qed.

Definition step_reads_back (s : SimulationStep) : Prop :=
  kind_ratios_read (step_kind s) ∧ flag_left_out (step_kind s) = false.

Lemma step_read s v :
  serialize_step s = Some v →
  (deserialize_step v = Some s ↔ step_reads_back s) ∧
  (flag_left_out (step_kind s) = true → deserialize_step v = None).
Proof using L.
  unfold serialize_step. intros (t & Ht & (data & Hd & [= <-])%bind_Some)%bind_Some.
  unfold deserialize_step. read_struct. read_fields. rewrite (nanos_read _ _ Ht). simpl.
  rewrite (Hf "data" _ ltac:(in_fields)). simpl. destruct (kind_read _ _ Hd) as [Hiff Hnone].
  unfold step_reads_back. rewrite <- Hiff. split.
  - destruct (kind_of _ _) as [k|]; simpl; [|done]. destruct s as [t' k']. simpl. split; congruence.
  - intros Hk. by rewrite (Hnone Hk).
Qed.

(** The times and delays of a step fit in the 64 bits they are written with. *)
Definition step_written (s : SimulationStep) : Prop :=
  0 ≤ step_time s < 2 ^ 64 ∧
  match step_kind s with PacketExtraDelay p => 0 ≤ xd_extra_delay p < 2 ^ 64 | _ => True end.

Lemma step_serializes s : step_written s → is_Some (serialize_step s).
Proof using L.
  intros [Ht Hk]. unfold serialize_step. destruct (nanos_written _ Ht) as [t ->]. simpl.
  destruct (step_kind s) as [p|p|p|p|p|p|p|p|e]; simpl; try by eexists.
  unfold serialize_extra_delay. destruct (nanos_written _ Hk) as [d ->]. by eexists.
Qed.

(** C19: A run can store its replay log as long as its times fit in 64 bits of nanoseconds,
    and the stored log reads back as it was exactly if no flag was left out of it and
    the ratios of its events read back.  A log with a flag that is not set, so any log
    in which a packet arrives at a node that is up, cannot be read at all: the flags
    are left out when they are not set, and must be there when the log is read. *)
Theorem log_reads_back steps :
  (Forall step_written steps → is_Some (serialize_log steps)) ∧
  ∀ v, serialize_log steps = Some v →
    (deserialize_log v = Some steps ↔ Forall step_reads_back steps) ∧
    (Exists (λ s, flag_left_out (step_kind s) = true) steps → deserialize_log v = None).
Proof using L.
  unfold serialize_log, deserialize_log. split.
  { intros Hs. apply fmap_is_Some, mapM_is_Some. eapply Forall_impl; [exact Hs|]. apply step_serializes. }
  intros v (l & Hl%mapM_Some & ->)%fmap_Some. rewrite (seq_read l). simpl.
  induction Hl as [|s x steps l Hs Hl IH]; simpl.
  { split; [done|]. by intros ?%Exists_nil. }
  destruct (step_read _ _ Hs) as [Hread Hnone], IH as [Hreads Hnones].
  rewrite Forall_cons, Exists_cons, <- Hread, <- Hreads. clear Hread Hreads. split; [split|].
  - intros (s' & -> & (steps' & -> & [= -> ->])%bind_Some)%bind_Some. done.
  - intros [-> ->]. done.
  - intros [Hf|Hf]; [by rewrite (Hnone Hf)|]. rewrite (Hnones Hf). by destruct (deserialize_step x).
Qed.
End laws.

(** ** A format *)
#[warnings="-register-all"]
Inductive Json : Type :=
  | JNull
  | JBool (b : bool)
  | JInteger (z : Z)
  | JFloat (f : f64)
  | JString (s : string)
  | JArray (l : list Json)
  | JObject (fields : list (string * Json)).

Definition f64_finite (f : f64) : bool :=
  match f with S754_zero _ | S754_finite _ _ _ => true | _ => false end.

#[export] Instance Json_format : Format Json := {|
  serialize_str := JString;
  deserialize_string A visitor v := match v with JString s => visit_str visitor s | _ => None end;
  serialize_bool := JBool;
  deserialize_bool v := match v with JBool b => Some b | _ => None end;
  serialize_u64 := JInteger;
  deserialize_u64 v := match v with JInteger z => Some z | _ => None end;
  serialize_f64 f := if f64_finite f then JFloat f else JNull;
  deserialize_f64 v := match v with JFloat f => Some f | _ => None end;
  serialize_nanos d := if decide (0 ≤ d < 2 ^ 64) then Some (JInteger d) else None;
  deserialize_nanos v := match v with JInteger z => Some z | _ => None end;
  serialize_duration d :=
    JObject [("secs", JInteger (d / 10 ^ 9)); ("nanos", JInteger (d mod 10 ^ 9))];
  deserialize_duration v :=
    match v with
    | JObject [("secs", JInteger s); ("nanos", JInteger n)] => Some (s * 10 ^ 9 + n)
    | _ => None
    end;
  serialize_uuid := JInteger;
  deserialize_uuid v := match v with JInteger z => Some z | _ => None end;
  is_null v := match v with JNull => true | _ => false end;
  serialize_seq := JArray;
  deserialize_seq v := match v with JArray l => Some l | _ => None end;
  serialize_struct := JObject;
  deserialize_struct v := match v with JObject fields => Some (list_to_map fields) | _ => None end;
|}.

#[export] Instance Json_laws : FormatLaws Json.
Proof.
  split; simpl; try done; [by left|..].
  - intros d v. case_decide; [by intros [= <-]|done].
  - intros d Hd. rewrite decide_True by done. by eexists.
  - intros d. f_equal. rewrite Z.mul_comm. symmetry. by apply Z.div_mod.
Qed.

(** A packet that is dropped on arrival, and an event with a ratio; a packet that arrives. *)
Definition sample_log : list SimulationStep :=
  [mkStep 0 (NetworkEventStep (mkNetEvent (Some (mkLinkEvent "A-B" (Some LinkUp) None (Some 7) None
     (Some (f64_of_Z 1)) None None None)) None));
   mkStep 5 (PacketInNode (mkInNode 1 0 30 "A" true));
   mkStep 6 (PacketExtraDelay (mkExtraDelay 1 "A" 12))].
Definition arrival_log : list SimulationStep := [mkStep 5 (PacketInNode (mkInNode 1 0 30 "A" false))].

Lemma log_reads_back_witness :
  serialize_log (V := Json) sample_log ≫= deserialize_log = Some sample_log ∧
  is_Some (serialize_log (V := Json) arrival_log) ∧
  serialize_log (V := Json) arrival_log ≫= deserialize_log = None.
Proof.
  split_and!.
  - refine (proj2 (proj1 (proj2 (log_reads_back (V := Json) sample_log) _ eq_refl)) _). by repeat constructor.
  - refine (proj1 (log_reads_back (V := Json) arrival_log) _). by repeat constructor.
  - refine (proj2 (proj2 (log_reads_back (V := Json) arrival_log) _ eq_refl) _). by repeat constructor.
Defined.
