(* ===== verification/Replayed.v ===== *)
(** * The replayed nodes and links of the verifier

    Models the inner parts of
    [in-memory-network/src/tracing/simulation_verifier.rs]: the error types,
    the error tracker, [ReplayedNode] and [ReplayedLink].

    The error tracker shared by the verifier and its nodes only grows and is
    read once, at the end; a computation returns the errors it tracks, and
    sequencing concatenates them. *)

From S2P Require Import Prelude Event SimStep.

Inductive NonFatalError : Type :=
  | NodeExceedsBufferSize (node_id : string) (buffer_size_bytes max_buffer_usage : Z)
  | NodeDownPacketSend (node_id : string) (packet_id : Z)
  | NodeDownPacketReceive (node_id : string) (packet_id : Z)
  | NodeUpPacketDroppedOnArrival (node_id : string) (packet_id : Z)
  | PacketSurvivedBufferCorruption (node_id : string) (packet_id : Z)
  | PacketCreatedByRouterNode (node_id : string) (packet_id : Z)
  | MissingLostPacket (packet_id : Z)
  | OfflinePacketSend (node_id link_id : string)
  | DisconnectedPacketSend (node_id link_id : string)
  | DisconnectedPacketReceive (node_id link_id : string)
  | TooFastPacketReceive (node_id link_id : string)
  | OfflinePacketReceive (node_id link_id : string) (packet_sent_ns link_last_down_ns : Z)
  | LinkBandwidthExceeded (node_id link_id : string) (packet_id max_bps observed_bps : Z).

Inductive FatalError : Type :=
  | MissingNode (node_id : string)
  | MissingLink (link_id : string)
  | MissingPacket (packet_id : Z)
  | PacketAlreadyReceived (packet_id : Z).

#[export] Instance NonFatalError_eq_dec : EqDecision NonFatalError.
Proof. solve_decision. Defined.

(** ** Verifier computations over a state [S] *)
Definition VM (S A : Type) : Type := S → outcome FatalError A * S * list NonFatalError.

#[export] Instance VM_ret {S} : MRet (VM S) := λ A a s, (Ok a, s, []).
#[export] Instance VM_bind {S} : MBind (VM S) := λ A B f m s,
  match m s with
  | (Ok a, s', w) => let '(r, s'', w') := f a s' in (r, s'', w ++ w')
  | (Err e, s', w) => (Err e, s', w)
  | (Panic, s', w) => (Panic, s', w)
  end.

Definition track {S} (e : NonFatalError) : VM S () := λ s, (Ok (), s, [e]).
Definition track_if {S} (b : bool) (e : NonFatalError) : VM S () :=
  if b then track e else mret ().
Definition get {S} : VM S S := λ s, (Ok s, s, []).
Definition modify {S} (f : S → S) : VM S () := λ s, (Ok (), f s, []).
(** [try_fatal!], the [?] operator, and panics *)
Definition lift {S A} (o : outcome FatalError A) : VM S A := λ s, (o, s, []).

(** ** [ReplayedNode] *)
Record ReplayedPacket : Type := mkReplayedPacket {
  rp_arrived_at : Z;
  rp_size_bytes : Z;
  rp_extra_delay : Z;
}.

Record ReplayedNode : Type := mkReplayedNode {
  rn_id : string;
  rn_status : UpdateNodeStatus;
  rn_last_down : option Z;
  rn_last_buffer_clear : option Z;
  rn_packets : gmap Z ReplayedPacket;
  rn_highest_received : Z;
  rn_sent : PacketStats;
  rn_received : PacketStats;
  rn_reordered : PacketStats;
  rn_ecn : PacketStats;
  rn_duplicated : PacketStats;
  rn_dropped_injected : PacketStats;
  rn_dropped_buffer_full : PacketStats;
  rn_dropped_buffer_cleared : PacketStats;
  rn_dropped_down : PacketStats;
  rn_buffer_usage : Z;
  rn_max_buffer_usage : Z;
}.

Definition set_rn_status (v : UpdateNodeStatus) (r : ReplayedNode) : ReplayedNode :=
  mkReplayedNode (rn_id r) v (rn_last_down r) (rn_last_buffer_clear r) (rn_packets r)
    (rn_highest_received r) (rn_sent r) (rn_received r) (rn_reordered r) (rn_ecn r)
    (rn_duplicated r) (rn_dropped_injected r) (rn_dropped_buffer_full r)
    (rn_dropped_buffer_cleared r) (rn_dropped_down r) (rn_buffer_usage r)
    (rn_max_buffer_usage r).
Definition set_rn_last_down (v : option Z) (r : ReplayedNode) : ReplayedNode :=
  mkReplayedNode (rn_id r) (rn_status r) v (rn_last_buffer_clear r) (rn_packets r)
    (rn_highest_received r) (rn_sent r) (rn_received r) (rn_reordered r) (rn_ecn r)
    (rn_duplicated r) (rn_dropped_injected r) (rn_dropped_buffer_full r)
    (rn_dropped_buffer_cleared r) (rn_dropped_down r) (rn_buffer_usage r)
    (rn_max_buffer_usage r).
Definition set_rn_last_buffer_clear (v : option Z) (r : ReplayedNode) : ReplayedNode :=
  mkReplayedNode (rn_id r) (rn_status r) (rn_last_down r) v (rn_packets r)
    (rn_highest_received r) (rn_sent r) (rn_received r) (rn_reordered r) (rn_ecn r)
    (rn_duplicated r) (rn_dropped_injected r) (rn_dropped_buffer_full r)
    (rn_dropped_buffer_cleared r) (rn_dropped_down r) (rn_buffer_usage r)
    (rn_max_buffer_usage r).
Definition set_rn_packets (v : gmap Z ReplayedPacket) (r : ReplayedNode) : ReplayedNode :=
  mkReplayedNode (rn_id r) (rn_status r) (rn_last_down r) (rn_last_buffer_clear r) v
    (rn_highest_received r) (rn_sent r) (rn_received r) (rn_reordered r) (rn_ecn r)
    (rn_duplicated r) (rn_dropped_injected r) (rn_dropped_buffer_full r)
    (rn_dropped_buffer_cleared r) (rn_dropped_down r) (rn_buffer_usage r)
    (rn_max_buffer_usage r).
Definition set_rn_highest_received (v : Z) (r : ReplayedNode) : ReplayedNode :=
  mkReplayedNode (rn_id r) (rn_status r) (rn_last_down r) (rn_last_buffer_clear r)
    (rn_packets r) v (rn_sent r) (rn_received r) (rn_reordered r) (rn_ecn r) (rn_duplicated
    r) (rn_dropped_injected r) (rn_dropped_buffer_full r) (rn_dropped_buffer_cleared r)
    (rn_dropped_down r) (rn_buffer_usage r) (rn_max_buffer_usage r).
Definition set_rn_sent (v : PacketStats) (r : ReplayedNode) : ReplayedNode :=
  mkReplayedNode (rn_id r) (rn_status r) (rn_last_down r) (rn_last_buffer_clear r)
    (rn_packets r) (rn_highest_received r) v (rn_received r) (rn_reordered r) (rn_ecn r)
    (rn_duplicated r) (rn_dropped_injected r) (rn_dropped_buffer_full r)
    (rn_dropped_buffer_cleared r) (rn_dropped_down r) (rn_buffer_usage r)
    (rn_max_buffer_usage r).
Definition set_rn_received (v : PacketStats) (r : ReplayedNode) : ReplayedNode :=
  mkReplayedNode (rn_id r) (rn_status r) (rn_last_down r) (rn_last_buffer_clear r)
    (rn_packets r) (rn_highest_received r) (rn_sent r) v (rn_reordered r) (rn_ecn r)
    (rn_duplicated r) (rn_dropped_injected r) (rn_dropped_buffer_full r)
    (rn_dropped_buffer_cleared r) (rn_dropped_down r) (rn_buffer_usage r)
    (rn_max_buffer_usage r).
Definition set_rn_reordered (v : PacketStats) (r : ReplayedNode) : ReplayedNode :=
  mkReplayedNode (rn_id r) (rn_status r) (rn_last_down r) (rn_last_buffer_clear r)
    (rn_packets r) (rn_highest_received r) (rn_sent r) (rn_received r) v (rn_ecn r)
    (rn_duplicated r) (rn_dropped_injected r) (rn_dropped_buffer_full r)
    (rn_dropped_buffer_cleared r) (rn_dropped_down r) (rn_buffer_usage r)
    (rn_max_buffer_usage r).
Definition set_rn_ecn (v : PacketStats) (r : ReplayedNode) : ReplayedNode :=
  mkReplayedNode (rn_id r) (rn_status r) (rn_last_down r) (rn_last_buffer_clear r)
    (rn_packets r) (rn_highest_received r) (rn_sent r) (rn_received r) (rn_reordered r) v
    (rn_duplicated r) (rn_dropped_injected r) (rn_dropped_buffer_full r)
    (rn_dropped_buffer_cleared r) (rn_dropped_down r) (rn_buffer_usage r)
    (rn_max_buffer_usage r).
Definition set_rn_duplicated (v : PacketStats) (r : ReplayedNode) : ReplayedNode :=
  mkReplayedNode (rn_id r) (rn_status r) (rn_last_down r) (rn_last_buffer_clear r)
    (rn_packets r) (rn_highest_received r) (rn_sent r) (rn_received r) (rn_reordered r)
    (rn_ecn r) v (rn_dropped_injected r) (rn_dropped_buffer_full r)
    (rn_dropped_buffer_cleared r) (rn_dropped_down r) (rn_buffer_usage r)
    (rn_max_buffer_usage r).
Definition set_rn_dropped_injected (v : PacketStats) (r : ReplayedNode) : ReplayedNode :=
  mkReplayedNode (rn_id r) (rn_status r) (rn_last_down r) (rn_last_buffer_clear r)
    (rn_packets r) (rn_highest_received r) (rn_sent r) (rn_received r) (rn_reordered r)
    (rn_ecn r) (rn_duplicated r) v (rn_dropped_buffer_full r) (rn_dropped_buffer_cleared r)
    (rn_dropped_down r) (rn_buffer_usage r) (rn_max_buffer_usage r).
Definition set_rn_dropped_buffer_full (v : PacketStats) (r : ReplayedNode) : ReplayedNode :=
  mkReplayedNode (rn_id r) (rn_status r) (rn_last_down r) (rn_last_buffer_clear r)
    (rn_packets r) (rn_highest_received r) (rn_sent r) (rn_received r) (rn_reordered r)
    (rn_ecn r) (rn_duplicated r) (rn_dropped_injected r) v (rn_dropped_buffer_cleared r)
    (rn_dropped_down r) (rn_buffer_usage r) (rn_max_buffer_usage r).
Definition set_rn_dropped_buffer_cleared (v : PacketStats) (r : ReplayedNode) : ReplayedNode :=
  mkReplayedNode (rn_id r) (rn_status r) (rn_last_down r) (rn_last_buffer_clear r)
    (rn_packets r) (rn_highest_received r) (rn_sent r) (rn_received r) (rn_reordered r)
    (rn_ecn r) (rn_duplicated r) (rn_dropped_injected r) (rn_dropped_buffer_full r) v
    (rn_dropped_down r) (rn_buffer_usage r) (rn_max_buffer_usage r).
Definition set_rn_dropped_down (v : PacketStats) (r : ReplayedNode) : ReplayedNode :=
  mkReplayedNode (rn_id r) (rn_status r) (rn_last_down r) (rn_last_buffer_clear r)
    (rn_packets r) (rn_highest_received r) (rn_sent r) (rn_received r) (rn_reordered r)
    (rn_ecn r) (rn_duplicated r) (rn_dropped_injected r) (rn_dropped_buffer_full r)
    (rn_dropped_buffer_cleared r) v (rn_buffer_usage r) (rn_max_buffer_usage r).
Definition set_rn_buffer_usage (v : Z) (r : ReplayedNode) : ReplayedNode :=
  mkReplayedNode (rn_id r) (rn_status r) (rn_last_down r) (rn_last_buffer_clear r)
    (rn_packets r) (rn_highest_received r) (rn_sent r) (rn_received r) (rn_reordered r)
    (rn_ecn r) (rn_duplicated r) (rn_dropped_injected r) (rn_dropped_buffer_full r)
    (rn_dropped_buffer_cleared r) (rn_dropped_down r) v (rn_max_buffer_usage r).
Definition set_rn_max_buffer_usage (v : Z) (r : ReplayedNode) : ReplayedNode :=
  mkReplayedNode (rn_id r) (rn_status r) (rn_last_down r) (rn_last_buffer_clear r)
    (rn_packets r) (rn_highest_received r) (rn_sent r) (rn_received r) (rn_reordered r)
    (rn_ecn r) (rn_duplicated r) (rn_dropped_injected r) (rn_dropped_buffer_full r)
    (rn_dropped_buffer_cleared r) (rn_dropped_down r) (rn_buffer_usage r) v.

Definition ReplayedNode_new (id : string) : ReplayedNode :=
  mkReplayedNode id NodeUp None None ∅ 0
    stats_default stats_default stats_default stats_default stats_default
    stats_default stats_default stats_default stats_default 0 0.

Definition handle_event (event : NodeEventPayload) (now : Z) (n : ReplayedNode) : ReplayedNode :=
  let n :=
    match ne_status event with
    | Some status =>
        let n := match status with
                 | NodeDown => set_rn_last_down (Some now) n
                 | NodeUp => n
                 end in
        set_rn_status status n
    | None => n
    end in
  if ne_clear_buffer event then set_rn_last_buffer_clear (Some now) n else n.

Definition is_node_down (s : UpdateNodeStatus) : bool :=
  match s with NodeDown => true | NodeUp => false end.

Definition add_packet_to_buffer (packet_id size_bytes now : Z) : VM ReplayedNode () :=
  n ← get;
  _ ← track_if (is_node_down (rn_status n)) (NodeDownPacketReceive (rn_id n) packet_id);
  let already_exists := bool_decide (is_Some (rn_packets n !! packet_id)) in
  _ ← modify (set_rn_packets
        (<[packet_id := mkReplayedPacket now size_bytes 0]> (rn_packets n)));
  if already_exists then lift (Err (PacketAlreadyReceived packet_id))
  else modify (λ n, set_rn_buffer_usage (wrap64 (rn_buffer_usage n + size_bytes)) n).

Definition remove_packet_from_buffer (packet_id : Z) : VM ReplayedNode ReplayedPacket :=
  n ← get;
  match rn_packets n !! packet_id with
  | Some packet =>
      _ ← modify (set_rn_packets (delete packet_id (rn_packets n)));
      usage ← lift (unwrap (checked_sub (rn_buffer_usage n) (rp_size_bytes packet)));
      _ ← modify (set_rn_buffer_usage usage);
      mret packet
  | None => lift (Err (MissingPacket packet_id))
  end.

Definition packet_created (s : PacketInNode_) (now : Z) : VM ReplayedNode () :=
  add_packet_to_buffer (in_packet_id s) (in_packet_size_bytes s) now.

Definition packet_received (s : PacketInNode_) (now : Z) : VM ReplayedNode () :=
  _ ← modify (λ n, set_rn_received (track_one (in_packet_size_bytes s) (rn_received n)) n);
  _ ← modify (λ n,
        if in_packet_number s <? rn_highest_received n
        then set_rn_reordered (track_one (in_packet_size_bytes s) (rn_reordered n)) n
        else n);
  _ ← modify (λ n,
        set_rn_highest_received (Z.max (rn_highest_received n) (in_packet_number s)) n);
  if in_dropped_on_arrival s then
    _ ← modify (λ n,
          set_rn_dropped_down (track_one (in_packet_size_bytes s) (rn_dropped_down n)) n);
    n ← get;
    track_if (negb (is_node_down (rn_status n)))
      (NodeUpPacketDroppedOnArrival (rn_id n) (in_packet_id s))
  else add_packet_to_buffer (in_packet_id s) (in_packet_size_bytes s) now.

Definition packet_duplicated (s : GenericPacketEvent) (now : Z) : VM ReplayedNode () :=
  _ ← modify (λ n, set_rn_duplicated (track_one (g_packet_size_bytes s) (rn_duplicated n)) n);
  add_packet_to_buffer (g_packet_id s) (g_packet_size_bytes s) now.

Definition survived_clear (last_buffer_clear : option Z) (arrived_at : Z) : bool :=
  match last_buffer_clear with Some t => arrived_at <? t | None => false end.

Definition packet_sent (packet_id : Z) : VM ReplayedNode ReplayedPacket :=
  n ← get;
  _ ← track_if (is_node_down (rn_status n)) (NodeDownPacketSend (rn_id n) packet_id);
  packet ← remove_packet_from_buffer packet_id;
  _ ← modify (λ n, set_rn_sent (track_one (rp_size_bytes packet) (rn_sent n)) n);
  n ← get;
  _ ← track_if (survived_clear (rn_last_buffer_clear n) (rp_arrived_at packet))
        (PacketSurvivedBufferCorruption (rn_id n) packet_id);
  mret packet.

Definition packet_delivered_to_app_layer (packet_id : Z) : VM ReplayedNode ReplayedPacket :=
  remove_packet_from_buffer packet_id.

Definition packet_dropped (s : PacketDropped_) : VM ReplayedNode () :=
  packet ← remove_packet_from_buffer (dr_packet_id s);
  let size := rp_size_bytes packet in
  match dr_reason s with
  | Random => modify (λ n, set_rn_dropped_injected (track_one size (rn_dropped_injected n)) n)
  | BufferFull =>
      modify (λ n, set_rn_dropped_buffer_full (track_one size (rn_dropped_buffer_full n)) n)
  | BufferCleared =>
      modify (λ n,
        set_rn_dropped_buffer_cleared (track_one size (rn_dropped_buffer_cleared n)) n)
  end.

Definition packet_ecn (s : GenericPacketEvent) (n : ReplayedNode) : ReplayedNode :=
  set_rn_ecn (track_one (g_packet_size_bytes s) (rn_ecn n)) n.

Definition packet_has_extra_delay (packet_id delay : Z) : VM ReplayedNode () :=
  n ← get;
  match rn_packets n !! packet_id with
  | Some packet =>
      modify (set_rn_packets
        (<[packet_id := mkReplayedPacket (rp_arrived_at packet) (rp_size_bytes packet) delay]>
          (rn_packets n)))
  | None => lift (Err (MissingPacket packet_id))
  end.

(** [ReplayedNode::update_max_buffer_usage]; the result is the new maximum. *)
Definition node_update_max_buffer_usage (n : ReplayedNode) : ReplayedNode :=
  set_rn_max_buffer_usage (Z.max (rn_buffer_usage n) (rn_max_buffer_usage n)) n.

(** ** [ReplayedLink] *)
Record ReplayedLink : Type := mkReplayedLink {
  rl_status : UpdateLinkStatus;
  rl_last_down_relative : option Z;
  rl_bandwidth_usage_bps : Z;
  rl_packets_in_bandwidth_window : list (Z * Z);
  rl_max_bandwidth_usage_bps : Z;
}.

Definition ReplayedLink_default : ReplayedLink := mkReplayedLink LinkUp None 0 [] 0.

Definition is_up (l : ReplayedLink) : bool :=
  match rl_status l with LinkUp => true | LinkDown => false end.

Definition last_down (l : ReplayedLink) : option Z := rl_last_down_relative l.

Definition set_status (status : UpdateLinkStatus) (timestamp_relative : Z)
    (l : ReplayedLink) : ReplayedLink :=
  mkReplayedLink status
    (match status with
     | LinkDown => Some timestamp_relative
     | LinkUp => rl_last_down_relative l
     end)
    (rl_bandwidth_usage_bps l) (rl_packets_in_bandwidth_window l)
    (rl_max_bandwidth_usage_bps l).

Definition window_seconds (link_bandwidth_bps : Z) : Z :=
  if link_bandwidth_bps <? 9984 then 10 else 1.

(** The loop that drops the packets which have fallen out of the window. *)
Fixpoint expire_window {E} (window_ns packet_sent_time usage : Z) (w : list (Z * Z))
    : outcome E (Z * list (Z * Z)) :=
  match w with
  | [] => Ok (usage, [])
  | (sent, bits) :: w' =>
      expires ← dur_add sent window_ns;
      if expires <? packet_sent_time
      then expire_window window_ns packet_sent_time (wrap64 (usage - bits)) w'
      else Ok (usage, w)
  end.

(** [ReplayedLink::packet_sent] *)
Definition link_packet_sent {E} (packet_sent_time packet_size_bytes link_bandwidth_bps : Z)
    (l : ReplayedLink) : outcome E (Z * ReplayedLink) :=
  let secs := window_seconds link_bandwidth_bps in
  '(usage, window) ← expire_window (from_secs secs) packet_sent_time
      (rl_bandwidth_usage_bps l) (rl_packets_in_bandwidth_window l);
  let packet_size_bits := wrap64 (packet_size_bytes * 8) in
  let window := window ++ [(packet_sent_time, packet_size_bits)] in
  let usage := wrap64 (usage + packet_size_bits) in
  let bandwidth_usage := usage / secs in
  Ok (bandwidth_usage,
      mkReplayedLink (rl_status l) (rl_last_down_relative l) usage window
        (Z.max (rl_max_bandwidth_usage_bps l) bandwidth_usage)).
