(* ===== verification/Verifier.v ===== *)
(** * The simulation verifier

    Models [SimulationVerifier] of
    [in-memory-network/src/tracing/simulation_verifier.rs]: its construction
    from a replay log and a network specification, and [verify]. *)

From S2P Require Import Prelude Float Ip Spec Event SimStep Replayed.

Record InFlightPacket : Type := mkInFlight {
  if_size_bytes : Z;
  if_sent_at_relative : Z;
  if_extra_delay : Z;
  if_link_id : string;
}.

Record LinkMetadata : Type := mkLinkMetadata {
  lm_source_node_id : string;
  lm_target_node_id : string;
  lm_delay : Z;
  lm_bandwidth_bps : Z;
}.

Record NodeMetadata : Type := mkNodeMetadata { nm_buffer_size_bytes : Z }.

(** [v_node_order] is the order in which the [nodes] hash map is iterated; it
    is fixed because no node is added or removed after construction.  The
    [steps] are an argument of [verify]. *)
Record SimulationVerifier : Type := mkVerifier {
  v_nodes : gmap string ReplayedNode;
  v_links : gmap string ReplayedLink;
  v_in_flight_packets : gmap Z InFlightPacket;
  v_host_nodes : gset string;
  v_node_metadata : gmap string NodeMetadata;
  v_link_metadata : gmap string LinkMetadata;
  v_node_order : list string;
}.

Definition set_v_nodes (v : gmap string ReplayedNode) (r : SimulationVerifier) : SimulationVerifier :=
  mkVerifier v (v_links r) (v_in_flight_packets r) (v_host_nodes r) (v_node_metadata r)
    (v_link_metadata r) (v_node_order r).
Definition set_v_links (v : gmap string ReplayedLink) (r : SimulationVerifier) : SimulationVerifier :=
  mkVerifier (v_nodes r) v (v_in_flight_packets r) (v_host_nodes r) (v_node_metadata r)
    (v_link_metadata r) (v_node_order r).
Definition set_v_in_flight_packets (v : gmap Z InFlightPacket) (r : SimulationVerifier) : SimulationVerifier :=
  mkVerifier (v_nodes r) (v_links r) v (v_host_nodes r) (v_node_metadata r)
    (v_link_metadata r) (v_node_order r).

Inductive NewError : Type :=
  | AddressMappedTwice (addr : Ipv4Cidr) (node_id existing : string)
  | NoSourceNode (link_id : string)
  | NoTargetNode (link_id : string).

(** ** [SimulationVerifier::new] *)

(** The inner loops over one node's interfaces and addresses. *)
Definition new_addresses (node_id : string) (addrs : list Ipv4Cidr)
    (ip_to_node : gmap IpAddr string) : outcome NewError (gmap IpAddr string) :=
  foldM (λ m addr,
    let existing := m !! as_ip_addr addr in
    let m := <[as_ip_addr addr := node_id]> m in
    match existing with
    | Some existing =>
        if decide (existing = node_id) then Ok m
        else Err (AddressMappedTwice addr node_id existing)
    | None => Ok m
    end) addrs ip_to_node.

Record NewNodes : Type := mkNewNodes {
  nn_nodes : gmap string ReplayedNode;
  nn_metadata : gmap string NodeMetadata;
  nn_hosts : gset string;
  nn_ips : gmap IpAddr string;
}.

Definition new_node (acc : NewNodes) (node : NetworkNodeSpec) : outcome NewError NewNodes :=
  let id := Spec.node_id node in
  let hosts := match kind node with
               | Host => {[id]} ∪ nn_hosts acc
               | Router => nn_hosts acc
               end in
  let metadata := <[id := mkNodeMetadata (buffer_size_bytes node)]> (nn_metadata acc) in
  ips ← new_addresses id (i ← interfaces node; Spec.addresses i) (nn_ips acc);
  Ok (mkNewNodes (<[id := ReplayedNode_new id]> (nn_nodes acc)) metadata hosts ips).

Definition new_link (ips : gmap IpAddr string)
    (acc : gmap string ReplayedLink * gmap string LinkMetadata) (link : NetworkLinkSpec)
    : outcome NewError (gmap string ReplayedLink * gmap string LinkMetadata) :=
  let id := Spec.link_id link in
  source_id ← ok_or (ips !! source link) (NoSourceNode id);
  target_id ← ok_or (ips !! target link) (NoTargetNode id);
  Ok (<[id := ReplayedLink_default]> acc.1,
      <[id := mkLinkMetadata source_id target_id (delay link) (bandwidth_bps link)]> acc.2).

(** [hash_order] gives the iteration order of a hash map from its keys. *)
Definition verifier_new (hash_order : gset string → list string)
    (steps : list SimulationStep) (spec : NetworkSpec)
    : outcome NewError (list SimulationStep * SimulationVerifier) :=
  let steps :=
    if negb (is_sorted_by_key step_time steps) then sort_by_key step_time steps else steps in
  acc ← foldM new_node (nodes spec) (mkNewNodes ∅ ∅ ∅ ∅);
  '(replayed_links, link_metadata) ← foldM (new_link (nn_ips acc)) (links spec) (∅, ∅);
  Ok (steps,
      mkVerifier (nn_nodes acc) replayed_links ∅ (nn_hosts acc) (nn_metadata acc)
        link_metadata (hash_order (dom (nn_nodes acc)))).

(** ** [SimulationVerifier::verify] *)
Abbreviation V := (VM SimulationVerifier).

(** [self.node(id)?] followed by a method call on the node *)
Definition on_node {A} (node_id : string) (m : VM ReplayedNode A) : V A := λ v,
  match v_nodes v !! node_id with
  | Some node =>
      let '(r, node', w) := m node in (r, set_v_nodes (<[node_id := node']> (v_nodes v)) v, w)
  | None => (Err (MissingNode node_id), v, [])
  end.

(** [self.link(id)?] *)
Definition get_link (link_id : string) : V ReplayedLink :=
  v ← get; lift (ok_or (v_links v !! link_id) (MissingLink link_id)).

Definition put_link (link_id : string) (l : ReplayedLink) : V () :=
  modify (λ v, set_v_links (<[link_id := l]> (v_links v)) v).

Fixpoint update_max_buffer_usage_loop (ids : list string) : V (option NonFatalError) :=
  match ids with
  | [] => mret None
  | id :: ids' =>
      v ← get;
      match v_nodes v !! id with
      | None => update_max_buffer_usage_loop ids'
      | Some node =>
          let node := node_update_max_buffer_usage node in
          _ ← modify (set_v_nodes (<[id := node]> (v_nodes v)));
          md ← lift (unwrap (v_node_metadata v !! id));
          if nm_buffer_size_bytes md <? rn_max_buffer_usage node
          then mret (Some (NodeExceedsBufferSize id (nm_buffer_size_bytes md)
                             (rn_max_buffer_usage node)))
          else update_max_buffer_usage_loop ids'
      end
  end.

Definition update_max_buffer_usage : V (option NonFatalError) :=
  v ← get; update_max_buffer_usage_loop (v_node_order v).

(** [if let Err(e) = self.update_max_buffer_usage() { track(e) }] *)
Definition check_buffers : V () :=
  r ← update_max_buffer_usage;
  match r with Some e => track e | None => mret () end.

Definition verify_packet_in_node (time : Z) (s : PacketInNode_) : V () :=
  v ← get;
  match v_in_flight_packets v !! in_packet_id s with
  | Some in_flight =>
      let link_id := if_link_id in_flight in
      let sent := if_sent_at_relative in_flight in
      _ ← modify (set_v_in_flight_packets (delete (in_packet_id s) (v_in_flight_packets v)));
      link_metadata ← lift (unwrap (v_link_metadata v !! link_id));
      _ ← track_if (negb (bool_decide (in_node_id s = lm_target_node_id link_metadata)))
            (DisconnectedPacketReceive (in_node_id s) link_id);
      time_in_flight ← lift (dur_sub time sent);
      needed ← lift (dur_add (lm_delay link_metadata) (if_extra_delay in_flight));
      _ ← track_if (time_in_flight <? needed) (TooFastPacketReceive (in_node_id s) link_id);
      link ← get_link link_id;
      _ ← match last_down link with
          | Some last_down_relative =>
              track_if (sent <=? last_down_relative)
                (OfflinePacketReceive (in_node_id s) link_id sent last_down_relative)
          | None => mret ()
          end;
      on_node (in_node_id s) (packet_received s time)
  | None =>
      _ ← track_if (negb (bool_decide (in_node_id s ∈ v_host_nodes v)))
            (PacketCreatedByRouterNode (in_node_id s) (in_packet_id s));
      on_node (in_node_id s) (packet_created s time)
  end.

Definition verify_packet_in_transit (time : Z) (s : PacketInTransit_) : V () :=
  packet ← on_node (tr_node_id s) (packet_sent (tr_packet_id s));
  v ← get;
  link_metadata ← lift (ok_or (v_link_metadata v !! tr_link_id s) (MissingLink (tr_link_id s)));
  _ ← track_if (negb (bool_decide (tr_node_id s = lm_source_node_id link_metadata)))
        (DisconnectedPacketSend (tr_node_id s) (tr_link_id s));
  link ← get_link (tr_link_id s);
  _ ← track_if (negb (is_up link)) (OfflinePacketSend (tr_node_id s) (tr_link_id s));
  '(used_bandwidth_bps, link) ← lift (link_packet_sent time (rp_size_bytes packet)
      (lm_bandwidth_bps link_metadata) link);
  _ ← put_link (tr_link_id s) link;
  _ ← track_if (lm_bandwidth_bps link_metadata <? used_bandwidth_bps)
        (LinkBandwidthExceeded (tr_node_id s) (tr_link_id s) (tr_packet_id s)
           (lm_bandwidth_bps link_metadata) used_bandwidth_bps);
  modify (λ v, set_v_in_flight_packets
    (<[tr_packet_id s :=
         mkInFlight (rp_size_bytes packet) time (rp_extra_delay packet) (tr_link_id s)]>
      (v_in_flight_packets v)) v).

Definition verify_network_event (time : Z) (e : NetworkEvent_) : V () :=
  _ ← match ev_link e with
      | Some link_payload =>
          match le_status link_payload with
          | Some status =>
              link ← get_link (le_link_id link_payload);
              put_link (le_link_id link_payload) (set_status status time link)
          | None => mret ()
          end
      | None => mret ()
      end;
  match ev_node e with
  | Some node_payload =>
      on_node (ne_node_id node_payload) (modify (handle_event node_payload time))
  | None => mret ()
  end.

(** One step's [match]; the second component is the [stats_by_link] local. *)
Definition verify_kind (time : Z) (kind : SimulationStepKind)
    (stats_by_link : gmap string LinkStats) : V (gmap string LinkStats) :=
  match kind with
  | PacketInNode s => _ ← verify_packet_in_node time s; mret stats_by_link
  | PacketDuplicated s =>
      _ ← on_node (g_node_id s) (packet_duplicated s time); mret stats_by_link
  | PacketDropped s => _ ← on_node (dr_node_id s) (packet_dropped s); mret stats_by_link
  | PacketLostInTransit s =>
      v ← get;
      match v_in_flight_packets v !! lo_packet_id s with
      | Some packet =>
          _ ← modify (set_v_in_flight_packets (delete (lo_packet_id s) (v_in_flight_packets v)));
          let entry := default linkstats_default (stats_by_link !! lo_link_id s) in
          mret (<[lo_link_id s :=
                   mkLinkStats (track_one (if_size_bytes packet) (dropped_in_transit entry))
                     (max_used_bandwidth_bps entry)]> stats_by_link)
      | None => _ ← track (MissingLostPacket (lo_packet_id s)); mret stats_by_link
      end
  | PacketInTransit s => _ ← verify_packet_in_transit time s; mret stats_by_link
  | PacketCongestionEvent s =>
      _ ← on_node (g_node_id s) (modify (packet_ecn s)); mret stats_by_link
  | PacketDeliveredToApplication s =>
      _ ← on_node (g_node_id s) (packet_delivered_to_app_layer (g_packet_id s));
      mret stats_by_link
  | PacketExtraDelay s =>
      _ ← on_node (xd_node_id s) (packet_has_extra_delay (xd_packet_id s) (xd_extra_delay s));
      mret stats_by_link
  | NetworkEventStep e => _ ← verify_network_event time e; mret stats_by_link
  end.

(** The mutable locals of [verify]. *)
Record Locals : Type := mkLocals {
  last_step_time : Z;
  last_buffer_usage_update : option Z;
  stats_by_link : gmap string LinkStats;
}.

Definition locals_init : Locals := mkLocals 0 None ∅.

Definition verify_step (l : Locals) (step : SimulationStep) : V Locals :=
  '(t, u) ←
    (if negb (step_time step =? last_step_time l) then
       _ ← check_buffers; mret (step_time step, Some (last_step_time l))
     else mret (last_step_time l, last_buffer_usage_update l));
  stats ← verify_kind (step_time step) (step_kind step) (stats_by_link l);
  mret (mkLocals t u stats).

Fixpoint verify_steps (steps : list SimulationStep) (l : Locals) : V Locals :=
  match steps with
  | [] => mret l
  | step :: steps' => l' ← verify_step l step; verify_steps steps' l'
  end.

Definition verify_all (steps : list SimulationStep) : V Locals :=
  l ← verify_steps steps locals_init;
  _ ← (if bool_decide (last_buffer_usage_update l ≠ Some (last_step_time l))
       then check_buffers else mret ());
  mret l.

Record VerifiedSimulation : Type := mkVerified {
  stats_by_node_ : gmap string NodeStats;
  stats_by_link_ : gmap string LinkStats;
  non_fatal_errors : list NonFatalError;
}.

Record InvalidSimulation : Type := mkInvalid {
  fatal_error : option FatalError;
  inv_non_fatal_errors : list NonFatalError;
}.

Definition node_stats (v : ReplayedNode) : NodeStats :=
  mkNodeStats (rn_sent v) (rn_received v) (rn_dropped_down v) (rn_dropped_injected v)
    (rn_dropped_buffer_full v) (rn_dropped_buffer_cleared v) (rn_duplicated v)
    (rn_reordered v) (rn_ecn v) (rn_max_buffer_usage v).

(** [stats_by_link.entry(id).or_default().max_used_bandwidth_bps = ..] for
    every link *)
Definition link_stats (links : gmap string ReplayedLink) (stats : gmap string LinkStats)
    : gmap string LinkStats :=
  merge (λ link entry,
    match link with
    | Some l =>
        Some (mkLinkStats (dropped_in_transit (default linkstats_default entry))
                (rl_max_bandwidth_usage_bps l))
    | None => entry
    end) links stats.

Definition verify (steps : list SimulationStep) (v : SimulationVerifier)
    : outcome InvalidSimulation VerifiedSimulation :=
  match verify_all steps v with
  | (Ok l, v', errors) =>
      Ok (mkVerified (node_stats <$> v_nodes v')
            (link_stats (v_links v') (stats_by_link l)) errors)
  | (Err e, _, errors) => Err (mkInvalid (Some e) errors)
  | (Panic, _, _) => Panic
  end.
