(* ===== verification/History.v ===== *)
(** * Reading a replay log

    What a replay log says about the network, defined on the log alone and
    independently of the verifier: the status of links and nodes, the packets
    stored in a node, the packets in flight and the traffic of a link.  A
    history is a log read backwards, its most recent step first. *)

From S2P Require Import Prelude Event SimStep Replayed Verifier.

Definition history := list SimulationStep.

(** The status an event of [s] sets for link [l]. *)
Definition link_event (s : SimulationStep) (l : string) : option UpdateLinkStatus :=
  match step_kind s with
  | NetworkEventStep e =>
      p ← ev_link e; if decide (le_link_id p = l) then le_status p else None
  | _ => None
  end.

Definition node_event (s : SimulationStep) (n : string) : option NodeEventPayload :=
  match step_kind s with
  | NetworkEventStep e =>
      p ← ev_node e; if decide (ne_node_id p = n) then Some p else None
  | _ => None
  end.

(** Links and nodes are up until an event says otherwise. *)
Fixpoint link_status_at (h : history) (l : string) : UpdateLinkStatus :=
  match h with
  | [] => LinkUp
  | s :: h' => default (link_status_at h' l) (link_event s l)
  end.

Fixpoint link_last_down (h : history) (l : string) : option Z :=
  match h with
  | [] => None
  | s :: h' =>
      match link_event s l with
      | Some LinkDown => Some (step_time s)
      | _ => link_last_down h' l
      end
  end.

Fixpoint node_status_at (h : history) (n : string) : UpdateNodeStatus :=
  match h with
  | [] => NodeUp
  | s :: h' => default (node_status_at h' n) (p ← node_event s n; ne_status p)
  end.

Fixpoint node_last_clear (h : history) (n : string) : option Z :=
  match h with
  | [] => None
  | s :: h' =>
      match node_event s n with
      | Some p => if ne_clear_buffer p then Some (step_time s) else node_last_clear h' n
      | None => node_last_clear h' n
      end
  end.

(** The link and the departure time of packet [p], when its latest transit step
    has not been followed by an arrival or a loss. *)
Fixpoint in_transit_at (h : history) (p : Z) : option (string * Z) :=
  match h with
  | [] => None
  | s :: h' =>
      match step_kind s with
      | PacketInTransit k =>
          if tr_packet_id k =? p then Some (tr_link_id k, step_time s) else in_transit_at h' p
      | PacketInNode k => if in_packet_id k =? p then None else in_transit_at h' p
      | PacketLostInTransit k => if lo_packet_id k =? p then None else in_transit_at h' p
      | _ => in_transit_at h' p
      end
  end.

(** A packet entering node [n]: created there, received over a link (unless it
    is dropped on arrival) or duplicated there. *)
Definition enters (h : history) (s : SimulationStep) (n : string) (p : Z) : option Z :=
  match step_kind s with
  | PacketInNode k =>
      if bool_decide (in_node_id k = n) && (in_packet_id k =? p)
         && negb (bool_decide (is_Some (in_transit_at h p)) && in_dropped_on_arrival k)
      then Some (in_packet_size_bytes k) else None
  | PacketDuplicated k =>
      if bool_decide (g_node_id k = n) && (g_packet_id k =? p)
      then Some (g_packet_size_bytes k) else None
  | _ => None
  end.

(** A packet leaving node [n]: sent over a link, dropped, or read by the
    application. *)
Definition leaves (s : SimulationStep) (n : string) (p : Z) : bool :=
  match step_kind s with
  | PacketInTransit k => bool_decide (tr_node_id k = n) && (tr_packet_id k =? p)
  | PacketDropped k => bool_decide (dr_node_id k = n) && (dr_packet_id k =? p)
  | PacketDeliveredToApplication k => bool_decide (g_node_id k = n) && (g_packet_id k =? p)
  | _ => false
  end.

Definition delays (s : SimulationStep) (n : string) (p : Z) : option Z :=
  match step_kind s with
  | PacketExtraDelay k =>
      if bool_decide (xd_node_id k = n) && (xd_packet_id k =? p)
      then Some (xd_extra_delay k) else None
  | _ => None
  end.

(** Packet [p] as stored in node [n]: arrival time, size and extra delay. *)
Fixpoint buffered_at (h : history) (n : string) (p : Z) : option ReplayedPacket :=
  match h with
  | [] => None
  | s :: h' =>
      match enters h' s n p with
      | Some size => Some (mkReplayedPacket (step_time s) size 0)
      | None =>
          if leaves s n p then None
          else match delays s n p with
               | Some d =>
                   (λ k, mkReplayedPacket (rp_arrived_at k) (rp_size_bytes k) d)
                     <$> buffered_at h' n p
               | None => buffered_at h' n p
               end
      end
  end.

(** The packet a step is about. *)
Definition step_packet (s : SimulationStep) : option Z :=
  match step_kind s with
  | PacketInNode k => Some (in_packet_id k)
  | PacketDropped k => Some (dr_packet_id k)
  | PacketLostInTransit k => Some (lo_packet_id k)
  | PacketDuplicated k | PacketCongestionEvent k | PacketDeliveredToApplication k =>
      Some (g_packet_id k)
  | PacketExtraDelay k => Some (xd_packet_id k)
  | PacketInTransit k => Some (tr_packet_id k)
  | NetworkEventStep _ => None
  end.

Definition stored_size (h : history) (n : string) (p : Z) : Z :=
  match buffered_at h n p with Some k => rp_size_bytes k | None => 0 end.

(** The bytes stored in node [n]. *)
Fixpoint stored_bytes (h : history) (n : string) : Z :=
  match h with
  | [] => 0
  | s :: h' =>
      match step_packet s with
      | Some p =>
          match enters h' s n p with
          | Some size => stored_bytes h' n + size
          | None => if leaves s n p then stored_bytes h' n - stored_size h' n p
                    else stored_bytes h' n
          end
      | None => stored_bytes h' n
      end
  end.

(** Packet [p] while it is in flight. *)
Fixpoint in_flight_at (h : history) (p : Z) : option InFlightPacket :=
  match h with
  | [] => None
  | s :: h' =>
      match step_kind s with
      | PacketInTransit k =>
          if tr_packet_id k =? p then
            (λ b, mkInFlight (rp_size_bytes b) (step_time s) (rp_extra_delay b) (tr_link_id k))
              <$> buffered_at h' (tr_node_id k) p
          else in_flight_at h' p
      | PacketInNode k => if in_packet_id k =? p then None else in_flight_at h' p
      | PacketLostInTransit k => if lo_packet_id k =? p then None else in_flight_at h' p
      | _ => in_flight_at h' p
      end
  end.

(** The transmissions over link [l], oldest first: departure time and size in
    bits. *)
Fixpoint link_sends (h : history) (l : string) : list (Z * Z) :=
  match h with
  | [] => []
  | s :: h' =>
      match step_kind s with
      | PacketInTransit k =>
          if decide (tr_link_id k = l)
          then link_sends h' l ++
                 [(step_time s, wrap64 (stored_size h' (tr_node_id k) (tr_packet_id k) * 8))]
          else link_sends h' l
      | _ => link_sends h' l
      end
  end.

(** The bits sent over [l] in the window of [w] nanoseconds that ends at [t]. *)
Definition bits_in_window (h : history) (l : string) (w t : Z) : Z :=
  sumZ snd (filter (λ e, t ≤ e.1 + w) (link_sends h l)).
