(* ===== verification/Window.v ===== *)
(** * Sliding windows

    The verifier and the throughput test both measure traffic in a window that
    slides along a list of timed amounts: [expire_window] drops what has fallen
    out of the window.  On a list in the order of time that is a filter. *)

From stdpp Require Import sorting.
From S2P Require Import Prelude Replayed.

Definition in_window (w t : Z) (sends : list (Z * Z)) : list (Z * Z) :=
  filter (λ e, t ≤ e.1 + w) sends.

Lemma in_window_in_window w t t' sends :
  t ≤ t' → in_window w t' (in_window w t sends) = in_window w t' sends.
Proof.
  intros Ht. unfold in_window. rewrite list_filter_filter.
  apply list_filter_iff. intros e. lia.
Qed.

Lemma in_window_app w t a b : in_window w t (a ++ b) = in_window w t a ++ in_window w t b.
Proof. apply filter_app. Qed.

Lemma sorted_by_key_cons_inv {A} (key : A → Z) x l :
  sorted_by_key key (x :: l) → sorted_by_key key l ∧ ∀ y, y ∈ l → key x ≤ key y.
Proof.
  intros [? H]%StronglySorted_inv. rewrite Forall_forall in H. done.
Qed.

Lemma in_window_all w t sends :
  (∀ e, e ∈ sends → t ≤ e.1 + w) → in_window w t sends = sends.
Proof. apply filter_all. Qed.

Lemma expire_window_spec {E'} w t u win u' win' :
  sorted_by_key fst win →
  expire_window (E:=E') w t u win = Ok (u', win') →
  win' = in_window w t win ∧ (u = wrap64 (sumZ snd win) → u' = wrap64 (sumZ snd win')).
Proof.
  revert u. induction win as [|[sent bits] win IH]; intros u Hs; simpl.
  { intros [= <- <-]. done. }
  apply sorted_by_key_cons_inv in Hs as [Hs Hle].
  intros H. inv_bind H. apply dur_add_inv in Hm as ->.
  unfold in_window in *. rewrite filter_cons. simpl.
  destruct (Z.ltb_spec (sent + w) t).
  - rewrite decide_False by (simpl; lia). apply IH in H as [-> Hu]; [|done].
    split; [done|]. intros ->. apply Hu. rewrite wrap64_sub_l. f_equal. lia.
  - injection H as <- <-. rewrite decide_True by (simpl; lia). simpl. split; [|done].
    fold (in_window w t win). rewrite (in_window_all w t win); [done|]. intros e He. specialize (Hle e He).
    simpl in Hle. lia.
Qed.

Lemma expire_window_total {E'} w t u win :
  (∀ e, e ∈ win → e.1 + w ≤ duration_max) → ∃ r, expire_window (E:=E') w t u win = Ok r.
Proof.
  revert u. induction win as [|[sent bits] win IH]; intros u H; simpl; [by eexists|].
  rewrite dur_add_ok by (apply (H (sent, bits)); left). simpl.
  case_match; [|by eexists]. apply IH. intros e ?. apply H. by right.
Qed.

Lemma sorted_by_key_filter {A} (key : A → Z) (P : A → Prop) `{!∀ x, Decision (P x)} l :
  sorted_by_key key l → sorted_by_key key (filter P l).
Proof.
  unfold sorted_by_key. induction 1 as [|x l Hl IH Hx]; [constructor|].
  rewrite filter_cons. case_decide; [|done]. constructor; [done|].
  rewrite Forall_forall in *. intros y Hy%list_elem_of_filter. apply Hx, Hy.
Qed.

Lemma in_window_now w t e :
  0 ≤ w → e.1 = t → in_window w t [e] = [e].
Proof. intros Hw <-. unfold in_window. rewrite filter_cons_True; [done|lia]. Qed.

