(* ===== verification/Throughput.v ===== *)
(** * The throughput test

    Models [quinn-workbench/src/udp/throughput.rs]: how much the sender sends
    in every interval, in packets of which sizes, and the throughput reported
    for the packets that arrived, which is smoothed over a sliding window of
    100 ms.  The tasks of the test are in [ThroughputRun]. *)

From stdpp Require Import sorting.
From S2P Require Import Prelude Spec Replayed Window.

(** ** The sender *)

(** The largest bandwidth of a link; [max().unwrap()] panics without links. *)
Definition max_link_bps {E} (ls : list NetworkLinkSpec) : outcome E Z :=
  unwrap (match ls with
          | [] => None
          | l :: ls' => Some (foldl (λ m l, Z.max m (bandwidth_bps l)) (bandwidth_bps l) ls')
          end).

Definition choose_send_bps {E} (opt : option Z) (ls : list NetworkLinkSpec) : outcome E Z :=
  m ← max_link_bps ls; Ok (default (wrap64 (2 * m)) opt).

Definition send_interval_ms : Z := 50.

Definition send_bytes_per_interval (send_bps : Z) : Z :=
  let send_bytes_per_second := send_bps / 8 in
  send_bytes_per_second / (1000 / send_interval_ms).

Definition max_bytes_per_transmit : Z := 1200.

(** The sizes of the packets sent in one interval: the loop over [bytes_left]. *)
Fixpoint send_loop (fuel : nat) (bytes_left : Z) : option (list Z) :=
  if 0 <? bytes_left then
    match fuel with
    | O => None
    | S fuel' =>
        let next_packet_size_bytes := Z.min max_bytes_per_transmit bytes_left in
        cons next_packet_size_bytes <$> send_loop fuel' (bytes_left - next_packet_size_bytes)
    end
  else Some [].

Definition send_fuel (bytes_left : Z) : nat := Z.to_nat (bytes_left / max_bytes_per_transmit + 1).

Definition interval_packets (send_bps : Z) : option (list Z) :=
  let n := send_bytes_per_interval send_bps in send_loop (send_fuel n) n.

(** ** The report *)
Definition window_duration : Z := from_millis 100.

Record Smoothing : Type := mkSmoothing {
  sm_window : list (Z * Z);
  sm_bytes_in_window : Z;
  sm_max_throughput_bps : Z;
}.

Definition smoothing_init : Smoothing := mkSmoothing [] 0 0.

(** The body of the loop over the packets: an arrival time and a size. *)
Definition smooth_step {E} (s : Smoothing) (packet : Z * Z) : outcome E Smoothing :=
  let '(arrival_time, bytes) := packet in
  '(bytes_in_window, window) ←
    expire_window window_duration arrival_time (sm_bytes_in_window s) (sm_window s);
  let window := window ++ [(arrival_time, bytes)] in
  let bytes_in_window := wrap64 (bytes_in_window + bytes) in
  let smoothed_throughput_bps := wrap64 (wrap64 (bytes_in_window * 8) * 10) in
  Ok (mkSmoothing window bytes_in_window
        (Z.max (sm_max_throughput_bps s) smoothed_throughput_bps)).

Definition max_smoothed_throughput {E} (packets : list (Z * Z)) : outcome E Z :=
  s ← foldM smooth_step packets smoothing_init; Ok (sm_max_throughput_bps s).

(** The reference: for every packet, the bits of the packets that arrived up to
    it in the preceding 100 ms, per second; the result is the largest. *)
Fixpoint reference_throughputs (before packets : list (Z * Z)) : list Z :=
  match packets with
  | [] => []
  | p :: packets' =>
      80 * sumZ snd (in_window window_duration p.1 (before ++ [p]))
        :: reference_throughputs (before ++ [p]) packets'
  end.

Definition reference_throughput (packets : list (Z * Z)) : Z :=
  foldl Z.max 0 (reference_throughputs [] packets).

(** Without links the test panics even if a bandwidth is given. *)
Lemma no_links_panics {E} bps : choose_send_bps (E := E) (Some bps) [] = Panic.
Proof. done. Qed.

(** ** The sender sends the configured amount *)
Definition packets_of (n : Z) : Z := (n + max_bytes_per_transmit - 1) / max_bytes_per_transmit.

Lemma packets_of_fuel n : 0 ≤ n → (Z.to_nat (packets_of n) ≤ send_fuel n)%nat.
Proof.
  intros Hn. unfold packets_of, send_fuel, max_bytes_per_transmit.
  assert ((n + 1200 - 1) / 1200 ≤ n / 1200 + 1) by divlia. lia.
Qed.

Lemma packets_of_next n :
  0 < n → packets_of n = packets_of (n - Z.min max_bytes_per_transmit n) + 1 ∧
  0 ≤ packets_of (n - Z.min max_bytes_per_transmit n).
Proof.
  intros Hn. unfold packets_of, max_bytes_per_transmit. destruct (Z.le_gt_cases n 1200).
  - rewrite Z.min_r, Z.sub_diag by lia. divlia.
  - rewrite Z.min_l by lia. divlia.
Qed.

Lemma send_loop_total fuel n :
  0 ≤ n → (Z.to_nat (packets_of n) ≤ fuel)%nat →
  ∃ l, send_loop fuel n = Some l ∧ sumZ id l = n ∧
    Forall (λ s, 0 < s ≤ max_bytes_per_transmit) l ∧ Z.of_nat (length l) = packets_of n.
Proof.
  revert n. induction fuel as [|fuel IH]; intros n Hn Hf; simpl; destruct (Z.ltb_spec 0 n).
  - pose proof (packets_of_next n). lia.
  - exists []. assert (n = 0) as -> by lia. by split_and!.
  - destruct (packets_of_next n) as [Hp H0]; [done|].
    destruct (IH (n - Z.min max_bytes_per_transmit n)) as (l & -> & Hs & Hl & Hlen); [lia|lia|].
    eexists. split; [done|]. simpl. rewrite Hs. split_and!; [unfold id; lia| |lia].
    constructor; [|done]. unfold max_bytes_per_transmit. lia.
  - exists []. assert (n = 0) as -> by lia. by split_and!.
Qed.

(** In every interval the sender sends exactly the configured number of bytes, in packets of
    at least 1 and at most 1200 bytes, and as few of them as possible; the loop terminates. *)
Theorem interval_packets_exact send_bps :
  0 ≤ send_bps →
  ∃ l, interval_packets send_bps = Some l ∧
    sumZ id l = send_bytes_per_interval send_bps ∧
    Forall (λ s, 0 < s ≤ max_bytes_per_transmit) l ∧
    Z.of_nat (length l) =
      (send_bytes_per_interval send_bps + max_bytes_per_transmit - 1) / max_bytes_per_transmit ∧
    160 * sumZ id l ≤ send_bps < 160 * sumZ id l + 160.
Proof.
  intros Hb.
  assert (0 ≤ send_bytes_per_interval send_bps ∧
    160 * send_bytes_per_interval send_bps ≤ send_bps <
      160 * send_bytes_per_interval send_bps + 160) as (H0 & H1).
  { unfold send_bytes_per_interval, send_interval_ms. change (1000 / 50) with 20. divlia. }
  destruct (send_loop_total _ _ H0 (packets_of_fuel _ H0)) as (l & Hl & Hs & Hall & Hn).
  exists l. rewrite Hs. split_and!; [done..|by rewrite Hn|lia|lia].
Qed.

(** ** The sliding window computes the reference *)
(** The state after the packets [before]. *)
Record smoothing_inv (before : list (Z * Z)) (s : Smoothing) : Prop := mkSmoothingInv {
  si_window : ∀ t, (∀ p, p ∈ before → p.1 ≤ t) →
    in_window window_duration t (sm_window s) = in_window window_duration t before;
  si_sub : ∀ p, p ∈ sm_window s → p ∈ before;
  si_sorted : sorted_by_key fst (sm_window s);
  si_bytes : sm_bytes_in_window s = wrap64 (sumZ snd (sm_window s));
}.

Lemma sumZ_filter_le (P : Z * Z → Prop) `{!∀ x, Decision (P x)} l :
  (∀ p, p ∈ l → 0 ≤ p.2) → 0 ≤ sumZ snd (filter P l) ≤ sumZ snd l.
Proof.
  induction l as [|x l IH]; intros Hl; simpl; [done|].
  assert (0 ≤ x.2) by (apply Hl; left).
  assert (∀ p, p ∈ l → 0 ≤ p.2) as Hl' by (intros p Hp; apply Hl; by right).
  specialize (IH Hl'). rewrite filter_cons. case_decide; simpl; lia.
Qed.

Lemma smooth_step_spec {E} before s p :
  smoothing_inv before s → (∀ q, q ∈ before → q.1 ≤ p.1) → (∀ q, q ∈ before ++ [p] → 0 ≤ q.2) →
  80 * sumZ snd (before ++ [p]) < 2 ^ 64 → p.1 + window_duration ≤ duration_max →
  ∃ s', smooth_step (E:=E) s p = Ok s' ∧ smoothing_inv (before ++ [p]) s' ∧
    sm_max_throughput_bps s' = Z.max (sm_max_throughput_bps s)
      (80 * sumZ snd (in_window window_duration p.1 (before ++ [p]))).
Proof.
  intros [Hw Hsub Hsort Hb] Hle Hnn Hsum Hmax. destruct p as [t b]. simpl in *.
  destruct (expire_window_total (E':=E) window_duration t (sm_bytes_in_window s) (sm_window s))
    as [[u win] Hx].
  { intros e He%Hsub%Hle. lia. }
  pose proof Hx as Hspec. apply expire_window_spec in Hspec as [-> Hu]; [|done].
  specialize (Hu Hb). rewrite Hw in * by done.
  unfold smooth_step. rewrite Hx. simpl. eexists. split; [done|].
  set (win := in_window window_duration t before) in *.
  assert (in_window window_duration t (before ++ [(t, b)]) = win ++ [(t, b)]) as Hnow.
  { rewrite in_window_app, (in_window_now _ t) by (unfold window_duration, from_millis, ns_per_ms; simpl; lia).
    done. }
  assert (0 ≤ sumZ snd (win ++ [(t, b)]) ≤ sumZ snd (before ++ [(t, b)])) as Hrange.
  { rewrite <-Hnow. by apply sumZ_filter_le. }
  assert (wrap64 (u + b) = sumZ snd (win ++ [(t, b)])) as ->.
  { rewrite Hu, wrap64_add_l. replace (sumZ snd win + b) with (sumZ snd (win ++ [(t, b)]))
      by (rewrite sumZ_app; simpl; lia). apply wrap64_small. unfold in_u64. lia. }
  rewrite Hnow. split.
  - split; simpl.
    + intros t' Ht'. rewrite !in_window_app. f_equal. apply in_window_in_window.
      apply (Ht' (t, b)). apply elem_of_app. right. left.
    + intros q [Hq|Hq]%elem_of_app; apply elem_of_app; [left|by right].
      by apply list_elem_of_filter in Hq as [_ Hq].
    + unfold sorted_by_key. apply StronglySorted_app. split_and!; [| |repeat constructor].
      * intros q q' [_ Hq%Hle]%list_elem_of_filter ->%list_elem_of_singleton. done.
      * subst win. rewrite <-(Hw t Hle). by apply (sorted_by_key_filter fst).
    + symmetry. apply wrap64_small. unfold in_u64. lia.
  - simpl. f_equal. set (x := sumZ snd (win ++ [(t, b)])) in *.
    rewrite (wrap64_small (x * 8)), wrap64_small by (unfold in_u64; lia). lia.
Qed.

Lemma smooth_spec {E} packets before s :
  smoothing_inv before s → sorted_by_key fst (before ++ packets) →
  (∀ q, q ∈ before ++ packets → 0 ≤ q.2 ∧ q.1 + window_duration ≤ duration_max) →
  80 * sumZ snd (before ++ packets) < 2 ^ 64 →
  ∃ s', foldM (E:=E) smooth_step packets s = Ok s' ∧
    sm_max_throughput_bps s' =
      foldl Z.max (sm_max_throughput_bps s) (reference_throughputs before packets).
Proof.
  revert before s. induction packets as [|p packets IH]; intros before s Hinv Hs Hq Hsum; simpl.
  { by exists s. }
  assert (∀ q, q ∈ before ++ [p] → q ∈ before ++ p :: packets) as Hin.
  { intros q. rewrite !elem_of_app, list_elem_of_singleton, elem_of_cons. tauto. }
  assert (80 * sumZ snd (before ++ [p]) < 2 ^ 64) as Hsum1.
  { rewrite sumZ_app in *. simpl in *.
    assert (0 ≤ sumZ snd packets); [|lia]. apply sumZ_nonneg. intros q Hp.
    apply Hq. rewrite elem_of_app, elem_of_cons. by auto. }
  destruct (smooth_step_spec (E:=E) before s p) as (s1 & H1 & Hinv1 & Hmax); try done.
  - intros q Hqb. unfold sorted_by_key in Hs. apply StronglySorted_app in Hs as (Hs & _ & _).
    apply Hs; [done|left].
  - intros q Hp. apply Hq, Hin, Hp.
  - apply Hq. rewrite elem_of_app, elem_of_cons. auto.
  - rewrite (cons_middle p before packets), app_assoc in Hs, Hq, Hsum.
    destruct (IH (before ++ [p]) s1) as (s' & Hs' & Hm); try done.
    exists s'. rewrite H1. simpl. split; [done|]. by rewrite Hm, Hmax.
Qed.

Lemma max_smoothed_reference {E} packets :
  sorted_by_key fst packets →
  (∀ p, p ∈ packets → 0 ≤ p.2 ∧ p.1 + window_duration ≤ duration_max) →
  80 * sumZ snd packets < 2 ^ 64 →
  max_smoothed_throughput (E:=E) packets = Ok (reference_throughput packets).
Proof.
  intros Hs Hp Hsum. unfold max_smoothed_throughput, reference_throughput.
  destruct (smooth_spec (E:=E) packets [] smoothing_init) as (s & -> & Hm); try done.
  - split; simpl; try done. constructor.
  - simpl. by rewrite Hm.
Qed.

(** The throughput test reports what the reference says: the largest number of bits, per
    second, that arrived within 100 ms; the sliding window neither loses nor counts twice, and
    the loop does not panic. *)
Theorem smoothed_throughput_is_reference {E} packets :
  sorted_by_key fst packets →
  (∀ p, p ∈ packets → 0 ≤ p.2 ∧ p.1 + window_duration ≤ duration_max) →
  80 * sumZ snd packets < 2 ^ 64 →
  max_smoothed_throughput (E:=E) packets = Ok (reference_throughput packets).
Proof. apply max_smoothed_reference. Qed.

(** ** Witnesses *)
Lemma interval_packets_exact_witness :
  ∃ l, interval_packets 1000000 = Some l ∧ l = [1200; 1200; 1200; 1200; 1200; 250] ∧
    sumZ id l = send_bytes_per_interval 1000000.
Proof.
  destruct (interval_packets_exact 1000000) as (l & Hl & Hs & _); [lia|].
  exists l. split; [exact Hl|]. split; [|exact Hs]. vm_compute in Hl. congruence.
Defined.

(** Three packets arrive; the last one 150 ms after the first. *)
Definition arrivals : list (Z * Z) :=
  [(0, 1200); (from_millis 60, 1200); (from_millis 150, 1000)].

Lemma smoothed_throughput_is_reference_witness :
  max_smoothed_throughput (E:=()) arrivals = Ok 192000.
Proof.
  refine (eq_trans (smoothed_throughput_is_reference arrivals _ _ _) _).
  - apply is_sorted_by_key_spec. reflexivity.
  - intros p Hp. unfold arrivals in Hp. rewrite !elem_of_cons, elem_of_nil in Hp.
    destruct_or?; subst; simpl; try done; split; try lia; vm_compute; discriminate.
  - reflexivity.
  - vm_compute. reflexivity.
Defined.
