(* ===== verification/Quinn.v ===== *)
(** * What the workbench adds to quinn

    Models [quinn-workbench/src/quinn_extensions] (congestion controllers and
    connection ids), [config/quinn.rs] (the QUIC part of the configuration) and
    [transport_config] and [validate_opts] of [quic/mod.rs].

    quinn's [Controller] trait is the interface [Controller]; its own
    controllers (Cubic, NewReno) are parameters.  A [TransportConfig] of quinn is
    only written to: it is the list of the setters that are called. *)

From S2P Require Import Prelude.

(** ** The interface of quinn's congestion controllers

    The round-trip time estimator is opaque; instants are numbers.  A [Box<dyn
    Controller>] is a value of any type with an instance. *)
Class Controller (RttEstimator S : Type) : Type := {
  on_sent : Z → Z → Z → S → S;
  on_ack : Z → Z → Z → bool → RttEstimator → S → S;
  on_end_acks : Z → Z → bool → option Z → S → S;
  on_congestion_event : Z → Z → bool → Z → S → S;
  on_mtu_update : Z → S → S;
  window : S → Z;
  initial_window : S → Z;
}.

Class ControllerFactory (F S : Type) : Type := {
  build : F → Z → Z → S;
}.

Section controllers.
Context {RttEstimator : Type}.

(** The calls that change a controller. *)
Inductive ControllerCall : Type :=
  | OnSent (now bytes last_packet_number : Z)
  | OnAck (now sent bytes : Z) (app_limited : bool) (rtt : RttEstimator)
  | OnEndAcks (now in_flight : Z) (app_limited : bool) (largest : option Z)
  | OnCongestionEvent (now sent : Z) (is_persistent_congestion : bool) (lost_bytes : Z)
  | OnMtuUpdate (new_mtu : Z).

Definition call {S} `{Controller RttEstimator S} (c : ControllerCall) : S → S :=
  match c with
  | OnSent now bytes n => on_sent now bytes n
  | OnAck now sent bytes app_limited rtt => on_ack now sent bytes app_limited rtt
  | OnEndAcks now in_flight app_limited largest => on_end_acks now in_flight app_limited largest
  | OnCongestionEvent now sent persistent lost => on_congestion_event now sent persistent lost
  | OnMtuUpdate mtu => on_mtu_update mtu
  end.

Definition calls {S} `{Controller RttEstimator S} (l : list ControllerCall) (s : S) : S :=
  foldl (λ s c, call c s) s l.

(** *** [ecn_cc.rs] *)
Record EcnCc (S : Type) : Type := mkEcnCc { ecn_inner : S }.
Arguments mkEcnCc {S} _.
Arguments ecn_inner {S} _.

#[export] Instance EcnCc_controller {S} `{Controller RttEstimator S} : Controller RttEstimator (EcnCc S) := {|
  on_sent now bytes n c := mkEcnCc (on_sent now bytes n (ecn_inner c));
  on_ack now sent bytes app_limited rtt c :=
    mkEcnCc (on_ack now sent bytes app_limited rtt (ecn_inner c));
  on_end_acks now in_flight app_limited largest c :=
    mkEcnCc (on_end_acks now in_flight app_limited largest (ecn_inner c));
  on_congestion_event now sent persistent lost_bytes c :=
    if lost_bytes =? 0
    then mkEcnCc (on_congestion_event now sent persistent lost_bytes (ecn_inner c)) else c;
  on_mtu_update mtu c := mkEcnCc (on_mtu_update mtu (ecn_inner c));
  window c := window (ecn_inner c);
  initial_window c := initial_window (ecn_inner c);
|}.

(** [EcnCcFactory]: it builds what the factory it wraps builds. *)
Record EcnCcFactory (F : Type) : Type := mkEcnCcFactory { ecn_factory : F }.
Arguments mkEcnCcFactory {F} _.
Arguments ecn_factory {F} _.

#[export] Instance EcnCcFactory_factory {F S} `{ControllerFactory F S}
    : ControllerFactory (EcnCcFactory F) S := {|
  build f now current_mtu := build (ecn_factory f) now current_mtu;
|}.

(** *** [no_cc.rs] *)
Record NoCCConfig : Type := mkNoCCConfig { nocc_initial_window : Z }.
Definition NoCCConfig_default : NoCCConfig := mkNoCCConfig u64_max.

Record NoCC : Type := mkNoCC { nocc_config : NoCCConfig; nocc_window : Z }.

Definition NoCC_new (config : NoCCConfig) (now current_mtu : Z) : NoCC :=
  mkNoCC config (nocc_initial_window config).

#[export] Instance NoCC_controller : Controller RttEstimator NoCC := {|
  on_sent _ _ _ c := c;
  on_ack _ _ _ _ _ c := c;
  on_end_acks _ _ _ _ c := c;
  on_congestion_event _ _ _ _ c := c;
  on_mtu_update _ c := c;
  window c := nocc_window c;
  initial_window c := nocc_initial_window (nocc_config c);
|}.

#[export] Instance NoCC_factory : ControllerFactory NoCCConfig NoCC := {|
  build := NoCC_new;
|}.

(** Congestion that comes with lost bytes, as opposed to an ECN mark. *)
Definition loss (c : ControllerCall) : bool :=
  match c with OnCongestionEvent _ _ _ lost_bytes => negb (lost_bytes =? 0) | _ => false end.

Lemma EcnCc_call {S} `{Controller RttEstimator S} c (s : S) :
  call c (mkEcnCc s) = mkEcnCc (if loss c then s else call c s).
Proof. destruct c; simpl; try done. by destruct (_ =? 0). Qed.

(** A controller wrapped in [EcnCc] behaves like the controller it wraps, except that it does
    not see packet losses: after any calls its state is that of the wrapped controller after the
    same calls without the congestion events that report lost bytes. *)
Theorem EcnCc_ignores_losses {S} `{Controller RttEstimator S} (l : list ControllerCall) (s : S) :
  calls l (mkEcnCc s) = mkEcnCc (calls (filter (λ c, loss c = false) l) s) ∧
  window (RttEstimator:=RttEstimator) (calls l (mkEcnCc s)) =
    window (RttEstimator:=RttEstimator) (calls (filter (λ c, loss c = false) l) s).
Proof.
  assert (calls l (mkEcnCc s) = mkEcnCc (calls (filter (λ c, loss c = false) l) s)) as Hs.
  { unfold calls. revert s. induction l as [|c l IH]; intros s; [done|].
    simpl. rewrite EcnCc_call, IH, filter_cons. by destruct (loss c). }
  by rewrite Hs.
Qed.

(** Without congestion control the window is the configured one for ever: whatever calls the
    controller gets, its window is the initial window, by default the largest number. *)
Theorem NoCC_window_constant (config : NoCCConfig) now mtu (l : list ControllerCall) :
  window (RttEstimator:=RttEstimator) (calls l (build config now mtu : NoCC)) = nocc_initial_window config ∧
  initial_window (RttEstimator:=RttEstimator) (calls l (build config now mtu : NoCC))
    = nocc_initial_window config.
Proof.
  assert (calls l (build config now mtu : NoCC) = NoCC_new config now mtu) as ->.
  { simpl. generalize (NoCC_new config now mtu). unfold calls.
    induction l as [|c l IH]; intros s; [done|]. simpl. rewrite IH. by destruct c. }
  done.
Qed.
End controllers.
Arguments ControllerCall : clear implicits.
Arguments mkEcnCc {S} _.
Arguments ecn_inner {S} _.
Arguments mkEcnCcFactory {F} _.
Arguments ecn_factory {F} _.

(** *** [no_cid.rs]: connection ids are empty *)
Definition generate_cid : list Z := [].
Definition cid_len : Z := 0.
Definition cid_lifetime : option Z := None.

(** ** The QUIC configuration of a host ([config/quinn.rs]) *)
Inductive CongestionControlAlgorithm : Type := Cubic | NewReno | NoCc | EcnReno.

Record AckFrequencyConfig : Type := mkAckFrequencyConfig {
  afc_ack_eliciting_threshold : option Z;
  afc_max_ack_delay_ms : option Z;
}.

Record QuinnJsonConfig : Type := mkQuinnJsonConfig {
  qj_initial_rtt_ms : option Z;
  qj_maximum_idle_timeout_ms : option Z;
  qj_packet_threshold : option Z;
  qj_mtu_discovery : option bool;
  qj_maximize_send_and_receive_windows : option bool;
  qj_ack_frequency_config : option AckFrequencyConfig;
  qj_congestion_controller : option CongestionControlAlgorithm;
  qj_initial_congestion_window_packets : option Z;
}.

Definition QuinnJsonConfig_default : QuinnJsonConfig :=
  mkQuinnJsonConfig None None None None None None None None.

(** ** [transport_config] ([quic/mod.rs]) *)

(** The congestion controller factories the workbench configures; [None] is
    the initial window quinn chooses, and [EcnFactory] is [EcnCcFactory::new]. *)
Inductive CcFactory : Type :=
  | CubicFactory (initial_window : option Z)
  | NewRenoFactory (initial_window : option Z)
  | NoCcFactory (config : NoCCConfig)
  | EcnFactory (wrapped : CcFactory).

(** The setters of quinn's [AckFrequencyConfig] and [TransportConfig]. *)
Inductive AckFrequencySetting : Type :=
  | AckElicitingThreshold (n : Z)
  | MaxAckDelay (d : Z)
  | ReorderingThreshold (n : Z).

Inductive TransportSetting : Type :=
  | QlogStream
  | MtuDiscoveryOff
  | MaxIdleTimeout (timeout : Z)
  | ReceiveWindow (w : Z)
  | StreamReceiveWindow (w : Z)
  | SendWindow (w : Z)
  | PacketThreshold (n : Z)
  | CongestionController (f : CcFactory)
  | AckFrequency (l : list AckFrequencySetting)
  | InitialRtt (d : Z).

Definition BASE_DATAGRAM_SIZE : Z := 1200.

(** [VarInt::MAX] *)
Definition varint_max : Z := 2 ^ 62 - 1.

Definition get_congestion_window_bytes (packets : Z) : Z := wrap64 (packets * BASE_DATAGRAM_SIZE).

Definition cc_factory (config : QuinnJsonConfig) : CcFactory :=
  let w := get_congestion_window_bytes <$> qj_initial_congestion_window_packets config in
  match default Cubic (qj_congestion_controller config) with
  | Cubic => CubicFactory w
  | NewReno => NewRenoFactory w
  | NoCc =>
      let congestion_window_bytes :=
        match qj_initial_congestion_window_packets config with
        | Some packets => get_congestion_window_bytes packets
        | None => u64_max
        end in
      NoCcFactory (mkNoCCConfig congestion_window_bytes)
  | EcnReno => EcnFactory (NewRenoFactory w)
  end.

Definition ack_frequency_settings (config : QuinnJsonConfig) (c : AckFrequencyConfig)
    : list AckFrequencySetting :=
  match afc_ack_eliciting_threshold c with
  | Some threshold => [AckElicitingThreshold threshold]
  | None => []
  end ++
  match afc_max_ack_delay_ms c with
  | Some delay => [MaxAckDelay (from_millis delay)]
  | None => []
  end ++
  [ReorderingThreshold (wrap32 (default 3 (qj_packet_threshold config) - 1))].

(** [idle_timeout] is the conversion of a duration to quinn's [IdleTimeout]. *)
Section transport.
Context (idle_timeout : Z → option Z).

Definition transport_config {E} (config : QuinnJsonConfig) : outcome E (list TransportSetting) :=
  idle ← match qj_maximum_idle_timeout_ms config with
         | Some timeout =>
             t ← unwrap (idle_timeout (from_millis timeout)); Ok [MaxIdleTimeout t]
         | None => Ok []
         end;
  Ok ([QlogStream] ++
      (if negb (default true (qj_mtu_discovery config)) then [MtuDiscoveryOff] else []) ++
      idle ++
      (if default false (qj_maximize_send_and_receive_windows config)
       then [ReceiveWindow varint_max; StreamReceiveWindow varint_max; SendWindow u64_max] else []) ++
      match qj_packet_threshold config with Some n => [PacketThreshold n] | None => [] end ++
      [CongestionController (cc_factory config)] ++
      match qj_ack_frequency_config config with
      | Some c => [AckFrequency (ack_frequency_settings config c)]
      | None => []
      end ++
      match qj_initial_rtt_ms config with
      | Some initial_rtt => [InitialRtt (from_millis initial_rtt)]
      | None => []
      end).

(** quinn stores a timeout as a number of milliseconds below [2^62]. *)
Context (Hidle : ∀ d, idle_timeout d =
  if d / ns_per_ms <=? varint_max then Some (d / ns_per_ms) else None).

Lemma idle_timeout_millis ms :
  idle_timeout (from_millis ms) = if ms <=? varint_max then Some ms else None.
Proof using Hidle.
  rewrite Hidle. unfold from_millis. by rewrite Z.div_mul by (unfold ns_per_ms; lia).
Qed.

(** The transport configuration is built unless the idle timeout is too large for quinn; it
    then sets a congestion controller exactly once, a timeout, threshold or RTT only if the file
    has one, and the windows only if they are to be maximized. *)
Theorem transport_config_settings {E} (config : QuinnJsonConfig) :
  match transport_config (E:=E) config with
  | Ok l =>
      (∀ f, CongestionController f ∈ l ↔ f = cc_factory config) ∧
      (∀ t, MaxIdleTimeout t ∈ l ↔ qj_maximum_idle_timeout_ms config = Some t) ∧
      (∀ n, PacketThreshold n ∈ l ↔ qj_packet_threshold config = Some n) ∧
      (∀ d, InitialRtt d ∈ l ↔ from_millis <$> qj_initial_rtt_ms config = Some d) ∧
      (MtuDiscoveryOff ∈ l ↔ qj_mtu_discovery config = Some false) ∧
      (∀ w, SendWindow w ∈ l ↔
         qj_maximize_send_and_receive_windows config = Some true ∧ w = u64_max) ∧
      (∀ s, AckFrequency s ∈ l ↔
         ack_frequency_settings config <$> qj_ack_frequency_config config = Some s)
  | Err _ => False
  | Panic => ∃ t, qj_maximum_idle_timeout_ms config = Some t ∧ varint_max < t
  end.
Proof using Hidle.
  destruct config as [rtt idle threshold mtu windows ack cc iw]. unfold transport_config. simpl.
  assert (match (match idle with
    | Some timeout => t ← unwrap (idle_timeout (from_millis timeout)); Ok [MaxIdleTimeout t]
    | None => Ok [] end : outcome E _) with
    | Ok l => l = match idle with Some t => [MaxIdleTimeout t] | None => [] end
    | Err _ => False
    | Panic => ∃ t, idle = Some t ∧ varint_max < t end) as Hi.
  { destruct idle as [t|]; [|done]. rewrite idle_timeout_millis.
    destruct (Z.leb_spec t varint_max); simpl; eauto. }
  destruct (match idle with Some _ => _ | None => _ end) as [l|e|]; simpl; [subst l|done|done].
  set (config := mkQuinnJsonConfig _ _ _ _ _ _ _ _).
  match goal with |- context [_ ∈ ?l] => assert (∀ s, s ∈ l ↔ s = QlogStream ∨
    (negb (default true mtu) = true ∧ s = MtuDiscoveryOff) ∨
    (∃ t, idle = Some t ∧ s = MaxIdleTimeout t) ∨
    (default false windows = true ∧
      (s = ReceiveWindow varint_max ∨ s = StreamReceiveWindow varint_max ∨ s = SendWindow u64_max)) ∨
    (∃ n, threshold = Some n ∧ s = PacketThreshold n) ∨ s = CongestionController (cc_factory config) ∨
    (∃ c, ack = Some c ∧ s = AckFrequency (ack_frequency_settings config c)) ∨
    (∃ d, rtt = Some d ∧ s = InitialRtt (from_millis d))) as Hin; [|revert Hin; generalize l] end.
  { intros s. rewrite elem_of_cons, !elem_of_app, elem_of_cons, elem_of_app, !elem_of_option, !elem_of_if,
      !elem_of_cons, elem_of_nil. tauto. }
  intros l Hin. split_and!; intros; rewrite Hin; clear Hin.
  - naive_solver.
  - naive_solver.
  - naive_solver.
  - destruct rtt; naive_solver.
  - destruct mtu as [[]|]; naive_solver.
  - destruct windows as [[]|]; naive_solver.
  - destruct ack; naive_solver.
Qed.
End transport.

(** ** Witnesses and an example controller

    A controller that keeps only a window, which congestion halves. *)
Record Halving : Type := mkHalving { hv_window : Z }.

#[export] Instance Halving_controller : Controller () Halving := {|
  on_sent _ _ _ s := s;
  on_ack _ _ _ _ _ s := s;
  on_end_acks _ _ _ _ s := s;
  on_congestion_event _ _ _ _ s := mkHalving (hv_window s / 2);
  on_mtu_update _ s := s;
  window := hv_window;
  initial_window _ := 12000;
|}.

#[export] Instance Halving_factory : ControllerFactory () Halving := {|
  build _ _ _ := mkHalving 12000;
|}.

Definition ecn_mark : ControllerCall () := OnCongestionEvent 2 1 false 0.
Definition packet_loss : ControllerCall () := OnCongestionEvent 3 1 false 1200.

(** The factory of [EcnCc] does not wrap the controller it builds, so the controller the option
    [ecn_reno] configures reacts to packet losses: it halves its window on a loss, which a wrapped
    controller ignores. *)
Theorem ecn_factory_reacts_to_losses :
  window (RttEstimator:=()) (call packet_loss (build (mkEcnCcFactory ()) 0 1200 : Halving)) = 6000 ∧
  window (RttEstimator:=()) (call packet_loss (mkEcnCc (build () 0 1200 : Halving))) = 12000.
Proof. split; reflexivity. Qed.

Definition quinn_idle_timeout (d : Z) : option Z :=
  if d / ns_per_ms <=? varint_max then Some (d / ns_per_ms) else None.

Definition example_config : QuinnJsonConfig :=
  mkQuinnJsonConfig (Some 100) (Some 30000) None (Some false) None None (Some EcnReno) (Some 10).

Lemma transport_config_settings_witness :
  match transport_config (E:=()) quinn_idle_timeout example_config with
  | Ok l => CongestionController (EcnFactory (NewRenoFactory (Some 12000))) ∈ l ∧
            MaxIdleTimeout 30000 ∈ l ∧ MtuDiscoveryOff ∈ l
  | _ => False
  end.
Proof.
  pose proof (transport_config_settings (E:=()) quinn_idle_timeout (λ _, eq_refl) example_config) as H.
  destruct (transport_config quinn_idle_timeout example_config) as [l|e|].
  - destruct H as (Hcc & Hidle & _ & _ & Hmtu & _).
    split; [apply Hcc; reflexivity|split; [apply Hidle; reflexivity|apply Hmtu; reflexivity]].
  - exact H.
  - destruct H as (t & [= <-] & Hlt). exfalso. revert Hlt. apply Z.le_ngt. vm_compute. discriminate.
Defined.
