(* ===== verification/Cli.v ===== *)
(** * The command line

    Models [quinn-workbench/src/config/cli.rs], the options as [clap] hands them
    over. *)

From S2P Require Import Prelude Ip.

Record NetworkOpt : Type := mkNetworkOpt {
  client_ip_address : IpAddr;
  server_ip_address : IpAddr;
  non_deterministic : bool;
  quinn_rng_seed : Z;
  network_rng_seed : Z;
  network_graph_path : string;
  network_events_path : string;
}.

Record QuicOpt : Type := mkQuicOpt {
  disable_time_warping : bool;
  requests : Z;
  concurrent_connections : Z;
  concurrent_streams_per_connection : Z;
  response_size : Z;
  request_interval_ms : option Z;
  verbose_node_stats : bool;
  quic_network : NetworkOpt;
}.

Record PingOpt : Type := mkPingOpt {
  ping_duration_ms : Z;
  ping_interval_ms : Z;
  ping_deadline_ms : Z;
  ping_network : NetworkOpt;
}.

Record ThroughputOpt : Type := mkThroughputOpt {
  throughput_duration_ms : Z;
  throughput_send_bps : option Z;
  throughput_network : NetworkOpt;
}.

Inductive Command : Type :=
  | Quic (opt : QuicOpt)
  | Ping (opt : PingOpt)
  | Throughput (opt : ThroughputOpt)
  | Rt.

(** [DelayMode] of [async_rt.rs]: whether the clock of the runtime is paused. *)
Inductive DelayMode : Type := TimeWarp | Wait.

#[export] Instance DelayMode_eq_dec : EqDecision DelayMode.
Proof. solve_decision. Defined.

(** [new_rt]: what it chooses of the runtime of tokio, a single thread whose clock is
    paused or not. *)
Record Runtime : Type := mkRuntime { start_paused : bool }.

Definition new_rt (delay_mode : DelayMode) : Runtime := mkRuntime (bool_decide (delay_mode = TimeWarp)).
