(* ===== verification/Cancel.v ===== *)
(** * Cancelling tasks

    Models [CancellationToken] of [quinn-workbench/src/util.rs]: a flag, and an
    event that wakes up the tasks that wait for it.  The event is the one of the
    crate [event_listener], an interface with the laws of its documentation. *)

From stdpp Require Import relations.
From S2P Require Import Prelude.

(** [Event] and [EventListener]: a listener is notified by the first [notify]
    after it was created; [listening] holds of the listeners of an event. *)
Class EventListener (L E : Type) := mkEventListener {
  event_new : E;
  listen : E → L * E;
  notify_all : E → E;
  notified : E → L → bool;
  listening : E → L → Prop;
  listen_fresh e l e' : listen e = (l, e') → listening e' l ∧ notified e' l = false;
  listen_others e l e' m : listen e = (l, e') → listening e m →
    listening e' m ∧ notified e' m = notified e m;
  notify_listening e l : listening e l → listening (notify_all e) l ∧ notified (notify_all e) l = true;
}.

Section token.
Context {L E : Type} {EL : EventListener L E}.

Record CancellationToken : Type := mkToken {
  ct_cancelled : bool;
  ct_event : E;
}.

Definition CancellationToken_new : CancellationToken := mkToken false event_new.

Definition cancel (t : CancellationToken) : CancellationToken :=
  mkToken true (notify_all (ct_event t)).

Definition is_cancelled (t : CancellationToken) : bool := ct_cancelled t.

(** The future of [cancelled]: it was not polled yet, it waits for the event,
    or it is done; polling it again would be a mistake of the caller. *)
Inductive Cancelled : Type :=
  | CancelledStart
  | CancelledListening (l : L)
  | CancelledDone.

(** A poll; the flag is only read by the first one. *)
Definition poll_cancelled (f : Cancelled) (t : CancellationToken)
    : option (bool * Cancelled * CancellationToken) :=
  match f with
  | CancelledStart =>
      if ct_cancelled t then Some (true, CancelledDone, t)
      else
        let '(l, e) := listen (ct_event t) in
        let ready := notified e l in
        Some (ready, if ready then CancelledDone else CancelledListening l, mkToken (ct_cancelled t) e)
  | CancelledListening l =>
      let ready := notified (ct_event t) l in
      Some (ready, if ready then CancelledDone else f, t)
  | CancelledDone => None
  end.

(** ** The futures are ready once the token is cancelled *)

(** What a future knows of its token. *)
Definition future_ok (t : CancellationToken) (f : Cancelled) : Prop :=
  match f with
  | CancelledStart => True
  | CancelledListening l => listening (ct_event t) l ∧ notified (ct_event t) l = ct_cancelled t
  | CancelledDone => ct_cancelled t = true
  end.

(** The changes of a token that its futures notice. *)
Definition token_le (t t' : CancellationToken) : Prop :=
  (ct_cancelled t = true → ct_cancelled t' = true) ∧ ∀ f, future_ok t f → future_ok t' f.

#[export] Instance token_le_preorder : PreOrder token_le.
Proof. split; [by intros t|]. intros x y z [A1 A2] [B1 B2]. split; auto. Qed.

Lemma cancel_le t : token_le t (cancel t).
Proof.
  split; [done|]. intros [|l|]; simpl; [done| |done]. intros [Hl _]. by apply notify_listening.
Qed.

Lemma poll_cancelled_spec t f :
  f ≠ CancelledDone → future_ok t f →
  ∃ f' t', poll_cancelled f t = Some (is_cancelled t, f', t') ∧ token_le t t' ∧
    ct_cancelled t' = ct_cancelled t ∧ future_ok t' f' ∧
    (f' = CancelledDone ↔ is_cancelled t = true).
Proof.
  intros Hf Hok. destruct t as [c e]. unfold is_cancelled. destruct f as [|l|]; simpl in *; [| |done].
  - destruct c; [by exists CancelledDone, (mkToken true e)|].
    destruct (listen e) as [l e'] eqn:He. destruct (listen_fresh _ _ _ He) as [Hl Hn]. rewrite Hn.
    exists (CancelledListening l), (mkToken false e'). split_and!; try done.
    split; [done|]. intros [|m|]; simpl; [done| |done]. intros [Hm Hm'].
    destruct (listen_others _ _ _ m He Hm) as [? ->]. done.
  - destruct Hok as [Hl Hn]. rewrite Hn.
    exists (if c then CancelledDone else CancelledListening l), (mkToken c e). by destruct c.
Qed.

(** ** Many tasks share a token *)
Inductive TokenStep : Type :=
  | StepCancel
  | StepStart (task : nat)
  | StepPoll (task : nat).

#[export] Instance token_step_eq_dec : EqDecision TokenStep.
Proof. solve_decision. Defined.

(** A task waits for [cancelled] at most once at a time. *)
Abbreviation Waiters := (gmap nat Cancelled).

Definition token_step (s : TokenStep) (x : CancellationToken * Waiters)
    : option (CancellationToken * Waiters * option (nat * bool)) :=
  let '(t, ws) := x in
  match s with
  | StepCancel => Some (cancel t, ws, None)
  | StepStart task => Some (t, <[task := CancelledStart]> ws, None)
  | StepPoll task =>
      match ws !! task with
      | Some f =>
          '(ready, f', t') ← poll_cancelled f t;
          Some (t', if (ready : bool) then delete task ws else <[task := f']> ws, Some (task, ready))
      | None => Some (x, None)
      end
  end.

(** A history of steps; the polls and their results. *)
Fixpoint token_run (l : list TokenStep) (x : CancellationToken * Waiters)
    : option (CancellationToken * Waiters * list (nat * bool)) :=
  match l with
  | [] => Some (x, [])
  | s :: l =>
      '(y, r) ← token_step s x;
      '(z, rs) ← token_run l y;
      Some (z, option_list r ++ rs)
  end.

(** What the polls of a history should give: a poll is ready if the token was
    cancelled before. *)
Fixpoint expected_polls (cancelled : bool) (waiting : gset nat) (l : list TokenStep)
    : list (nat * bool) :=
  match l with
  | [] => []
  | StepCancel :: l => expected_polls true waiting l
  | StepStart task :: l => expected_polls cancelled ({[task]} ∪ waiting) l
  | StepPoll task :: l =>
      if decide (task ∈ waiting) then
        (task, cancelled) :: expected_polls cancelled (if cancelled then waiting ∖ {[task]} else waiting) l
      else expected_polls cancelled waiting l
  end.

Definition waiters_ok (x : CancellationToken * Waiters) : Prop :=
  ∀ task f, x.2 !! task = Some f → f ≠ CancelledDone ∧ future_ok x.1 f.

Lemma poll_step_ok t ws task f :
  waiters_ok (t, ws) → ws !! task = Some f →
  ∃ t' ws', token_step (StepPoll task) (t, ws) = Some (t', ws', Some (task, is_cancelled t)) ∧
    waiters_ok (t', ws') ∧ is_cancelled t' = is_cancelled t ∧
    dom ws' = if is_cancelled t then dom ws ∖ {[task]} else dom ws.
Proof.
  intros Hok Hf. destruct (Hok task f Hf) as [Hd Hfo].
  destruct (poll_cancelled_spec t f Hd Hfo) as (f' & t' & E1 & Hle & Hc & Hfo' & Hdone).
  simpl. rewrite Hf, E1. simpl. do 2 eexists. split; [done|]. split_and!.
  - intros m g Hg. simpl in *.
    assert (m = task ∧ g = f' ∧ is_cancelled t = false ∨ ws !! m = Some g) as [(-> & -> & Hn)|Hm].
    { destruct (is_cancelled t); [by apply lookup_delete_Some in Hg as [_ ?]; right|].
      apply lookup_insert_Some in Hg as [[<- <-]|[_ ?]]; [by left|by right]. }
    + split; [|done]. intros Hx%Hdone. congruence.
    + destruct (Hok m g Hm). split; [done|]. by apply Hle.
  - done.
  - destruct (is_cancelled t); [by rewrite dom_delete_L|]. by apply dom_insert_lookup_L.
Qed.

Lemma token_run_spec l t ws :
  waiters_ok (t, ws) → ∃ t' ws',
    token_run l (t, ws) = Some (t', ws', expected_polls (is_cancelled t) (dom ws) l) ∧
    is_cancelled t' = is_cancelled t || bool_decide (StepCancel ∈ l).
Proof.
  revert t ws. induction l as [|s l IH]; intros t ws Hok.
  { exists t, ws. by rewrite orb_false_r. }
  assert (∀ s', s' ≠ StepCancel → bool_decide (StepCancel ∈ s' :: l) = bool_decide (StepCancel ∈ l)) as Hother.
  { intros s' Hs. apply bool_decide_ext. rewrite elem_of_cons. naive_solver. }
  destruct s as [|task|task]; cbn [token_run expected_polls].
  - destruct (IH (cancel t) ws) as (t' & ws' & Hr & Hc).
    { intros m f Hf. destruct (Hok m f Hf). split; [done|]. by apply cancel_le. }
    exists t', ws'. simpl. rewrite Hr. simpl. split; [done|].
    rewrite Hc. simpl. by rewrite orb_true_r.
  - destruct (IH t (<[task := CancelledStart]> ws)) as (t' & ws' & Hr & Hc).
    { intros m f. simpl. intros [[<- <-]|[_ Hf]]%lookup_insert_Some; [done|by apply (Hok m)]. }
    exists t', ws'. simpl. rewrite Hr, dom_insert_L, Hother by done. done.
  - rewrite Hother by done. destruct (decide (task ∈ dom ws)) as [[f Hf]%elem_of_dom|Hn].
    + destruct (poll_step_ok t ws task f Hok Hf) as (t1 & ws1 & Hs & Hok1 & Hc1 & Hd1).
      destruct (IH t1 ws1 Hok1) as (t' & ws' & Hr & Hc). exists t', ws'.
      rewrite Hs. simpl. rewrite Hr, Hc1, Hd1, Hc, Hc1. done.
    + apply not_elem_of_dom in Hn. destruct (IH t ws Hok) as (t' & ws' & Hr & Hc). exists t', ws'.
      simpl. rewrite Hn. simpl. by rewrite Hr.
Qed.

(** C39: Waiting for the cancellation ends as soon as the token is cancelled, and never before: in
    every history of a token, of tasks that start to wait and are polled, and of a cancellation at
    any time, a poll of a task that waits is ready exactly if a cancellation came before it, and no
    future is polled again after it was ready. *)
Theorem cancelled_once_cancelled l :
  ∃ t ws, token_run l (CancellationToken_new, ∅) = Some (t, ws, expected_polls false ∅ l) ∧
    is_cancelled t = bool_decide (StepCancel ∈ l).
Proof.
  destruct (token_run_spec l CancellationToken_new ∅) as (t & ws & Hr & Hc); [done|].
  exists t, ws. by rewrite dom_empty_L in Hr.
Qed.
End token.
Arguments CancellationToken E : clear implicits.
Arguments Cancelled L : clear implicits.

(** ** An implementation of the interface: the flags of the listeners *)
#[export] Program Instance list_listener : EventListener nat (list bool) := {|
  event_new := [];
  listen e := (length e, e ++ [false]);
  notify_all e := (λ _, true) <$> e;
  notified e l := default false (e !! l);
  listening e l := (l < length e)%nat;
|}.
Next Obligation.
  intros e l e' [= <- <-]. rewrite length_app, lookup_app_r, Nat.sub_diag by done. simpl. split; [lia|done].
Qed.
Next Obligation.
  intros e l e' m [= <- <-] Hm. rewrite length_app, lookup_app_l by done. split; [lia|done].
Qed.
Next Obligation.
  intros e l Hl. cbv beta in *. rewrite length_fmap, list_lookup_fmap. split; [done|].
  by apply lookup_lt_is_Some in Hl as [b ->].
Qed.
