(* ===== verification/QuicClient.v ===== *)
(** * The clients of the QUIC simulation

    Models how the requests are made in [quinn-workbench/src/quic]: the checks of
    the options ([mod.rs], [simulation.rs]), the connections and their loops
    ([client.rs]) and the response of the server ([server.rs]).  quinn itself, which
    connects and carries the requests, is the environment: a connection is
    established, or a request answered, when it chooses, or fails. *)

From Stdlib Require Import Init.Byte Strings.String.
From stdpp Require Import relations.
From S2P Require Import Prelude Ip Cli.

(** ** The options *)
Inductive QuicOptError : Type :=
  | IntervalNeedsOneStream
  | TooManyConnections (max configured : Z).

Definition validate_opts (opts : QuicOpt) : outcome QuicOptError () :=
  if negb (default 0 (request_interval_ms opts) =? 0) &&
     negb (concurrent_streams_per_connection opts =? 1)
  then Err IntervalNeedsOneStream else Ok ().

(** The seeds of quinn and of the network; [draw] is the seeding of a
    generator by the system, which gives two numbers. *)
Definition choose_seeds (draw : Z * Z) (opts : QuicOpt) : Z * Z :=
  if non_deterministic (quic_network opts) then draw
  else (quinn_rng_seed (quic_network opts), network_rng_seed (quic_network opts)).

(** [b'Z' - b'A'] *)
Definition max_connections : Z := 90 - 65.

Definition check_connections (opts : QuicOpt) : outcome QuicOptError () :=
  if max_connections <? concurrent_connections opts
  then Err (TooManyConnections max_connections (concurrent_connections opts)) else Ok ().

Definition request_interval (opts : QuicOpt) : Z :=
  from_millis (default 0 (request_interval_ms opts)).

(** [(i + b'A') as char], as a byte.  On overflow the addition of [u8] panics in a debug build, which is
    modelled here, and wraps in a release build; [quic_run_returns] shows that it does not overflow. *)
Definition connection_name (i : Z) : option Z :=
  if i + 65 <=? 255 then Some (i + 65) else None.

(** The response: [response_payload_size] bytes of the repeated text. *)
Definition lorem : list byte := String.list_byte_of_string "Lorem ipsum ".
Definition response (response_payload_size : nat) : list byte :=
  (λ i, nth (i mod length lorem) lorem Byte.x00) <$> seq 0 response_payload_size.
Definition request : list byte := String.list_byte_of_string "GET /index.html".

(** ** The connections *)

(** The task of a request: when it started, and when and how it ended. *)
Inductive RequestTask : Type :=
  | Running (started : Z)
  | Finished (started finished : Z) (ok : bool).

(** Where [run_connection] is: it waits for its connection, looks for a
    request to make, waits for a permit, sleeps before the next request, or waits
    for the tasks of its requests. *)
Inductive ConnPhase : Type :=
  | Connecting
  | Looping
  | AwaitingPermit
  | SleepingBefore (deadline : Z)
  | Joining (task : nat)
  | ConnDone
  | ConnFailed.

(** [c_permits] is the semaphore, [c_made] is [requests_made]. *)
Record Conn : Type := mkConn {
  c_phase : ConnPhase;
  c_permits : Z;
  c_made : Z;
  c_tasks : list RequestTask;
}.

(** [requests_made] is an [i32]. *)
Definition wrap_i32 (z : Z) : Z := (z + 2 ^ 31) mod 2 ^ 32 - 2 ^ 31.

Inductive ConnEvent : Type :=
  | Connect (ok : bool)
  | TakeRequest
  | AcquirePermit
  | WakeUp
  | RequestDone (task : nat) (ok : bool)
  | JoinTask.

Section connection.
Context (timer_elapsed : Z → Z → bool) (interval : Z).

(** The request is made. *)
Definition spawn_request (now : Z) (c : Conn) : Conn :=
  mkConn Looping (c_permits c) (wrap_i32 (c_made c + 1)) (c_tasks c ++ [Running now]).

(** A step of [run_connection] or of one of its requests;
    [requests_left] is shared by the connections. *)
Definition conn_step (now : Z) (e : ConnEvent) (requests_left : Z) (c : Conn) : option (Z * Conn) :=
  match e, c_phase c with
  | Connect ok, Connecting =>
      Some (requests_left, mkConn (if ok then Looping else ConnFailed) (c_permits c) (c_made c) (c_tasks c))
  | TakeRequest, Looping =>
      if requests_left =? 0 then Some (requests_left, mkConn (Joining 0) (c_permits c) (c_made c) (c_tasks c))
      else Some (requests_left - 1, mkConn AwaitingPermit (c_permits c) (c_made c) (c_tasks c))
  | AcquirePermit, AwaitingPermit =>
      if 0 <? c_permits c then
        let c := mkConn AwaitingPermit (c_permits c - 1) (c_made c) (c_tasks c) in
        if (0 <? c_made c) && negb (interval =? 0)
        then Some (requests_left, mkConn (SleepingBefore (now + interval)) (c_permits c) (c_made c) (c_tasks c))
        else Some (requests_left, spawn_request now c)
      else None
  | WakeUp, SleepingBefore deadline =>
      if timer_elapsed deadline now then Some (requests_left, spawn_request now c) else None
  | RequestDone task ok, _ =>
      match c_tasks c !! task with
      | Some (Running started) =>
          Some (requests_left, mkConn (c_phase c) (c_permits c + 1) (c_made c)
                        (<[task := Finished started now ok]> (c_tasks c)))
      | _ => None
      end
  | JoinTask, Joining task =>
      match c_tasks c !! task with
      | None => Some (requests_left, mkConn ConnDone (c_permits c) (c_made c) (c_tasks c))
      | Some (Running _) => None
      | Some (Finished _ _ ok) =>
          Some (requests_left, mkConn (if ok then Joining (S task) else ConnFailed) (c_permits c) (c_made c)
                        (c_tasks c))
      end
  | _, _ => None
  end.

(** ** All connections of a simulation *)
Record Client : Type := mkClient {
  q_now : Z;
  q_left : Z;
  q_conns : list Conn;
}.

Definition client_init (now : Z) (opts : QuicOpt) : Client :=
  mkClient now (requests opts)
    (replicate (Z.to_nat (concurrent_connections opts))
       (mkConn Connecting (concurrent_streams_per_connection opts) 0 [])).

(** Some connection takes a step. *)
Definition client_step (i : nat) (e : ConnEvent) (s : Client) : option Client :=
  c ← q_conns s !! i;
  '(requests_left, c') ← conn_step (q_now s) e (q_left s) c;
  Some (mkClient (q_now s) requests_left (<[i := c']> (q_conns s))).

Inductive ClientAction : Type :=
  | Work (i : nat) (e : ConnEvent)
  | Until (t : Z).

Definition client_action (a : ClientAction) (s : Client) : option Client :=
  match a with
  | Work i e => client_step i e s
  | Until t => if q_now s <=? t then Some (mkClient t (q_left s) (q_conns s)) else None
  end.

Definition client_exec (l : list ClientAction) (s : Client) : option Client :=
  foldl (λ o a, s ← o; client_action a s) (Some s) l.
End connection.

(** ** What holds of a connection *)
Definition is_running (t : RequestTask) : bool :=
  match t with Running _ => true | Finished _ _ _ => false end.
Definition started_at (t : RequestTask) : Z :=
  match t with Running s | Finished s _ _ => s end.

Definition running (c : Conn) : Z := sumZ (λ t, if is_running t then 1 else 0) (c_tasks c).

(** A permit that the loop holds. *)
Definition held (c : Conn) : Z := match c_phase c with SleepingBefore _ => 1 | _ => 0 end.
(** A request that the loop has taken but not made. *)
Definition taken (c : Conn) : Z :=
  match c_phase c with SleepingBefore _ | AwaitingPermit => 1 | _ => 0 end.
(** The connection has seen that there are no requests left. *)
Definition drained (c : Conn) : bool :=
  match c_phase c with Joining _ | ConnDone => true | _ => false end.

Definition answered (t : RequestTask) : Prop := ∃ s f, t = Finished s f true.

(** The request [b] starts at least [interval] after the answer to [a]. *)
Definition paced (interval : Z) (a : RequestTask) (start : Z) : Prop :=
  ∃ s f ok, a = Finished s f ok ∧ f + interval ≤ start.

Record conn_ok (streams interval now : Z) (c : Conn) : Prop := mkConnOk {
  co_permits : c_permits c + running c + held c = streams ∧ 0 ≤ c_permits c;
  co_made : c_made c = wrap_i32 (Z.of_nat (length (c_tasks c)));
  co_past : ∀ t, t ∈ c_tasks c → started_at t ≤ now ∧ ∀ s f ok, t = Finished s f ok → s ≤ f ≤ now;
  co_pace : streams = 1 → ∀ k a b, c_tasks c !! k = Some a → c_tasks c !! S k = Some b →
    paced interval a (started_at b);
  co_sleep : ∀ d, c_phase c = SleepingBefore d → streams = 1 →
    ∀ t, t ∈ c_tasks c → paced interval t d;
  co_joined : ∀ k, c_phase c = Joining k → (k ≤ length (c_tasks c))%nat ∧
    ∀ t, t ∈ take k (c_tasks c) → answered t;
  co_done : c_phase c = ConnDone → ∀ t, t ∈ c_tasks c → answered t;
}.

Lemma wrap_i32_small z : 0 ≤ z < 2 ^ 31 → wrap_i32 z = z.
Proof. intros Hz. unfold wrap_i32. rewrite Z.mod_small; lia. Qed.

Lemma wrap_i32_succ z : wrap_i32 (wrap_i32 z + 1) = wrap_i32 (z + 1).
Proof.
  unfold wrap_i32. f_equal.
  replace ((z + 2 ^ 31) mod 2 ^ 32 - 2 ^ 31 + 1 + 2 ^ 31) with ((z + 2 ^ 31) mod 2 ^ 32 + 1) by lia.
  rewrite Zplus_mod_idemp_l. f_equal. lia.
Qed.

Lemma running_nonneg c : 0 ≤ running c.
Proof. apply sumZ_nonneg. intros t _. case_match; lia. Qed.

(** Without running tasks every task has ended. *)
Lemma running_zero c t : running c = 0 → t ∈ c_tasks c → ∃ s f ok, t = Finished s f ok.
Proof.
  unfold running. induction (c_tasks c) as [|x l IH]; simpl; [by intros _ ?%not_elem_of_nil|].
  assert (0 ≤ sumZ (λ t, if is_running t then 1 else 0) l) as Hl.
  { apply sumZ_nonneg. intros y _. case_match; lia. }
  destruct x as [s|s f ok]; simpl; intros Hs; [lia|].
  intros [->|Ht]%elem_of_cons; [by exists s, f, ok|]. apply IH; [lia|done].
Qed.

Lemma running_some c : 0 < running c → ∃ k s, c_tasks c !! k = Some (Running s).
Proof.
  unfold running. induction (c_tasks c) as [|x l IH]; simpl; [lia|].
  destruct x as [s|s f ok]; simpl; [by exists 0%nat, s|].
  intros (k & s' & Hk)%IH. by exists (S k), s'.
Qed.

Section connection.
Context (timer_elapsed : Z → Z → bool) (streams interval : Z).
Context (Helapsed : ∀ d n, timer_elapsed d n = true → d ≤ n).

Lemma conn_ok_later now now' c : now ≤ now' → conn_ok streams interval now c → conn_ok streams interval now' c.
Proof.
  intros Hle [C1 C2 C3 C4 C5 C6 C7]. split; try done. intros t Ht. destruct (C3 t Ht) as [H1 H2].
  split; [lia|]. intros s f ok Hf. specialize (H2 s f ok Hf). lia.
Qed.

(** A request is made by a connection that holds a permit. *)
Lemma spawn_ok now c :
  c_permits c + running c + 1 = streams → 0 ≤ c_permits c →
  c_made c = wrap_i32 (Z.of_nat (length (c_tasks c))) →
  (∀ t, t ∈ c_tasks c → started_at t ≤ now ∧ ∀ s f ok, t = Finished s f ok → s ≤ f ≤ now) →
  (streams = 1 → ∀ k a b, c_tasks c !! k = Some a → c_tasks c !! S k = Some b →
    paced interval a (started_at b)) →
  (streams = 1 → ∀ t, t ∈ c_tasks c → paced interval t now) →
  conn_ok streams interval now (spawn_request now c).
Proof.
  intros C1 C1' C2 C3 C4 C5. split; simpl; try done.
  - unfold running. simpl. rewrite sumZ_app. simpl. unfold held. simpl.
    unfold running in C1. split; [lia|done].
  - rewrite C2, wrap_i32_succ, length_app. simpl. f_equal. lia.
  - intros t [Ht| ->%list_elem_of_singleton]%elem_of_app; [by apply C3|]. simpl. split; [lia|done].
  - intros Hs k a b Ha Hb. apply lookup_app_Some in Hb as [Hb|[Hk Hb]].
    + rewrite lookup_app_l in Ha by (apply lookup_lt_Some in Hb; lia). by eapply C4.
    + destruct (S k - length (c_tasks c))%nat as [|m] eqn:Hm; [|done]. injection Hb as <-. simpl.
      rewrite lookup_app_l in Ha by lia. by apply (C5 Hs), (list_elem_of_lookup_2 _ k).
Qed.

(** A permit is taken: the connection sleeps first, or spawns the request. *)
Lemma permit_ok now left c left' c' :
  Z.of_nat (length (c_tasks c)) < 2 ^ 31 → conn_ok streams interval now c → c_phase c = AwaitingPermit →
  conn_step timer_elapsed interval now AcquirePermit left c = Some (left', c') → conn_ok streams interval now c'.
Proof.
  intros Hlen [[C1 C1'] C2 C3 C4 C5 C6 C7] Hp Hm. unfold conn_step in Hm. unfold held in C1. rewrite Hp in Hm, C1.
  destruct (Z.ltb_spec 0 (c_permits c)) as [Hpos|]; [|done].
  assert (streams = 1 → ∀ t, t ∈ c_tasks c → ∃ s f ok, t = Finished s f ok ∧ f ≤ now) as Hidle.
  { intros Hs t Ht. pose proof (running_nonneg c).
    destruct (running_zero c t) as (s & f & ok & ->); [lia|done|]. exists s, f, ok.
    split; [done|]. by destruct (proj2 (C3 _ Ht) s f ok eq_refl). }
  simpl in Hm. destruct ((0 <? c_made c) && negb (interval =? 0)) eqn:Hsl; injection Hm as _ <-.
  - split; simpl; try done; unfold held, running in *; simpl; [lia|].
    intros d [= <-] Hs t Ht. destruct (Hidle Hs t Ht) as (s & f & ok & -> & Hf).
    exists s, f, ok. split; [done|lia].
  - apply spawn_ok; simpl; try done; [unfold running in *; simpl; lia|lia|].
    intros Hs t Ht. destruct (Hidle Hs t Ht) as (s & f & ok & -> & Hf). exists s, f, ok.
    split; [done|]. apply andb_false_iff in Hsl as [Hmade|Hint].
    + apply Z.ltb_ge in Hmade. rewrite C2, wrap_i32_small in Hmade by lia.
      destruct (c_tasks c); [by apply not_elem_of_nil in Ht|simpl in Hmade; lia].
    + apply negb_false_iff, Z.eqb_eq in Hint. lia.
Qed.

(** A request is answered, or fails. *)
Lemma finished_ok now task s ok c :
  conn_ok streams interval now c → c_tasks c !! task = Some (Running s) →
  conn_ok streams interval now (mkConn (c_phase c) (c_permits c + 1) (c_made c)
    (<[task:=Finished s now ok]> (c_tasks c))).
Proof.
  intros [[C1 C1'] C2 C3 C4 C5 C6 C7] Ht.
  pose proof (list_elem_of_lookup_2 _ _ _ Ht) as Hin. destruct (C3 _ Hin) as [Hs _]. simpl in Hs.
  assert (∀ t, t ∈ <[task:=Finished s now ok]> (c_tasks c) → t = Finished s now ok ∨ t ∈ c_tasks c) as Hins.
  { intros t (j & [(-> & -> & _)|[_ Hj]]%list_lookup_insert_Some)%list_elem_of_lookup; [by left|right].
    by eapply list_elem_of_lookup_2. }
  assert (running c = running (mkConn (c_phase c) (c_permits c + 1) (c_made c)
    (<[task:=Finished s now ok]> (c_tasks c))) + 1) as Hrun.
  { unfold running. simpl. rewrite (sumZ_insert _ _ _ _ _ Ht). simpl. lia. }
  split; simpl; try done.
  - unfold held in *. simpl. lia.
  - by rewrite length_insert.
  - intros t [->|Hx]%Hins; [|by apply C3]. simpl. split; [done|]. intros ? ? ? [= <- <- <-]. lia.
  - intros H1 k a b Ha Hb.
    apply list_lookup_insert_Some in Ha as [(E1 & E2 & _)|[Hk Ha]];
      apply list_lookup_insert_Some in Hb as [(E3 & E4 & _)|[Hk' Hb]].
    + lia.
    + rewrite <-E1 in Hb. by destruct (C4 H1 _ _ _ Ht Hb) as (? & ? & ? & [=] & _).
    + rewrite E3 in Ht. rewrite <-E4. by apply (C4 H1 k a (Running s)).
    + by eapply C4.
  - intros d Hd H1 t Hx. destruct (C5 d Hd H1 _ Hin) as (? & ? & ? & [=] & _).
  - intros k Hk. rewrite length_insert. destruct (C6 k Hk) as [Hle Hans]. split; [done|].
    destruct (decide (task < k)%nat) as [Hlt|].
    + destruct (Hans (Running s)) as (? & ? & [=]). apply list_elem_of_lookup. exists task.
      by rewrite lookup_take_lt.
    + by rewrite take_insert_ge by lia.
  - intros Hd. destruct (C7 Hd _ Hin) as (? & ? & [=]).
Qed.

(** The connection waits for the next of its tasks. *)
Lemma join_ok now left c left' c' k :
  conn_ok streams interval now c → c_phase c = Joining k →
  conn_step timer_elapsed interval now JoinTask left c = Some (left', c') → conn_ok streams interval now c'.
Proof.
  intros [[C1 C1'] C2 C3 C4 C5 C6 C7] Hp Hm. unfold conn_step in Hm. unfold held in C1. rewrite Hp in Hm, C1.
  destruct (C6 k Hp) as [Hk Hans].
  destruct (c_tasks c !! k) as [[|s f ok]|] eqn:Ht; try done; injection Hm as _ <-.
  - destruct ok; split; simpl; try done; unfold held, running in *; simpl; try done.
    intros j [= <-]. split; [by apply lookup_lt_Some in Ht|]. rewrite (take_S_r _ _ _ Ht).
    intros t [Hx| ->%list_elem_of_singleton]%elem_of_app; [by apply Hans|by exists s, f].
  - split; simpl; try done; unfold held, running in *; simpl; try done.
    intros _ t Hx. apply Hans. rewrite take_ge; [done|]. by apply lookup_ge_None.
Qed.

Lemma conn_step_ok now e left c left' c' :
  Z.of_nat (length (c_tasks c)) < 2 ^ 31 → conn_ok streams interval now c →
  conn_step timer_elapsed interval now e left c = Some (left', c') →
  conn_ok streams interval now c'.
Proof using Helapsed.
  intros Hlen Hc Hm. pose proof Hc as [[C1 C1'] C2 C3 C4 C5 C6 C7].
  destruct e as [ok| | | |task ok| ].
  - unfold conn_step in Hm. destruct (c_phase c) eqn:Hp; try done. injection Hm as _ <-. unfold held in C1.
    rewrite Hp in C1. split; simpl; try done; unfold held, running in *; simpl in *; destruct ok; done.
  - unfold conn_step in Hm. destruct (c_phase c) eqn:Hp; try done. unfold held in C1. rewrite Hp in C1.
    destruct (left =? 0); injection Hm as _ <-; split; simpl; try done; unfold held, running in *; simpl in *.
    all: try done. intros k [= <-]. split; [lia|]. by intros t ?%not_elem_of_nil.
  - assert (c_phase c = AwaitingPermit) as Hp by (unfold conn_step in Hm; by destruct (c_phase c)).
    by eapply permit_ok.
  - unfold conn_step in Hm. destruct (c_phase c) as [| | |d| | |] eqn:Hp; try done. unfold held in C1.
    rewrite Hp in C1. destruct (timer_elapsed d now) eqn:He; [|done]. apply Helapsed in He. injection Hm as _ <-.
    apply spawn_ok; [lia|done..|]. intros Hs t Ht.
    destruct (C5 d eq_refl Hs t Ht) as (s & f & ok & -> & Hf). exists s, f, ok. split; [done|lia].
  - unfold conn_step in Hm.
    destruct (c_tasks c !! task) as [[s|]|] eqn:Ht; try (by destruct (c_phase c)).
    assert (Some (left, mkConn (c_phase c) (c_permits c + 1) (c_made c)
      (<[task:=Finished s now ok]> (c_tasks c))) = Some (left', c')) as [= _ <-]
      by (by destruct (c_phase c)). by apply finished_ok.
  - assert (∃ k, c_phase c = Joining k) as [k Hp] by (unfold conn_step in Hm; destruct (c_phase c); eauto; done).
    by eapply join_ok.
Qed.
End connection.

(** ** All connections *)
Definition claims (c : Conn) : Z := Z.of_nat (length (c_tasks c)) + taken c.

(** The work that is left: the steps of a connection and of its requests. *)
Definition conn_work (c : Conn) : Z :=
  running c +
  match c_phase c with
  | Connecting => 3 + Z.of_nat (length (c_tasks c))
  | Looping => 2 + Z.of_nat (length (c_tasks c))
  | AwaitingPermit => 7 + Z.of_nat (length (c_tasks c))
  | SleepingBefore _ => 6 + Z.of_nat (length (c_tasks c))
  | Joining k => 1 + Z.of_nat (length (c_tasks c) - k)
  | ConnDone | ConnFailed => 0
  end.

Definition client_work (s : Client) : Z := 6 * q_left s + sumZ conn_work (q_conns s).

Lemma conn_work_nonneg c : 0 ≤ conn_work c.
Proof. unfold conn_work. pose proof (running_nonneg c). case_match; lia. Qed.

Section client.
Context (timer_elapsed : Z → Z → bool) (interval : Z).

Lemma conn_step_claims now e requests_left c left' c' :
  conn_step timer_elapsed interval now e requests_left c = Some (left', c') →
  left' + claims c' = requests_left + claims c ∧ (0 ≤ requests_left → 0 ≤ left' ≤ requests_left) ∧
  (drained c' = true → drained c = true ∨ left' = 0).
Proof.
  intros Hm. unfold conn_step in Hm. unfold claims, taken, drained.
  destruct e as [ok| | | |task ok| ]; [destruct (c_phase c); try done..| |destruct (c_phase c); try done].
  - injection Hm as <- <-. simpl. by destruct ok.
  - destruct (Z.eqb_spec requests_left 0); injection Hm as <- <-; simpl; split_and!; try lia; auto.
  - destruct (0 <? c_permits c); [|done].
    destruct (_ && _); injection Hm as <- <-; simpl; rewrite ?length_app; simpl; split_and!; lia || done.
  - destruct (timer_elapsed _ _); [|done]. injection Hm as <- <-. simpl. rewrite length_app. simpl.
    split_and!; lia || done.
  - assert (Some (requests_left, mkConn (c_phase c) (c_permits c + 1) (c_made c)
      (match c_tasks c !! task with
       | Some (Running s) => <[task:=Finished s now ok]> (c_tasks c) | _ => c_tasks c end)) =
      Some (left', c')) as [= <- <-].
    { by destruct (c_phase c), (c_tasks c !! task) as [[]|]. }
    assert (length (match c_tasks c !! task with
       | Some (Running s) => <[task:=Finished s now ok]> (c_tasks c) | _ => c_tasks c end) =
       length (c_tasks c)) as Hl by (repeat case_match; rewrite ?length_insert; done).
    simpl. rewrite Hl. split_and!; [done|lia|by left].
  - destruct (c_tasks c !! task) as [[|s f ok]|]; [done|..]; injection Hm as <- <-; simpl;
      [destruct ok; simpl|]; split_and!; lia || auto.
Qed.

Lemma conn_step_work now e requests_left c left' c' :
  conn_step timer_elapsed interval now e requests_left c = Some (left', c') →
  6 * left' + conn_work c' < 6 * requests_left + conn_work c.
Proof.
  intros Hm. unfold conn_step in Hm. unfold conn_work, running.
  destruct e as [ok| | | |task ok| ]; [destruct (c_phase c); try done..| |destruct (c_phase c); try done].
  - injection Hm as <- <-. destruct ok; simpl; lia.
  - destruct (Z.eqb_spec requests_left 0); injection Hm as <- <-; simpl; lia.
  - destruct (0 <? c_permits c); [|done].
    destruct (_ && _); injection Hm as <- <-; simpl; rewrite ?length_app, ?sumZ_app; simpl; lia.
  - destruct (timer_elapsed _ _); [|done]. injection Hm as <- <-. simpl. rewrite length_app, sumZ_app.
    simpl. lia.
  - destruct (c_tasks c !! task) as [[s|]|] eqn:Ht; try (by destruct (c_phase c)).
    assert (Some (requests_left, mkConn (c_phase c) (c_permits c + 1) (c_made c)
      (<[task:=Finished s now ok]> (c_tasks c))) = Some (left', c')) as [= <- <-]
      by (by destruct (c_phase c)).
    simpl. rewrite length_insert, (sumZ_insert _ _ _ _ _ Ht). simpl. lia.
  - destruct (c_tasks c !! task) as [[|s f ok]|] eqn:Ht; [done|..]; injection Hm as <- <-; simpl; [|lia].
    apply lookup_lt_Some in Ht. destruct ok; lia.
Qed.

Record client_ok (opts : QuicOpt) (s : Client) : Prop := mkClientOk {
  ck_conns : ∀ c, c ∈ q_conns s →
    conn_ok (concurrent_streams_per_connection opts) interval (q_now s) c;
  ck_total : q_left s + sumZ claims (q_conns s) = requests opts;
  ck_left : 0 ≤ q_left s;
  ck_drained : ∀ c, c ∈ q_conns s → drained c = true → q_left s = 0;
}.

Context (Helapsed : ∀ d n, timer_elapsed d n = true → d ≤ n).
Abbreviation run := (client_exec timer_elapsed interval).

Lemma claims_nonneg c : 0 ≤ claims c.
Proof. unfold claims, taken. case_match; lia. Qed.

Lemma sumZ_elem {A} (f : A → Z) l x : (∀ y, 0 ≤ f y) → x ∈ l → f x ≤ sumZ f l.
Proof.
  intros Hf. induction l as [|y l IH]; [by intros ?%not_elem_of_nil|].
  pose proof (sumZ_nonneg f l (λ y _, Hf y)). pose proof (Hf y).
  intros [->|Hx]%elem_of_cons; simpl; [lia|]. specialize (IH Hx). lia.
Qed.

Lemma client_step_ok opts i e s s' :
  requests opts < 2 ^ 31 → client_ok opts s → client_step timer_elapsed interval i e s = Some s' →
  client_ok opts s'.
Proof using Helapsed.
  intros Hreq [K1 K2 K3 K4] Hm. unfold client_step in Hm.
  apply bind_Some in Hm as (c & Hc & Hm). apply bind_Some in Hm as ([left' c'] & Hs & [= <-]).
  pose proof (list_elem_of_lookup_2 _ _ _ Hc) as Hin.
  destruct (conn_step_claims _ _ _ _ _ _ Hs) as (Hcl & Hleft & Hdr).
  assert (Z.of_nat (length (c_tasks c)) < 2 ^ 31) as Hlen.
  { pose proof (sumZ_elem claims _ _ claims_nonneg Hin) as Hle.
    assert (0 ≤ taken c) by (unfold taken; case_match; lia). unfold claims at 1 in Hle. lia. }
  assert (∀ x, x ∈ <[i:=c']> (q_conns s) → x = c' ∨ x ∈ q_conns s) as Hins.
  { intros x (j & [(_ & <- & _)|[_ Hj]]%list_lookup_insert_Some)%list_elem_of_lookup; [by left|right].
    by eapply list_elem_of_lookup_2. }
  split; simpl.
  - intros x [->|Hx]%Hins; [|by apply K1]. eapply conn_step_ok; [done..|by apply K1|done].
  - rewrite (sumZ_insert _ _ _ _ _ Hc). lia.
  - lia.
  - intros x [->|Hx]%Hins Hd; [|specialize (K4 x Hx Hd); lia].
    destruct (Hdr Hd) as [Hd'|]; [|done]. specialize (K4 c Hin Hd'). lia.
Qed.

Lemma client_exec_app l l' s : run (l ++ l') s = s' ← run l s; run l' s'.
Proof.
  unfold client_exec. rewrite foldl_app. destruct (foldl _ _ l) as [s1|]; [done|]. by induction l'.
Qed.

(** Executions keep what every step keeps. *)
Lemma client_exec_inv (P : Client → Prop) l s s' :
  (∀ a s s', P s → client_action timer_elapsed interval a s = Some s' → P s') →
  P s → run l s = Some s' → P s'.
Proof.
  intros HP. revert s'. induction l as [|a l IH] using rev_ind; intros s' Hs Hm; [by injection Hm as <-|].
  rewrite client_exec_app in Hm. apply bind_Some in Hm as (s1 & H1 & H2).
  eapply HP; [by apply IH|exact H2].
Qed.

Lemma client_init_ok now opts :
  0 ≤ requests opts → 0 ≤ concurrent_streams_per_connection opts → client_ok opts (client_init now opts).
Proof.
  intros Hr Hs. unfold client_init. split; simpl; [|..|done|].
  - intros c [-> _]%elem_of_replicate. split; simpl; try done.
    + unfold running, held. simpl. lia.
    + by intros t ?%not_elem_of_nil.
  - match goal with |- _ + ?x = _ => assert (x = 0) as ->; [|lia] end.
    induction (Z.to_nat _) as [|n IH]; simpl; [done|]. unfold claims at 1, taken. simpl. lia.
  - by intros c [-> _]%elem_of_replicate.
Qed.

Lemma client_exec_ok now opts l s :
  0 ≤ requests opts < 2 ^ 31 → 0 ≤ concurrent_streams_per_connection opts →
  run l (client_init now opts) = Some s → client_ok opts s.
Proof using Helapsed.
  intros [Hr Hr'] Hs. apply client_exec_inv; [|by apply client_init_ok].
  intros [i e|t] x y Hx Hm; simpl in Hm; [by eapply client_step_ok|].
  destruct (Z.leb_spec (q_now x) t); [|done]. injection Hm as <-. destruct Hx as [K1 K2 K3 K4].
  split; simpl; try done. intros c Hc. eapply conn_ok_later; [done|by apply K1].
Qed.
End client.

(** When all connections are done all requests were made and answered. *)
Lemma all_done_ok interval opts s :
  client_ok interval opts s → (0 < length (q_conns s))%nat → (∀ c, c ∈ q_conns s → c_phase c = ConnDone) →
  sumZ (λ c, Z.of_nat (length (c_tasks c))) (q_conns s) = requests opts ∧
  ∀ c t, c ∈ q_conns s → t ∈ c_tasks c → answered t.
Proof.
  intros [K1 K2 K3 K4] Hlen Hdone. split; [|intros c t Hc; by apply (co_done _ _ _ _ (K1 c Hc) (Hdone c Hc))].
  assert (q_left s = 0) as H0.
  { destruct (q_conns s) as [|c cs] eqn:Hq; [simpl in Hlen; lia|].
    apply (K4 c); [left|]. unfold drained. by rewrite (Hdone c (list_elem_of_here _ _)). }
  rewrite <-K2, H0, Z.add_0_l. clear -Hdone. induction (q_conns s) as [|c cs IH]; simpl; [done|].
  rewrite IH by (intros x Hx; apply Hdone; by right). unfold claims, taken.
  rewrite (Hdone c (list_elem_of_here _ _)). lia.
Qed.

(** ** Termination *)
Definition is_work (a : ClientAction) : bool := match a with Work _ _ => true | Until _ => false end.
Definition work_steps (l : list ClientAction) : Z := sumZ (λ a, if is_work a then 1 else 0) l.

Definition ended (c : Conn) : bool :=
  match c_phase c with ConnDone | ConnFailed => true | _ => false end.

Section termination.
Context (timer_elapsed : Z → Z → bool) (interval : Z).

Lemma action_work a s s' :
  client_action timer_elapsed interval a s = Some s' →
  (if is_work a then 1 else 0) + client_work s' ≤ client_work s.
Proof.
  destruct a as [i e|t]; simpl; intros Hm; [|by destruct (_ <=? t); [injection Hm as <-|]].
  unfold client_step in Hm. apply bind_Some in Hm as (c & Hc & Hm).
  apply bind_Some in Hm as ([r c'] & Hs & [= <-]). apply conn_step_work in Hs.
  unfold client_work. simpl. rewrite (sumZ_insert _ _ _ _ _ Hc). lia.
Qed.

Lemma exec_work l s s' :
  client_exec timer_elapsed interval l s = Some s' → work_steps l + client_work s' ≤ client_work s.
Proof.
  revert s'. induction l as [|a l IH] using rev_ind; intros s' Hm; [injection Hm as <-; unfold work_steps; simpl; lia|].
  rewrite client_exec_app in Hm. apply bind_Some in Hm as (s1 & H1%IH & H2).
  unfold work_steps in *. rewrite sumZ_app. simpl. apply action_work in H2. lia.
Qed.

Lemma client_init_work now opts :
  0 ≤ concurrent_connections opts →
  client_work (client_init now opts) = 6 * requests opts + 3 * concurrent_connections opts.
Proof.
  intros Hn. unfold client_work, client_init. simpl. f_equal.
  rewrite <-(Z2Nat.id (concurrent_connections opts)) at 2 by done.
  induction (Z.to_nat _) as [|n IH]; simpl sumZ; [done|]. rewrite IH. unfold conn_work, running. simpl. lia.
Qed.

(** A connection that has not ended can take a step, if it waits long enough. *)
Lemma conn_progress streams now requests_left c :
  (∀ d, ∃ t, ∀ n, t ≤ n → timer_elapsed d n = true) → 0 < streams →
  conn_ok streams interval now c → ended c = false →
  ∃ t e r, now ≤ t ∧ conn_step timer_elapsed interval t e requests_left c = Some r.
Proof.
  intros Htimer Hst [[C1 C1'] _ _ _ _ _ _] He. unfold ended, held in *.
  destruct (c_phase c) as [| | |d|k| |] eqn:Hp; try done.
  - exists now, (Connect true). unfold conn_step. rewrite Hp. by eexists.
  - exists now, TakeRequest. unfold conn_step. rewrite Hp. destruct (requests_left =? 0); by eexists.
  - destruct (Z.ltb_spec 0 (c_permits c)) as [Hpos|].
    + exists now, AcquirePermit. unfold conn_step. rewrite Hp.
      destruct (Z.ltb_spec 0 (c_permits c)); [|lia]. case_match; by eexists.
    + destruct (running_some c) as (j & x & Hj); [lia|]. exists now, (RequestDone j true).
      unfold conn_step. rewrite Hp, Hj. by eexists.
  - destruct (Htimer d) as [t Ht]. exists (Z.max now t), WakeUp. unfold conn_step. rewrite Hp, Ht by lia.
    eexists. split; [lia|done].
  - destruct (c_tasks c !! k) as [[x|x f ok]|] eqn:Hk.
    + exists now, (RequestDone k true). unfold conn_step. rewrite Hp, Hk. by eexists.
    + exists now, JoinTask. unfold conn_step. rewrite Hp, Hk. by eexists.
    + exists now, JoinTask. unfold conn_step. rewrite Hp, Hk. by eexists.
Qed.
End termination.

(** With no streams allowed, a connection that has taken a request waits for ever. *)
Lemma no_streams_hang timer_elapsed interval now e requests_left made :
  conn_step timer_elapsed interval now e requests_left (mkConn AwaitingPermit 0 made []) = None.
Proof. by destruct e. Qed.

Section theorems.
Context (timer_elapsed : Z → Z → bool) (now : Z) (opts : QuicOpt).
Abbreviation run l := (client_exec timer_elapsed (request_interval opts) l (client_init now opts)).

(** C26: The requests are shared out without loss: in every execution, the requests left, those the
    connections have taken and those they have made add up to the configured number; a connection
    has at most the configured number of requests open at a time; and when all connections
    have ended without an error, every request was made exactly once and was answered. *)
Theorem requests_made_once l s :
  (∀ d n, timer_elapsed d n = true → d ≤ n) →
  0 ≤ requests opts < 2 ^ 31 → 0 ≤ concurrent_streams_per_connection opts →
  0 < concurrent_connections opts → run l = Some s →
  q_left s + sumZ (λ c, Z.of_nat (length (c_tasks c)) + taken c) (q_conns s) = requests opts ∧
  (∀ c, c ∈ q_conns s → running c ≤ concurrent_streams_per_connection opts) ∧
  ((∀ c, c ∈ q_conns s → c_phase c = ConnDone) →
    sumZ (λ c, Z.of_nat (length (c_tasks c))) (q_conns s) = requests opts ∧
    ∀ c t, c ∈ q_conns s → t ∈ c_tasks c → answered t).
Proof.
  intros He Hr Hs Hn Hm. assert (length (q_conns s) = Z.to_nat (concurrent_connections opts)) as Hlen.
  { eapply (client_exec_inv _ _ (λ s, length (q_conns s) = Z.to_nat (concurrent_connections opts)));
      [| |exact Hm]; [|simpl; by rewrite length_replicate].
    intros [i e|t] x y Hx Hst; simpl in Hst; [|by destruct (_ <=? _); [injection Hst as <-|]].
    unfold client_step in Hst. apply bind_Some in Hst as (c & _ & Hst).
    apply bind_Some in Hst as ([r c'] & _ & [= <-]). simpl. by rewrite length_insert. }
  apply client_exec_ok in Hm as [K1 K2 K3 K4]; [|done..]. split; [done|]. split.
  - intros c Hc. destruct (co_permits _ _ _ _ (K1 c Hc)) as [Hp Hp'].
    assert (0 ≤ held c) by (unfold held; case_match; lia). lia.
  - intros Hdone. apply (all_done_ok (request_interval opts)); [by split|lia|done].
Qed.

(** C27: Options that pass the validation keep the promise of [--request-interval-ms]: each request of
    a connection starts at least the interval after the answer to the connection's previous
    request. *)
Theorem requests_paced l s c k a b :
  (∀ d n, timer_elapsed d n = true → d ≤ n) → 0 ≤ requests opts < 2 ^ 31 →
  validate_opts opts = Ok () → request_interval_ms opts ≠ Some 0 → request_interval_ms opts ≠ None →
  run l = Some s → c ∈ q_conns s → c_tasks c !! k = Some a → c_tasks c !! S k = Some b →
  ∃ started finished ok, a = Finished started finished ok ∧
    finished + request_interval opts ≤ started_at b.
Proof.
  intros He Hr Hv H0 Hnone Hm Hc Ha Hb.
  assert (concurrent_streams_per_connection opts = 1) as Hone.
  { unfold validate_opts in Hv. destruct (request_interval_ms opts) as [ms|]; [|done]. simpl in Hv.
    destruct (Z.eqb_spec ms 0); [congruence|]. simpl in Hv.
    destruct (Z.eqb_spec (concurrent_streams_per_connection opts) 1); [done|]. done. }
  apply client_exec_ok in Hm as [K1 _ _ _]; [|done|done|lia].
  by apply (co_pace _ _ _ _ (K1 c Hc) Hone k).
Qed.

(** C28: The client terminates: its connections and requests take at most six steps per request and
    three per connection, whatever the order and the answers of the environment; and as long as
    some connection has not ended, one of them can take a step, now or after waiting. *)
Theorem client_terminates l s :
  (∀ d n, timer_elapsed d n = true → d ≤ n) → (∀ d, ∃ t, ∀ n, t ≤ n → timer_elapsed d n = true) →
  0 ≤ requests opts < 2 ^ 31 → 0 < concurrent_streams_per_connection opts →
  0 ≤ concurrent_connections opts → run l = Some s →
  work_steps l ≤ 6 * requests opts + 3 * concurrent_connections opts ∧
  ((∀ c, c ∈ q_conns s → ended c = true) ∨
   ∃ t i e s', client_exec timer_elapsed (request_interval opts) [Until t; Work i e] s = Some s').
Proof.
  intros He Ht Hr Hst Hn Hm. pose proof Hm as Hok.
  apply client_exec_ok in Hok as [K1 _ K3 _]; [|done|done|lia]. split.
  - apply exec_work in Hm. rewrite client_init_work in Hm by done. unfold client_work in Hm.
    pose proof (sumZ_nonneg conn_work (q_conns s) (λ c _, conn_work_nonneg c)). lia.
  - clear Hm.
    destruct (decide (Forall (λ c, ended c = true) (q_conns s))) as [Hall|Hnot].
    { left. by apply Forall_forall. }
    right. apply not_Forall_Exists in Hnot; [|apply _]. apply Exists_exists in Hnot as (c & Hc & Hend).
    apply not_true_is_false in Hend.
    destruct (conn_progress timer_elapsed (request_interval opts) _ _ (q_left s) c Ht Hst (K1 c Hc) Hend)
      as (t & e & [r c'] & Hle & Hstep).
    apply list_elem_of_lookup in Hc as [i Hi]. exists t, i, e. unfold client_exec. simpl.
    destruct (Z.leb_spec (q_now s) t); [|lia]. simpl. unfold client_step. simpl. rewrite Hi. simpl.
    rewrite Hstep. by eexists.
Qed.
End theorems.

(** ** Witnesses *)

(** Three requests over two connections, one at a time, with 10 ms between the
    requests of a connection. *)
Definition example_opts : QuicOpt :=
  mkQuicOpt false 3 2 1 1024 (Some 10) false
    (mkNetworkOpt (V4 0) (V4 1) false 0 42 "graph.json" "events.json").
Definition example_timer (deadline now : Z) : bool := deadline <=? now.

Lemma example_timer_elapsed d n : example_timer d n = true → d ≤ n.
Proof. apply Z.leb_le. Qed.

Definition example_requests : list ClientAction :=
  [Work 0 (Connect true); Work 0 TakeRequest; Work 0 AcquirePermit; Work 0 TakeRequest;
   Work 1 (Connect true); Work 1 TakeRequest; Work 1 AcquirePermit; Work 1 TakeRequest;
   Until 5000000; Work 0 (RequestDone 0 true); Work 0 AcquirePermit; Work 1 (RequestDone 0 true);
   Work 1 JoinTask; Work 1 JoinTask; Until 15000000; Work 0 WakeUp; Work 0 TakeRequest;
   Until 20000000; Work 0 (RequestDone 1 true); Work 0 JoinTask; Work 0 JoinTask; Work 0 JoinTask].
Definition example_start : Client := client_init 0 example_opts.
Definition example_end : Client :=
  default example_start (client_exec example_timer (from_millis 10) example_requests example_start).

Lemma example_end_eq :
  client_exec example_timer (request_interval example_opts) example_requests example_start =
  Some example_end.
Proof. vm_compute. reflexivity. Qed.

Lemma requests_made_once_witness :
  sumZ (λ c, Z.of_nat (length (c_tasks c))) (q_conns example_end) = 3.
Proof.
  destruct (requests_made_once example_timer 0 example_opts example_requests example_end
    example_timer_elapsed) as (_ & _ & Hdone); [vm_compute; split; [discriminate|reflexivity]|
    vm_compute; discriminate|vm_compute; reflexivity|exact example_end_eq|].
  apply Hdone. apply Forall_forall. vm_compute. by repeat constructor.
Defined.

Definition paced_conn : Conn :=
  mkConn ConnDone 1 2 [Finished 0 5000000 true; Finished 15000000 20000000 true].

Lemma requests_paced_witness :
  ∃ started finished ok, Finished 0 5000000 true = Finished started finished ok ∧
    finished + request_interval example_opts ≤ 15000000.
Proof.
  apply (requests_paced example_timer 0 example_opts example_requests example_end paced_conn 0%nat
    (Finished 0 5000000 true) (Finished 15000000 20000000 true) example_timer_elapsed).
  - vm_compute. split; [discriminate|reflexivity].
  - reflexivity.
  - discriminate.
  - discriminate.
  - exact example_end_eq.
  - vm_compute. left.
  - reflexivity.
  - reflexivity.
Defined.

Lemma client_terminates_witness :
  work_steps example_requests ≤ 24.
Proof.
  refine (proj1 (client_terminates example_timer 0 example_opts example_requests example_end
    example_timer_elapsed _ _ _ _ example_end_eq)).
  - intros d. exists d. intros n. apply Z.leb_le.
  - vm_compute. split; [discriminate|reflexivity].
  - vm_compute. reflexivity.
  - vm_compute. discriminate.
Defined.
