(* ===== verification/QuicServer.v ===== *)
(** * The server of the QUIC simulation

    Models [server_listen] of [quinn-workbench/src/quic/server.rs]: the task that
    accepts connections, the task of a connection, which accepts streams and then
    waits for their tasks, and the task of a stream, which reads a request and
    responds.  As for the clients, quinn is the environment: what the awaited
    calls return, and when, are the events of an execution. *)

From Stdlib Require Import Init.Byte.
From stdpp Require Import relations.
From S2P Require Import Prelude Bytes Cli QuicClient.

(** ** The state of the tasks *)

(** The task of a stream awaits [read_to_end], [write_all] or [stopped], or it
    returned, with an error or not, or it panicked. *)
Inductive StreamPhase : Type :=
  | Reading
  | Writing
  | Stopping
  | StreamOk
  | StreamErrored
  | StreamCrashed.

Record ServerStream : Type := mkStream {
  st_phase : StreamPhase;
  st_request : option (list byte);
  st_written : option (list byte);
}.

Inductive ServerError : Type :=
  | NotEstablished
  | StreamTaskCrashed
  | StreamTaskErrored.

(** How the task of a connection ends. *)
Inductive ServerResult : Type :=
  | ServedOk
  | ServedErr (e : ServerError)
  | ServedPanic.

Inductive ServerPhase : Type :=
  | Establishing
  | AcceptingStreams
  | JoiningStreams (task : nat)
  | AwaitingClose
  | ServerEnded (r : ServerResult).

Record ServerConn : Type := mkServerConn {
  sc_phase : ServerPhase;
  sc_streams : list ServerStream;
}.

(** [sl_conns] are the tasks sent to [connection_result_tx], in order. *)
Record Listener : Type := mkListener {
  sl_listening : bool;
  sl_conns : list ServerConn;
}.

Definition server_listen : Listener := mkListener true [].

(** ** The events *)

(** What quinn returns to a stream: the request, if it could be read; whether
    the response could be written and the stream finished; whether the
    client acknowledged it. *)
Inductive StreamEvent : Type :=
  | ReadToEnd (request : option (list byte))
  | WriteAll (written finished : bool)
  | Stopped (ok : bool).

Inductive ServerConnEvent : Type :=
  | Established (ok : bool)
  | AcceptBi (ok : bool)
  | OnStream (task : nat) (e : StreamEvent)
  | JoinStream
  | ConnClosed (by_application : bool).

Inductive ServerEvent : Type :=
  | AcceptConn (incoming : bool)
  | OnConn (task : nat) (e : ServerConnEvent).

Section server.
Context (response : list byte).

Definition stream_step (e : StreamEvent) (s : ServerStream) : option ServerStream :=
  match e, st_phase s with
  | ReadToEnd request, Reading =>
      Some match request with
           | None => mkStream StreamErrored None (st_written s)
           | Some r =>
               mkStream (if decide (r = QuicClient.request) then Writing else StreamCrashed)
                 (Some r) (st_written s)
           end
  | WriteAll written finished, Writing =>
      Some (if written then
              mkStream (if finished then Stopping else StreamErrored) (st_request s) (Some response)
            else mkStream StreamErrored (st_request s) (st_written s))
  | Stopped ok, Stopping =>
      Some (mkStream (if ok then StreamOk else StreamErrored) (st_request s) (st_written s))
  | _, _ => None
  end.

(** A step of the task of a connection or of one of its streams. *)
Definition server_conn_step (e : ServerConnEvent) (c : ServerConn) : option ServerConn :=
  let streams := sc_streams c in
  match e, sc_phase c with
  | Established ok, Establishing =>
      Some (mkServerConn (if ok then AcceptingStreams else ServerEnded (ServedErr NotEstablished)) streams)
  | AcceptBi true, AcceptingStreams =>
      Some (mkServerConn AcceptingStreams (streams ++ [mkStream Reading None None]))
  | AcceptBi false, AcceptingStreams => Some (mkServerConn (JoiningStreams 0) streams)
  | OnStream task e, phase =>
      s ← streams !! task;
      s' ← stream_step e s;
      Some (mkServerConn phase (<[task := s']> streams))
  | JoinStream, JoiningStreams task =>
      match streams !! task with
      | None => Some (mkServerConn AwaitingClose streams)
      | Some s =>
          match st_phase s with
          | StreamOk => Some (mkServerConn (JoiningStreams (S task)) streams)
          | StreamErrored => Some (mkServerConn (ServerEnded (ServedErr StreamTaskErrored)) streams)
          | StreamCrashed => Some (mkServerConn (ServerEnded (ServedErr StreamTaskCrashed)) streams)
          | Reading | Writing | Stopping => None
          end
      end
  | ConnClosed by_application, AwaitingClose =>
      Some (mkServerConn (ServerEnded (if by_application then ServedOk else ServedPanic)) streams)
  | _, _ => None
  end.

Definition listener_step (e : ServerEvent) (l : Listener) : option Listener :=
  match e with
  | AcceptConn incoming =>
      if sl_listening l then
        Some (if incoming then mkListener true (sl_conns l ++ [mkServerConn Establishing []])
              else mkListener false (sl_conns l))
      else None
  | OnConn task e =>
      c ← sl_conns l !! task;
      c' ← server_conn_step e c;
      Some (mkListener (sl_listening l) (<[task := c']> (sl_conns l)))
  end.

Definition listener_exec (es : list ServerEvent) (l : Listener) : option Listener :=
  foldl (λ o e, l ← o; listener_step e l) (Some l) es.

(** ** What holds of streams and connections *)

(** A stream that was served: it read the request, and wrote the response. *)
Definition served (s : ServerStream) : Prop :=
  st_phase s = StreamOk ∧ st_request s = Some QuicClient.request ∧ st_written s = Some response.

Definition stream_ok (s : ServerStream) : Prop :=
  match st_phase s with
  | Reading => st_request s = None ∧ st_written s = None
  | Writing => st_request s = Some QuicClient.request ∧ st_written s = None
  | Stopping | StreamOk => st_request s = Some QuicClient.request ∧ st_written s = Some response
  | StreamErrored => st_written s = None ∨ st_written s = Some response
  | StreamCrashed => (∃ r, st_request s = Some r ∧ r ≠ QuicClient.request) ∧ st_written s = None
  end.

(** The task of a stream has ended. *)
Definition stream_ended (s : ServerStream) : bool :=
  match st_phase s with StreamOk | StreamErrored | StreamCrashed => true | _ => false end.

Record server_conn_ok (c : ServerConn) : Prop := mkServerConnOk {
  so_streams : ∀ s, s ∈ sc_streams c → stream_ok s;
  so_start : sc_phase c = Establishing → sc_streams c = [];
  so_joined : ∀ k, sc_phase c = JoiningStreams k → (k ≤ length (sc_streams c))%nat ∧
    ∀ s, s ∈ take k (sc_streams c) → st_phase s = StreamOk;
  so_closing : sc_phase c = AwaitingClose ∨ sc_phase c = ServerEnded ServedOk ∨
    sc_phase c = ServerEnded ServedPanic → ∀ s, s ∈ sc_streams c → st_phase s = StreamOk;
  so_failed : ∀ e, sc_phase c = ServerEnded (ServedErr e) → match e with
    | NotEstablished => sc_streams c = []
    | StreamTaskErrored => ∃ s, s ∈ sc_streams c ∧ st_phase s = StreamErrored
    | StreamTaskCrashed => ∃ s, s ∈ sc_streams c ∧ st_phase s = StreamCrashed
    end;
}.

Lemma stream_step_ok e s s' : stream_ok s → stream_step e s = Some s' → stream_ok s'.
Proof.
  unfold stream_ok, stream_step. destruct s as [ph r wr]. simpl. intros Hs Hm.
  destruct e as [req|written finished|ok], ph; try done; injection Hm as <-.
  - destruct req as [q|]; simpl; [|by left; apply Hs]. destruct (decide _) as [->|Hne]; simpl; [by destruct Hs|].
    split; [by exists q|apply Hs].
  - destruct written; simpl; [|left; apply Hs]. destruct finished; simpl; [by destruct Hs|by right].
  - destruct ok; simpl; [done|right; apply Hs].
Qed.

(** A stream whose task has ended stays as it is. *)
Lemma stream_step_running e s s' : stream_step e s = Some s' → stream_ended s = false.
Proof. unfold stream_step, stream_ended. by destruct e, (st_phase s). Qed.

(** A stream makes a step. *)
Lemma on_stream_ok task e ph ss s s' :
  server_conn_ok (mkServerConn ph ss) → ss !! task = Some s → stream_step e s = Some s' →
  server_conn_ok (mkServerConn ph (<[task:=s']> ss)).
Proof.
  intros [S1 S2 S3 S4 S5] Hs Hst. simpl in *.
  pose proof (list_elem_of_lookup_2 _ _ _ Hs) as Hin. pose proof (stream_step_running _ _ _ Hst) as Hrun.
  assert (st_phase s ≠ StreamOk) as Hne by (intros Hx; unfold stream_ended in Hrun; by rewrite Hx in Hrun).
  assert (∀ x, x ∈ <[task:=s']> ss → x = s' ∨ x ∈ ss) as Hins.
  { intros x (j & [(_ & <- & _)|[_ Hj]]%list_lookup_insert_Some)%list_elem_of_lookup; [by left|right].
    by eapply list_elem_of_lookup_2. }
  assert (∀ x, x ∈ ss → stream_ended x = true → x ∈ <[task:=s']> ss) as Hkeep.
  { intros x (j & Hj)%list_elem_of_lookup He. apply list_elem_of_lookup. exists j.
    rewrite list_lookup_insert_ne; [done|]. intros <-. rewrite Hs in Hj. injection Hj as <-. congruence. }
  split; simpl.
  - intros x [->|Hx]%Hins; [|by apply S1]. eapply stream_step_ok; [|exact Hst]. by apply S1.
  - intros Hp. rewrite S2 in Hs by done. done.
  - intros k ->. rewrite length_insert. destruct (S3 k eq_refl) as [Hk Hall]. split; [done|].
    rewrite take_insert_ge; [done|]. destruct (decide (k ≤ task)%nat); [done|].
    exfalso. apply Hne, Hall, list_elem_of_lookup. exists task. rewrite lookup_take_lt; [done|lia].
  - intros Hp. specialize (S4 Hp s Hin). done.
  - intros e' ->. specialize (S5 e' eq_refl). destruct e'.
    + rewrite S5 in Hs. done.
    + destruct S5 as (x & Hx & Hph). exists x. split; [|done]. apply Hkeep; [done|].
      unfold stream_ended. by rewrite Hph.
    + destruct S5 as (x & Hx & Hph). exists x. split; [|done]. apply Hkeep; [done|].
      unfold stream_ended. by rewrite Hph.
Qed.

Lemma server_conn_step_ok e c c' :
  server_conn_ok c → server_conn_step e c = Some c' → server_conn_ok c'.
Proof.
  intros Hok Hm. pose proof Hok as [S1 S2 S3 S4 S5]. destruct c as [ph ss]. simpl in *.
  unfold server_conn_step in Hm. simpl in Hm. destruct e as [ok|ok|task e| |by_app].
  - destruct ph; try done. injection Hm as <-. destruct ok; split; simpl; try done.
    + by intros [?|[?|?]].
    + by intros [?|[?|?]].
    + intros e [= <-]. by apply S2.
  - destruct ok, ph; try done; injection Hm as <-; split; simpl; try done; try by intros [?|[?|?]].
    + intros s [?| ->%list_elem_of_singleton]%elem_of_app; [by apply S1|done].
    + intros k [= <-]. split; [lia|]. by intros s ?%not_elem_of_nil.
  - apply bind_Some in Hm as (s & Hs & Hm). apply bind_Some in Hm as (s' & Hst & [= <-]).
    by eapply on_stream_ok.
  - destruct ph as [| |k| |]; try done. destruct (S3 k eq_refl) as [Hk Hall].
    destruct (ss !! k) as [s|] eqn:Hs.
    + pose proof (list_elem_of_lookup_2 _ _ _ Hs) as Hin. destruct (st_phase s) eqn:Hph; try done;
        injection Hm as <-; split; simpl; try done; try by intros [?|[?|?]].
      * intros j [= <-]. split; [by apply lookup_lt_Some in Hs|]. rewrite (take_S_r _ _ _ Hs).
        intros x [Hx| ->%list_elem_of_singleton]%elem_of_app; [by apply Hall|done].
      * intros e [= <-]. by exists s.
      * intros e [= <-]. by exists s.
    + injection Hm as <-. split; simpl; try done.
      intros _ x Hx. apply Hall. rewrite take_ge; [done|]. by apply lookup_ge_None.
  - destruct ph; try done. injection Hm as <-. destruct by_app; split; simpl; try done; intros _; auto.
Qed.

Lemma listener_step_ok e l l' :
  (∀ c, c ∈ sl_conns l → server_conn_ok c) → listener_step e l = Some l' →
  ∀ c, c ∈ sl_conns l' → server_conn_ok c.
Proof.
  intros Hl Hm. unfold listener_step in Hm. destruct e as [incoming|task e].
  - destruct (sl_listening l); [|done]. injection Hm as <-. destruct incoming; simpl; [|done].
    intros c [?| ->%list_elem_of_singleton]%elem_of_app; [by apply Hl|]. split; simpl; try done;
      [by intros s ?%not_elem_of_nil|by intros [?|[?|?]]].
  - apply bind_Some in Hm as (c & Hc & Hm). apply bind_Some in Hm as (c' & Hs & [= <-]). simpl.
    intros x (j & [(_ & <- & _)|[_ Hj]]%list_lookup_insert_Some)%list_elem_of_lookup.
    + eapply server_conn_step_ok; [|exact Hs]. by apply Hl, (list_elem_of_lookup_2 _ task).
    + by apply Hl, (list_elem_of_lookup_2 _ j).
Qed.

(** A connection whose task returned without an error has served its streams. *)
Lemma ended_served c s :
  server_conn_ok c → sc_phase c = ServerEnded ServedOk → s ∈ sc_streams c → served s.
Proof.
  intros [S1 _ _ S4 _] Hp Hs. assert (st_phase s = StreamOk) as Hph by (apply S4; auto).
  pose proof (S1 s Hs) as Hok. unfold stream_ok in Hok. rewrite Hph in Hok. by split.
Qed.
End server.
