(* ===== verification/Endpoints.v ===== *)
(** * The endpoints of the QUIC simulation

    Models [server_endpoint] ([quinn-workbench/src/quic/server.rs]), [client_endpoint]
    and [client_config] ([quic/client.rs]), [endpoint_config] ([quic/mod.rs]),
    [PcapExporter::for_node] as far as it opens its file, and the part of
    [QuicSimulation::run] that calls them.  rustls, quinn and the file system are
    parameters: whether they accept what they are given.  An endpoint is what quinn
    is told about it. *)

From Stdlib Require Import Init.Byte.
From S2P Require Import Prelude Quinn Certificate.

Inductive SetupError : Type :=
  | PcapNotCreated (node : string)
  | QlogNotCreated (file : string)
  | CertificateRejected
  | ClientCryptoRejected
  | ServerEndpointFailed
  | ClientEndpointFailed.

(** The configuration of rustls. *)
Record Tls : Type := mkTls {
  cipher_suites : list string;
  protocol_versions : list string;
  max_early_data_size : option Z;
}.

Record ServerEndpoint : Type := mkServerEndpoint {
  se_node : string;
  se_seed : list byte;
  se_cert : list Z;
  se_key : list Z;
  se_tls : Tls;
  se_transport : list TransportSetting;
}.

Record ClientEndpoint : Type := mkClientEndpoint {
  ce_node : string;
  ce_seed : list byte;
  ce_roots : list (list Z);
  ce_tls : Tls;
  ce_transport : list TransportSetting;
}.

Definition client_tls : Tls := mkTls ["TLS13_AES_128_GCM_SHA256"] ["TLS13"] None.
Definition server_tls : Tls :=
  mkTls (cipher_suites client_tls) (protocol_versions client_tls) (Some u32_max).

(** ** The environment *)

(** What the file system, rustls and quinn accept: creating a file, starting a log of
    events in it, a certificate with its key, a root certificate, a configuration of
    TLS for QUIC, and an endpoint for a node. *)
Record Environment : Type := mkEnvironment {
  can_create : string → bool;
  qlog_starts : string → bool;
  accepts_key : list Z → list Z → bool;
  accepts_root : list Z → bool;
  accepts_tls : Tls → bool;
  quic_tls : Tls → bool;
  creates_endpoint : string → bool;
}.

Section endpoints.
Context {R : Type} (fill : R → list byte * R) (idle_timeout : Z → option Z) (env : Environment).

(** The random number generator of quinn and the files created so far, which a failure
    leaves as they are. *)
Record Setup : Type := mkSetup {
  su_rng : R;
  su_files : list string;
}.

Definition SetupM (A : Type) : Type := Setup → outcome SetupError A * Setup.

#[local] Instance SetupM_ret : MRet SetupM := λ A a s, (Ok a, s).
#[local] Instance SetupM_bind : MBind SetupM := λ A B f m s,
  match m s with
  | (Ok a, s) => f a s
  | (Err e, s) => (Err e, s)
  | (Panic, s) => (Panic, s)
  end.

Definition fails {A} (e : SetupError) : SetupM A := λ s, (Err e, s).
Definition of_outcome {A} (o : outcome SetupError A) : SetupM A := λ s, (o, s).
Definition unwrap_if (b : bool) : SetupM () := of_outcome (if b then Ok () else Panic).
Definition or_error (b : bool) (e : SetupError) : SetupM () := of_outcome (if b then Ok () else Err e).
(** Indexing, which panics. *)
Definition found {A} (x : option A) : SetupM A := of_outcome (unwrap x).

Definition fill_seed : SetupM (list byte) := λ s,
  let '(seed, rng) := fill (su_rng s) in (Ok seed, mkSetup rng (su_files s)).

Definition create_file (name : string) (e : SetupError) : SetupM () := λ s,
  if can_create env name then (Ok (), mkSetup (su_rng s) (su_files s ++ [name])) else (Err e, s).

Definition for_node (node_id : string) : SetupM () :=
  create_file (node_id +:+ ".pcap") (PcapNotCreated node_id).

(** [transport_config], with the log of events it starts. *)
Definition endpoint_transport (quinn_config : QuinnJsonConfig) (qlog_file : string) : SetupM (list TransportSetting) :=
  _ ← unwrap_if (qlog_starts env qlog_file);
  of_outcome (transport_config idle_timeout quinn_config).

Definition server_endpoint (cert key : list Z) (node : string) (quinn_config : QuinnJsonConfig)
    : SetupM ServerEndpoint :=
  seed ← fill_seed;
  _ ← create_file "server.qlog" (QlogNotCreated "server.qlog");
  _ ← unwrap_if (accepts_tls env client_tls);
  _ ← unwrap_if (accepts_key env cert key);
  _ ← unwrap_if (quic_tls env server_tls);
  transport ← endpoint_transport quinn_config "server.qlog";
  _ ← or_error (creates_endpoint env node) ServerEndpointFailed;
  mret (mkServerEndpoint node seed cert key server_tls transport).

Definition client_config (server_cert : list Z) (quinn_config : QuinnJsonConfig)
    : SetupM (list (list Z) * Tls * list TransportSetting) :=
  _ ← or_error (accepts_root env server_cert) CertificateRejected;
  _ ← unwrap_if (accepts_tls env client_tls);
  _ ← create_file "client.qlog" (QlogNotCreated "client.qlog");
  _ ← or_error (quic_tls env client_tls) ClientCryptoRejected;
  transport ← endpoint_transport quinn_config "client.qlog";
  mret ([server_cert], client_tls, transport).

Definition client_endpoint (server_cert : list Z) (node : string) (quinn_config : QuinnJsonConfig)
    : SetupM ClientEndpoint :=
  seed ← fill_seed;
  _ ← or_error (creates_endpoint env node) ClientEndpointFailed;
  '(roots, tls, transport) ← client_config server_cert quinn_config;
  mret (mkClientEndpoint node seed roots tls transport).

(** From the second network to the requests: [server_host] and [client_host] are the ids
    of the hosts, if they are found, and [quic_configs] their configurations. *)
Definition create_endpoints (server_host client_host : option string)
    (quic_configs : string → option QuinnJsonConfig) : SetupM (ServerEndpoint * ClientEndpoint) :=
  server_host ← found server_host;
  _ ← for_node server_host;
  server_config ← found (quic_configs server_host);
  server ← server_endpoint CERT_DER_RSA KEY_PAIR_DER_RSA server_host server_config;
  client_host ← found client_host;
  _ ← for_node client_host;
  client_quinn ← found (quic_configs client_host);
  client ← client_endpoint CERT_DER_RSA client_host client_quinn;
  mret (server, client).

(** The two seeds of a random number generator. *)
Definition seeds_of (rng : R) : list byte * list byte :=
  let '(seed, rng) := fill rng in (seed, (fill rng).1).

(** The files of a run, in the order they are created. *)
Definition setup_files (server client : string) : list string :=
  [server +:+ ".pcap"; "server.qlog"; client +:+ ".pcap"; "client.qlog"].

(** The environment accepts what only fails with a panic. *)
Definition sound (server client : QuinnJsonConfig) : Prop :=
  accepts_tls env client_tls = true ∧ accepts_key env CERT_DER_RSA KEY_PAIR_DER_RSA = true ∧
  quic_tls env server_tls = true ∧ qlog_starts env "server.qlog" = true ∧ qlog_starts env "client.qlog" = true ∧
  ∀ c t, c = server ∨ c = client → qj_maximum_idle_timeout_ms c = Some t → t ≤ varint_max.

(** The environment accepts the rest. *)
Definition willing (server client : string) : Prop :=
  (∀ f, f ∈ setup_files server client → can_create env f = true) ∧
  accepts_root env CERT_DER_RSA = true ∧ quic_tls env client_tls = true ∧
  creates_endpoint env server = true ∧ creates_endpoint env client = true.
End endpoints.

(** How many of the files exist when an error is returned. *)
Definition files_before (server : string) (e : SetupError) : nat :=
  match e with
  | PcapNotCreated node => if bool_decide (node = server) then 0 else 2
  | QlogNotCreated file => if bool_decide (file = "server.qlog") then 1 else 3
  | ServerEndpointFailed => 2
  | ClientEndpointFailed | CertificateRejected => 3
  | ClientCryptoRejected => 4
  end%nat.

(** What the environment refused. *)
Definition refused (env : Environment) (server client : string) (e : SetupError) : bool :=
  negb match e with
  | PcapNotCreated node => can_create env (node +:+ ".pcap")
  | QlogNotCreated file => can_create env file
  | ServerEndpointFailed => creates_endpoint env server
  | ClientEndpointFailed => creates_endpoint env client
  | CertificateRejected => accepts_root env CERT_DER_RSA
  | ClientCryptoRejected => quic_tls env client_tls
  end.

Section theorems.
Context {R : Type} (fill : R → list byte * R) (idle_timeout : Z → option Z) (env : Environment).
Context (Hidle : ∀ d, idle_timeout d =
  if d / ns_per_ms <=? varint_max then Some (d / ns_per_ms) else None).

Lemma transport_sound {E} config :
  (∀ t, qj_maximum_idle_timeout_ms config = Some t → t ≤ varint_max) →
  ∃ l, transport_config (E := E) idle_timeout config = Ok l.
Proof using Hidle.
  intros Ht. pose proof (transport_config_settings idle_timeout Hidle (E := E) config) as Hc.
  destruct (transport_config _ _) as [l|e|]; [by exists l|done|]. destruct Hc as (t & Hq & Hlt).
  specialize (Ht t Hq). lia.
Qed.

(** Whether the environment accepts [b]: if not, the set-up ends there. *)
Ltac refuses :=
  split_and!;
  [ simpl; by repeat match goal with H : ?b = _ |- context [?b] => rewrite H end
  | intros (Hfiles & Hroot & Hquic & Hse & Hce); simpl in *; try congruence;
    match goal with H : can_create _ ?f = false |- _ => rewrite (Hfiles f) in H by set_solver; done end
  | simpl; repeat case_bool_decide; first [done | subst; congruence] ].
Ltac panics := intros (? & ? & ? & ? & ? & ?); congruence.
Ltac next b := destruct b eqn:?; simpl; [|try refuses; try panics].
Ltac transport c :=
  let Hc := fresh "Hc" in
  pose proof (transport_config_settings idle_timeout Hidle (E := SetupError) c) as Hc;
  destruct (transport_config idle_timeout c) eqn:?; simpl; [clear Hc|done|
    let t := fresh "t" in let Hq := fresh "Hq" in let Hlt := fresh "Hlt" in let Ht := fresh "Ht" in
    destruct Hc as (t & Hq & Hlt); intros (_ & _ & _ & _ & _ & Ht);
    specialize (Ht c t ltac:(auto) Hq); lia].

Lemma create_endpoints_cases (server client : string) (configs : string → option QuinnJsonConfig) qs qc rng :
  configs server = Some qs → configs client = Some qc →
  let '(result, setup) := create_endpoints fill idle_timeout env (Some server) (Some client) configs (mkSetup rng []) in
  match result with
  | Ok (se, ce) =>
      willing env server client ∧ su_files setup = setup_files server client ∧
      (se_seed se, ce_seed ce) = seeds_of fill rng ∧ se_node se = server ∧ ce_node ce = client ∧
      transport_config idle_timeout qs = Ok (E := SetupError) (se_transport se) ∧
      transport_config idle_timeout qc = Ok (E := SetupError) (ce_transport ce) ∧
      cipher_suites (se_tls se) = cipher_suites (ce_tls ce) ∧
      protocol_versions (se_tls se) = protocol_versions (ce_tls ce) ∧
      se_cert se = CERT_DER_RSA ∧ se_key se = KEY_PAIR_DER_RSA ∧ ce_roots ce = [se_cert se]
  | Err e =>
      refused env server client e = true ∧ ¬ willing env server client ∧
      su_files setup = take (files_before server e) (setup_files server client)
  | Panic => ¬ sound env qs qc
  end.
Proof using Hidle.
  intros Hs Hc. unfold create_endpoints, server_endpoint, client_endpoint, client_config, endpoint_transport, for_node,
    create_file, unwrap_if, or_error, found, of_outcome, fill_seed, mbind, SetupM_bind, mret, SetupM_ret, refused.
  simpl. unfold seeds_of. destruct (fill rng) as [seed rng'] eqn:Hseed.
  destruct (fill rng') as [seed' rng''] eqn:Hseed'. simpl.
  next (can_create env (server +:+ ".pcap")). rewrite Hs. simpl. rewrite Hseed. next (can_create env "server.qlog").
  next (accepts_tls env client_tls). next (accepts_key env CERT_DER_RSA KEY_PAIR_DER_RSA).
  next (quic_tls env server_tls). next (qlog_starts env "server.qlog").
  transport qs.
  next (creates_endpoint env server). next (can_create env (client +:+ ".pcap")).
  rewrite Hc. simpl. rewrite Hseed'. next (creates_endpoint env client). next (accepts_root env CERT_DER_RSA).
  next (can_create env "client.qlog"). next (quic_tls env client_tls). next (qlog_starts env "client.qlog").
  transport qc.
  assert (willing env server client) as Hw; [|by split_and!].
  split; [|done]. intros f Hf. unfold setup_files in Hf. set_solver.
Qed.
Lemma endpoints_never_panic (server client : string) (configs : string → option QuinnJsonConfig) qs qc rng :
  configs server = Some qs → configs client = Some qc → sound env qs qc →
  (create_endpoints fill idle_timeout env (Some server) (Some client) configs (mkSetup rng [])).1 ≠ Panic.
Proof using Hidle.
  intros Hs Hc Hok. pose proof (create_endpoints_cases server client configs qs qc rng Hs Hc) as Hcases.
  by destruct (create_endpoints _ _ _ _ _ _ _) as [[[? ?]|e|] setup].
Qed.

(** C25: Creating the endpoints of a run.  A success means that every file was created, in
    the order of [setup_files], that the two seeds are the first the random number
    generator gives, so they only depend on its seed, that both endpoints have the
    transport settings of their hosts and the same kind of TLS, and that the client
    trusts the certificate of the server and no other.  An error names what was
    refused, and the files are those created before.  It only panics if rustls refuses the key or the
    configuration, if the log of events cannot be started, or for an idle timeout
    that quinn cannot represent. *)
Theorem endpoints_created (server client : string) (configs : string → option QuinnJsonConfig) qs qc rng :
  configs server = Some qs → configs client = Some qc →
  let '(result, setup) := create_endpoints fill idle_timeout env (Some server) (Some client) configs (mkSetup rng []) in
  match result with
  | Ok (se, ce) =>
      willing env server client ∧ su_files setup = setup_files server client ∧
      (se_seed se, ce_seed ce) = seeds_of fill rng ∧ se_node se = server ∧ ce_node ce = client ∧
      transport_config idle_timeout qs = Ok (E := SetupError) (se_transport se) ∧
      transport_config idle_timeout qc = Ok (E := SetupError) (ce_transport ce) ∧
      cipher_suites (se_tls se) = cipher_suites (ce_tls ce) ∧
      protocol_versions (se_tls se) = protocol_versions (ce_tls ce) ∧
      se_cert se = CERT_DER_RSA ∧ se_key se = KEY_PAIR_DER_RSA ∧ ce_roots ce = [se_cert se]
  | Err e =>
      refused env server client e = true ∧ ¬ willing env server client ∧
      su_files setup = take (files_before server e) (setup_files server client)
  | Panic => ¬ sound env qs qc
  end.
Proof using Hidle. apply create_endpoints_cases. Qed.
End theorems.

(** ** A witness: an environment that accepts everything *)
Definition open_environment : Environment :=
  mkEnvironment (λ _, true) (λ _, true) (λ _ _, true) (λ _, true) (λ _, true) (λ _, true) (λ _, true).
Definition quinn_timeout (d : Z) : option Z := if d / ns_per_ms <=? varint_max then Some (d / ns_per_ms) else None.
Definition counting_fill (r : Z) : list byte * Z := (replicate (Z.to_nat r) Byte.x01, r + 1).

Lemma endpoints_created_witness :
  ∃ se ce setup,
    create_endpoints counting_fill quinn_timeout open_environment (Some "B") (Some "A")
      (λ _, Some QuinnJsonConfig_default) (mkSetup 3 []) = (Ok (se, ce), setup) ∧
    su_files setup = ["B.pcap"; "server.qlog"; "A.pcap"; "client.qlog"] ∧
    (se_seed se, ce_seed ce) = seeds_of counting_fill 3 ∧ ce_roots ce = [se_cert se].
Proof.
  pose proof (endpoints_created counting_fill quinn_timeout open_environment (λ _, eq_refl) "B" "A"
    (λ _, Some QuinnJsonConfig_default) QuinnJsonConfig_default QuinnJsonConfig_default 3 eq_refl eq_refl) as Hok.
  destruct (create_endpoints _ _ _ _ _ _ _) as [[[se ce]|e|] setup] eqn:E; [|vm_compute in E; discriminate..].
  destruct Hok as (_ & Hf & Hseeds & _ & _ & _ & _ & _ & _ & _ & _ & Hroots).
  exists se, ce, setup. by split_and!.
Defined.
