(* ===== verification/VerifierInv.v ===== *)
(** * The verifier's state mirrors the replay log

    The invariant that relates the state of the verifier after a prefix of the
    log to the readings of [History] on that prefix, and the lemmas that
    compute the errors each step tracks from those readings. *)

From stdpp Require Import sorting.
From S2P Require Import Prelude Ip Spec Event SimStep Replayed Verifier History Window.

(** ** Inverting verifier computations *)
Lemma vm_bind_ok {S A B} (m : VM S A) (f : A → VM S B) s b s2 w :
  (m ≫= f) s = (Ok b, s2, w) →
  ∃ a s1 w1 w2, m s = (Ok a, s1, w1) ∧ f a s1 = (Ok b, s2, w2) ∧ w = w1 ++ w2.
Proof.
  unfold mbind, VM_bind. destruct (m s) as [[[a| |] s1] w1]; [|done..].
  destruct (f a s1) as [[r s3] w2] eqn:Hf. intros [= -> -> <-]. eauto 10.
Qed.

Lemma track_if_ok {S} b e (s s' : S) u w :
  track_if b e s = (Ok u, s', w) → s' = s ∧ w = if b then [e] else [].
Proof. destruct b; by intros [= <- <- <-]. Qed.

Lemma lift_ok {S A} (o : outcome FatalError A) (s s' : S) a w :
  lift o s = (Ok a, s', w) → o = Ok a ∧ s' = s ∧ w = [].
Proof. by intros [= -> <- <-]. Qed.

Lemma ok_or_ok {E A} (o : option A) (e : E) a : ok_or o e = Ok a → o = Some a.
Proof. destruct o; by intros [= ->]. Qed.

Lemma unwrap_ok {E A} (o : option A) (a : A) : unwrap (E:=E) o = Ok a → o = Some a.
Proof. destruct o; by intros [= ->]. Qed.

Lemma on_node_ok {A} n (m : VM ReplayedNode A) v a v' w :
  on_node n m v = (Ok a, v', w) →
  ∃ nd nd', v_nodes v !! n = Some nd ∧ m nd = (Ok a, nd', w) ∧
            v' = set_v_nodes (<[n := nd']> (v_nodes v)) v.
Proof.
  unfold on_node. destruct (v_nodes v !! n) as [nd|]; [|done].
  destruct (m nd) as [[r nd'] w'] eqn:Hm. intros [= -> <- <-]. eauto.
Qed.

Ltac vm_inv_step H :=
  lazymatch type of H with
  | (_ ≫= _) _ = (Ok _, _, _) =>
      let a := fresh "a" in let s := fresh "s" in
      let w1 := fresh "w" in let w2 := fresh "w" in
      let H1 := fresh H in
      apply vm_bind_ok in H as (a & s & w1 & w2 & H1 & H & ->);
      cbv beta in H; vm_inv_step H1; try vm_inv_step H
  | track_if _ _ _ = _ => apply track_if_ok in H as [-> ->]
  | track _ _ = _ => first [injection H as <- <- <- | injection H as <- <-]
  | mret _ _ = _ => first [injection H as <- <- <- | injection H as <- <-]
  | get _ = _ => injection H as <- <- <-
  | modify _ _ = _ => first [injection H as <- <- <- | injection H as <- <-]
  | lift _ _ = _ => apply lift_ok in H as (H & -> & ->)
  | _ => idtac
  end.
Ltac vm_inv H := vm_inv_step H; simpl in *; simplify_eq.

(** ** Node invariant *)
Record node_inv (h : history) (n : string) (nd : ReplayedNode) : Prop := mkNodeInv {
  ni_id : rn_id nd = n;
  ni_status : rn_status nd = node_status_at h n;
  ni_clear : rn_last_buffer_clear nd = node_last_clear h n;
  ni_packets : ∀ p, rn_packets nd !! p = buffered_at h n p;
  ni_usage : rn_buffer_usage nd = wrap64 (stored_bytes h n);
}.

(** [nd'] differs from [nd] in statistics only. *)
Record same_node (nd nd' : ReplayedNode) : Prop := mkSameNode {
  sn_id : rn_id nd' = rn_id nd;
  sn_status : rn_status nd' = rn_status nd;
  sn_clear : rn_last_buffer_clear nd' = rn_last_buffer_clear nd;
  sn_packets : rn_packets nd' = rn_packets nd;
  sn_usage : rn_buffer_usage nd' = rn_buffer_usage nd;
}.

Lemma add_packet_ok p size now nd u nd' w :
  add_packet_to_buffer p size now nd = (Ok u, nd', w) →
  rn_packets nd !! p = None ∧
  rn_packets nd' = <[p := mkReplayedPacket now size 0]> (rn_packets nd) ∧
  rn_buffer_usage nd' = wrap64 (rn_buffer_usage nd + size) ∧
  rn_id nd' = rn_id nd ∧ rn_status nd' = rn_status nd ∧
  rn_last_buffer_clear nd' = rn_last_buffer_clear nd ∧
  w = if is_node_down (rn_status nd) then [NodeDownPacketReceive (rn_id nd) p] else [].
Proof.
  intros H. unfold add_packet_to_buffer in H. vm_inv H.
  case_bool_decide as Hex; vm_inv H. apply eq_None_not_Some in Hex.
  destruct nd; simpl in *. by rewrite app_nil_r.
Qed.

Lemma remove_packet_ok p nd k nd' w :
  remove_packet_from_buffer p nd = (Ok k, nd', w) →
  rn_packets nd !! p = Some k ∧ rn_packets nd' = delete p (rn_packets nd) ∧
  rn_buffer_usage nd' = rn_buffer_usage nd - rp_size_bytes k ∧
  rp_size_bytes k ≤ rn_buffer_usage nd ∧
  rn_id nd' = rn_id nd ∧ rn_status nd' = rn_status nd ∧
  rn_last_buffer_clear nd' = rn_last_buffer_clear nd ∧ w = [].
Proof.
  intros H. unfold remove_packet_from_buffer in H. vm_inv H.
  destruct (rn_packets nd !! p) as [k'|] eqn:Hp; vm_inv H.
  apply unwrap_ok in H0. unfold checked_sub in H0.
  destruct (Z.ltb_spec (rn_buffer_usage nd) (rp_size_bytes k')); simplify_eq.
  destruct nd; simpl in *. auto 10.
Qed.

(** *** Which packets and nodes a step is about *)
Definition step_node (s : SimulationStep) : option string :=
  match step_kind s with
  | PacketInNode k => Some (in_node_id k)
  | PacketDropped k => Some (dr_node_id k)
  | PacketLostInTransit _ => None
  | PacketDuplicated k | PacketCongestionEvent k | PacketDeliveredToApplication k =>
      Some (g_node_id k)
  | PacketExtraDelay k => Some (xd_node_id k)
  | PacketInTransit k => Some (tr_node_id k)
  | NetworkEventStep e => ne_node_id <$> ev_node e
  end.

Ltac split_step :=
  repeat (case_match; simpl in *; try done; simplify_eq/=);
  rewrite ?andb_true_iff, ?bool_decide_eq_true, ?Z.eqb_eq in *; destruct_and?; subst; try done.

Lemma enters_about h s n p size :
  enters h s n p = Some size → step_packet s = Some p ∧ step_node s = Some n.
Proof. unfold enters, step_packet, step_node. intros H. split_step. Qed.

Lemma leaves_about s n p :
  leaves s n p = true → step_packet s = Some p ∧ step_node s = Some n.
Proof. unfold leaves, step_packet, step_node. intros H. split_step. Qed.

Lemma delays_about s n p d :
  delays s n p = Some d → step_packet s = Some p ∧ step_node s = Some n.
Proof. unfold delays, step_packet, step_node. intros H. split_step. Qed.

Lemma node_event_about s n e :
  node_event s n = Some e → step_packet s = None ∧ step_node s = Some n.
Proof.
  unfold node_event, step_packet, step_node. destruct (step_kind s); try done.
  destruct (ev_node e0); simpl; [|done]. case_decide; naive_solver.
Qed.

(** Steps about another node, or about no stored packet, leave a node's
    packets alone. *)
Definition untouched (h : history) (s : SimulationStep) (n : string) : Prop :=
  ∀ p, enters h s n p = None ∧ leaves s n p = false ∧ delays s n p = None.

Lemma untouched_other h s n : step_node s ≠ Some n → untouched h s n.
Proof.
  intros Hn p. split_and!.
  - destruct (enters h s n p) eqn:H; [|done]. by apply enters_about in H as [].
  - destruct (leaves s n p) eqn:H; [|done]. by apply leaves_about in H as [].
  - destruct (delays s n p) eqn:H; [|done]. by apply delays_about in H as [].
Qed.

Lemma stored_bytes_untouched h s n :
  untouched h s n → stored_bytes (s :: h) n = stored_bytes h n.
Proof.
  intros H. simpl. destruct (step_packet s) as [p|]; [|done].
  by destruct (H p) as (-> & -> & _).
Qed.

Lemma buffered_at_untouched h s n p :
  untouched h s n → buffered_at (s :: h) n p = buffered_at h n p.
Proof. intros H. simpl. by destruct (H p) as (-> & -> & ->). Qed.

Lemma buffered_at_other h s n p :
  step_packet s ≠ Some p → buffered_at (s :: h) n p = buffered_at h n p.
Proof.
  intros H. simpl.
  destruct (enters h s n p) eqn:H1; [by apply enters_about in H1 as []|].
  destruct (leaves s n p) eqn:H2; [by apply leaves_about in H2 as []|].
  destruct (delays s n p) eqn:H3; [by apply delays_about in H3 as []|done].
Qed.

Section node_steps.
Context (h : history) (s : SimulationStep) (n : string) (nd nd' : ReplayedNode).
Context (Hinv : node_inv h n nd).

Lemma node_inv_same :
  node_event s n = None → untouched h s n → same_node nd nd' → node_inv (s :: h) n nd'.
Proof using Hinv.
  intros He Hu [Hid Hst Hcl Hpk Hus]. destruct Hinv. split.
  - congruence.
  - simpl. rewrite He. simpl. congruence.
  - simpl. rewrite He. congruence.
  - intros p. rewrite buffered_at_untouched by done. by rewrite Hpk.
  - rewrite stored_bytes_untouched by done. congruence.
Qed.

Lemma node_inv_enter p size :
  enters h s n p = Some size →
  rn_packets nd' = <[p := mkReplayedPacket (step_time s) size 0]> (rn_packets nd) →
  rn_buffer_usage nd' = wrap64 (rn_buffer_usage nd + size) →
  rn_id nd' = rn_id nd → rn_status nd' = rn_status nd →
  rn_last_buffer_clear nd' = rn_last_buffer_clear nd →
  node_inv (s :: h) n nd'.
Proof using Hinv.
  intros He Hpk Hus Hid Hst Hcl. destruct Hinv.
  destruct (enters_about _ _ _ _ _ He) as [Hp Hn].
  assert (node_event s n = None) as Hev.
  { destruct (node_event s n) eqn:E; [|done]. apply node_event_about in E as []. congruence. }
  split.
  - congruence.
  - simpl. rewrite Hev. simpl. congruence.
  - simpl. rewrite Hev. congruence.
  - intros q. rewrite Hpk. destruct (decide (q = p)) as [->|Hq].
    + rewrite lookup_insert_eq. simpl. by rewrite He.
    + rewrite lookup_insert_ne by done. rewrite buffered_at_other by congruence. done.
  - simpl. rewrite Hp, He, Hus, ni_usage0. apply wrap64_add_l.
Qed.

Lemma node_inv_leave p k :
  leaves s n p = true → enters h s n p = None → rn_packets nd !! p = Some k →
  rn_packets nd' = delete p (rn_packets nd) →
  rn_buffer_usage nd' = rn_buffer_usage nd - rp_size_bytes k →
  0 ≤ rp_size_bytes k ≤ rn_buffer_usage nd →
  rn_id nd' = rn_id nd → rn_status nd' = rn_status nd →
  rn_last_buffer_clear nd' = rn_last_buffer_clear nd →
  node_inv (s :: h) n nd'.
Proof using Hinv.
  intros Hl He Hk Hpk Hus Hsz Hid Hst Hcl. destruct Hinv.
  destruct (leaves_about _ _ _ Hl) as [Hp Hn].
  assert (node_event s n = None) as Hev.
  { destruct (node_event s n) eqn:E; [|done]. apply node_event_about in E as []. congruence. }
  split.
  - congruence.
  - simpl. rewrite Hev. simpl. congruence.
  - simpl. rewrite Hev. congruence.
  - intros q. rewrite Hpk. destruct (decide (q = p)) as [->|Hq].
    + rewrite lookup_delete_eq. simpl. by rewrite He, Hl.
    + rewrite lookup_delete_ne by done. rewrite buffered_at_other by congruence. done.
  - simpl. rewrite Hp, He, Hl. unfold stored_size. rewrite <-ni_packets0, Hk.
    rewrite Hus, ni_usage0, <-wrap64_sub_l. symmetry. apply wrap64_small.
    rewrite ni_usage0 in Hsz. pose proof (wrap64_range (stored_bytes h n)).
    unfold in_u64. lia.
Qed.
End node_steps.

(** ** Link invariant *)
Definition hist_sorted (h : history) : Prop :=
  StronglySorted (λ a b, step_time b ≤ step_time a) h.

Record link_inv (bandwidth : Z) (h : history) (l : string) (rl : ReplayedLink) : Prop :=
  mkLinkInv {
  li_status : rl_status rl = link_status_at h l;
  li_down : rl_last_down_relative rl = link_last_down h l;
  li_window : ∀ t, (∀ s, s ∈ h → step_time s ≤ t) →
    in_window (from_secs (window_seconds bandwidth)) t (rl_packets_in_bandwidth_window rl) =
    in_window (from_secs (window_seconds bandwidth)) t (link_sends h l);
  li_sent : ∀ e, e ∈ rl_packets_in_bandwidth_window rl → e ∈ link_sends h l;
  li_sorted : sorted_by_key fst (rl_packets_in_bandwidth_window rl);
  li_usage : rl_bandwidth_usage_bps rl =
    wrap64 (sumZ snd (rl_packets_in_bandwidth_window rl));
}.

Lemma link_sends_time h l e : e ∈ link_sends h l → ∃ s, s ∈ h ∧ step_time s = e.1.
Proof.
  induction h as [|s h IH]; simpl; [by intros He%not_elem_of_nil|].
  assert (e ∈ link_sends h l → ∃ s', s' ∈ s :: h ∧ step_time s' = e.1) as Hih.
  { intros H. destruct (IH H) as (s' & ? & ?). exists s'. split; [by right|done]. }
  destruct (step_kind s); try done. case_decide; [|done].
  intros [He|He]%elem_of_app; [by apply Hih|].
  apply list_elem_of_singleton in He as ->. exists s. split; [left|done].
Qed.

Lemma link_sends_sorted h l : hist_sorted h → sorted_by_key fst (link_sends h l).
Proof.
  unfold sorted_by_key. induction h as [|s h IH]; simpl; [constructor|].
  intros [Hs Hall]%StronglySorted_inv.
  destruct (step_kind s); try by apply IH. case_decide; [|by apply IH].
  apply StronglySorted_app. split_and!; [|by apply IH|repeat constructor].
  intros e e' He He'. apply list_elem_of_singleton in He' as ->.
  apply link_sends_time in He as (s' & Hs' & <-).
  rewrite Forall_forall in Hall. by apply Hall.
Qed.

Lemma window_ns_pos b : 0 ≤ from_secs (window_seconds b).
Proof. unfold from_secs, window_seconds, ns_per_sec. case_match; lia. Qed.

(** [packet_sent] measures the traffic of the window that ends now. *)
Lemma link_packet_sent_spec {E'} bw h l rl t size used rl' :
  link_inv bw h l rl → (∀ s, s ∈ h → step_time s ≤ t) →
  link_packet_sent (E:=E') t size bw rl = Ok (used, rl') →
  let w := from_secs (window_seconds bw) in
  let win := in_window w t (link_sends h l) ++ [(t, wrap64 (size * 8))] in
  used = wrap64 (sumZ snd win) / window_seconds bw ∧
  rl' = mkReplayedLink (rl_status rl) (rl_last_down_relative rl) (wrap64 (sumZ snd win)) win
          (Z.max (rl_max_bandwidth_usage_bps rl) used).
Proof.
  intros [Hst Hdn Hwin Hsent Hsort Hus] Ht H. simpl.
  unfold link_packet_sent in H. inv_bind H. destruct a as [u win]. injection H as <- <-.
  apply expire_window_spec in Hm as [-> Hu]; [|done].
  rewrite (Hwin t Ht) in *. specialize (Hu Hus). subst u.
  rewrite wrap64_add_l, sumZ_app. simpl. rewrite Z.add_0_r. done.
Qed.

Lemma link_inv_sent bw h l rl t k size max :
  link_inv bw h l rl → (∀ s, s ∈ h → step_time s ≤ t) → hist_sorted h →
  tr_link_id k = l → stored_size h (tr_node_id k) (tr_packet_id k) = size →
  let win := in_window (from_secs (window_seconds bw)) t (link_sends h l)
               ++ [(t, wrap64 (size * 8))] in
  link_inv bw (mkStep t (PacketInTransit k) :: h) l
    (mkReplayedLink (rl_status rl) (rl_last_down_relative rl) (wrap64 (sumZ snd win)) win max).
Proof.
  intros [Hst Hdn Hwin Hsent Hsort Hus] Ht Hh Hl Hsz win. subst win. split; simpl; try done.
  - intros t' Ht'. rewrite Hsz, decide_True by done.
    rewrite !in_window_app, in_window_in_window; [done|].
    apply (Ht' (mkStep t (PacketInTransit k))). left.
  - intros e. rewrite Hsz, decide_True by done. rewrite !elem_of_app.
    intros [[_ He]%list_elem_of_filter|He]; auto.
  - unfold sorted_by_key. apply StronglySorted_app. split_and!; [|by apply sorted_by_key_filter, link_sends_sorted|repeat constructor].
    intros e e' [_ He]%list_elem_of_filter He'.
    apply list_elem_of_singleton in He' as ->.
    apply link_sends_time in He as (s' & Hs' & <-). by apply Ht.
Qed.

(** A step that neither transmits over [l] nor changes its status. *)
Lemma link_inv_frame bw h s l rl :
  link_inv bw h l rl → link_event s l = None → link_sends (s :: h) l = link_sends h l →
  link_inv bw (s :: h) l rl.
Proof.
  intros [Hst Hdn Hwin Hsent Hsort Hus] He Hs. split; try done.
  - simpl. by rewrite He.
  - simpl. by rewrite He.
  - intros t Ht. rewrite Hs. apply Hwin. intros s' ?. apply Ht. by right.
  - intros e Hin. rewrite Hs. by apply Hsent.
Qed.

Lemma link_inv_status bw h s l rl st :
  link_inv bw h l rl → link_event s l = Some st →
  link_inv bw (s :: h) l (set_status st (step_time s) rl).
Proof.
  intros [Hst Hdn Hwin Hsent Hsort Hus] He'. split; simpl; try done.
  - by rewrite He'.
  - rewrite He'. by destruct st.
  - assert (link_sends (s :: h) l = link_sends h l) as Hs.
    { unfold link_event in He'. simpl. by destruct (step_kind s). }
    intros t Ht. simpl in Hs. rewrite Hs. apply Hwin. intros s' ?. apply Ht. by right.
  - intros e Hin. simpl. unfold link_event in He'. destruct (step_kind s); by auto.
Qed.

(** ** Node operations *)
Definition step_typed (s : SimulationStep) : Prop :=
  0 ≤ step_time s ∧
  match step_kind s with
  | PacketInNode k => in_u64 (in_packet_size_bytes k)
  | PacketDuplicated k => in_u64 (g_packet_size_bytes k)
  | PacketExtraDelay k => 0 ≤ xd_extra_delay k
  | _ => True
  end.

Lemma buffered_at_typed h n p k :
  Forall step_typed h → buffered_at h n p = Some k →
  0 ≤ rp_size_bytes k ∧ 0 ≤ rp_extra_delay k.
Proof.
  revert k. induction h as [|s h IH]; intros k; [done|].
  intros [[Ht Hty] Hall]%Forall_cons. simpl.
  destruct (enters h s n p) as [size|] eqn:He.
  { intros [= <-]. simpl. split; [|done]. unfold enters in He. unfold in_u64 in Hty.
    destruct (step_kind s); try done; case_match; simplify_eq; lia. }
  destruct (leaves s n p); [done|].
  destruct (delays s n p) as [d|] eqn:Hd; [|by apply IH].
  intros (k' & Hk' & ->)%fmap_Some. simpl.
  destruct (IH k' Hall Hk') as [??]. split; [done|].
  unfold delays in Hd. destruct (step_kind s); try done. case_match; by simplify_eq.
Qed.

Definition down_error (h : history) (n : string) (e : NonFatalError) : list NonFatalError :=
  if is_node_down (node_status_at h n) then [e] else [].

Section node_ops.
Context (h : history) (n : string) (nd nd' : ReplayedNode) (t : Z).
Context (Hinv : node_inv h n nd).

Lemma add_packet_inv s p size u w :
  enters h s n p = Some size → step_time s = t →
  add_packet_to_buffer p size t nd = (Ok u, nd', w) →
  node_inv (s :: h) n nd' ∧ w = down_error h n (NodeDownPacketReceive n p).
Proof using Hinv.
  intros He <- (Hp & Hpk & Hus & Hid & Hst & Hcl & ->)%add_packet_ok. split.
  - by eapply node_inv_enter.
  - unfold down_error. by rewrite (ni_status _ _ _ Hinv), (ni_id _ _ _ Hinv).
Qed.

Lemma node_inv_stats : same_node nd nd' → node_inv h n nd'.
Proof using Hinv.
  intros [Hid Hst Hcl Hpk Hus]. destruct Hinv. split; intros; rewrite ?Hpk; congruence || done.
Qed.
End node_ops.

Lemma same_node_refl nd : same_node nd nd.
Proof. by split. Qed.

Ltac same_node_tac nd := destruct nd; by split.

Lemma packet_created_inv h n nd nd' t k u w :
  node_inv h n nd → in_node_id k = n → in_transit_at h (in_packet_id k) = None →
  packet_created k t nd = (Ok u, nd', w) →
  node_inv (mkStep t (PacketInNode k) :: h) n nd' ∧
  w = down_error h n (NodeDownPacketReceive n (in_packet_id k)).
Proof.
  intros Hinv Hn Htr H. eapply add_packet_inv; [done| |done|exact H].
  unfold enters. simpl. rewrite Htr. simpl.
  by rewrite bool_decide_eq_true_2, Z.eqb_refl by done.
Qed.

Lemma packet_duplicated_inv h n nd nd' t k u w :
  node_inv h n nd → g_node_id k = n → packet_duplicated k t nd = (Ok u, nd', w) →
  node_inv (mkStep t (PacketDuplicated k) :: h) n nd' ∧
  w = down_error h n (NodeDownPacketReceive n (g_packet_id k)).
Proof.
  intros Hinv Hn H. unfold packet_duplicated in H. vm_inv H. simpl.
  eapply add_packet_inv; [|by unfold enters; simpl; rewrite bool_decide_eq_true_2, Z.eqb_refl
    |done|exact H].
  eapply node_inv_stats; [done|]. same_node_tac nd.
Qed.

Definition arrival_error (h : history) (k : PacketInNode_) : list NonFatalError :=
  if in_dropped_on_arrival k
  then if is_node_down (node_status_at h (in_node_id k)) then []
       else [NodeUpPacketDroppedOnArrival (in_node_id k) (in_packet_id k)]
  else down_error h (in_node_id k) (NodeDownPacketReceive (in_node_id k) (in_packet_id k)).

Lemma packet_received_inv h n nd nd' t k u w :
  node_inv h n nd → in_node_id k = n → is_Some (in_transit_at h (in_packet_id k)) →
  packet_received k t nd = (Ok u, nd', w) →
  node_inv (mkStep t (PacketInNode k) :: h) n nd' ∧ w = arrival_error h k.
Proof.
  intros Hinv Hn Htr H. unfold packet_received in H. vm_inv H.
  set (nd0 := set_rn_highest_received _ _) in *.
  assert (same_node nd nd0) as Hsame 
    by (subst nd0; clear; destruct nd; simpl; destruct (_ <? _); by split).
  clearbody nd0. apply node_inv_stats with (nd' := nd0) in Hinv; [|done].
  unfold arrival_error. destruct (in_dropped_on_arrival k) eqn:Hd.
  - vm_inv H. rename nd0 into x. split.
    + eapply node_inv_same; [exact Hinv|done| |same_node_tac x].
      intros p. unfold enters. simpl. rewrite Hd, andb_true_r.
      destruct (Z.eqb_spec (in_packet_id k) p) as [<-|].
      * rewrite (bool_decide_eq_true_2 (is_Some _)) by done. by rewrite andb_false_r.
      * by rewrite andb_false_r.
    + rewrite (ni_status _ _ _ Hinv), (ni_id _ _ _ Hinv).
      by destruct (is_node_down _).
  - eapply add_packet_inv; [done| |done|exact H]. unfold enters. simpl.
    by rewrite bool_decide_eq_true_2, Z.eqb_refl, Hd, andb_false_r by done.
Qed.

Lemma remove_packet_inv h n nd nd' s p k w :
  node_inv h n nd → Forall step_typed h → leaves s n p = true → enters h s n p = None →
  remove_packet_from_buffer p nd = (Ok k, nd', w) →
  node_inv (s :: h) n nd' ∧ buffered_at h n p = Some k ∧ w = [] ∧
  rn_status nd' = rn_status nd ∧ rn_id nd' = rn_id nd ∧
  rn_last_buffer_clear nd' = rn_last_buffer_clear nd.
Proof.
  intros Hinv Hty Hl He H.
  apply remove_packet_ok in H as (Hp & Hpk & Hus & Hle & Hid & Hst & Hcl & ->).
  assert (buffered_at h n p = Some k) as Hb by (by rewrite <-(ni_packets _ _ _ Hinv)).
  destruct (buffered_at_typed _ _ _ _ Hty Hb).
  split_and!; try done. by eapply node_inv_leave.
Qed.

Lemma packet_dropped_inv h n nd nd' t k u w :
  node_inv h n nd → Forall step_typed h → dr_node_id k = n →
  packet_dropped k nd = (Ok u, nd', w) →
  node_inv (mkStep t (PacketDropped k) :: h) n nd' ∧ w = [].
Proof.
  intros Hinv Hty Hn H. unfold packet_dropped in H. vm_inv H.
  eapply (remove_packet_inv _ _ _ _ (mkStep t (PacketDropped k))) in H0 as (Hinv' & _ & -> & _);
    [|done..|by unfold leaves; simpl; rewrite bool_decide_eq_true_2, Z.eqb_refl|done].
  destruct (dr_reason k); vm_inv H; (split; [|done]);
    (eapply node_inv_stats; [exact Hinv'|]; same_node_tac s).
Qed.

Lemma packet_delivered_inv h n nd nd' t k p w :
  node_inv h n nd → Forall step_typed h → g_node_id k = n →
  packet_delivered_to_app_layer (g_packet_id k) nd = (Ok p, nd', w) →
  node_inv (mkStep t (PacketDeliveredToApplication k) :: h) n nd' ∧ w = [].
Proof.
  intros Hinv Hty Hn H. unfold packet_delivered_to_app_layer in H.
  eapply (remove_packet_inv _ _ _ _ (mkStep t (PacketDeliveredToApplication k))) in H as (Hinv' & _ & -> & _);
    [|done..|by unfold leaves; simpl; rewrite bool_decide_eq_true_2, Z.eqb_refl|done].
  done.
Qed.

Definition departure_error (h : history) (n : string) (p : Z) : list NonFatalError :=
  down_error h n (NodeDownPacketSend n p) ++
  match buffered_at h n p with
  | Some b => if survived_clear (node_last_clear h n) (rp_arrived_at b)
              then [PacketSurvivedBufferCorruption n p] else []
  | None => []
  end.

Lemma packet_sent_inv h n nd nd' t k b w :
  node_inv h n nd → Forall step_typed h → tr_node_id k = n →
  packet_sent (tr_packet_id k) nd = (Ok b, nd', w) →
  node_inv (mkStep t (PacketInTransit k) :: h) n nd' ∧
  buffered_at h n (tr_packet_id k) = Some b ∧ w = departure_error h n (tr_packet_id k).
Proof.
  intros Hinv Hty Hn H. unfold packet_sent in H. vm_inv H.
  eapply (remove_packet_inv _ _ _ _ (mkStep t (PacketInTransit k))) in H0 as (Hinv' & Hb & -> & Hst & Hid & Hcl);
    [|done..|by unfold leaves; simpl; rewrite bool_decide_eq_true_2, Z.eqb_refl|done].
  split_and!; [|done|].
  - eapply node_inv_stats; [exact Hinv'|]. same_node_tac s.
  - unfold departure_error, down_error. rewrite Hb, Hcl, Hid.
    rewrite (ni_status _ _ _ Hinv), (ni_id _ _ _ Hinv), (ni_clear _ _ _ Hinv).
    by rewrite app_nil_r.
Qed.

Lemma packet_ecn_inv h n nd t k :
  node_inv h n nd → node_inv (mkStep t (PacketCongestionEvent k) :: h) n (packet_ecn k nd).
Proof.
  intros Hinv. eapply node_inv_same; [exact Hinv|done|by intros p|]. same_node_tac nd.
Qed.

Lemma packet_extra_delay_inv h n nd nd' t k u w :
  node_inv h n nd → xd_node_id k = n →
  packet_has_extra_delay (xd_packet_id k) (xd_extra_delay k) nd = (Ok u, nd', w) →
  node_inv (mkStep t (PacketExtraDelay k) :: h) n nd' ∧ w = [].
Proof.
  intros [Hid Hst Hcl Hpk Hus] Hn H. unfold packet_has_extra_delay in H. vm_inv H.
  destruct (rn_packets nd !! xd_packet_id k) as [b|] eqn:Hb; vm_inv H. split; [|done].
  destruct nd; split; simpl in *; try done.
  intros q. unfold delays. simpl. rewrite bool_decide_eq_true_2 by done. simpl.
  destruct (Z.eqb_spec (xd_packet_id k) q) as [<-|].
  - rewrite lookup_insert_eq, <-Hpk, Hb. done.
  - rewrite lookup_insert_ne by done. apply Hpk.
Qed.

Lemma handle_event_inv h n nd t e p :
  node_inv h n nd → ev_node e = Some p → ne_node_id p = n →
  node_inv (mkStep t (NetworkEventStep e) :: h) n (handle_event p t nd).
Proof.
  intros [Hid Hst Hcl Hpk Hus] He Hn.
  assert (node_event (mkStep t (NetworkEventStep e)) n = Some p) as Hev.
  { unfold node_event. simpl. rewrite He. simpl. by rewrite decide_True. }
  assert (rn_id (handle_event p t nd) = rn_id nd ∧
          rn_packets (handle_event p t nd) = rn_packets nd ∧
          rn_buffer_usage (handle_event p t nd) = rn_buffer_usage nd ∧
          rn_status (handle_event p t nd) = default (rn_status nd) (ne_status p) ∧
          rn_last_buffer_clear (handle_event p t nd) =
            if ne_clear_buffer p then Some t else rn_last_buffer_clear nd)
    as (E1 & E2 & E3 & E4 & E5).
  { destruct nd. unfold handle_event.
    destruct (ne_status p) as [[]|], (ne_clear_buffer p); done. }
  split.
  - congruence.
  - simpl. rewrite Hev, E4, Hst. done.
  - simpl. rewrite Hev, E5, Hcl. done.
  - intros q. by rewrite E2, Hpk.
  - by rewrite E3, Hus.
Qed.
