(* ===== verification/VerifierLog.v ===== *)
(** * The errors of each step of the log

    The invariant of the verifier's whole state, and the theorem that one step
    of [verify] preserves it and tracks exactly the errors that the readings of
    [History] say the step deserves. *)

From stdpp Require Import sorting.
From S2P Require Import Prelude Ip Spec Event SimStep Replayed Verifier History Window.
From S2P Require Import VerifierInv.

(** The errors a packet's arrival deserves, from the log alone. *)
Definition receive_errors (md : LinkMetadata) (h : history) (t : Z) (k : PacketInNode_)
    (f : InFlightPacket) : list NonFatalError :=
  (if bool_decide (in_node_id k = lm_target_node_id md) then []
   else [DisconnectedPacketReceive (in_node_id k) (if_link_id f)]) ++
  (if t - if_sent_at_relative f <? lm_delay md + if_extra_delay f
   then [TooFastPacketReceive (in_node_id k) (if_link_id f)] else []) ++
  (match link_last_down h (if_link_id f) with
   | Some d => if if_sent_at_relative f <=? d
               then [OfflinePacketReceive (in_node_id k) (if_link_id f)
                       (if_sent_at_relative f) d] else []
   | None => []
   end) ++
  arrival_error h k.

(** The bandwidth used in the window that ends with the packet sent at [t]. *)
Definition used_bandwidth (md : LinkMetadata) (h : history) (t : Z) (k : PacketInTransit_) : Z :=
  let secs := window_seconds (lm_bandwidth_bps md) in
  wrap64 (bits_in_window (mkStep t (PacketInTransit k) :: h) (tr_link_id k) (from_secs secs) t)
    / secs.

Definition send_errors (md : LinkMetadata) (h : history) (t : Z) (k : PacketInTransit_)
    : list NonFatalError :=
  departure_error h (tr_node_id k) (tr_packet_id k) ++
  (if bool_decide (tr_node_id k = lm_source_node_id md) then []
   else [DisconnectedPacketSend (tr_node_id k) (tr_link_id k)]) ++
  (match link_status_at h (tr_link_id k) with
   | LinkUp => []
   | LinkDown => [OfflinePacketSend (tr_node_id k) (tr_link_id k)]
   end) ++
  (if lm_bandwidth_bps md <? used_bandwidth md h t k
   then [LinkBandwidthExceeded (tr_node_id k) (tr_link_id k) (tr_packet_id k)
           (lm_bandwidth_bps md) (used_bandwidth md h t k)] else []).

(** The errors of one step, given the links' ends, delays and bandwidths and
    the set of hosts. *)
Definition step_errors (mds : gmap string LinkMetadata) (hosts : gset string)
    (h : history) (s : SimulationStep) : list NonFatalError :=
  match step_kind s with
  | PacketInNode k =>
      match in_flight_at h (in_packet_id k) with
      | Some f =>
          match mds !! if_link_id f with
          | Some md => receive_errors md h (step_time s) k f
          | None => []
          end
      | None =>
          (if bool_decide (in_node_id k ∈ hosts) then []
           else [PacketCreatedByRouterNode (in_node_id k) (in_packet_id k)]) ++
          down_error h (in_node_id k) (NodeDownPacketReceive (in_node_id k) (in_packet_id k))
      end
  | PacketDuplicated k =>
      down_error h (g_node_id k) (NodeDownPacketReceive (g_node_id k) (g_packet_id k))
  | PacketLostInTransit k =>
      match in_flight_at h (lo_packet_id k) with
      | Some _ => []
      | None => [MissingLostPacket (lo_packet_id k)]
      end
  | PacketInTransit k =>
      match mds !! tr_link_id k with
      | Some md => send_errors md h (step_time s) k
      | None => []
      end
  | _ => []
  end.

(** ** The invariant *)
Definition nodes_inv (h : history) (v : SimulationVerifier) : Prop :=
  ∀ n nd, v_nodes v !! n = Some nd → node_inv h n nd.

Definition links_inv (mds : gmap string LinkMetadata) (h : history) (v : SimulationVerifier)
    : Prop :=
  ∀ l rl md, v_links v !! l = Some rl → mds !! l = Some md →
    link_inv (lm_bandwidth_bps md) h l rl.

Record flight_inv (h : history) (v : SimulationVerifier) : Prop := mkFlightInv {
  fi_flight : ∀ p, v_in_flight_packets v !! p = in_flight_at h p;
  fi_transit : ∀ p, in_transit_at h p =
    (λ f, (if_link_id f, if_sent_at_relative f)) <$> v_in_flight_packets v !! p;
  fi_known : ∀ p f, v_in_flight_packets v !! p = Some f →
    is_Some (v_link_metadata v !! if_link_id f);
}.

(** The parts of the verifier that never change. *)
Record same_network (v0 v : SimulationVerifier) : Prop := mkSameNetwork {
  sw_links : v_link_metadata v = v_link_metadata v0;
  sw_nodes : v_node_metadata v = v_node_metadata v0;
  sw_hosts : v_host_nodes v = v_host_nodes v0;
  sw_order : v_node_order v = v_node_order v0;
  sw_dom_nodes : dom (v_nodes v) = dom (v_nodes v0);
  sw_dom_links : dom (v_links v) = dom (v_links v0);
}.

Record log_inv (v0 : SimulationVerifier) (h : history) (v : SimulationVerifier) : Prop :=
  mkLogInv {
  gi_nodes : nodes_inv h v;
  gi_links : links_inv (v_link_metadata v0) h v;
  gi_flight : flight_inv h v;
  gi_same : same_network v0 v;
}.

#[export] Instance same_network_preorder : PreOrder same_network.
Proof.
  split; [by intros v; split|]. intros x y z [] []. split; etrans; eassumption.
Qed.

Lemma nodes_inv_update h s v v' n nd nd' :
  nodes_inv h v → step_node s = Some n → v_nodes v !! n = Some nd →
  v_nodes v' = <[n := nd']> (v_nodes v) → node_inv (s :: h) n nd' → nodes_inv (s :: h) v'.
Proof.
  intros Hinv Hn Hnd Hv Hnd' m md. rewrite Hv. destruct (decide (m = n)) as [->|Hm].
  - rewrite lookup_insert_eq. by intros [= <-].
  - rewrite lookup_insert_ne by done. intros Hmd.
    eapply node_inv_same; [by apply Hinv| | |apply same_node_refl].
    + destruct (node_event s m) eqn:E; [|done]. apply node_event_about in E as []. congruence.
    + apply untouched_other. congruence.
Qed.

Lemma nodes_inv_frame h s v v' :
  nodes_inv h v → step_node s = None → v_nodes v' = v_nodes v → nodes_inv (s :: h) v'.
Proof.
  intros Hinv Hn Hv m md Hm. rewrite Hv in Hm.
  eapply node_inv_same; [by apply Hinv| | |apply same_node_refl].
  - destruct (node_event s m) eqn:E; [|done]. apply node_event_about in E as []. congruence.
  - apply untouched_other. congruence.
Qed.

(** Steps that are neither a transmission nor a status update of a link. *)
Definition link_neutral (h : history) (s : SimulationStep) : Prop :=
  ∀ l, link_event s l = None ∧ link_sends (s :: h) l = link_sends h l.

Lemma links_inv_frame mds h s v v' :
  links_inv mds h v → link_neutral h s → v_links v' = v_links v → links_inv mds (s :: h) v'.
Proof.
  intros Hinv Hs Hv l rl md Hl Hmd. rewrite Hv in Hl. destruct (Hs l).
  by apply link_inv_frame; [eapply Hinv| |].
Qed.

Lemma flight_inv_frame h s v v' :
  flight_inv h v → (∀ p, in_flight_at (s :: h) p = in_flight_at h p) →
  (∀ p, in_transit_at (s :: h) p = in_transit_at h p) →
  v_in_flight_packets v' = v_in_flight_packets v → v_link_metadata v' = v_link_metadata v →
  flight_inv (s :: h) v'.
Proof.
  intros [Hf Ht Hk] Hfs Hts Hv Hm. split; intros p; rewrite ?Hv, ?Hm.
  - by rewrite Hfs.
  - by rewrite Hts.
  - apply Hk.
Qed.

(** The packet [p] stops being in flight. *)
Lemma flight_inv_landed h s v v' p :
  flight_inv h v →
  (∀ q, in_flight_at (s :: h) q = if p =? q then None else in_flight_at h q) →
  (∀ q, in_transit_at (s :: h) q = if p =? q then None else in_transit_at h q) →
  v_in_flight_packets v' = delete p (v_in_flight_packets v) →
  v_link_metadata v' = v_link_metadata v → flight_inv (s :: h) v'.
Proof.
  intros [Hf Ht Hk] Hfs Hts Hv Hm. split; intros q; rewrite ?Hv, ?Hm, ?Hfs, ?Hts;
    (destruct (Z.eqb_spec p q) as [->|];
     [rewrite lookup_delete_eq|rewrite lookup_delete_ne by done]); try done.
  apply Hk.
Qed.

Lemma flight_inv_not_in_transit h v p :
  flight_inv h v → v_in_flight_packets v !! p = None → in_transit_at h p = None.
Proof. intros [_ Ht _] H. by rewrite Ht, H. Qed.

Lemma flight_inv_in_transit h v p f :
  flight_inv h v → v_in_flight_packets v !! p = Some f → is_Some (in_transit_at h p).
Proof. intros [_ Ht _] H. rewrite Ht, H. by eexists. Qed.

Lemma same_network_nodes v n nd nd' :
  v_nodes v !! n = Some nd → same_network v (set_v_nodes (<[n := nd']> (v_nodes v)) v).
Proof.
  intros Hn. split; simpl; try done. rewrite dom_insert_L.
  apply elem_of_dom_2 in Hn. set_solver.
Qed.

(** ** One step *)
Lemma get_link_ok l v rl v' w :
  get_link l v = (Ok rl, v', w) → v_links v !! l = Some rl ∧ v' = v ∧ w = [].
Proof. unfold get_link. intros H. vm_inv H. by apply ok_or_ok in H. Qed.

Lemma offline_receive_ok (b : option Z) n l sent (v v' : SimulationVerifier) u w :
  match b with
  | Some d => track_if (sent <=? d) (OfflinePacketReceive n l sent d)
  | None => mret ()
  end v = (Ok u, v', w) →
  v' = v ∧
  w = match b with
      | Some d => if sent <=? d then [OfflinePacketReceive n l sent d] else []
      | None => []
      end.
Proof. destruct b; intros H; by vm_inv H. Qed.

(** A step that ends with an operation of one node. *)
Lemma node_op_inv v0 h s v v' {A} n (m : VM ReplayedNode A) a w errs :
  on_node n m v = (Ok a, v', w) → step_node s = Some n →
  nodes_inv h v → links_inv (v_link_metadata v0) (s :: h) v → flight_inv (s :: h) v →
  same_network v0 v →
  (∀ nd nd', node_inv h n nd → m nd = (Ok a, nd', w) → node_inv (s :: h) n nd' ∧ w = errs) →
  log_inv v0 (s :: h) v' ∧ w = errs.
Proof.
  intros (nd & nd' & Hnd & Hm & ->)%on_node_ok Hn Hnodes Hlinks [] Hsame Hop.
  destruct (Hop nd nd') as [Hnd' ->]; [by apply Hnodes|done|]. split; [|done].
  split; [by eapply nodes_inv_update|done|by split|].
  etrans; [done|]. by apply (same_network_nodes v _ nd).
Qed.

(** A step that only runs an operation of one node. *)
Lemma node_step_inv v0 h s v v' {A} n (m : VM ReplayedNode A) a w errs :
  log_inv v0 h v → on_node n m v = (Ok a, v', w) →
  step_node s = Some n → link_neutral h s →
  (∀ p, in_flight_at (s :: h) p = in_flight_at h p) →
  (∀ p, in_transit_at (s :: h) p = in_transit_at h p) →
  (∀ nd nd', node_inv h n nd → m nd = (Ok a, nd', w) → node_inv (s :: h) n nd' ∧ w = errs) →
  log_inv v0 (s :: h) v' ∧ w = errs.
Proof.
  intros [Hnodes Hlinks Hflight Hsame] H Hn Hl Hf Ht Hop.
  eapply node_op_inv; try done.
  - by eapply links_inv_frame.
  - by eapply flight_inv_frame.
Qed.

Ltac neutral := intros ?; split; done.

Section kinds.
Context (v0 : SimulationVerifier) (h : history) (t : Z) (v v' : SimulationVerifier).
Context (Hinv : log_inv v0 h v) (Hty : Forall step_typed h) (Hsorted : hist_sorted h).
Context (Hpast : ∀ s, s ∈ h → step_time s ≤ t).

Abbreviation errors_of k := (step_errors (v_link_metadata v0) (v_host_nodes v0) h (mkStep t k)).

Lemma duplicated_step k u w :
  on_node (g_node_id k) (packet_duplicated k t) v = (Ok u, v', w) →
  log_inv v0 (mkStep t (PacketDuplicated k) :: h) v' ∧ w = errors_of (PacketDuplicated k).
Proof using Hinv.
  intros H. eapply node_step_inv; [done|exact H|done|neutral|done|done|].
  intros nd nd' Hnd Hm. by eapply packet_duplicated_inv.
Qed.

Lemma dropped_step k u w :
  on_node (dr_node_id k) (packet_dropped k) v = (Ok u, v', w) →
  log_inv v0 (mkStep t (PacketDropped k) :: h) v' ∧ w = errors_of (PacketDropped k).
Proof using Hinv Hty.
  intros H. eapply node_step_inv; [done|exact H|done|neutral|done|done|].
  intros nd nd' Hnd Hm. by eapply packet_dropped_inv.
Qed.

Lemma delivered_step k p w :
  on_node (g_node_id k) (packet_delivered_to_app_layer (g_packet_id k)) v = (Ok p, v', w) →
  log_inv v0 (mkStep t (PacketDeliveredToApplication k) :: h) v' ∧
  w = errors_of (PacketDeliveredToApplication k).
Proof using Hinv Hty.
  intros H. eapply node_step_inv; [done|exact H|done|neutral|done|done|].
  intros nd nd' Hnd Hm. by eapply packet_delivered_inv.
Qed.

Lemma congestion_step k u w :
  on_node (g_node_id k) (modify (packet_ecn k)) v = (Ok u, v', w) →
  log_inv v0 (mkStep t (PacketCongestionEvent k) :: h) v' ∧
  w = errors_of (PacketCongestionEvent k).
Proof using Hinv.
  intros H. eapply node_step_inv; [done|exact H|done|neutral|done|done|].
  intros nd nd' Hnd Hm. vm_inv Hm. split; [by apply packet_ecn_inv|done].
Qed.

Lemma extra_delay_step k u w :
  on_node (xd_node_id k) (packet_has_extra_delay (xd_packet_id k) (xd_extra_delay k)) v
    = (Ok u, v', w) →
  log_inv v0 (mkStep t (PacketExtraDelay k) :: h) v' ∧ w = errors_of (PacketExtraDelay k).
Proof using Hinv.
  intros H. eapply node_step_inv; [done|exact H|done|neutral|done|done|].
  intros nd nd' Hnd Hm. by eapply packet_extra_delay_inv.
Qed.

Lemma lost_step k v1 w :
  v1 = (match v_in_flight_packets v !! lo_packet_id k with
        | Some _ => set_v_in_flight_packets (delete (lo_packet_id k) (v_in_flight_packets v)) v
        | None => v
        end) →
  w = (match v_in_flight_packets v !! lo_packet_id k with
       | Some _ => [] | None => [MissingLostPacket (lo_packet_id k)] end) →
  log_inv v0 (mkStep t (PacketLostInTransit k) :: h) v1 ∧
  w = errors_of (PacketLostInTransit k).
Proof using Hinv.
  intros -> ->. destruct Hinv as [Hnodes Hlinks Hflight Hsame]. unfold step_errors. simpl.
  rewrite (fi_flight _ _ Hflight). split; [|done].
  destruct (in_flight_at h (lo_packet_id k)) as [f|] eqn:Hf.
  - split.
    + eapply nodes_inv_frame; [done|done|done].
    + eapply links_inv_frame; [done|neutral|done].
    + eapply (flight_inv_landed _ _ _ _ (lo_packet_id k)); [done|done|done|done..].
    + etrans; [done|]. by split.
  - split; try done.
    + by eapply nodes_inv_frame.
    + by eapply links_inv_frame; [|neutral|].
    + eapply flight_inv_frame; try done; intros p; simpl;
        destruct (Z.eqb_spec (lo_packet_id k) p) as [<-|]; try done.
      rewrite (fi_transit _ _ Hflight), (fi_flight _ _ Hflight), Hf. done.
Qed.

Lemma event_step e u w :
  verify_network_event t e v = (Ok u, v', w) →
  log_inv v0 (mkStep t (NetworkEventStep e) :: h) v' ∧ w = errors_of (NetworkEventStep e).
Proof using Hinv Hty Hsorted Hpast.
  intros H. unfold verify_network_event in H.
  apply vm_bind_ok in H as ([] & v1 & w1 & w2 & H1 & H2 & ->).
  destruct Hinv as [Hnodes Hlinks Hflight Hsame].
  set (s := mkStep t (NetworkEventStep e)).
  assert (links_inv (v_link_metadata v0) (s :: h) v1 ∧ v_nodes v1 = v_nodes v ∧
    v_in_flight_packets v1 = v_in_flight_packets v ∧ same_network v v1 ∧ w1 = [])
    as (Hl1 & Hn1 & Hf1 & Hs1 & ->).
  { destruct (ev_link e) as [p|] eqn:Hp; [destruct (le_status p) as [st|] eqn:Hst|].
    - unfold get_link, put_link in H1. rename H2 into Hrest. vm_inv H1. apply ok_or_ok in H0. simpl.
      split_and!; try done.
      + intros l rl md Hl Hmd. simpl in Hl.
        destruct (decide (l = le_link_id p)) as [->|Hne].
        * rewrite lookup_insert_eq in Hl. simplify_eq.
          apply (link_inv_status _ _ s); [by eapply Hlinks|].
          unfold link_event. simpl. rewrite Hp. simpl. by rewrite decide_True.
        * rewrite lookup_insert_ne in Hl by done.
          eapply link_inv_frame; [by eapply Hlinks| |done].
          unfold link_event. simpl. rewrite Hp. simpl. by rewrite decide_False.
      + split; simpl; try done. apply elem_of_dom_2 in H0.
        rewrite dom_insert_L. set_solver.
    - vm_inv H1. split_and!; try done. eapply links_inv_frame; [done| |done].
      intros l. split; [|done]. unfold link_event. simpl. rewrite Hp. simpl.
      by case_decide.
    - vm_inv H1. split_and!; try done. eapply links_inv_frame; [done| |done].
      intros l. split; [|done]. unfold link_event. simpl. by rewrite Hp. }
  destruct (ev_node e) as [p|] eqn:Hp.
  - apply on_node_ok in H2 as (nd & nd' & Hnd & Hm & ->). vm_inv Hm. split; [|done].
    split; simpl.
    + eapply (nodes_inv_update _ _ v); [done| |by rewrite <-Hn1|by simpl; rewrite Hn1|].
      * unfold step_node. simpl. by rewrite Hp.
      * apply handle_event_inv; [|done|done]. apply Hnodes. by rewrite <-Hn1.
    + done.
    + eapply flight_inv_frame; try done. simpl. apply Hs1.
    + etrans; [done|]. etrans; [exact Hs1|]. by apply (same_network_nodes v1 _ nd).
  - vm_inv H2. split; [|done]. split; [|done| |by etrans].
    + eapply nodes_inv_frame; [done| |done]. unfold step_node. simpl. by rewrite Hp.
    + eapply flight_inv_frame; try done. apply Hs1.
Qed.

Lemma in_node_step k u w :
  verify_packet_in_node t k v = (Ok u, v', w) →
  log_inv v0 (mkStep t (PacketInNode k) :: h) v' ∧ w = errors_of (PacketInNode k).
Proof using Hinv Hty Hsorted Hpast.
  intros H. unfold verify_packet_in_node in H. vm_inv_step H.
  pose proof Hinv as [Hnodes Hlinks Hflight Hsame].
  destruct (v_in_flight_packets v !! in_packet_id k) as [f|] eqn:Hf.
  - vm_inv_step H. unfold get_link in *.
    apply unwrap_ok in H0. apply get_link_ok in H3 as (Hrl & -> & ->).
    apply offline_receive_ok in H4 as [-> ->].
    apply dur_sub_inv in H1 as [-> _]. apply dur_add_inv in H2 as ->. simpl in Hrl.
    assert (v_link_metadata v0 !! if_link_id f = Some a) as Hmd
      by (by rewrite <-(sw_links _ _ Hsame)).
    eapply (node_op_inv v0 h (mkStep t (PacketInNode k))) in H as [Hlog ->];
      [|done|done| | | |].
    + split; [exact Hlog|]. unfold step_errors. simpl.
      rewrite <-(fi_flight _ _ Hflight), Hf, Hmd. unfold receive_errors, last_down.
      rewrite (li_down _ _ _ _ (Hlinks _ _ _ Hrl Hmd)).
      by case_bool_decide.
    + by eapply links_inv_frame; [|neutral|].
    + by eapply (flight_inv_landed h _ v _ (in_packet_id k)).
    + etrans; [done|]. by split.
    + intros nd nd' Hnd Hm. eapply packet_received_inv; [done|done| |done].
      by eapply flight_inv_in_transit.
  - vm_inv_step H.
    eapply (node_op_inv v0 h (mkStep t (PacketInNode k))) in H as [Hlog ->];
      [|done|done| | |done|].
    + split; [exact Hlog|]. unfold step_errors. simpl.
      rewrite <-(fi_flight _ _ Hflight), Hf, (sw_hosts _ _ Hsame).
      by case_bool_decide.
    + by eapply links_inv_frame; [|neutral|].
    + pose proof (flight_inv_not_in_transit _ _ _ Hflight Hf) as Htr.
      rewrite (fi_flight _ _ Hflight) in Hf.
      eapply flight_inv_frame; try done; intros p; simpl;
        by destruct (Z.eqb_spec (in_packet_id k) p) as [<-|].
    + intros nd nd' Hnd Hm. eapply packet_created_inv; [done|done| |done].
      by eapply flight_inv_not_in_transit.
Qed.

Lemma in_transit_step k u w :
  verify_packet_in_transit t k v = (Ok u, v', w) →
  log_inv v0 (mkStep t (PacketInTransit k) :: h) v' ∧ w = errors_of (PacketInTransit k).
Proof using Hinv Hty Hsorted Hpast.
  intros H. unfold verify_packet_in_transit, put_link in H. vm_inv_step H.
  pose proof Hinv as [Hnodes Hlinks Hflight Hsame].
  apply on_node_ok in H0 as (nd & nd' & Hnd & Hm & ->).
  apply ok_or_ok in H1. apply get_link_ok in H2 as (Hrl & -> & ->).
  destruct a4 as [used rl']. vm_inv_step H. simpl in *.
  eapply packet_sent_inv in Hm as (Hnd' & Hb & ->); [|by apply Hnodes|done|done].
  assert (v_link_metadata v0 !! tr_link_id k = Some a0) as Hmd
    by (by rewrite <-(sw_links _ _ Hsame)).
  pose proof (Hlinks _ _ _ Hrl Hmd) as Hlink.
  assert (stored_size h (tr_node_id k) (tr_packet_id k) = rp_size_bytes a) as Hsize
    by (unfold stored_size; by rewrite Hb).
  pose proof (link_inv_sent _ _ _ _ t k _ (rl_max_bandwidth_usage_bps rl') Hlink Hpast
    Hsorted eq_refl Hsize) as Hsent.
  apply (link_packet_sent_spec _ _ _ _ _ _ _ _ Hlink Hpast) in H3 as [Hused Hrl'].
  rewrite Hrl' in Hsent. simpl in Hsent. rewrite <-Hrl' in Hsent.
  assert (used = used_bandwidth a0 h t k) as ->.
  { rewrite Hused. unfold used_bandwidth. f_equal. f_equal.
    unfold bits_in_window. simpl. rewrite decide_True, Hsize by done.
    fold (in_window (from_secs (window_seconds (lm_bandwidth_bps a0))) t
      (link_sends h (tr_link_id k) ++ [(t, wrap64 (rp_size_bytes a * 8))])).
    rewrite in_window_app, in_window_now; [done| |done]. apply window_ns_pos. }
  split; [split; simpl|].
  - eapply nodes_inv_update; done.
  - intros l rl md Hl Hmd'. simpl in Hl. destruct (decide (l = tr_link_id k)) as [->|Hne].
    + rewrite lookup_insert_eq in Hl. by simplify_eq.
    + rewrite lookup_insert_ne in Hl by done.
      eapply link_inv_frame; [by eapply Hlinks|done|]. simpl. by rewrite decide_False.
  - destruct Hflight as [Hf Ht Hk]. split; intros p; simpl;
      (destruct (Z.eqb_spec (tr_packet_id k) p) as [<-|];
       [rewrite lookup_insert_eq|rewrite lookup_insert_ne by done]); try done.
    + by rewrite Hb.
    + intros f [= <-]. simpl. by eexists.
    + apply Hk.
  - etrans; [done|]. etrans; [exact (same_network_nodes v (tr_node_id k) nd nd' Hnd)|].
    split; simpl; try done. apply elem_of_dom_2 in Hrl. rewrite dom_insert_L. set_solver.
  - unfold step_errors. simpl. rewrite Hmd. unfold send_errors, is_up.
    rewrite (li_status _ _ _ _ Hlink), app_nil_r.
    by case_bool_decide; destruct (link_status_at h (tr_link_id k)).
Qed.

End kinds.

(** One step's [match] preserves the invariant and tracks the errors the step
    deserves. *)
Lemma verify_kind_step v0 h t v v' k st st' w :
  log_inv v0 h v → Forall step_typed h → hist_sorted h → (∀ s, s ∈ h → step_time s ≤ t) →
  verify_kind t k st v = (Ok st', v', w) →
  log_inv v0 (mkStep t k :: h) v' ∧
  w = step_errors (v_link_metadata v0) (v_host_nodes v0) h (mkStep t k).
Proof.
  intros Hinv Hty Hsorted Hpast.
  destruct k as [k|k|k|k|k|k|k|k|e]; simpl; intros H; vm_inv_step H; rewrite ?app_nil_r.
  - by eapply in_node_step.
  - by eapply dropped_step.
  - simpl. eapply lost_step; [done| |];
      destruct (v_in_flight_packets v !! lo_packet_id k); by vm_inv H.
  - by eapply duplicated_step.
  - by eapply extra_delay_step.
  - by eapply congestion_step.
  - by eapply in_transit_step.
  - by eapply delivered_step.
  - by eapply event_step.
Qed.

(** ** The buffer check *)
Definition max_updated (v v' : SimulationVerifier) (id : string) : Prop :=
  v_nodes v' !! id = node_update_max_buffer_usage <$> v_nodes v !! id.

Definition buffer_size (v0 : SimulationVerifier) (id : string) : option Z :=
  nm_buffer_size_bytes <$> v_node_metadata v0 !! id.

Record buffers_checked (v v' : SimulationVerifier) : Prop := mkBuffersChecked {
  bc_nodes : ∀ id, v_nodes v' !! id = v_nodes v !! id ∨ max_updated v v' id;
  bc_links : v_links v' = v_links v;
  bc_flight : v_in_flight_packets v' = v_in_flight_packets v;
  bc_same : same_network v v';
}.

Lemma node_update_max_idem n :
  node_update_max_buffer_usage (node_update_max_buffer_usage n) = node_update_max_buffer_usage n.
Proof. unfold node_update_max_buffer_usage, set_rn_max_buffer_usage. simpl. f_equal. lia. Qed.

Lemma buffers_checked_trans v1 v2 v3 :
  buffers_checked v1 v2 → buffers_checked v2 v3 → buffers_checked v1 v3.
Proof.
  intros [H1 L1 F1 S1] [H2 L2 F2 S2]. split; [|congruence|congruence|by etrans].
  intros id. unfold max_updated in *.
  destruct (H1 id) as [E1|E1], (H2 id) as [E2|E2]; rewrite E2, E1; auto.
  right. destruct (v_nodes v1 !! id); simpl; [|done]. by rewrite node_update_max_idem.
Qed.

Lemma buffers_checked_refl v : buffers_checked v v.
Proof. split; auto. done. Qed.

Lemma buffers_checked_one v id nd :
  v_nodes v !! id = Some nd →
  buffers_checked v (set_v_nodes (<[id := node_update_max_buffer_usage nd]> (v_nodes v)) v).
Proof.
  intros Hnd. split; [|done|done|by apply (same_network_nodes _ _ nd)].
  intros id'. unfold max_updated. simpl. destruct (decide (id' = id)) as [->|].
  - right. by rewrite lookup_insert_eq, Hnd.
  - left. by rewrite lookup_insert_ne.
Qed.

(** What the loop over the nodes does, when it runs to its end and when it
    stops at a node that holds too much. *)
Lemma update_max_loop_spec ids v r v' w :
  update_max_buffer_usage_loop ids v = (Ok r, v', w) →
  w = [] ∧ buffers_checked v v' ∧
  match r with
  | None => ∀ id nd', id ∈ ids → v_nodes v' !! id = Some nd' →
      rn_buffer_usage nd' ≤ rn_max_buffer_usage nd' ∧
      ∃ b, buffer_size v id = Some b ∧ rn_max_buffer_usage nd' ≤ b
  | Some e => ∃ id nd' b, v_nodes v' !! id = Some nd' ∧ buffer_size v id = Some b ∧
      b < rn_max_buffer_usage nd' ∧ e = NodeExceedsBufferSize id b (rn_max_buffer_usage nd')
  end.
Proof.
  revert v w. induction ids as [|id ids IH]; intros v w H; simpl in H.
  { vm_inv H. split_and!; [done|apply buffers_checked_refl|].
    by intros ?? ?%not_elem_of_nil. }
  vm_inv_step H.
  destruct (v_nodes v !! id) as [nd|] eqn:Hnd.
  - vm_inv_step H. apply unwrap_ok in H0. simpl in H0.
    pose proof (buffers_checked_one v id nd Hnd) as H1.
    destruct (Z.ltb_spec (nm_buffer_size_bytes a)
      (rn_buffer_usage nd `max` rn_max_buffer_usage nd)).
    + vm_inv_step H. split_and!; [done|done|].
      exists id, (node_update_max_buffer_usage nd), (nm_buffer_size_bytes a).
      split_and!; try done; [by simpl; rewrite lookup_insert_eq|].
      unfold buffer_size. by rewrite H0.
    + apply IH in H as (-> & Hc & Hr).
      pose proof (buffers_checked_trans _ _ _ H1 Hc) as Htr.
      split_and!; [done|done|]. destruct r as [e|]; [done|].
      intros id' nd' [->|Hin]%elem_of_cons Hnd'; [|by apply Hr].
      split.
      * destruct (bc_nodes _ _ Hc id) as [E|E]; unfold max_updated in E; simpl in E;
          rewrite Hnd', lookup_insert_eq in E; simplify_eq/=; lia.
      * exists (nm_buffer_size_bytes a). split; [by unfold buffer_size; rewrite H0|].
        destruct (bc_nodes _ _ Hc id) as [E|E]; unfold max_updated in E; simpl in E;
          rewrite Hnd', lookup_insert_eq in E; simplify_eq/=; lia.
  - apply IH in H as (-> & Hc & Hr). split_and!; [done|done|].
    destruct r as [e|]; [done|]. intros id' nd' [->|Hin]%elem_of_cons Hnd'; [|by apply Hr].
    destruct (bc_nodes _ _ Hc id) as [E|E]; unfold max_updated in E;
      rewrite Hnd', Hnd in E; done.
Qed.
