(* ===== verification/VerifierThms.v ===== *)
(** * What the verifier reports

    The whole run of [verify]: the non-fatal errors of an accepted log are, in
    order, the errors its steps deserve; buffer errors are reported exactly
    when some node holds more than its buffer at the end of an instant. *)

From stdpp Require Import sorting.
From S2P Require Import Prelude Ip Spec Event SimStep Replayed Verifier History VerifierInv.
From S2P Require Import VerifierLog.

Definition is_buffer_error (e : NonFatalError) : bool :=
  match e with NodeExceedsBufferSize _ _ _ => true | _ => false end.

(** The errors of the steps of a log, in order; [h] is what precedes it. *)
Fixpoint log_errors (mds : gmap string LinkMetadata) (hosts : gset string)
    (h : history) (steps : list SimulationStep) : list NonFatalError :=
  match steps with
  | [] => []
  | s :: steps' => step_errors mds hosts h s ++ log_errors mds hosts (s :: h) steps'
  end.

Definition last_time (h : history) : Z := default 0 (step_time <$> head h).

(** The histories at the end of each instant, the last one excluded. *)
Fixpoint instants (h : history) (steps : list SimulationStep) : list history :=
  match steps with
  | [] => []
  | s :: steps' =>
      (if step_time s =? last_time h then [] else [h]) ++ instants (s :: h) steps'
  end.

(** ** Operations do not touch the recorded maximum *)
Definition max_same (v v' : SimulationVerifier) : Prop :=
  ∀ id, rn_max_buffer_usage <$> v_nodes v' !! id = rn_max_buffer_usage <$> v_nodes v !! id.

Lemma add_packet_max p size now nd u nd' w :
  add_packet_to_buffer p size now nd = (Ok u, nd', w) →
  rn_max_buffer_usage nd' = rn_max_buffer_usage nd.
Proof.
  intros H. unfold add_packet_to_buffer in H. vm_inv H. case_bool_decide; by vm_inv H.
Qed.

Lemma remove_packet_max p nd k nd' w :
  remove_packet_from_buffer p nd = (Ok k, nd', w) →
  rn_max_buffer_usage nd' = rn_max_buffer_usage nd.
Proof.
  intros H. unfold remove_packet_from_buffer in H. vm_inv H.
  destruct (rn_packets nd !! p); by vm_inv H.
Qed.

Lemma on_node_max {A} n (m : VM ReplayedNode A) v a v' w :
  on_node n m v = (Ok a, v', w) →
  (∀ nd nd', m nd = (Ok a, nd', w) → rn_max_buffer_usage nd' = rn_max_buffer_usage nd) →
  max_same v v'.
Proof.
  intros (nd & nd' & Hnd & Hm & ->)%on_node_ok H id. simpl.
  destruct (decide (id = n)) as [->|]; [|by rewrite lookup_insert_ne].
  rewrite lookup_insert_eq, Hnd. simpl. f_equal. by apply H.
Qed.

Lemma packet_received_max k t nd u nd' w :
  packet_received k t nd = (Ok u, nd', w) → rn_max_buffer_usage nd' = rn_max_buffer_usage nd.
Proof.
  intros H. unfold packet_received in H. vm_inv H.
  destruct (in_dropped_on_arrival k).
  - vm_inv H. by case_match.
  - apply add_packet_max in H as ->. simpl. by case_match.
Qed.

Lemma handle_event_max e t nd :
  rn_max_buffer_usage (handle_event e t nd) = rn_max_buffer_usage nd.
Proof. unfold handle_event. by repeat case_match. Qed.

Lemma packet_sent_max p nd b nd' w :
  packet_sent p nd = (Ok b, nd', w) → rn_max_buffer_usage nd' = rn_max_buffer_usage nd.
Proof. intros H. unfold packet_sent in H. vm_inv H. by apply remove_packet_max in H0. Qed.

Lemma packet_dropped_max k nd u nd' w :
  packet_dropped k nd = (Ok u, nd', w) → rn_max_buffer_usage nd' = rn_max_buffer_usage nd.
Proof.
  intros H. unfold packet_dropped in H. vm_inv H.
  apply remove_packet_max in H0 as <-. destruct (dr_reason k); by vm_inv H.
Qed.

Lemma extra_delay_max p d nd u nd' w :
  packet_has_extra_delay p d nd = (Ok u, nd', w) →
  rn_max_buffer_usage nd' = rn_max_buffer_usage nd.
Proof.
  intros H. unfold packet_has_extra_delay in H. vm_inv H.
  destruct (rn_packets nd !! p); by vm_inv H.
Qed.

#[export] Instance max_same_preorder : PreOrder max_same.
Proof. split; [by intros v id|]. intros x y z H1 H2 id. by rewrite H2, H1. Qed.

Lemma same_nodes_max v v' : v_nodes v' = v_nodes v → max_same v v'.
Proof. intros H id. by rewrite H. Qed.

Lemma in_node_max t k v u v' w : verify_packet_in_node t k v = (Ok u, v', w) → max_same v v'.
Proof.
  intros H. unfold verify_packet_in_node in H. vm_inv_step H.
  destruct (v_in_flight_packets v !! in_packet_id k) as [f|]; vm_inv_step H.
  - apply get_link_ok in H3 as (_ & -> & _). apply offline_receive_ok in H4 as [-> _].
    etrans; [|eapply on_node_max; [done|]; intros ??; apply packet_received_max].
    by apply same_nodes_max.
  - eapply on_node_max; [done|]. intros ??. apply add_packet_max.
Qed.

Lemma in_transit_max t k v u v' w :
  verify_packet_in_transit t k v = (Ok u, v', w) → max_same v v'.
Proof.
  intros H. unfold verify_packet_in_transit, put_link in H. vm_inv_step H.
  apply on_node_max in H0; [|intros ??; apply packet_sent_max].
  apply get_link_ok in H2 as (_ & -> & _). destruct a4. vm_inv H.
  etrans; [done|]. by apply same_nodes_max.
Qed.

Lemma event_max t e v u v' w : verify_network_event t e v = (Ok u, v', w) → max_same v v'.
Proof.
  intros H. unfold verify_network_event in H.
  apply vm_bind_ok in H as (? & v1 & w1 & w2 & H1 & H2 & ->).
  assert (max_same v v1) as Hv1.
  { apply same_nodes_max. unfold get_link, put_link in H1.
    destruct (ev_link e) as [p|]; [destruct (le_status p)|]; by vm_inv H1. }
  destruct (ev_node e) as [p|]; [|by vm_inv H2].
  etrans; [done|]. eapply on_node_max; [done|]. intros nd nd' Hm. vm_inv Hm.
  apply handle_event_max.
Qed.

Lemma verify_kind_max t k st v st' v' w :
  verify_kind t k st v = (Ok st', v', w) → max_same v v'.
Proof.
  destruct k as [k|k|k|k|k|k|k|k|e]; simpl; intros H; vm_inv_step H.
  - by eapply in_node_max.
  - eapply on_node_max; [done|]. intros ??. apply packet_dropped_max.
  - apply same_nodes_max. destruct (v_in_flight_packets v !! lo_packet_id k); by vm_inv H.
  - eapply on_node_max; [done|]. intros nd nd' Hm. unfold packet_duplicated in Hm.
    vm_inv Hm. by apply add_packet_max in Hm.
  - eapply on_node_max; [done|]. intros ??. apply extra_delay_max.
  - eapply on_node_max; [done|]. intros nd nd' Hm. by vm_inv Hm.
  - by eapply in_transit_max.
  - eapply on_node_max; [done|]. intros ??. apply remove_packet_max.
  - by eapply event_max.
Qed.

(** ** The run *)
Definition stored64 (h : history) (n : string) : Z := wrap64 (stored_bytes h n).

(** The recorded maxima and the buffer errors, after checks at [cs]. *)
Record maxima (v0 : SimulationVerifier) (cs : list history) (v : SimulationVerifier)
    (w : list NonFatalError) : Prop := mkMaxima {
  mx_some : ∀ n nd, v_nodes v !! n = Some nd →
    rn_max_buffer_usage nd = 0 ∨ ∃ c, c ∈ cs ∧ rn_max_buffer_usage nd = stored64 c n;
  mx_fits : (∀ e, e ∈ w → is_buffer_error e = false) →
    ∀ n nd c, v_nodes v !! n = Some nd → c ∈ cs →
      stored64 c n ≤ rn_max_buffer_usage nd ∧
      ∃ b, buffer_size v0 n = Some b ∧ stored64 c n ≤ b;
  mx_error : ∀ n b m, NodeExceedsBufferSize n b m ∈ w →
    n ∈ dom (v_nodes v0) ∧ buffer_size v0 n = Some b ∧ b < m ∧ ∃ c, c ∈ cs ∧ m = stored64 c n;
}.

Definition buffers_typed (v0 : SimulationVerifier) : Prop :=
  ∀ n b, buffer_size v0 n = Some b → 0 ≤ b.

Lemma step_errors_not_buffer mds hosts h s e :
  e ∈ step_errors mds hosts h s → is_buffer_error e = false.
Proof.
  unfold step_errors, receive_errors, send_errors, arrival_error, departure_error, down_error.
  intros H. repeat (case_match; try by apply not_elem_of_nil in H);
    rewrite ?elem_of_app, ?elem_of_cons, ?elem_of_nil in H; naive_solver.
Qed.

Lemma maxima_same v0 cs v v' w w' :
  maxima v0 cs v w → max_same v v' → (∀ e, e ∈ w' → is_buffer_error e = false) →
  maxima v0 cs v' (w ++ w').
Proof.
  intros [Hs Hf He] Hmax Hw.
  assert (∀ n nd, v_nodes v' !! n = Some nd →
    ∃ nd0, v_nodes v !! n = Some nd0 ∧ rn_max_buffer_usage nd0 = rn_max_buffer_usage nd) as Hold.
  { intros n nd Hnd. specialize (Hmax n). rewrite Hnd in Hmax. simpl in Hmax.
    symmetry in Hmax. apply fmap_Some in Hmax as (nd0 & ? & ?). eauto. }
  split.
  - intros n nd (nd0 & Hnd & <-)%Hold. eauto.
  - intros Hno n nd c (nd0 & Hnd & <-)%Hold Hc. apply Hf; [|done|done].
    intros e Hin. apply Hno, elem_of_app. by left.
  - intros n b m [Hin|Hin]%elem_of_app; [by apply He|]. by apply Hw in Hin.
Qed.

(** What a check changes, node by node. *)
Lemma buffers_checked_node h v v' n nd' :
  nodes_inv h v → buffers_checked v v' → v_nodes v' !! n = Some nd' →
  ∃ nd, v_nodes v !! n = Some nd ∧ node_inv h n nd ∧
    (nd' = nd ∨ nd' = node_update_max_buffer_usage nd).
Proof.
  intros Hnodes [Hbn _ _ _] Hnd'.
  destruct (Hbn n) as [E|E]; unfold max_updated in E; rewrite Hnd' in E.
  - exists nd'. split_and!; [done| |by left]. by apply Hnodes.
  - symmetry in E. apply fmap_Some in E as (nd & Hnd & ->). eauto 10.
Qed.

Lemma check_buffers_inv v u v' w :
  check_buffers v = (Ok u, v', w) →
  ∃ r, update_max_buffer_usage_loop (v_node_order v) v = (Ok r, v', []) ∧ w = option_list r.
Proof.
  unfold check_buffers, update_max_buffer_usage. intros H. vm_inv_step H.
  pose proof (update_max_loop_spec _ _ _ _ _ H0) as (-> & _).
  exists a. destruct a; by vm_inv H.
Qed.

Lemma log_inv_checked v0 h v v' : log_inv v0 h v → buffers_checked v v' → log_inv v0 h v'.
Proof.
  intros [Hnodes Hlinks [Hf Ht Hk] Hsame] Hbc. pose proof Hbc as [Hbn Hbl Hbf Hbs].
  split; [|intros l rl md; rewrite Hbl; apply Hlinks| |by etrans].
  - intros n nd' Hnd'.
    destruct (buffers_checked_node _ _ _ _ _ Hnodes Hbc Hnd') as (nd & Hnd & Hni & [->| ->]);
      [done|]. eapply node_inv_stats; [done|]. by split.
  - split; intros p; rewrite Hbf; [done..|]. rewrite (sw_links _ _ Hbs). intros f ?.
    by eapply Hk.
Qed.

Section check.
Context (v0 : SimulationVerifier) (h : history) (cs : list history).
Context (v v' : SimulationVerifier) (w : list NonFatalError).
Context (Hinv : log_inv v0 h v) (Hmax : maxima v0 cs v w) (Hbc : buffers_checked v v').

Lemma checked_some n nd' :
  v_nodes v' !! n = Some nd' → rn_max_buffer_usage nd' = 0 ∨
  ∃ c, c ∈ cs ++ [h] ∧ rn_max_buffer_usage nd' = stored64 c n.
Proof using Hinv Hmax Hbc.
  intros Hnd'.
  destruct (buffers_checked_node _ _ _ _ _ (gi_nodes _ _ _ Hinv) Hbc Hnd')
    as (nd & Hnd & Hni & Hor).
  assert (rn_max_buffer_usage nd' = rn_max_buffer_usage nd ∨
          rn_max_buffer_usage nd' = rn_buffer_usage nd) as [->| ->]
    by (destruct Hor as [->| ->]; simpl; lia).
  - destruct (mx_some _ _ _ _ Hmax n nd Hnd) as [|(c & ? & ?)]; [by left|].
    right. exists c. rewrite elem_of_app. auto.
  - right. exists h. unfold stored64.
    rewrite (ni_usage _ _ _ Hni), elem_of_app, list_elem_of_singleton. auto.
Qed.

(** The checked histories a node fits in, when its own check succeeds. *)
Lemma checked_fits n nd' b c :
  (∀ e, e ∈ w → is_buffer_error e = false) →
  v_nodes v' !! n = Some nd' → c ∈ cs ++ [h] →
  rn_buffer_usage nd' ≤ rn_max_buffer_usage nd' ≤ b →
  stored64 c n ≤ rn_max_buffer_usage nd' ∧ stored64 c n ≤ b.
Proof using Hinv Hmax Hbc.
  intros Hno Hnd' Hc Hle.
  destruct (buffers_checked_node _ _ _ _ _ (gi_nodes _ _ _ Hinv) Hbc Hnd')
    as (nd & Hnd & Hni & Hor).
  apply elem_of_app in Hc as [Hc|Hc].
  - destruct (mx_fits _ _ _ _ Hmax Hno n nd c Hnd Hc) as (Hle' & _).
    assert (rn_max_buffer_usage nd ≤ rn_max_buffer_usage nd')
      by (destruct Hor as [->| ->]; simpl; lia). lia.
  - apply list_elem_of_singleton in Hc as ->.
    assert (rn_buffer_usage nd' = stored64 h n) as <-; [|lia].
    unfold stored64. rewrite <-(ni_usage _ _ _ Hni). by destruct Hor as [->| ->].
Qed.
End check.

Lemma check_buffers_spec v0 h cs v w u v' w' :
  log_inv v0 h v → maxima v0 cs v w → buffers_typed v0 →
  (∀ n, n ∈ dom (v_nodes v0) → n ∈ v_node_order v0) →
  check_buffers v = (Ok u, v', w') →
  log_inv v0 h v' ∧ maxima v0 (cs ++ [h]) v' (w ++ w') ∧
  filter (λ e, is_buffer_error e = false) w' = [].
Proof.
  intros Hinv Hmax Hty Hord H.
  apply check_buffers_inv in H as (r & H & ->).
  apply update_max_loop_spec in H as (_ & Hbc & Hr).
  pose proof (gi_same _ _ _ Hinv) as Hsame. pose proof (bc_same _ _ Hbc) as Hbs.
  assert (∀ n nd', v_nodes v' !! n = Some nd' → n ∈ dom (v_nodes v0)) as Hdom.
  { intros n nd' Hnd'. rewrite <-(sw_dom_nodes _ _ Hsame), <-(sw_dom_nodes _ _ Hbs).
    by eapply elem_of_dom_2. }
  assert (∀ n, buffer_size v n = buffer_size v0 n) as Hbuf
    by (intros n; unfold buffer_size; by rewrite (sw_nodes _ _ Hsame)).
  split_and!; [by eapply log_inv_checked| |].
  - split; [by eapply checked_some| |].
    + intros Hno n nd' c Hnd' Hc. destruct r as [e|].
      { destruct Hr as (id & nd & b & _ & _ & _ & ->).
        assert (is_buffer_error (NodeExceedsBufferSize id b (rn_max_buffer_usage nd)) = false)
          as [=]. apply Hno. set_solver. }
      simpl in Hno. rewrite app_nil_r in Hno.
      destruct (Hr n nd') as (Hu & b & Hb & Hle); [|done|].
      { rewrite (sw_order _ _ Hsame). eauto. }
      rewrite Hbuf in Hb.
      destruct (checked_fits _ _ _ _ _ _ Hinv Hmax Hbc n nd' b c); eauto.
    + intros n b m [Hin|Hin]%elem_of_app.
      * destruct (mx_error _ _ _ _ Hmax _ _ _ Hin) as (? & ? & ? & c & Hc & ->).
        split_and!; try done. exists c. rewrite elem_of_app. auto.
      * destruct r as [e|]; [|by apply not_elem_of_nil in Hin].
        apply list_elem_of_singleton in Hin as <-.
        destruct Hr as (id & nd & b' & Hnd & Hb & Hlt & [= -> -> ->]).
        rewrite Hbuf in Hb. pose proof (Hty _ _ Hb). split_and!; eauto.
        destruct (checked_some _ _ _ _ _ _ Hinv Hmax Hbc _ _ Hnd) as [|?]; [lia|done].
  - destruct r as [e|]; [|done]. by destruct Hr as (id & nd & b & _ & _ & _ & ->).
Qed.

(** Errors in order, buffer errors left out. *)
Definition step_error_list (w : list NonFatalError) : list NonFatalError :=
  filter (λ e, is_buffer_error e = false) w.

Record run_inv (v0 : SimulationVerifier) (h : history) (cs : list history) (l : Locals)
    (v : SimulationVerifier) (w : list NonFatalError) : Prop := mkRunInv {
  ri_log : log_inv v0 h v;
  ri_max : maxima v0 cs v w;
  ri_time : last_step_time l = last_time h;
  ri_update : ∀ t, last_buffer_usage_update l = Some t → t < last_time h;
  ri_nonneg : 0 ≤ last_time h;
}.

Section run.
Context (v0 : SimulationVerifier).
Context (Hbuf : buffers_typed v0) (Hord : ∀ n, n ∈ dom (v_nodes v0) → n ∈ v_node_order v0).

Abbreviation errors_at h s := (step_errors (v_link_metadata v0) (v_host_nodes v0) h s).

Lemma verify_step_run h cs l v w s l' v' w' :
  run_inv v0 h cs l v w → Forall step_typed (s :: h) → hist_sorted (s :: h) →
  verify_step l s v = (Ok l', v', w') →
  run_inv v0 (s :: h) (cs ++ if step_time s =? last_time h then [] else [h]) l' v' (w ++ w') ∧
  step_error_list w' = errors_at h s.
Proof using Hbuf Hord.
  intros [Hlog Hmax Htime Hupd Hnn] Hty Hsort H.
  apply Forall_cons in Hty as [Hs Hty].
  apply StronglySorted_inv in Hsort as [Hsort Hpast]. rewrite Forall_forall in Hpast.
  assert (last_time h ≤ step_time s) as Hle.
  { unfold last_time. destruct h as [|s0 h0]; simpl; [apply Hs|]. apply Hpast. left. }
  unfold verify_step in H. apply vm_bind_ok in H as ([t u] & v1 & w1 & w2 & H1 & H & ->).
  apply vm_bind_ok in H as (st & v2 & w3 & w4 & H2 & H & ->).
  injection H as <- <- <-. rewrite app_nil_r.
  assert (log_inv v0 h v1 ∧
    maxima v0 (cs ++ if step_time s =? last_time h then [] else [h]) v1 (w ++ w1) ∧
    step_error_list w1 = [] ∧ t = step_time s ∧ (∀ x, u = Some x → x < step_time s))
    as (Hlog1 & Hmax1 & Hw1 & -> & Hu).
  { rewrite Htime in H1. destruct (Z.eqb_spec (step_time s) (last_time h)) as [E|E]; simpl in H1.
    - injection H1 as <- <- <- <-. rewrite !app_nil_r, E. done.
    - apply vm_bind_ok in H1 as ([] & v1' & w1' & w2' & H1 & H & ->).
      injection H as <- <- <- <-. rewrite !app_nil_r.
      eapply check_buffers_spec in H1 as (? & ? & ?); try done.
      split_and!; try done. intros x [= <-]. lia. }
  pose proof (verify_kind_max _ _ _ _ _ _ _ H2) as Hmx.
  eapply verify_kind_step in H2 as [Hlog2 ->]; [|done..].
  destruct s as [ts k]. simpl in *. split.
  - split; simpl; try done.
    + rewrite app_assoc. eapply maxima_same; [done|done|].
      intros e. apply step_errors_not_buffer.
    + unfold step_typed in Hs. unfold last_time. simpl in *. lia.
  - unfold step_error_list in *. rewrite filter_app, Hw1. simpl.
    apply filter_all. intros e. apply step_errors_not_buffer.
Qed.

Lemma verify_steps_run steps h cs l v w l' v' w' :
  run_inv v0 h cs l v w → Forall step_typed (rev steps ++ h) → hist_sorted (rev steps ++ h) →
  verify_steps steps l v = (Ok l', v', w') →
  run_inv v0 (rev steps ++ h) (cs ++ instants h steps) l' v' (w ++ w') ∧
  step_error_list w' = log_errors (v_link_metadata v0) (v_host_nodes v0) h steps.
Proof using Hbuf Hord.
  revert h cs l v w w'. induction steps as [|s steps IH]; intros h cs l v w w' Hrun Hty Hsort H.
  { injection H as <- <- <-. simpl. by rewrite !app_nil_r. }
  simpl in H. apply vm_bind_ok in H as (l1 & v1 & w1 & w2 & H1 & H & ->).
  simpl in Hty, Hsort |- *. rewrite <-app_assoc in Hty, Hsort |- *. simpl in *.
  eapply verify_step_run in H1 as [Hrun1 Hw1]; [|done|by eapply Forall_app|].
  - eapply IH in H as [Hrun2 Hw2]; [|done..]. split.
    + by rewrite <-!app_assoc in Hrun2.
    + unfold step_error_list in *. by rewrite filter_app, Hw1, Hw2.
  - unfold hist_sorted in Hsort. by apply StronglySorted_app in Hsort as (_ & _ & ?).
Qed.
End run.

(** ** Construction *)
Record fresh (v : SimulationVerifier) : Prop := mkFresh {
  fr_nodes : ∀ n nd, v_nodes v !! n = Some nd → nd = ReplayedNode_new n;
  fr_metadata : dom (v_node_metadata v) = dom (v_nodes v);
  fr_links : ∀ l rl, v_links v !! l = Some rl → rl = ReplayedLink_default;
  fr_link_metadata : dom (v_link_metadata v) = dom (v_links v);
  fr_flight : v_in_flight_packets v = ∅;
}.

Lemma new_nodes_fresh ns acc :
  foldM new_node ns (mkNewNodes ∅ ∅ ∅ ∅) = Ok acc →
  (∀ n nd, nn_nodes acc !! n = Some nd → nd = ReplayedNode_new n) ∧
  dom (nn_metadata acc) = dom (nn_nodes acc) ∧
  (∀ n md, nn_metadata acc !! n = Some md →
    ∃ node, node ∈ ns ∧ Spec.node_id node = n ∧ nm_buffer_size_bytes md = buffer_size_bytes node).
Proof.
  apply (foldM_inv (λ acc, (∀ n nd, nn_nodes acc !! n = Some nd → nd = ReplayedNode_new n) ∧
    dom (nn_metadata acc) = dom (nn_nodes acc) ∧
    (∀ n md, nn_metadata acc !! n = Some md → ∃ node, node ∈ ns ∧ Spec.node_id node = n ∧
      nm_buffer_size_bytes md = buffer_size_bytes node))).
  - split_and!; [done|by simpl; rewrite !dom_empty_L|done].
  - intros x b x' (H1 & H2 & H3) Hb H. unfold new_node in H. inv_bind H. injection H as <-.
    simpl. split_and!.
    + intros n nd. destruct (decide (n = Spec.node_id b)) as [->|].
      * rewrite lookup_insert_eq. by intros [= <-].
      * rewrite lookup_insert_ne by done. apply H1.
    + by rewrite !dom_insert_L, H2.
    + intros n md. destruct (decide (n = Spec.node_id b)) as [->|].
      * rewrite lookup_insert_eq. intros [= <-]. eauto.
      * rewrite lookup_insert_ne by done. apply H3.
Qed.

Lemma new_links_fresh ips ls rls mds :
  foldM (new_link ips) ls (∅, ∅) = Ok (rls, mds) →
  (∀ l rl, rls !! l = Some rl → rl = ReplayedLink_default) ∧ dom mds = dom rls.
Proof.
  intros H. eapply (foldM_inv (λ acc,
    (∀ l rl, acc.1 !! l = Some rl → rl = ReplayedLink_default) ∧ dom acc.2 = dom acc.1))
    in H; [exact H|by simpl; rewrite !dom_empty_L|].
  intros [x1 x2] b x' (H1 & H2) _ Hb. unfold new_link in Hb. inv_bind Hb. inv_bind Hb.
  injection Hb as <-. simpl in *. split.
  - intros l rl. destruct (decide (l = Spec.link_id b)) as [->|].
    + rewrite lookup_insert_eq. by intros [= <-].
    + rewrite lookup_insert_ne by done. apply H1.
  - by rewrite !dom_insert_L, H2.
Qed.

Definition spec_typed (spec : NetworkSpec) : Prop :=
  Forall (λ n, 0 ≤ buffer_size_bytes n) (nodes spec).

Section new.
Context (hash_order : gset string → list string).
Context (Horder : ∀ s, hash_order s ≡ₚ elements s).
Context (steps0 steps : list SimulationStep) (spec : NetworkSpec) (v0 : SimulationVerifier).
Context (Hnew : verifier_new hash_order steps0 spec = Ok (steps, v0)).

Lemma verifier_new_sorted : steps = sort_by_key step_time steps0.
Proof using Hnew.
  unfold verifier_new in Hnew. inv_bind Hnew. inv_bind Hnew. destruct a0.
  injection Hnew as <- _.
  destruct (is_sorted_by_key step_time steps0) eqn:E; [|done].
  apply is_sorted_by_key_spec in E. symmetry. by apply sort_by_key_id.
Qed.

Lemma verifier_new_fresh : fresh v0.
Proof using Hnew.
  unfold verifier_new in Hnew. inv_bind Hnew. inv_bind Hnew. destruct a0.
  injection Hnew as _ <-.
  apply new_nodes_fresh in Hnewm as (H1 & H2 & _).
  apply new_links_fresh in Hnewm0 as (H3 & H4). by split.
Qed.

Lemma verifier_new_order n : n ∈ dom (v_nodes v0) → n ∈ v_node_order v0.
Proof using Hnew Horder.
  unfold verifier_new in Hnew. inv_bind Hnew. inv_bind Hnew. destruct a0.
  injection Hnew as _ <-. simpl. rewrite Horder. set_solver.
Qed.

Lemma verifier_new_buffers : spec_typed spec → buffers_typed v0.
Proof using Hnew.
  unfold verifier_new in Hnew. inv_bind Hnew. inv_bind Hnew. destruct a0.
  injection Hnew as _ <-. intros Hty n b. unfold buffer_size. simpl.
  apply new_nodes_fresh in Hnewm as (_ & _ & H).
  intros (md & Hmd & ->)%fmap_Some. destruct (H _ _ Hmd) as (node & Hin & _ & ->).
  unfold spec_typed in Hty. rewrite Forall_forall in Hty. by apply Hty.
Qed.
End new.

Lemma fresh_log_inv v0 : fresh v0 → log_inv v0 [] v0.
Proof.
  intros [H1 H2 H3 H4 H5]. split; [| | |done].
  - intros n nd ->%H1. by split.
  - intros l rl md ->%H3 _. split; try done. constructor.
  - split; intros p; rewrite H5; done.
Qed.

Lemma fresh_maxima v0 : fresh v0 → maxima v0 [] v0 [].
Proof.
  intros [H1 H2 H3 H4 H5]. split.
  - intros n nd ->%H1. by left.
  - by intros _ n nd c _ ?%not_elem_of_nil.
  - by intros n b m ?%not_elem_of_nil.
Qed.

Lemma fresh_run v0 : fresh v0 → run_inv v0 [] [] locals_init v0 [].
Proof. intros H. split; try done; [by apply fresh_log_inv|by apply fresh_maxima]. Qed.

Lemma sorted_rev l : sorted_by_key step_time l → hist_sorted (rev l).
Proof.
  unfold sorted_by_key, hist_sorted. induction 1 as [|x l Hl IH Hx]; simpl; [constructor|].
  apply StronglySorted_app. split_and!; [|done|repeat constructor].
  intros a b Ha ->%list_elem_of_singleton. rewrite Forall_forall in Hx.
  apply Hx, elem_of_reverse. unfold reverse. by rewrite <-rev_alt.
Qed.

(** The histories at which the buffers are checked. *)
Definition all_instants (steps : list SimulationStep) : list history :=
  instants [] steps ++ [rev steps].

(** The whole run of [verify] on an accepted log. *)
Lemma verify_all_run hash_order steps0 spec steps v0 l v w :
  (∀ s, hash_order s ≡ₚ elements s) →
  verifier_new hash_order steps0 spec = Ok (steps, v0) →
  Forall step_typed steps0 → spec_typed spec →
  verify_all steps v0 = (Ok l, v, w) →
  run_inv v0 (rev steps) (all_instants steps) l v w ∧
  step_error_list w = log_errors (v_link_metadata v0) (v_host_nodes v0) [] steps.
Proof.
  intros Horder Hnew Hty Hspec Hall.
  pose proof (verifier_new_sorted _ _ _ _ _ Hnew) as Hsteps.
  pose proof (verifier_new_buffers _ _ _ _ _ Hnew Hspec) as Hbuf.
  pose proof (verifier_new_order _ Horder _ _ _ _ Hnew) as Hord.
  unfold verify_all in Hall.
  apply vm_bind_ok in Hall as (l1 & v1 & w1 & w2 & H1 & Hall & ->).
  eapply (verify_steps_run v0 Hbuf Hord steps [] [] locals_init v0 []) in H1 as [Hrun Herr].
  - destruct Hrun as [Hlog Hmax Htime Hupd Hnn]. simpl in Hmax.
    rewrite app_nil_r in *. rewrite bool_decide_eq_true_2 in Hall.
    + apply vm_bind_ok in Hall as ([] & v2 & w3 & w4 & H2 & Hall & ->).
      injection Hall as <- <- <-. rewrite app_nil_r.
      eapply check_buffers_spec in H2 as (Hlog' & Hmax' & Hw); [|done..].
      split; [by split|].
      unfold step_error_list in *. by rewrite filter_app, Hw, app_nil_r.
    + destruct (last_buffer_usage_update l1) as [t|] eqn:E; [|done].
      specialize (Hupd t eq_refl). rewrite Htime. intros [=]. lia.
  - by apply fresh_run, (verifier_new_fresh hash_order steps0 steps spec).
  - rewrite app_nil_r, Hsteps. apply Forall_rev. by rewrite sort_by_key_perm.
  - rewrite app_nil_r, Hsteps. apply sorted_rev, sort_by_key_sorted.
Qed.

Lemma verify_run hash_order steps0 spec steps v0 r :
  (∀ s, hash_order s ≡ₚ elements s) →
  verifier_new hash_order steps0 spec = Ok (steps, v0) →
  Forall step_typed steps0 → spec_typed spec →
  verify steps v0 = Ok r →
  ∃ v l, run_inv v0 (rev steps) (all_instants steps) l v (non_fatal_errors r) ∧
    stats_by_node_ r = node_stats <$> v_nodes v ∧
    step_error_list (non_fatal_errors r) =
      log_errors (v_link_metadata v0) (v_host_nodes v0) [] steps.
Proof.
  intros Horder Hnew Hty Hspec H. unfold verify in H.
  destruct (verify_all steps v0) as [[[l| |] v] w] eqn:Hall; [|done..].
  injection H as <-. simpl. exists v, l.
  by destruct (verify_all_run _ _ _ _ _ _ _ _ Horder Hnew Hty Hspec Hall).
Qed.
