(* ===== verification/VerifierTotal.v ===== *)
(** * The verifier terminates with a verdict

    A log is rejected exactly when one of its steps has a fault, with the fatal
    error of its first fault, and no log of bounded size makes the verifier
    panic. *)

From stdpp Require Import sorting.
From S2P Require Import Prelude Ip Spec Event SimStep Replayed Verifier History VerifierInv.
From S2P Require Import Window VerifierLog VerifierThms.

(** ** Faults *)
Section faults.
Context (node_ids : gset string) (link_ids : gset string).

Definition node_fault (n : string) (k : option FatalError) : option FatalError :=
  if bool_decide (n ∈ node_ids) then k else Some (MissingNode n).

Definition stored_fault (h : history) (n : string) (p : Z) : option FatalError :=
  match buffered_at h n p with Some _ => None | None => Some (MissingPacket p) end.

Definition free_fault (h : history) (n : string) (p : Z) : option FatalError :=
  match buffered_at h n p with Some _ => Some (PacketAlreadyReceived p) | None => None end.

Definition link_fault (l : string) (k : option FatalError) : option FatalError :=
  if bool_decide (l ∈ link_ids) then k else Some (MissingLink l).

(** The fatal error a step deserves after the history [h]. *)
Definition step_fault (h : history) (s : SimulationStep) : option FatalError :=
  match step_kind s with
  | PacketInNode k =>
      node_fault (in_node_id k)
        (if bool_decide (is_Some (in_flight_at h (in_packet_id k))) && in_dropped_on_arrival k
         then None else free_fault h (in_node_id k) (in_packet_id k))
  | PacketDuplicated k => node_fault (g_node_id k) (free_fault h (g_node_id k) (g_packet_id k))
  | PacketDropped k => node_fault (dr_node_id k) (stored_fault h (dr_node_id k) (dr_packet_id k))
  | PacketLostInTransit _ => None
  | PacketInTransit k =>
      node_fault (tr_node_id k)
        (match stored_fault h (tr_node_id k) (tr_packet_id k) with
         | Some e => Some e
         | None => link_fault (tr_link_id k) None
         end)
  | PacketCongestionEvent k => node_fault (g_node_id k) None
  | PacketDeliveredToApplication k =>
      node_fault (g_node_id k) (stored_fault h (g_node_id k) (g_packet_id k))
  | PacketExtraDelay k => node_fault (xd_node_id k) (stored_fault h (xd_node_id k) (xd_packet_id k))
  | NetworkEventStep e =>
      let node := match ev_node e with
                  | Some p => node_fault (ne_node_id p) None
                  | None => None
                  end in
      match ev_link e with
      | Some p => match le_status p with
                  | Some _ => link_fault (le_link_id p) node
                  | None => node
                  end
      | None => node
      end
  end.

Fixpoint first_fault (h : history) (steps : list SimulationStep) : option FatalError :=
  match steps with
  | [] => None
  | s :: steps' =>
      match step_fault h s with
      | Some e => Some e
      | None => first_fault (s :: h) steps'
      end
  end.
End faults.

(** ** Bounds *)
Definition max_delay : Z := 2 ^ 62 * ns_per_sec.

Definition step_bytes (s : SimulationStep) : Z :=
  match step_kind s with
  | PacketInNode k => in_packet_size_bytes k
  | PacketDuplicated k => g_packet_size_bytes k
  | _ => 0
  end.

(** The end of time is more than ten seconds away, which is the longest
    bandwidth window. *)
Definition step_bounded (s : SimulationStep) : Prop :=
  step_typed s ∧ step_time s ≤ duration_max - from_secs 10 ∧
  match step_kind s with PacketExtraDelay k => xd_extra_delay k ≤ max_delay | _ => True end.

Definition links_bounded (mds : gmap string LinkMetadata) : Prop :=
  ∀ l md, mds !! l = Some md → 0 ≤ lm_delay md ≤ max_delay.

Lemma buffered_at_bounded h n p k :
  Forall step_bounded h → buffered_at h n p = Some k → 0 ≤ rp_extra_delay k ≤ max_delay.
Proof.
  revert k. induction h as [|s h IH]; intros k; [done|].
  intros [[Hty [Ht Hb]] Hall]%Forall_cons. simpl.
  destruct (enters h s n p) as [size|]; [by intros [= <-]|].
  destruct (leaves s n p); [done|].
  destruct (delays s n p) as [d|] eqn:Hd; [|by apply IH].
  intros (k' & Hk' & ->)%fmap_Some. simpl. destruct Hty as [_ Hty].
  unfold delays in Hd. destruct (step_kind s); try done. case_match; by simplify_eq.
Qed.

Lemma in_flight_at_past h p f :
  in_flight_at h p = Some f →
  (∃ s, s ∈ h ∧ step_time s = if_sent_at_relative f) ∧
  (Forall step_bounded h → 0 ≤ if_extra_delay f ≤ max_delay).
Proof.
  induction h as [|s h IH]; [done|].
  assert (in_flight_at h p = Some f →
    (∃ s', s' ∈ s :: h ∧ step_time s' = if_sent_at_relative f) ∧
    (Forall step_bounded (s :: h) → 0 ≤ if_extra_delay f ≤ max_delay)) as Hih.
  { intros H. destruct (IH H) as [(s' & ? & ?) Hb]. split; [exists s'; split; [by right|done]|].
    intros [_ ?]%Forall_cons. by apply Hb. }
  simpl. destruct (step_kind s) eqn:Hk; try done; try (case_match; [done|done]).
  destruct (_ =? p); [|done]. intros (b & Hb & ->)%fmap_Some. simpl. split.
  - exists s. split; [left|done].
  - intros [_ ?]%Forall_cons. by eapply buffered_at_bounded.
Qed.

(** ** Stored packets and stored bytes *)
Definition node_sum (h : history) (n : string) (nd : ReplayedNode) : Prop :=
  stored_bytes h n = map_sumZ rp_size_bytes (rn_packets nd).

Lemma map_sumZ_lookup_le (m : gmap Z ReplayedPacket) p k :
  (∀ q x, m !! q = Some x → 0 ≤ rp_size_bytes x) → m !! p = Some k →
  0 ≤ rp_size_bytes k ≤ map_sumZ rp_size_bytes m.
Proof.
  intros Hnn Hp. split; [by eapply Hnn|].
  assert (0 ≤ map_sumZ rp_size_bytes (delete p m)) as H.
  { apply map_sumZ_nonneg. intros q x [_ Hq]%lookup_delete_Some. by eapply Hnn. }
  rewrite (map_sumZ_delete _ _ _ _ Hp) in H. lia.
Qed.

(** A step without a fault stores only packets that are not stored already,
    and only removes stored packets. *)
Definition step_consistent (h : history) (s : SimulationStep) : Prop :=
  ∀ n p, (∀ size, enters h s n p = Some size → buffered_at h n p = None) ∧
         (leaves s n p = true → is_Some (buffered_at h n p)).

Lemma node_sum_step h s n nd nd' :
  node_inv h n nd → node_inv (s :: h) n nd' → step_consistent h s →
  node_sum h n nd → node_sum (s :: h) n nd'.
Proof.
  intros [_ _ _ Hpk _] [_ _ _ Hpk' _] Hc Hsum. unfold node_sum in *. simpl.
  assert (∀ q, step_packet s ≠ Some q → rn_packets nd' !! q = rn_packets nd !! q) as Hother.
  { intros q Hq. rewrite Hpk', Hpk. by apply buffered_at_other. }
  destruct (step_packet s) as [p|] eqn:Hs.
  2: { rewrite Hsum. f_equal. apply map_eq. intros q. rewrite Hother; [done|congruence]. }
  destruct (Hc n p) as [Hen Hle].
  assert (∀ x, rn_packets nd' = <[p := x]> (rn_packets nd) ↔ rn_packets nd' !! p = Some x) as Hins.
  { intros x. split; [intros ->; apply lookup_insert_eq|]. intros Hp. apply map_eq. intros q.
    destruct (decide (q = p)) as [->|]; [by rewrite lookup_insert_eq|].
    rewrite lookup_insert_ne by done. apply Hother. congruence. }
  pose proof (Hpk' p) as Hp'. simpl in Hp'.
  destruct (enters h s n p) as [size|] eqn:He.
  { apply Hins in Hp' as ->. rewrite map_sumZ_insert by (by rewrite Hpk, (Hen size)).
    simpl. lia. }
  destruct (leaves s n p) eqn:Hl.
  - destruct (Hle eq_refl) as [k Hk].
    assert (rn_packets nd' = delete p (rn_packets nd)) as ->.
    { apply map_eq. intros q. destruct (decide (q = p)) as [->|].
      - by rewrite lookup_delete_eq.
      - rewrite lookup_delete_ne by done. apply Hother. congruence. }
    unfold stored_size. rewrite Hk. rewrite (map_sumZ_delete _ _ _ k) by (by rewrite Hpk). lia.
  - rewrite Hsum. destruct (delays s n p) as [d|].
    + destruct (buffered_at h n p) as [k|] eqn:Hk; simpl in Hp'.
      * apply Hins in Hp' as ->. rewrite <-insert_delete_eq, map_sumZ_insert by apply lookup_delete_eq.
        rewrite (map_sumZ_delete _ _ _ k) by (by rewrite Hpk). simpl. lia.
      * f_equal. apply map_eq. intros q. destruct (decide (q = p)) as [->|].
        -- by rewrite Hp', Hpk.
        -- symmetry. apply Hother. congruence.
    + f_equal. apply map_eq. intros q. destruct (decide (q = p)) as [->|].
      * by rewrite Hp', Hpk.
      * symmetry. apply Hother. congruence.
Qed.

Lemma enters_bytes h s n p size : enters h s n p = Some size → size = step_bytes s.
Proof.
  unfold enters, step_bytes. destruct (step_kind s); try done; case_match; congruence.
Qed.

Lemma stored_bytes_le h n : Forall step_typed h → stored_bytes h n ≤ sumZ step_bytes h.
Proof.
  induction h as [|s h IH]; [done|]. intros [Hs Hall]%Forall_cons. simpl.
  specialize (IH Hall).
  assert (0 ≤ step_bytes s) by (destruct Hs as [_ Hs]; unfold step_bytes, in_u64 in *;
    destruct (step_kind s); lia).
  destruct (step_packet s) as [p|]; [|lia].
  destruct (enters h s n p) as [size|] eqn:He; [apply enters_bytes in He; lia|].
  destruct (leaves s n p); [|lia]. unfold stored_size.
  destruct (buffered_at h n p) as [k|] eqn:Hb; [|lia].
  apply (buffered_at_typed _ _ _ _ Hall) in Hb. lia.
Qed.

(** ** Running a computation to its result *)
Definition results {S A} (m : VM S A) (s : S) (o : option FatalError) : Prop :=
  match o with
  | None => ∃ a s' w, m s = (Ok a, s', w)
  | Some e => ∃ s' w, m s = (Err e, s', w)
  end.

Lemma results_ret {S A} (a : A) (s : S) : results (mret a) s None.
Proof. by do 3 eexists. Qed.

Lemma results_err {S A} e (s : S) : results (A:=A) (lift (Err e)) s (Some e).
Proof. by do 2 eexists. Qed.

Lemma results_lift {S A} (o : outcome FatalError A) a (s : S) :
  o = Ok a → results (lift o) s None.
Proof. intros ->. by do 3 eexists. Qed.

Lemma results_bind {S A B} (m : VM S A) (f : A → VM S B) s a s' w o :
  m s = (Ok a, s', w) → results (f a) s' o → results (m ≫= f) s o.
Proof.
  intros Hm. unfold results, mbind, VM_bind. rewrite Hm.
  destruct o; [intros (s'' & w' & ->)|intros (b & s'' & w' & ->)]; eauto.
Qed.

Lemma results_bind_err {S A B} (m : VM S A) (f : A → VM S B) s e :
  results m s (Some e) → results (m ≫= f) s (Some e).
Proof. unfold results, mbind, VM_bind. intros (s' & w & ->). eauto. Qed.

Lemma results_bind_any {S A B} (m : VM S A) (f : A → VM S B) s o :
  results m s o → (∀ a s' w, o = None → m s = (Ok a, s', w) → results (f a) s' None) →
  results (m ≫= f) s o.
Proof.
  destruct o as [e|]; [intros H _; by apply results_bind_err|].
  intros (a & s' & w & H) Hf. eapply results_bind; [done|]. by eapply Hf.
Qed.

Lemma track_if_run {S} b e (s : S) : track_if b e s = (Ok (), s, if b then [e] else []).
Proof. by destruct b. Qed.

Lemma results_track_if {S A} b e (f : () → VM S A) s o :
  results (f ()) s o → results (track_if b e ≫= f) s o.
Proof. eapply results_bind, track_if_run. Qed.

Lemma results_on_node {A} n (m : VM ReplayedNode A) v nd o :
  v_nodes v !! n = Some nd → results m nd o → results (on_node n m) v o.
Proof.
  intros Hn. unfold results, on_node. rewrite Hn.
  destruct o; [intros (nd' & w & ->)|intros (a & nd' & w & ->)]; eauto.
Qed.

Lemma results_no_node {A} n (m : VM ReplayedNode A) v :
  v_nodes v !! n = None → results (on_node n m) v (Some (MissingNode n)).
Proof. intros Hn. unfold results, on_node. rewrite Hn. eauto. Qed.

(** ** Node operations *)
Section node_results.
Context (h : history) (n : string) (nd : ReplayedNode).
Context (Hinv : node_inv h n nd).

Lemma add_packet_results p size now :
  results (add_packet_to_buffer p size now) nd (free_fault h n p).
Proof using Hinv.
  unfold add_packet_to_buffer. eapply results_bind; [done|].
  apply results_track_if. eapply results_bind; [done|].
  unfold free_fault. rewrite <-(ni_packets _ _ _ Hinv).
  destruct (rn_packets nd !! p) as [k|] eqn:Hp.
  - rewrite bool_decide_eq_true_2 by by eexists. apply results_err.
  - rewrite bool_decide_eq_false_2 by (by intros []). by do 3 eexists.
Qed.

Context (Hty : Forall step_typed h) (Hsum : node_sum h n nd).
Context (Hbytes : sumZ step_bytes h < 2 ^ 64).

(** The bytes in the buffer do not wrap around, so a stored packet can be
    removed. *)
Lemma stored_le_usage p k :
  rn_packets nd !! p = Some k → 0 ≤ rp_size_bytes k ≤ rn_buffer_usage nd.
Proof using Hinv Hty Hsum Hbytes.
  intros Hk.
  assert (∀ q x, rn_packets nd !! q = Some x → 0 ≤ rp_size_bytes x) as Hnn.
  { intros q x. rewrite (ni_packets _ _ _ Hinv). intros Hx.
    by apply (buffered_at_typed _ _ _ _ Hty) in Hx as []. }
  pose proof (map_sumZ_lookup_le _ _ _ Hnn Hk) as Hle.
  pose proof (stored_bytes_le h n Hty). unfold node_sum in Hsum.
  rewrite (ni_usage _ _ _ Hinv), wrap64_small by (unfold in_u64; lia). lia.
Qed.

Lemma remove_packet_results p : results (remove_packet_from_buffer p) nd (stored_fault h n p).
Proof using Hinv Hty Hsum Hbytes.
  unfold remove_packet_from_buffer, stored_fault. eapply results_bind; [done|].
  rewrite <-(ni_packets _ _ _ Hinv).
  destruct (rn_packets nd !! p) as [k|] eqn:Hp; [|apply results_err].
  eapply results_bind; [done|]. pose proof (stored_le_usage p k Hp).
  eapply results_bind; [unfold lift; rewrite checked_sub_Some by lia; done|].
  eapply results_bind; [done|apply results_ret].
Qed.

Lemma packet_sent_results p : results (packet_sent p) nd (stored_fault h n p).
Proof using Hinv Hty Hsum Hbytes.
  unfold packet_sent. eapply results_bind; [done|]. apply results_track_if.
  apply results_bind_any; [apply remove_packet_results|]. intros k nd' w _ _.
  eapply results_bind; [done|]. eapply results_bind; [done|].
  apply results_track_if, results_ret.
Qed.

Lemma packet_dropped_results k :
  results (packet_dropped k) nd (stored_fault h n (dr_packet_id k)).
Proof using Hinv Hty Hsum Hbytes.
  unfold packet_dropped. apply results_bind_any; [apply remove_packet_results|].
  intros b nd' w _ _. destruct (dr_reason k); by do 3 eexists.
Qed.

Lemma packet_extra_delay_results p d :
  results (packet_has_extra_delay p d) nd (stored_fault h n p).
Proof using Hinv.
  unfold packet_has_extra_delay, stored_fault. eapply results_bind; [done|].
  rewrite <-(ni_packets _ _ _ Hinv).
  destruct (rn_packets nd !! p); [by do 3 eexists|apply results_err].
Qed.
End node_results.

Lemma packet_duplicated_results h n nd k t :
  node_inv h n nd → results (packet_duplicated k t) nd (free_fault h n (g_packet_id k)).
Proof.
  intros Hinv. unfold packet_duplicated. eapply results_bind; [done|].
  apply add_packet_results. eapply node_inv_stats; [done|by split].
Qed.

Lemma packet_received_results h n nd k t :
  node_inv h n nd → results (packet_received k t) nd
    (if in_dropped_on_arrival k then None else free_fault h n (in_packet_id k)).
Proof.
  intros Hinv. unfold packet_received. do 3 (eapply results_bind; [done|]).
  destruct (in_dropped_on_arrival k).
  - do 2 (eapply results_bind; [done|]). do 3 eexists. apply track_if_run.
  - apply add_packet_results. eapply node_inv_stats; [done|]. by case_match; split.
Qed.

(** ** One step *)
Lemma results_node_op {A} v0 v n (m : VM ReplayedNode A) o :
  dom (v_nodes v) = dom (v_nodes v0) →
  (∀ nd, v_nodes v !! n = Some nd → results m nd o) →
  results (on_node n m) v (node_fault (dom (v_nodes v0)) n o).
Proof.
  intros Hdom Hm. unfold node_fault. rewrite <-Hdom.
  destruct (v_nodes v !! n) as [nd|] eqn:Hn.
  - rewrite bool_decide_eq_true_2 by (by eapply elem_of_dom_2).
    eapply results_on_node; [done|by apply Hm].
  - rewrite bool_decide_eq_false_2 by (by apply not_elem_of_dom_2). by apply results_no_node.
Qed.

Lemma get_link_run l v rl : v_links v !! l = Some rl → get_link l v = (Ok rl, v, []).
Proof. intros H. unfold get_link, mbind, VM_bind, get, lift. by rewrite H. Qed.

Lemma get_link_missing l v : v_links v !! l = None → get_link l v = (Err (MissingLink l), v, []).
Proof. intros H. unfold get_link, mbind, VM_bind, get, lift. by rewrite H. Qed.

Section step_results.
Context (v0 : SimulationVerifier) (h : history) (t : Z) (v : SimulationVerifier).
Context (Hinv : log_inv v0 h v) (Hsorted : hist_sorted h).
Context (Hsums : ∀ n nd, v_nodes v !! n = Some nd → node_sum h n nd).
Context (Hb : Forall step_bounded h) (Hbytes : sumZ step_bytes h < 2 ^ 64).
Context (Hpast : ∀ s, s ∈ h → step_time s ≤ t).
Context (Hlinks : links_bounded (v_link_metadata v0)).
Context (Hdom : dom (v_link_metadata v0) = dom (v_links v0)).

Abbreviation fault_of k :=
  (step_fault (dom (v_nodes v0)) (dom (v_links v0)) h (mkStep t k)).

Lemma history_typed : Forall step_typed h.
Proof using Hb. eapply Forall_impl; [exact Hb|]. by intros s []. Qed.

Lemma known_link l md :
  v_link_metadata v !! l = Some md → ∃ rl, v_links v !! l = Some rl.
Proof using Hinv Hdom.
  intros Hmd. rewrite (sw_links _ _ (gi_same _ _ _ Hinv)) in Hmd.
  apply elem_of_dom_2 in Hmd. rewrite Hdom, <-(sw_dom_links _ _ (gi_same _ _ _ Hinv)) in Hmd.
  by apply elem_of_dom in Hmd as [rl ?]; exists rl.
Qed.

Lemma in_node_results k :
  results (verify_packet_in_node t k) v (fault_of (PacketInNode k)).
Proof using Hinv Hb Hpast Hlinks Hdom.
  unfold verify_packet_in_node, step_fault. simpl. eapply results_bind; [done|].
  pose proof (gi_flight _ _ _ Hinv) as Hfl. pose proof (gi_same _ _ _ Hinv) as Hs.
  destruct (v_in_flight_packets v !! in_packet_id k) as [f|] eqn:Hf;
    rewrite (fi_flight _ _ Hfl) in Hf; rewrite Hf.
  - rewrite bool_decide_eq_true_2 by by eexists. simpl.
    destruct (fi_known _ _ Hfl (in_packet_id k) f) as [md Hmd];
      [by rewrite (fi_flight _ _ Hfl)|].
    destruct (known_link _ _ Hmd) as [rl Hrl].
    pose proof (Hlinks (if_link_id f) md) as Hdelay.
    rewrite <-(sw_links _ _ Hs) in Hdelay. specialize (Hdelay Hmd).
    destruct (in_flight_at_past _ _ _ Hf) as [(s & Hs1 & Hs2) Hextra].
    specialize (Hextra Hb). pose proof (Hpast s Hs1). unfold max_delay in *.
    eapply results_bind; [done|]. eapply results_bind; [unfold lift; by rewrite Hmd|].
    apply results_track_if.
    eapply results_bind; [unfold lift; rewrite dur_sub_ok by lia; done|].
    eapply results_bind; [unfold lift; rewrite dur_add_ok
      by (unfold duration_max, ns_per_sec in *; lia); done|].
    apply results_track_if.
    eapply results_bind; [by apply get_link_run|].
    destruct (last_down rl) as [d|];
      (eapply results_bind; [first [apply track_if_run|done]|]);
      (apply results_node_op; [apply Hs|]; intros nd Hnd;
       by apply packet_received_results, (gi_nodes _ _ _ Hinv)).
  - rewrite (bool_decide_eq_false_2 (is_Some _)) by (by intros []). simpl.
    apply results_track_if, results_node_op; [apply Hs|]. intros nd Hnd.
    apply add_packet_results, (gi_nodes _ _ _ Hinv). done.
Qed.

Lemma link_packet_sent_total md l rl size bw :
  v_link_metadata v0 !! l = Some md → v_links v !! l = Some rl →
  ∃ r, link_packet_sent (E:=FatalError) t size bw rl = Ok r.
Proof using Hinv Hb.
  intros Hmd Hrl. pose proof (gi_links _ _ _ Hinv _ _ _ Hrl Hmd) as Hl.
  unfold link_packet_sent.
  destruct (expire_window_total (E':=FatalError) (from_secs (window_seconds bw)) t
    (rl_bandwidth_usage_bps rl) (rl_packets_in_bandwidth_window rl)) as [[u win] ->].
  - intros e He. apply (li_sent _ _ _ _ Hl) in He.
    apply link_sends_time in He as (s & Hs & <-).
    rewrite Forall_forall in Hb. destruct (Hb s Hs) as (_ & Hle & _).
    unfold from_secs, window_seconds in *. unfold ns_per_sec in *. case_match; lia.
  - by eexists.
Qed.

Lemma in_transit_results k :
  results (verify_packet_in_transit t k) v (fault_of (PacketInTransit k)).
Proof using Hinv Hsums Hb Hbytes Hdom.
  unfold verify_packet_in_transit, step_fault. simpl.
  pose proof (gi_same _ _ _ Hinv) as Hs.
  unfold node_fault. rewrite <-(sw_dom_nodes _ _ Hs).
  destruct (v_nodes v !! tr_node_id k) as [nd|] eqn:Hnd.
  2: { rewrite bool_decide_eq_false_2 by (by apply not_elem_of_dom_2).
       by apply results_bind_err, results_no_node. }
  rewrite bool_decide_eq_true_2 by (by eapply elem_of_dom_2).
  pose proof (packet_sent_results h (tr_node_id k) nd (gi_nodes _ _ _ Hinv _ _ Hnd)
    history_typed (Hsums _ _ Hnd) Hbytes (tr_packet_id k)) as Hsent.
  destruct (stored_fault h (tr_node_id k) (tr_packet_id k)) as [e|].
  { apply results_bind_err. by apply (results_on_node _ _ _ nd (Some e)). }
  destruct Hsent as (packet & nd' & w & Hsent).
  eapply results_bind; [unfold on_node; rewrite Hnd, Hsent; done|].
  eapply results_bind; [done|]. simpl. unfold link_fault.
  destruct (v_link_metadata v !! tr_link_id k) as [md|] eqn:Hmd.
  2: { rewrite bool_decide_eq_false_2; [by apply results_bind_err, results_err|].
       rewrite <-Hdom, <-(sw_links _ _ Hs). by apply not_elem_of_dom_2. }
  rewrite bool_decide_eq_true_2
    by (rewrite <-Hdom, <-(sw_links _ _ Hs); by eapply elem_of_dom_2).
  eapply results_bind; [done|]. apply results_track_if.
  destruct (known_link _ _ Hmd) as [rl Hrl].
  eapply results_bind; [by apply get_link_run|]. apply results_track_if.
  rewrite (sw_links _ _ Hs) in Hmd.
  destruct (link_packet_sent_total md _ rl (rp_size_bytes packet) (lm_bandwidth_bps md)
    Hmd Hrl) as [[used rl'] Hr].
  eapply results_bind; [unfold lift; by rewrite Hr|].
  eapply results_bind; [done|]. apply results_track_if. by do 3 eexists.
Qed.

Lemma event_results e : results (verify_network_event t e) v (fault_of (NetworkEventStep e)).
Proof using Hinv.
  unfold verify_network_event, step_fault. simpl.
  pose proof (gi_same _ _ _ Hinv) as Hs.
  assert (∀ v1, dom (v_nodes v1) = dom (v_nodes v0) →
    results (match ev_node e with
             | Some p => on_node (ne_node_id p) (modify (handle_event p t))
             | None => mret ()
             end) v1
      (match ev_node e with
       | Some p => node_fault (dom (v_nodes v0)) (ne_node_id p) None
       | None => None
       end)) as Hnode.
  { intros v1 Hv1. destruct (ev_node e) as [p|]; [|apply results_ret].
    apply results_node_op; [done|]. intros nd _. by do 3 eexists. }
  destruct (ev_link e) as [p|]; [destruct (le_status p) as [st|]|];
    try (eapply results_bind; [done|]; apply Hnode, Hs).
  unfold link_fault. rewrite <-(sw_dom_links _ _ Hs).
  destruct (v_links v !! le_link_id p) as [rl|] eqn:Hrl.
  - rewrite bool_decide_eq_true_2 by (by eapply elem_of_dom_2).
    eapply results_bind; [|apply (Hnode (set_v_links (<[le_link_id p :=
      set_status st t rl]> (v_links v)) v)), Hs].
    unfold mbind, VM_bind. by rewrite (get_link_run _ _ _ Hrl).
  - rewrite bool_decide_eq_false_2 by (by apply not_elem_of_dom_2).
    apply results_bind_err, results_bind_err. do 2 eexists. by apply get_link_missing.
Qed.

(** One step's [match] succeeds, or fails with the step's fault. *)
Lemma verify_kind_results k st : results (verify_kind t k st) v (fault_of k).
Proof using Hinv Hsums Hb Hbytes Hpast Hlinks Hdom.
  pose proof (gi_same _ _ _ Hinv) as Hs.
  pose proof (gi_nodes _ _ _ Hinv) as Hn.
  destruct k as [k|k|k|k|k|k|k|k|e]; simpl;
    try (apply results_bind_any; [|intros; apply results_ret]).
  - apply in_node_results.
  - apply results_node_op; [apply Hs|]. intros nd Hnd. eapply packet_dropped_results; eauto.
    apply history_typed.
  - eapply (results_bind _ _ _ _ _ _ None); [done|]. destruct (v_in_flight_packets v !! lo_packet_id k);
      (eapply results_bind; [done|apply results_ret]).
  - apply results_node_op; [apply Hs|]. intros nd Hnd.
    by apply packet_duplicated_results, Hn.
  - apply results_node_op; [apply Hs|]. intros nd Hnd.
    by apply packet_extra_delay_results, Hn.
  - apply results_node_op; [apply Hs|]. intros nd Hnd. by do 3 eexists.
  - apply in_transit_results.
  - apply results_node_op; [apply Hs|]. intros nd Hnd. eapply remove_packet_results; eauto.
    apply history_typed.
  - apply event_results.
Qed.
End step_results.

(** ** The buffer check always succeeds *)
Lemma update_max_loop_total ids v :
  dom (v_node_metadata v) = dom (v_nodes v) →
  ∃ r v' w, update_max_buffer_usage_loop ids v = (Ok r, v', w).
Proof.
  revert v. induction ids as [|id ids IH]; intros v Hdom; simpl; [by do 3 eexists|].
  unfold mbind, VM_bind. simpl.
  destruct (v_nodes v !! id) as [nd|] eqn:Hnd.
  2: { destruct (IH v Hdom) as (r & v' & w & ->). by do 3 eexists. }
  assert (id ∈ dom (v_node_metadata v)) as [md Hmd]%elem_of_dom
    by (rewrite Hdom; by eapply elem_of_dom_2).
  simpl. rewrite Hmd. unfold unwrap. destruct (_ <? _); [by do 3 eexists|].
  destruct (IH (set_v_nodes (<[id := node_update_max_buffer_usage nd]> (v_nodes v)) v))
    as (r & v' & w & ->); [|by do 3 eexists].
  simpl. rewrite Hdom, dom_insert_L. apply elem_of_dom_2 in Hnd. set_solver.
Qed.

Lemma check_buffers_total v :
  dom (v_node_metadata v) = dom (v_nodes v) → ∃ v' w, check_buffers v = (Ok (), v', w).
Proof.
  intros Hdom. destruct (update_max_loop_total (v_node_order v) v Hdom) as (r & v' & w & H).
  unfold check_buffers, update_max_buffer_usage, mbind, VM_bind. simpl. rewrite H.
  destruct r; by do 2 eexists.
Qed.

(** ** The run *)
Lemma no_fault_consistent v0 h v nids lids s :
  log_inv v0 h v → step_fault nids lids h s = None → step_consistent h s.
Proof.
  intros Hinv Hf n p. pose proof (gi_flight _ _ _ Hinv) as Hfl.
  assert (∀ q, is_Some (in_transit_at h q) ↔ is_Some (in_flight_at h q)) as Htr.
  { intros q. rewrite (fi_transit _ _ Hfl), (fi_flight _ _ Hfl). apply fmap_is_Some. }
  unfold step_fault, node_fault, free_fault, stored_fault, link_fault in Hf. split.
  - intros size He. unfold enters in He. destruct (step_kind s) as [k|k|k|k|k|k|k|k|e]; try done.
    + destruct (bool_decide (in_node_id k ∈ nids)); [|done]. specialize (Htr (in_packet_id k)).
      destruct (bool_decide (in_node_id k = n) && (in_packet_id k =? p)) eqn:E; simpl in He;
        [|done].
      apply andb_true_iff in E as [<-%bool_decide_eq_true <-%Z.eqb_eq].
      rewrite <-(bool_decide_ext _ _ Htr) in Hf. destruct (_ && in_dropped_on_arrival k); [done|].
      by destruct (buffered_at h (in_node_id k) (in_packet_id k)).
    + destruct (bool_decide (g_node_id k ∈ nids)); [|done].
      destruct (bool_decide (g_node_id k = n) && (g_packet_id k =? p)) eqn:E; [|done].
      apply andb_true_iff in E as [<-%bool_decide_eq_true <-%Z.eqb_eq].
      by destruct (buffered_at h (g_node_id k) (g_packet_id k)).
  - intros Hl. unfold leaves in Hl. destruct (step_kind s) as [k|k|k|k|k|k|k|k|e]; try done;
      apply andb_true_iff in Hl as [<-%bool_decide_eq_true <-%Z.eqb_eq];
      destruct (bool_decide (_ ∈ nids)); try done; by destruct (buffered_at h _ _).
Qed.

Definition node_sums (h : history) (v : SimulationVerifier) : Prop :=
  ∀ n nd, v_nodes v !! n = Some nd → node_sum h n nd.

Lemma node_sums_step v0 h s v v' :
  log_inv v0 h v → log_inv v0 (s :: h) v' → step_consistent h s →
  node_sums h v → node_sums (s :: h) v'.
Proof.
  intros Hinv Hinv' Hc Hsum n nd' Hnd'.
  assert (n ∈ dom (v_nodes v)) as [nd Hnd]%elem_of_dom.
  { rewrite (sw_dom_nodes _ _ (gi_same _ _ _ Hinv)), <-(sw_dom_nodes _ _ (gi_same _ _ _ Hinv')).
    by eapply elem_of_dom_2. }
  eapply node_sum_step; [by apply (gi_nodes _ _ _ Hinv)|by apply (gi_nodes _ _ _ Hinv')|done|].
  by apply Hsum.
Qed.

Lemma node_sums_checked v v' h :
  (∀ n nd', v_nodes v' !! n = Some nd' → ∃ nd, v_nodes v !! n = Some nd ∧
    rn_packets nd' = rn_packets nd) → node_sums h v → node_sums h v'.
Proof.
  intros H Hs n nd' (nd & Hnd & Hp)%H. unfold node_sum. rewrite Hp. by apply Hs.
Qed.

Section total.
Context (v0 : SimulationVerifier) (Hfresh : fresh v0).
Context (Hbuf : buffers_typed v0) (Hord : ∀ n, n ∈ dom (v_nodes v0) → n ∈ v_node_order v0).
Context (Hlinks : links_bounded (v_link_metadata v0)).

Abbreviation faults h steps := (first_fault (dom (v_nodes v0)) (dom (v_links v0)) h steps).
Abbreviation fault h s := (step_fault (dom (v_nodes v0)) (dom (v_links v0)) h s).

Lemma metadata_dom v : same_network v0 v → dom (v_node_metadata v) = dom (v_nodes v).
Proof using Hfresh.
  intros Hs. by rewrite (sw_nodes _ _ Hs), (sw_dom_nodes _ _ Hs), (fr_metadata _ Hfresh).
Qed.

(** The part of a step before its [match]. *)
Lemma verify_step_results h cs l v w s :
  run_inv v0 h cs l v w → node_sums h v → Forall step_bounded (s :: h) →
  sumZ step_bytes h < 2 ^ 64 → hist_sorted (s :: h) →
  results (verify_step l s) v (fault h s).
Proof using Hfresh Hbuf Hord Hlinks.
  intros [Hlog Hmax Htime Hupd Hnn] Hsum Hb Hbytes Hsort.
  apply Forall_cons in Hb as [Hs Hb].
  apply StronglySorted_inv in Hsort as [Hsort Hpast]. rewrite Forall_forall in Hpast.
  assert (∃ t u v1 w1, (if negb (step_time s =? last_step_time l) then
      _ ← check_buffers; mret (step_time s, Some (last_step_time l))
    else mret (last_step_time l, last_buffer_usage_update l)) v = (Ok (t, u), v1, w1) ∧
    log_inv v0 h v1 ∧ node_sums h v1) as (t & u & v1 & w1 & H1 & Hlog1 & Hsum1).
  { destruct (negb _); [|by do 4 eexists].
    destruct (check_buffers_total v) as (v1 & w1 & H1); [apply metadata_dom, Hlog|].
    pose proof (check_buffers_inv _ _ _ _ H1) as (r & Hr & _).
    apply update_max_loop_spec in Hr as (_ & Hbc & _).
    unfold mbind, VM_bind. rewrite H1. do 4 eexists. split; [done|]. split.
    - by eapply log_inv_checked.
    - eapply node_sums_checked; [|done]. intros n nd' Hnd'.
      destruct (buffers_checked_node _ _ _ _ _ (gi_nodes _ _ _ Hlog) Hbc Hnd')
        as (nd & ? & _ & [->| ->]); by exists nd. }
  unfold verify_step. eapply results_bind; [done|]. destruct s as [ts k].
  apply results_bind_any; [|intros; apply results_ret].
  apply verify_kind_results; try done. apply Hfresh.
Qed.

Lemma verify_steps_results steps h cs l v w :
  run_inv v0 h cs l v w → node_sums h v → Forall step_bounded (rev steps ++ h) →
  sumZ step_bytes (rev steps ++ h) < 2 ^ 64 → hist_sorted (rev steps ++ h) →
  results (verify_steps steps l) v (faults h steps).
Proof using Hfresh Hbuf Hord Hlinks.
  revert h cs l v w. induction steps as [|s steps IH]; intros h cs l v w Hrun Hsum Hb Hbytes Hsort.
  { apply results_ret. }
  simpl in Hb, Hbytes, Hsort. rewrite <-app_assoc in Hb, Hbytes, Hsort. simpl in *.
  pose proof Hb as [_ Hb']%Forall_app.
  pose proof Hsort as Hsort'. unfold hist_sorted in Hsort'.
  apply StronglySorted_app in Hsort' as (_ & _ & Hsort').
  assert (sumZ step_bytes (s :: h) ≤ sumZ step_bytes (rev steps ++ s :: h)
    ∧ 0 ≤ step_bytes s) as [Hle Hs0].
  { assert (∀ s, step_bounded s → 0 ≤ step_bytes s) as Hnn.
    { intros s' [[_ Hty] _]. unfold step_bytes, in_u64 in *. destruct (step_kind s'); lia. }
    split; [|apply Hnn; by apply Forall_cons in Hb' as []].
    rewrite sumZ_app. apply Forall_app in Hb as [Hb _]. rewrite Forall_forall in Hb.
    pose proof (sumZ_nonneg step_bytes (rev steps) (λ x Hx, Hnn x (Hb x Hx))). lia. }
  pose proof (verify_step_results h cs l v w s Hrun Hsum Hb' ltac:(simpl in Hle; lia) Hsort')
    as Hstep.
  destruct (fault h s) as [e|] eqn:Hf; [by apply results_bind_err|].
  destruct Hstep as (l' & v' & w' & Hstep). eapply results_bind; [done|].
  assert (Forall step_typed (s :: h)) as Hty
    by (eapply Forall_impl; [exact Hb'|]; by intros ? []).
  eapply (verify_step_run v0 Hbuf Hord) in Hstep as [Hrun' _]; [|done..].
  eapply IH; [done| |done..].
  eapply node_sums_step; [apply Hrun|apply Hrun'| |done].
  by eapply no_fault_consistent; [apply Hrun|].
Qed.
End total.

Definition spec_bounded (spec : NetworkSpec) : Prop :=
  spec_typed spec ∧ Forall (λ l, 0 ≤ delay l ≤ max_delay) (links spec).

Lemma new_links_bounded ips ls rls mds :
  Forall (λ l, 0 ≤ delay l ≤ max_delay) ls →
  foldM (new_link ips) ls (∅, ∅) = Ok (rls, mds) → links_bounded mds.
Proof.
  intros Hls H. eapply (foldM_inv (λ acc, links_bounded acc.2)) in H; [exact H|done|].
  intros [x1 x2] b x' Hx Hb Hstep. unfold new_link in Hstep.
  inv_bind Hstep. inv_bind Hstep. injection Hstep as <-. simpl in *.
  intros l md. destruct (decide (l = Spec.link_id b)) as [->|].
  - rewrite lookup_insert_eq. intros [= <-]. rewrite Forall_forall in Hls. by apply Hls.
  - rewrite lookup_insert_ne by done. apply Hx.
Qed.

Lemma verifier_new_links hash_order steps0 spec steps v0 :
  verifier_new hash_order steps0 spec = Ok (steps, v0) → spec_bounded spec →
  links_bounded (v_link_metadata v0).
Proof.
  intros Hnew [_ Hls]. unfold verifier_new in Hnew. inv_bind Hnew. inv_bind Hnew.
  destruct a0. injection Hnew as _ <-. simpl. by eapply new_links_bounded.
Qed.

Lemma verify_results hash_order log spec steps v0 :
  (∀ s, hash_order s ≡ₚ elements s) →
  verifier_new hash_order log spec = Ok (steps, v0) →
  spec_bounded spec → Forall step_bounded log → sumZ step_bytes log < 2 ^ 64 →
  match first_fault (dom (v_nodes v0)) (dom (v_links v0)) [] steps with
  | None => ∃ r, verify steps v0 = Ok r
  | Some e => ∃ errors, verify steps v0 = Err (mkInvalid (Some e) errors)
  end.
Proof.
  intros Horder Hnew Hspec Hb Hbytes.
  pose proof (verifier_new_sorted _ _ _ _ _ Hnew) as Hsteps.
  pose proof (verifier_new_fresh _ _ _ _ _ Hnew) as Hfresh.
  pose proof (verifier_new_buffers _ _ _ _ _ Hnew (proj1 Hspec)) as Hbuf.
  pose proof (verifier_new_order _ Horder _ _ _ _ Hnew) as Hord.
  pose proof (verifier_new_links _ _ _ _ _ Hnew Hspec) as Hlinks.
  assert (rev steps ≡ₚ log) as Hperm.
  { rewrite Hsteps. trans (sort_by_key step_time log); [|apply sort_by_key_perm].
    symmetry. apply Permutation_rev. }
  assert (Forall step_bounded (rev steps)) as Hb' by (by rewrite Hperm).
  assert (hist_sorted (rev steps)) as Hsort
    by (rewrite Hsteps; apply sorted_rev, sort_by_key_sorted).
  pose proof (fresh_run v0 Hfresh) as Hrun.
  assert (node_sums [] v0) as Hsums by (intros n nd ->%(fr_nodes _ Hfresh); done).
  pose proof (verify_steps_results v0 Hfresh Hbuf Hord Hlinks steps [] [] locals_init v0 []
    Hrun Hsums) as Hres.
  rewrite app_nil_r, (sumZ_perm step_bytes _ _ Hperm) in Hres.
  specialize (Hres Hb' Hbytes Hsort). unfold verify.
  destruct (first_fault _ _ [] steps) as [e|].
  - destruct Hres as (v' & w & Hw). unfold verify_all, mbind, VM_bind. rewrite Hw.
    by eexists.
  - destruct Hres as (l & v1 & w1 & H1). unfold verify_all, mbind, VM_bind. rewrite H1.
    assert (log_inv v0 (rev steps) v1) as Hlog.
    { eapply (verify_steps_run v0 Hbuf Hord steps [] [] locals_init v0 []) in H1 as [Hr _].
      - destruct Hr as [Hlog _ _ _ _]. by rewrite app_nil_r in Hlog.
      - done.
      - rewrite app_nil_r. eapply Forall_impl; [exact Hb'|]. by intros ? [].
      - by rewrite app_nil_r. }
    destruct (check_buffers_total v1) as (v2 & w2 & H2); [by apply (metadata_dom v0), Hlog|].
    case_bool_decide; [rewrite H2|]; by eexists.
Qed.
