(* ===== verification/VerifierSteps.v ===== *)
(** * The errors of one step, kind by kind

    When [step_errors] contains each kind of error, and how the errors of a log
    decompose into those of its steps. *)

From stdpp Require Import sorting.
From S2P Require Import Prelude Ip Spec Event SimStep Replayed Verifier History VerifierInv.
From S2P Require Import VerifierLog VerifierThms VerifierTotal.

Lemma elem_of_log_errors mds hosts h steps e :
  e ∈ log_errors mds hosts h steps ↔
  ∃ pre s post, steps = pre ++ s :: post ∧ e ∈ step_errors mds hosts (rev pre ++ h) s.
Proof.
  revert h. induction steps as [|s steps IH]; intros h; simpl.
  - split; [by intros ?%not_elem_of_nil|]. intros (pre & s & post & H & _).
    by destruct pre.
  - rewrite elem_of_app, IH. split.
    + intros [H|(pre & s' & post & -> & H)].
      * by exists [], s, steps.
      * exists (s :: pre), s', post. simpl. by rewrite <-app_assoc.
    + intros ([|s0 pre] & s' & post & Heq & H); simplify_eq/=.
      * by left.
      * right. exists pre, s', post. by rewrite <-app_assoc in H.
Qed.

Ltac step_error_inv H :=
  unfold step_errors, receive_errors, send_errors, arrival_error, departure_error,
    down_error in H; simpl in H;
  repeat match type of H with
  | _ ∈ [] => by apply not_elem_of_nil in H
  | _ ∈ _ ++ _ => apply elem_of_app in H as [H|H]
  | _ ∈ _ :: _ => apply list_elem_of_singleton in H; simplify_eq/=
  | _ ∈ (if ?b then _ else _) => destruct b eqn:?
  | _ ∈ (match ?x with _ => _ end) => destruct x eqn:?
  end; simplify_eq/=.

Ltac step_error_intro :=
  unfold step_errors, receive_errors, send_errors, arrival_error, departure_error,
    down_error; simpl;
  repeat match goal with H : ?x = _ |- context [?x] => rewrite H end; simpl;
  rewrite ?bool_decide_eq_false_2 by done; rewrite ?elem_of_app, ?elem_of_cons; auto 10.

(** ** One step *)
Section step_level.
Context (mds : gmap string LinkMetadata) (hosts : gset string) (h : history).
Context (s : SimulationStep).
Abbreviation reported e := (e ∈ step_errors mds hosts h s).

Lemma offline_send_step n l :
  reported (OfflinePacketSend n l) ↔
  ∃ t k, s = mkStep t (PacketInTransit k) ∧ tr_node_id k = n ∧ tr_link_id k = l ∧
    is_Some (mds !! l) ∧ link_status_at h l = LinkDown.
Proof.
  split.
  - destruct s as [t k]. intros H. step_error_inv H; eauto 10.
  - intros (t & k & -> & <- & <- & [md Hmd] & Hst). step_error_intro.
Qed.

Lemma disconnected_send_step n l :
  reported (DisconnectedPacketSend n l) ↔
  ∃ t k md, s = mkStep t (PacketInTransit k) ∧ tr_node_id k = n ∧ tr_link_id k = l ∧
    mds !! l = Some md ∧ lm_source_node_id md ≠ n.
Proof.
  split.
  - destruct s as [t k]. intros H. step_error_inv H; case_bool_decide; simpl in *; try done; eauto 10.
  - intros (t & k & md & -> & <- & <- & Hmd & Hne). step_error_intro.
Qed.

Lemma bandwidth_step n l p bw used :
  reported (LinkBandwidthExceeded n l p bw used) ↔
  ∃ t k md, s = mkStep t (PacketInTransit k) ∧ tr_node_id k = n ∧ tr_link_id k = l ∧
    tr_packet_id k = p ∧ mds !! l = Some md ∧ lm_bandwidth_bps md = bw ∧
    used = used_bandwidth md h t k ∧ bw < used.
Proof.
  split.
  - destruct s as [t k]. intros H. step_error_inv H;
      rewrite ?Z.ltb_lt in *; try done; eauto 15.
  - intros (t & k & md & -> & <- & <- & <- & Hmd & <- & -> & Hlt%Z.ltb_lt). step_error_intro.
Qed.

Lemma down_send_step n p :
  reported (NodeDownPacketSend n p) ↔
  ∃ t k, s = mkStep t (PacketInTransit k) ∧ tr_node_id k = n ∧ tr_packet_id k = p ∧
    is_Some (mds !! tr_link_id k) ∧ node_status_at h n = NodeDown.
Proof.
  split.
  - destruct s as [t k]. intros H. step_error_inv H;
      destruct (node_status_at h (tr_node_id _)) eqn:?; simpl in *; try done; eauto 10.
  - intros (t & k & -> & <- & <- & [md Hmd] & Hst). step_error_intro.
Qed.

Lemma survived_clear_step n p :
  reported (PacketSurvivedBufferCorruption n p) ↔
  ∃ t k b c, s = mkStep t (PacketInTransit k) ∧ tr_node_id k = n ∧ tr_packet_id k = p ∧
    is_Some (mds !! tr_link_id k) ∧ buffered_at h n p = Some b ∧
    node_last_clear h n = Some c ∧ rp_arrived_at b < c.
Proof.
  split.
  - destruct s as [t k]. intros H. step_error_inv H; unfold survived_clear in *;
      case_match; try done; rewrite ?Z.ltb_lt in *; try done; eauto 15.
  - intros (t & k & b & c & -> & <- & <- & [md Hmd] & Hb & Hc & Hlt%Z.ltb_lt).
    assert (survived_clear (node_last_clear h (tr_node_id k)) (rp_arrived_at b) = true)
      as Hs by (unfold survived_clear; by rewrite Hc). clear Hc. step_error_intro.
Qed.

Lemma too_fast_step n l :
  reported (TooFastPacketReceive n l) ↔
  ∃ t k f md, s = mkStep t (PacketInNode k) ∧ in_node_id k = n ∧
    in_flight_at h (in_packet_id k) = Some f ∧ if_link_id f = l ∧ mds !! l = Some md ∧
    t - if_sent_at_relative f < lm_delay md + if_extra_delay f.
Proof.
  split.
  - destruct s as [t k]. intros H. step_error_inv H; rewrite ?Z.ltb_lt in *; try done; eauto 15.
  - intros (t & k & f & md & -> & <- & Hf & <- & Hmd & Hlt%Z.ltb_lt). step_error_intro.
Qed.

Lemma offline_receive_step n l sent down :
  reported (OfflinePacketReceive n l sent down) ↔
  ∃ t k f, s = mkStep t (PacketInNode k) ∧ in_node_id k = n ∧
    in_flight_at h (in_packet_id k) = Some f ∧ if_link_id f = l ∧
    is_Some (mds !! l) ∧ if_sent_at_relative f = sent ∧
    link_last_down h l = Some down ∧ sent ≤ down.
Proof.
  split.
  - destruct s as [t k]. intros H. step_error_inv H; rewrite ?Z.leb_le in *; try done; eauto 15.
  - intros (t & k & f & -> & <- & Hf & <- & [md Hmd] & <- & Hd & Hle%Z.leb_le).
    step_error_intro.
Qed.

Lemma disconnected_receive_step n l :
  reported (DisconnectedPacketReceive n l) ↔
  ∃ t k f md, s = mkStep t (PacketInNode k) ∧ in_node_id k = n ∧
    in_flight_at h (in_packet_id k) = Some f ∧ if_link_id f = l ∧
    mds !! l = Some md ∧ lm_target_node_id md ≠ n.
Proof.
  split.
  - destruct s as [t k]. intros H. step_error_inv H; case_bool_decide; simpl in *; try done; eauto 15.
  - intros (t & k & f & md & -> & <- & Hf & <- & Hmd & Hne). step_error_intro.
Qed.

Lemma created_by_router_step n p :
  reported (PacketCreatedByRouterNode n p) ↔
  ∃ t k, s = mkStep t (PacketInNode k) ∧ in_node_id k = n ∧ in_packet_id k = p ∧
    in_flight_at h p = None ∧ n ∉ hosts.
Proof.
  split.
  - destruct s as [t k]. intros H. step_error_inv H; case_bool_decide; simpl in *; try done; eauto 15.
  - intros (t & k & -> & <- & <- & Hf & Hn). step_error_intro.
Qed.

Lemma dropped_while_up_step n p :
  reported (NodeUpPacketDroppedOnArrival n p) ↔
  ∃ t k f, s = mkStep t (PacketInNode k) ∧ in_node_id k = n ∧ in_packet_id k = p ∧
    in_flight_at h p = Some f ∧ is_Some (mds !! if_link_id f) ∧
    in_dropped_on_arrival k = true ∧ node_status_at h n = NodeUp.
Proof.
  split.
  - destruct s as [t k]. intros H. step_error_inv H;
      destruct (node_status_at h (in_node_id _)) eqn:?; simpl in *; try done; eauto 15.
  - intros (t & k & f & -> & <- & <- & Hf & [md Hmd] & Hd & Hst). step_error_intro.
Qed.

Lemma missing_lost_step p :
  reported (MissingLostPacket p) ↔
  ∃ t k, s = mkStep t (PacketLostInTransit k) ∧ lo_packet_id k = p ∧ in_flight_at h p = None.
Proof.
  split.
  - destruct s as [t k]. intros H. step_error_inv H; eauto 15.
  - intros (t & k & -> & <- & Hf). step_error_intro.
Qed.

Lemma down_receive_step n p :
  reported (NodeDownPacketReceive n p) ↔
  node_status_at h n = NodeDown ∧
  ((∃ t k, s = mkStep t (PacketInNode k) ∧ in_node_id k = n ∧ in_packet_id k = p ∧
      match in_flight_at h p with
      | Some f => is_Some (mds !! if_link_id f) ∧ in_dropped_on_arrival k = false
      | None => True
      end) ∨
   (∃ t k, s = mkStep t (PacketDuplicated k) ∧ g_node_id k = n ∧ g_packet_id k = p)).
Proof.
  split.
  - destruct s as [t k]. intros H.
    assert (node_status_at h n = NodeDown) as Hd.
    { step_error_inv H; by destruct (node_status_at h _). }
    split; [done|].
    step_error_inv H;
      first [ right; by eauto 10 | left; do 2 eexists; split_and!; [done..|] ];
      repeat match goal with E : ?x = _ |- context [?x] => rewrite E end; by eauto.
  - intros (Hd & [(t & k & -> & <- & <- & Hf)|(t & k & -> & <- & <-)]).
    + destruct (in_flight_at h (in_packet_id k)) as [f|] eqn:Hk.
      * destruct Hf as [[md Hmd] Hdr]. step_error_intro.
      * step_error_intro.
    + step_error_intro.
Qed.
End step_level.

