(* ===== verification/Custody.v ===== *)
(** * Where a packet is

    The life of a packet as a replay log tells it: created by a host, stored in
    nodes, on its way over links, and finally gone.  A log is lawful when every
    step continues the lives of the packets the way a network does; the
    verifier accepts such a log, and the only errors it may report for it are
    those a correct network can provoke. *)

From S2P Require Import Prelude Ip Spec Event SimStep Replayed Verifier History VerifierInv.
From S2P Require Import VerifierLog VerifierThms VerifierTotal VerifierSteps.

Inductive custody : Type :=
  | Nowhere
  | At (node : string) (since : Z)
  | Flying (link : string) (sent : Z)
  | Gone.

(** What a step does to packet [p]. *)
Definition custody_step (s : SimulationStep) (p : Z) (c : custody) : custody :=
  if decide (step_packet s = Some p) then
    match step_kind s with
    | PacketInNode k =>
        if in_dropped_on_arrival k then Gone else At (in_node_id k) (step_time s)
    | PacketDuplicated k => At (g_node_id k) (step_time s)
    | PacketInTransit k => Flying (tr_link_id k) (step_time s)
    | PacketDropped _ | PacketDeliveredToApplication _ | PacketLostInTransit _ => Gone
    | _ => c
    end
  else c.

Fixpoint custody_at (h : history) (p : Z) : custody :=
  match h with
  | [] => Nowhere
  | s :: h' => custody_step s p (custody_at h' p)
  end.

(** Link [l] was taken down at [t]. *)
Definition went_down_at (h : history) (l : string) (t : Z) : Prop :=
  ∃ s, s ∈ h ∧ link_event s l = Some LinkDown ∧ step_time s = t.

Section lawful.
Context (mds : gmap string LinkMetadata) (hosts : gset string).
Context (node_ids link_ids : gset string).

(** A packet may come out of link [l], over which it was sent at [t]: at the
    other end, after the delay of the link, unless the link went down since. *)
Definition lawful_arrival (h : history) (now : Z) (k : PacketInNode_) (l : string) (t : Z) : Prop :=
  (∃ md, mds !! l = Some md ∧ in_node_id k = lm_target_node_id md ∧ lm_delay md ≤ now - t) ∧
  (∀ d, link_last_down h l = Some d → t ≤ d → went_down_at h l t) ∧
  (in_dropped_on_arrival k = is_node_down (node_status_at h (in_node_id k))).

Definition lawful_send (h : history) (k : PacketInTransit_) (since : Z) : Prop :=
  (∃ md, mds !! tr_link_id k = Some md ∧ tr_node_id k = lm_source_node_id md) ∧
  tr_link_id k ∈ link_ids ∧ link_status_at h (tr_link_id k) = LinkUp ∧
  (∀ c, node_last_clear h (tr_node_id k) = Some c → c ≤ since).

Definition lawful (h : history) (s : SimulationStep) : Prop :=
  match step_kind s with
  | PacketInNode k =>
      in_node_id k ∈ node_ids ∧
      match custody_at h (in_packet_id k) with
      | Nowhere => in_node_id k ∈ hosts
      | Flying l t => lawful_arrival h (step_time s) k l t
      | _ => False
      end
  | PacketDuplicated k =>
      g_node_id k ∈ node_ids ∧ custody_at h (g_packet_id k) = Nowhere ∧
      node_status_at h (g_node_id k) = NodeUp
  | PacketDropped k =>
      dr_node_id k ∈ node_ids ∧ ∃ t, custody_at h (dr_packet_id k) = At (dr_node_id k) t
  | PacketDeliveredToApplication k =>
      g_node_id k ∈ node_ids ∧ ∃ t, custody_at h (g_packet_id k) = At (g_node_id k) t
  | PacketInTransit k =>
      tr_node_id k ∈ node_ids ∧
      ∃ t, custody_at h (tr_packet_id k) = At (tr_node_id k) t ∧ lawful_send h k t
  | PacketLostInTransit k => ∃ t, custody_at h (lo_packet_id k) = Flying (lo_link_id k) t
  | NetworkEventStep e =>
      (∀ p, ev_link e = Some p → le_link_id p ∈ link_ids) ∧
      (∀ p, ev_node e = Some p → ne_node_id p ∈ node_ids)
  | PacketCongestionEvent _ | PacketExtraDelay _ => False
  end.

Fixpoint lawful_log (h : history) : Prop :=
  match h with [] => True | s :: h' => lawful h' s ∧ lawful_log h' end.

(** ** What the readings of [History] say *)
Definition placed (h : history) (p : Z) : Prop :=
  match custody_at h p with
  | Nowhere => (∀ n, buffered_at h n p = None) ∧ in_flight_at h p = None ∧ in_transit_at h p = None
  | At n t =>
      (∃ size, buffered_at h n p = Some (mkReplayedPacket t size 0)) ∧
      (∀ m, m ≠ n → buffered_at h m p = None) ∧
      in_flight_at h p = None ∧ in_transit_at h p = None
  | Flying l t =>
      (∀ n, buffered_at h n p = None) ∧ in_transit_at h p = Some (l, t) ∧
      ∃ size, in_flight_at h p = Some (mkInFlight size t 0 l)
  | Gone => in_flight_at h p = None ∧ in_transit_at h p = None
  end.

Lemma placed_other h s p : step_packet s ≠ Some p → placed h p → placed (s :: h) p.
Proof.
  intros Hp. unfold placed. cbn [custody_at]. unfold custody_step. rewrite decide_False by done.
  assert (∀ n, buffered_at (s :: h) n p = buffered_at h n p) as Hb.
  { intros n. by apply buffered_at_other. }
  assert (in_flight_at (s :: h) p = in_flight_at h p ∧ in_transit_at (s :: h) p = in_transit_at h p)
    as [Hf Ht].
  { simpl. unfold step_packet in Hp. destruct (step_kind s); try done;
      (destruct (_ =? p) eqn:E; [apply Z.eqb_eq in E; congruence|done]). }
  rewrite Hf, Ht. by destruct (custody_at h p); try setoid_rewrite Hb.
Qed.

Lemma placed_step h s p : lawful h s → placed h p → placed (s :: h) p.
Proof.
  intros Hl Hpl. destruct (decide (step_packet s = Some p)) as [Hp|Hp]; [|by apply placed_other].
  unfold placed in *. cbn [custody_at]. unfold custody_step. rewrite decide_True by done.
  destruct s as [t kd]. unfold lawful, step_packet in *. simpl in *.
  destruct kd as [k|k|k|k|k|k|k|k|e]; simpl in *; simplify_eq; rewrite ?Z.eqb_refl.
  - destruct Hl as [_ Hl], (in_dropped_on_arrival k) eqn:Hd; [done|].
    assert (∀ n, buffered_at h n (in_packet_id k) = None) as Hb.
    { destruct (custody_at h (in_packet_id k)); try done; by destruct Hpl. }
    split_and!; [|intros m Hm|done..]; unfold enters; simpl.
    + rewrite bool_decide_eq_true_2, Z.eqb_refl, Hd, andb_false_r by done. simpl. by eexists.
    + rewrite bool_decide_eq_false_2 by done. apply Hb.
  - destruct Hl as [_ [t' Hl]]. rewrite Hl in Hpl. by destruct Hpl as (_ & _ & ?).
  - done.
  - destruct Hl as (_ & Hl & _). rewrite Hl in Hpl. destruct Hpl as (Hb & Hf & Ht).
    split_and!; [|intros m Hm|done..]; unfold enters; simpl.
    + rewrite bool_decide_eq_true_2, Z.eqb_refl by done. simpl. by eexists.
    + rewrite bool_decide_eq_false_2 by done. apply Hb.
  - done.
  - done.
  - destruct Hl as (_ & t' & Hl & _). rewrite Hl in Hpl. destruct Hpl as ([size Hb] & Hm & _).
    rewrite Hb. split_and!; [intros n|done|simpl; by eexists]. unfold enters, leaves. simpl.
    case_bool_decide as Hn; simpl; [by rewrite Z.eqb_refl|]. by apply Hm.
  - destruct Hl as [_ [t' Hl]]. rewrite Hl in Hpl. by destruct Hpl as (_ & _ & ?).
Qed.

Lemma lawful_placed h p : lawful_log h → placed h p.
Proof.
  induction h as [|s h IH]; simpl; [done|]. intros [Hs Hh]. apply placed_step; auto.
Qed.

(** ** A lawful log is accepted *)
Lemma lawful_no_fault h s : lawful h s → lawful_log h → step_fault node_ids link_ids h s = None.
Proof.
  intros Hl Hlog. unfold lawful, step_fault, node_fault, stored_fault, free_fault, link_fault in *.
  destruct (step_kind s) as [k|k|k|k|k|k|k|k|e]; try done.
  - destruct Hl as [Hn Hl]. rewrite bool_decide_eq_true_2 by done.
    pose proof (lawful_placed h (in_packet_id k) Hlog) as Hp. unfold placed in Hp.
    destruct (custody_at h (in_packet_id k)); try done.
    + destruct Hp as (Hb & _). rewrite Hb. by destruct (_ && _).
    + destruct Hp as (Hb & _). rewrite Hb. by destruct (_ && _).
  - destruct Hl as [Hn [t Hl]]. rewrite bool_decide_eq_true_2 by done.
    pose proof (lawful_placed h (dr_packet_id k) Hlog) as Hp. unfold placed in Hp. rewrite Hl in Hp.
    by destruct Hp as ([size ->] & _).
  - destruct Hl as (Hn & Hl & _). rewrite bool_decide_eq_true_2 by done.
    pose proof (lawful_placed h (g_packet_id k) Hlog) as Hp. unfold placed in Hp. rewrite Hl in Hp.
    destruct Hp as (Hb & _). by rewrite Hb.
  - destruct Hl as (Hn & t & Hl & _ & Hlk & _). rewrite bool_decide_eq_true_2 by done.
    pose proof (lawful_placed h (tr_packet_id k) Hlog) as Hp. unfold placed in Hp. rewrite Hl in Hp.
    destruct Hp as ([size ->] & _). by rewrite bool_decide_eq_true_2.
  - destruct Hl as [Hn [t Hl]]. rewrite bool_decide_eq_true_2 by done.
    pose proof (lawful_placed h (g_packet_id k) Hlog) as Hp. unfold placed in Hp. rewrite Hl in Hp.
    by destruct Hp as ([size ->] & _).
  - destruct Hl as [He Hn].
    assert (match ev_node e with
      | Some p => if bool_decide (ne_node_id p ∈ node_ids) then None else Some (MissingNode (ne_node_id p))
      | None => None end = None) as ->.
    { destruct (ev_node e) as [p|]; [|done]. by rewrite bool_decide_eq_true_2 by auto. }
    destruct (ev_link e) as [p|]; [|done]. destruct (le_status p); [|done].
    by rewrite bool_decide_eq_true_2 by auto.
Qed.

(** The errors a correct network can provoke: the verifier also calls it an error when a host that is
    down creates a packet, when a link sends a packet although its node went down after it handed the
    packet over, when a packet arrives that left in the very instant in which its link went down,
    when a link sends at its full bandwidth, and when the packets that wait in a host to be read
    exceed its buffer, which they do not occupy. *)
Definition excusable (h : history) (e : NonFatalError) : Prop :=
  match e with
  | NodeDownPacketSend _ _ | LinkBandwidthExceeded _ _ _ _ _ => True
  | NodeDownPacketReceive n _ => n ∈ hosts
  | OfflinePacketReceive _ l sent _ => went_down_at h l sent
  | _ => False
  end.

Lemma lawful_errors h s e :
  lawful h s → lawful_log h → e ∈ step_errors mds hosts h s → excusable h e.
Proof.
  intros Hl Hlog. unfold lawful, step_errors in *.
  destruct (step_kind s) as [k|k|k|k|k|k|k|k|ev]; try by intros ?%not_elem_of_nil.
  - destruct Hl as [Hn Hl]. pose proof (lawful_placed h (in_packet_id k) Hlog) as Hp.
    unfold placed in Hp. destruct (custody_at h (in_packet_id k)) as [|n t|l t|]; try done.
    + destruct Hp as (_ & -> & _). rewrite bool_decide_eq_true_2 by done. simpl.
      unfold down_error. intros [_ He]%elem_of_if. apply list_elem_of_singleton in He as ->. done.
    + destruct Hp as (_ & _ & [size ->]), Hl as ((md & Hmd & Htgt & Hdel) & Hdown & Hdrop).
      simpl. rewrite Hmd. unfold receive_errors. simpl.
      rewrite bool_decide_eq_true_2, Z.add_0_r by done.
      destruct (Z.ltb_spec (step_time s - t) (lm_delay md)); [lia|]. simpl.
      rewrite elem_of_app. intros [He|He].
      * destruct (link_last_down h l) as [d|]; [|by apply not_elem_of_nil in He].
        apply elem_of_if in He as [Hle%Z.leb_le ->%list_elem_of_singleton]. simpl. by apply (Hdown d).
      * unfold arrival_error, down_error in He. rewrite Hdrop in He.
        destruct (is_node_down _); by apply not_elem_of_nil in He.
  - destruct Hl as [t Hl]. pose proof (lawful_placed h (lo_packet_id k) Hlog) as Hp.
    unfold placed in Hp. rewrite Hl in Hp. destruct Hp as (_ & _ & [size ->]).
    by intros ?%not_elem_of_nil.
  - destruct Hl as (Hn & Hl & Hup). unfold down_error. rewrite Hup. by intros ?%not_elem_of_nil.
  - destruct Hl as (_ & t & Hl & (md & Hmd & Hsrc) & Hlk & Hup & Hclear).
    pose proof (lawful_placed h (tr_packet_id k) Hlog) as Hp. unfold placed in Hp. rewrite Hl in Hp.
    destruct Hp as ([size Hb] & _). rewrite Hmd. unfold send_errors, departure_error, down_error.
    rewrite Hb, Hup, bool_decide_eq_true_2 by done. simpl. rewrite !elem_of_app, !elem_of_if.
    assert (survived_clear (node_last_clear h (tr_node_id k)) t = false) as ->.
    { unfold survived_clear. destruct (node_last_clear h _) as [c|]; [|done].
      apply Z.ltb_ge. by apply Hclear. }
    rewrite !list_elem_of_singleton. intros [[[_ ->]|[? _]]|[_ ->]]; done.
Qed.

(** In the whole log. *)
Lemma went_down_at_app h h' l t : went_down_at h l t → went_down_at (h' ++ h) l t.
Proof. intros (s & Hs & ?). exists s. split; [|done]. apply elem_of_app. by right. Qed.

Lemma excusable_app h h' e : excusable h e → excusable (h' ++ h) e.
Proof. destruct e; try done. apply went_down_at_app. Qed.

Lemma lawful_log_split h h' : lawful_log (h' ++ h) → lawful_log h.
Proof. induction h' as [|s h' IH]; simpl; [done|]. intros [_ ?]. auto. Qed.

Lemma lawful_first_fault h steps :
  lawful_log (rev steps ++ h) → first_fault node_ids link_ids h steps = None.
Proof.
  revert h. induction steps as [|s steps IH]; intros h; simpl; [done|].
  rewrite <-app_assoc. simpl. intros Hl. pose proof (lawful_log_split _ _ Hl) as [Hs Hh].
  rewrite lawful_no_fault by done. by apply IH.
Qed.

Lemma lawful_log_errors steps e :
  lawful_log (rev steps) → e ∈ log_errors mds hosts [] steps → excusable (rev steps) e.
Proof.
  intros Hl (pre & s & post & -> & He)%elem_of_log_errors. rewrite app_nil_r in He.
  rewrite rev_app_distr in *. simpl in *. rewrite <-app_assoc in *.
  apply lawful_log_split in Hl as [Hs Hh]. apply excusable_app.
  apply (excusable_app (rev pre) [s]). by eapply lawful_errors.
Qed.
End lawful.
