(* ===== verification/VerifierProps.v ===== *)
(** * Correctness of the verifier

    For a log the verifier accepts, each kind of non-fatal error is reported
    exactly when the log contains the corresponding violation; a log is
    accepted exactly when no step has a fault. *)

From S2P Require Import Prelude Ip Spec Event SimStep Replayed Verifier History VerifierInv.
From S2P Require Import VerifierLog VerifierThms VerifierTotal VerifierSteps.

(** ** A log with violations

    Host [A] (buffer of 3000 bytes) and router [R] (1500 bytes), connected by
    the link [l] of 12 kbps and 5 ms.  [A] stores three packets of 1500 bytes;
    its buffer is cleared at 1 ms, the link is down from 2 to 4 ms and [A] is
    down from 5 ms on, and all the while packets are sent and received. *)
Definition addr_A : Ipv4Cidr := mkCidr 167772161 24.
Definition addr_R : Ipv4Cidr := mkCidr 167772417 24.

Definition example_spec : NetworkSpec :=
  let zero := Float.f64_of_Z 0 in
  mkSpec
    [mkNodeSpec "A" 3000 Host [mkInterface [addr_A] []] zero zero;
     mkNodeSpec "R" 1500 Router [mkInterface [addr_R] []] zero zero]
    [mkLinkSpec "l" (as_ip_addr addr_A) (as_ip_addr addr_R) (from_millis 5) 12000
       zero 0 zero].

Definition at_ms (ms : Z) (k : SimulationStepKind) : SimulationStep :=
  mkStep (from_millis ms) k.
Definition in_node_at ms p n dropped : SimulationStep :=
  at_ms ms (PacketInNode (mkInNode p p 1500 n dropped)).
Definition sent_at ms p n l : SimulationStep :=
  at_ms ms (PacketInTransit (mkInTransit p n l)).
Definition node_at ms n st clear : SimulationStep :=
  at_ms ms (NetworkEventStep (mkNetEvent None (Some (mkNodeEvent n st clear)))).
Definition link_at ms l st : SimulationStep :=
  at_ms ms (NetworkEventStep (mkNetEvent (Some (link_status_only l st)) None)).

Definition example_log : list SimulationStep :=
  [in_node_at 0 1 "A" false; in_node_at 0 2 "A" false; in_node_at 0 3 "A" false;
   node_at 1 "A" None true;
   link_at 2 "l" LinkDown; sent_at 2 1 "A" "l"; sent_at 3 2 "A" "l";
   link_at 4 "l" LinkUp; in_node_at 4 1 "R" false;
   node_at 5 "A" (Some NodeDown) false;
   sent_at 6 3 "A" "l"; in_node_at 7 2 "A" false; in_node_at 8 3 "R" true;
   in_node_at 9 7 "R" false; sent_at 9 7 "R" "l";
   at_ms 10 (PacketLostInTransit (mkLost 9 "l"))].

(** A log without violations, and one that creates a packet twice. *)
Definition quiet_log : list SimulationStep :=
  [in_node_at 1 1 "A" false; sent_at 2 1 "A" "l"; in_node_at 7 1 "R" false].
Definition faulty_log : list SimulationStep :=
  [in_node_at 1 1 "A" false; in_node_at 2 1 "A" false].
(** The steps of the example in another order. *)
Definition shuffled_log : list SimulationStep := drop 9 example_log ++ take 9 example_log.

Definition hash_elements (s : gset string) : list string := elements s.

Definition empty_verifier : SimulationVerifier := mkVerifier ∅ ∅ ∅ ∅ ∅ ∅ [].
Definition example_verifier : SimulationVerifier :=
  match verifier_new hash_elements example_log example_spec with
  | Ok (_, v) => v
  | _ => empty_verifier
  end.
Definition example_report : VerifiedSimulation :=
  match verify example_log example_verifier with
  | Ok r => r
  | _ => mkVerified ∅ ∅ []
  end.

Lemma example_new :
  verifier_new hash_elements example_log example_spec = Ok (example_log, example_verifier).
Proof. vm_compute. reflexivity. Qed.

Lemma example_verified : verify example_log example_verifier = Ok example_report.
Proof. vm_compute. reflexivity. Qed.

Definition quiet_report : VerifiedSimulation :=
  match verify quiet_log example_verifier with Ok r => r | _ => mkVerified ∅ ∅ [] end.
Definition quiet_stats : NodeStats :=
  default (node_stats (ReplayedNode_new "A")) (stats_by_node_ quiet_report !! "A").

Lemma quiet_new :
  verifier_new hash_elements quiet_log example_spec = Ok (quiet_log, example_verifier).
Proof. vm_compute. reflexivity. Qed.

Lemma faulty_new :
  verifier_new hash_elements faulty_log example_spec = Ok (faulty_log, example_verifier).
Proof. vm_compute. reflexivity. Qed.

Lemma quiet_verified : verify quiet_log example_verifier = Ok quiet_report.
Proof. vm_compute. reflexivity. Qed.

Lemma hash_elements_perm s : hash_elements s ≡ₚ elements s.
Proof. done. Qed.

Ltac bounded_log :=
  rewrite !Forall_cons, Forall_nil; unfold step_bounded, step_typed;
  split_and!; vm_compute; done.

Lemma example_bounded : Forall step_bounded example_log.
Proof. unfold example_log. bounded_log. Qed.

Lemma quiet_bounded : Forall step_bounded quiet_log.
Proof. unfold quiet_log. bounded_log. Qed.

Lemma faulty_bounded : Forall step_bounded faulty_log.
Proof. unfold faulty_log. bounded_log. Qed.

Lemma quiet_typed : Forall step_typed quiet_log.
Proof. eapply Forall_impl; [exact quiet_bounded|]. by intros ? []. Qed.

Lemma example_typed : Forall step_typed example_log.
Proof. eapply Forall_impl; [exact example_bounded|]. by intros ? []. Qed.

Lemma example_spec_bounded : spec_bounded example_spec.
Proof.
  split; unfold spec_typed; simpl; rewrite ?Forall_cons, ?Forall_nil; simpl;
    split_and!; vm_compute; done.
Qed.

Lemma no_buffer_error (w : list NonFatalError) :
  ((∀ e, e ∈ w → is_buffer_error e = false) → False) →
  ∃ n b m, NodeExceedsBufferSize n b m ∈ w.
Proof.
  induction w as [|e w IH]; intros H.
  - destruct H. by intros ? ?%not_elem_of_nil.
  - destruct e as [n b m| | | | | | | | | | | |]; [exists n, b, m; left|..];
      (destruct IH as (n' & b' & m' & Hin); [|exists n', b', m'; by right]);
      intros Hw; apply H; intros e [->|He]%elem_of_cons; auto.
Qed.

(** ** What an accepted log's report says *)
Section accepted.
Context (hash_order : gset string → list string).
Context (Horder : ∀ s, hash_order s ≡ₚ elements s).
Context (log steps : list SimulationStep) (spec : NetworkSpec).
Context (v0 : SimulationVerifier) (r : VerifiedSimulation).
Context (Hnew : verifier_new hash_order log spec = Ok (steps, v0)).
Context (Hlog : Forall step_typed log) (Hspec : spec_typed spec).
Context (Hverify : verify steps v0 = Ok r).

Lemma reported_iff e :
  is_buffer_error e = false →
  e ∈ non_fatal_errors r ↔
  ∃ pre s post, steps = pre ++ s :: post ∧
    e ∈ step_errors (v_link_metadata v0) (v_host_nodes v0) (rev pre) s.
Proof using Horder Hnew Hlog Hspec Hverify.
  intros He.
  destruct (verify_run _ _ _ _ _ _ Horder Hnew Hlog Hspec Hverify) as (v & l & _ & _ & Herr).
  trans (e ∈ step_error_list (non_fatal_errors r)).
  - unfold step_error_list. rewrite list_elem_of_filter. naive_solver.
  - rewrite Herr, elem_of_log_errors. by setoid_rewrite app_nil_r.
Qed.

(** C8: The report lists, in the order of the log, exactly the errors that each step deserves
    given the steps before it; only buffer errors come from elsewhere. *)
Theorem verify_errors_in_order :
  filter (λ e, is_buffer_error e = false) (non_fatal_errors r) =
  log_errors (v_link_metadata v0) (v_host_nodes v0) [] steps.
Proof using Horder Hnew Hlog Hspec Hverify.
  by destruct (verify_run _ _ _ _ _ _ Horder Hnew Hlog Hspec Hverify) as (v & l & _ & _ & ?).
Qed.

(** A packet sent over an offline link is reported exactly when the log has a
    transmission over the link while the link's latest status event had taken it down. *)
Theorem offline_send_reported n l :
  OfflinePacketSend n l ∈ non_fatal_errors r ↔
  ∃ pre t k post, steps = pre ++ mkStep t (PacketInTransit k) :: post ∧
    tr_node_id k = n ∧ tr_link_id k = l ∧ is_Some (v_link_metadata v0 !! l) ∧
    link_status_at (rev pre) l = LinkDown.
Proof using Horder Hnew Hlog Hspec Hverify.
  rewrite reported_iff by done. setoid_rewrite offline_send_step. naive_solver.
Qed.

(** A packet whose link failed while it was in flight is reported exactly when the
    log has an arrival of an in-flight packet whose link last went down at or after the
    packet's departure. *)
Theorem offline_receive_reported n l sent down :
  OfflinePacketReceive n l sent down ∈ non_fatal_errors r ↔
  ∃ pre t k post f, steps = pre ++ mkStep t (PacketInNode k) :: post ∧
    in_node_id k = n ∧ in_flight_at (rev pre) (in_packet_id k) = Some f ∧
    if_link_id f = l ∧ is_Some (v_link_metadata v0 !! l) ∧ if_sent_at_relative f = sent ∧
    link_last_down (rev pre) l = Some down ∧ sent ≤ down.
Proof using Horder Hnew Hlog Hspec Hverify.
  rewrite reported_iff by done. setoid_rewrite offline_receive_step. naive_solver.
Qed.

(** A packet is reported as too fast exactly when it arrives earlier than the
    link's delay and its own extra delay after it was sent. *)
Theorem too_fast_reported n l :
  TooFastPacketReceive n l ∈ non_fatal_errors r ↔
  ∃ pre t k post f md, steps = pre ++ mkStep t (PacketInNode k) :: post ∧
    in_node_id k = n ∧ in_flight_at (rev pre) (in_packet_id k) = Some f ∧
    if_link_id f = l ∧ v_link_metadata v0 !! l = Some md ∧
    t - if_sent_at_relative f < lm_delay md + if_extra_delay f.
Proof using Horder Hnew Hlog Hspec Hverify.
  rewrite reported_iff by done. setoid_rewrite too_fast_step. naive_solver.
Qed.

(** C15: Exceeded bandwidth is reported exactly when the bits sent over the link in
    the window that ends with a packet's departure, divided by the window's length, exceed
    the link's bandwidth. *)
Theorem bandwidth_exceeded_reported n l p bw used :
  LinkBandwidthExceeded n l p bw used ∈ non_fatal_errors r ↔
  ∃ pre t k post md, steps = pre ++ mkStep t (PacketInTransit k) :: post ∧
    tr_node_id k = n ∧ tr_link_id k = l ∧ tr_packet_id k = p ∧
    v_link_metadata v0 !! l = Some md ∧ lm_bandwidth_bps md = bw ∧
    used = used_bandwidth md (rev pre) t k ∧ bw < used.
Proof using Horder Hnew Hlog Hspec Hverify.
  rewrite reported_iff by done. setoid_rewrite bandwidth_step. naive_solver.
Qed.

(** A packet that survives a buffer clear is reported exactly when a node sends a
    packet that arrived before the node's latest buffer clear. *)
Theorem survived_clear_reported n p :
  PacketSurvivedBufferCorruption n p ∈ non_fatal_errors r ↔
  ∃ pre t k post b c, steps = pre ++ mkStep t (PacketInTransit k) :: post ∧
    tr_node_id k = n ∧ tr_packet_id k = p ∧ is_Some (v_link_metadata v0 !! tr_link_id k) ∧
    buffered_at (rev pre) n p = Some b ∧ node_last_clear (rev pre) n = Some c ∧
    rp_arrived_at b < c.
Proof using Horder Hnew Hlog Hspec Hverify.
  rewrite reported_iff by done. setoid_rewrite survived_clear_step. naive_solver.
Qed.

(** A node that sends while it is down is reported exactly when the log has a
    transmission by a node whose latest status event had taken it down. *)
Theorem down_send_reported n p :
  NodeDownPacketSend n p ∈ non_fatal_errors r ↔
  ∃ pre t k post, steps = pre ++ mkStep t (PacketInTransit k) :: post ∧
    tr_node_id k = n ∧ tr_packet_id k = p ∧ is_Some (v_link_metadata v0 !! tr_link_id k) ∧
    node_status_at (rev pre) n = NodeDown.
Proof using Horder Hnew Hlog Hspec Hverify.
  rewrite reported_iff by done. setoid_rewrite down_send_step. naive_solver.
Qed.

(** A drop on arrival is reported exactly when the receiving node was up. *)
Theorem dropped_while_up_reported n p :
  NodeUpPacketDroppedOnArrival n p ∈ non_fatal_errors r ↔
  ∃ pre t k post f, steps = pre ++ mkStep t (PacketInNode k) :: post ∧
    in_node_id k = n ∧ in_packet_id k = p ∧ in_flight_at (rev pre) p = Some f ∧
    is_Some (v_link_metadata v0 !! if_link_id f) ∧
    in_dropped_on_arrival k = true ∧ node_status_at (rev pre) n = NodeUp.
Proof using Horder Hnew Hlog Hspec Hverify.
  rewrite reported_iff by done. setoid_rewrite dropped_while_up_step. naive_solver.
Qed.

(** A packet created out of thin air is reported exactly when a packet that is not
    in flight appears in a node that is not a host. *)
Theorem created_by_router_reported n p :
  PacketCreatedByRouterNode n p ∈ non_fatal_errors r ↔
  ∃ pre t k post, steps = pre ++ mkStep t (PacketInNode k) :: post ∧
    in_node_id k = n ∧ in_packet_id k = p ∧ in_flight_at (rev pre) p = None ∧
    n ∉ v_host_nodes v0.
Proof using Horder Hnew Hlog Hspec Hverify.
  rewrite reported_iff by done. setoid_rewrite created_by_router_step. naive_solver.
Qed.

(** A lost packet is reported as missing exactly when it was not in flight. *)
Theorem missing_lost_reported p :
  MissingLostPacket p ∈ non_fatal_errors r ↔
  ∃ pre t k post, steps = pre ++ mkStep t (PacketLostInTransit k) :: post ∧
    lo_packet_id k = p ∧ in_flight_at (rev pre) p = None.
Proof using Horder Hnew Hlog Hspec Hverify.
  rewrite reported_iff by done. setoid_rewrite missing_lost_step. naive_solver.
Qed.

(** C14: A full buffer is reported exactly when, at the end of some instant, the bytes stored in
    some node exceed the size of its buffer. *)
Theorem buffer_overflow_reported :
  (∃ n b m, NodeExceedsBufferSize n b m ∈ non_fatal_errors r) ↔
  ∃ h n b, h ∈ all_instants steps ∧ n ∈ dom (v_nodes v0) ∧ buffer_size v0 n = Some b ∧
    b < wrap64 (stored_bytes h n).
Proof using Horder Hnew Hlog Hspec Hverify.
  destruct (verify_run _ _ _ _ _ _ Horder Hnew Hlog Hspec Hverify) as (v & l & Hrun & _).
  pose proof (ri_max _ _ _ _ _ _ Hrun) as Hmax. split.
  - intros (n & b & m & Hin).
    destruct (mx_error _ _ _ _ Hmax _ _ _ Hin) as (Hn & Hb & Hlt & h & Hh & ->).
    by exists h, n, b.
  - intros (h & n & b & Hh & Hn & Hb & Hlt). apply no_buffer_error. intros Hno.
    rewrite <-(sw_dom_nodes _ _ (gi_same _ _ _ (ri_log _ _ _ _ _ _ Hrun))) in Hn.
    apply elem_of_dom in Hn as [nd Hnd].
    destruct (mx_fits _ _ _ _ Hmax Hno _ _ _ Hnd Hh) as (_ & b' & Hb' & Hle).
    unfold stored64 in Hle. simplify_eq. lia.
Qed.

(** C13: When no buffer overflow is reported, the reported maximum buffer usage of a node is the largest
    number of bytes it stores at the end of an instant (zero for a node that stays empty). *)
Theorem max_buffer_usage_exact n st :
  (∀ e, e ∈ non_fatal_errors r → is_buffer_error e = false) →
  stats_by_node_ r !! n = Some st →
  (∀ h, h ∈ all_instants steps → wrap64 (stored_bytes h n) ≤ ns_max_buffer_usage st) ∧
  (ns_max_buffer_usage st = 0 ∨
   ∃ h, h ∈ all_instants steps ∧ ns_max_buffer_usage st = wrap64 (stored_bytes h n)).
Proof using Horder Hnew Hlog Hspec Hverify.
  intros Hno Hst.
  destruct (verify_run _ _ _ _ _ _ Horder Hnew Hlog Hspec Hverify) as (v & l & Hrun & Hs & _).
  pose proof (ri_max _ _ _ _ _ _ Hrun) as Hmax.
  rewrite Hs in Hst. apply lookup_fmap_Some in Hst as (nd & <- & Hnd). split.
  - intros h Hh. by destruct (mx_fits _ _ _ _ Hmax Hno _ _ _ Hnd Hh).
  - apply (mx_some _ _ _ _ Hmax _ _ Hnd).
Qed.
End accepted.

(** C7: On a log whose sizes and times fit the machine the verifier never panics: it accepts a
    log without a faulty step, and otherwise fails with the fatal error of the first fault. *)
Theorem verify_verdict hash_order log spec steps v0 :
  (∀ s, hash_order s ≡ₚ elements s) →
  verifier_new hash_order log spec = Ok (steps, v0) →
  spec_bounded spec → Forall step_bounded log → sumZ step_bytes log < 2 ^ 64 →
  match first_fault (dom (v_nodes v0)) (dom (v_links v0)) [] steps with
  | None => ∃ r, verify steps v0 = Ok r
  | Some e => ∃ errors, verify steps v0 = Err (mkInvalid (Some e) errors)
  end.
Proof. apply verify_results. Qed.

(** The verifier replays the log sorted by time, and steps of equal time stay in the order in
    which they were recorded. *)
Theorem verifier_replays_in_time_order hash_order log spec steps v0 :
  verifier_new hash_order log spec = Ok (steps, v0) →
  sorted_by_key step_time steps ∧ steps ≡ₚ log ∧
  ∀ t, filter (λ s, step_time s = t) steps = filter (λ s, step_time s = t) log.
Proof.
  intros Hnew. rewrite (verifier_new_sorted _ _ _ _ _ Hnew). split_and!.
  - apply sort_by_key_sorted.
  - apply sort_by_key_perm.
  - intros t. apply sort_by_key_stable.
Qed.

(** ** Witnesses *)
Ltac example_hyps :=
  try exact hash_elements_perm; try exact example_new; try exact example_typed;
  try exact (proj1 example_spec_bounded); try exact example_verified.
Ltac reported_in_example := apply (bool_decide_unpack _); vm_compute; exact I.

Lemma verify_errors_in_order_witness :
  filter (λ e, is_buffer_error e = false) (non_fatal_errors example_report) =
  log_errors (v_link_metadata example_verifier) (v_host_nodes example_verifier) [] example_log.
Proof.
  eapply (verify_errors_in_order hash_elements hash_elements_perm); example_hyps.
Defined.

Lemma offline_send_reported_witness :
  ∃ pre t k post, example_log = pre ++ mkStep t (PacketInTransit k) :: post ∧
    tr_node_id k = "A" ∧ tr_link_id k = "l" ∧ is_Some (v_link_metadata example_verifier !! "l") ∧
    link_status_at (rev pre) "l" = LinkDown.
Proof.
  eapply (offline_send_reported hash_elements hash_elements_perm); example_hyps.
  reported_in_example.
Defined.

Lemma offline_receive_reported_witness :
  ∃ pre t k post f, example_log = pre ++ mkStep t (PacketInNode k) :: post ∧
    in_node_id k = "R" ∧ in_flight_at (rev pre) (in_packet_id k) = Some f ∧
    if_link_id f = "l" ∧ is_Some (v_link_metadata example_verifier !! "l") ∧ if_sent_at_relative f = 2000000 ∧
    link_last_down (rev pre) "l" = Some 2000000 ∧ 2000000 ≤ 2000000.
Proof.
  eapply (offline_receive_reported hash_elements hash_elements_perm); example_hyps.
  reported_in_example.
Defined.

Lemma too_fast_reported_witness :
  ∃ pre t k post f md, example_log = pre ++ mkStep t (PacketInNode k) :: post ∧
    in_node_id k = "R" ∧ in_flight_at (rev pre) (in_packet_id k) = Some f ∧
    if_link_id f = "l" ∧ v_link_metadata example_verifier !! "l" = Some md ∧
    t - if_sent_at_relative f < lm_delay md + if_extra_delay f.
Proof.
  eapply (too_fast_reported hash_elements hash_elements_perm); example_hyps.
  reported_in_example.
Defined.

Lemma bandwidth_exceeded_reported_witness :
  ∃ pre t k post md, example_log = pre ++ mkStep t (PacketInTransit k) :: post ∧
    tr_node_id k = "A" ∧ tr_link_id k = "l" ∧ tr_packet_id k = 2 ∧
    v_link_metadata example_verifier !! "l" = Some md ∧ lm_bandwidth_bps md = 12000 ∧
    24000 = used_bandwidth md (rev pre) t k ∧ 12000 < 24000.
Proof.
  eapply (bandwidth_exceeded_reported hash_elements hash_elements_perm); example_hyps.
  reported_in_example.
Defined.

Lemma survived_clear_reported_witness :
  ∃ pre t k post b c, example_log = pre ++ mkStep t (PacketInTransit k) :: post ∧
    tr_node_id k = "A" ∧ tr_packet_id k = 1 ∧ is_Some (v_link_metadata example_verifier !! tr_link_id k) ∧
    buffered_at (rev pre) "A" 1 = Some b ∧ node_last_clear (rev pre) "A" = Some c ∧
    rp_arrived_at b < c.
Proof.
  eapply (survived_clear_reported hash_elements hash_elements_perm); example_hyps.
  reported_in_example.
Defined.

Lemma down_send_reported_witness :
  ∃ pre t k post, example_log = pre ++ mkStep t (PacketInTransit k) :: post ∧
    tr_node_id k = "A" ∧ tr_packet_id k = 3 ∧ is_Some (v_link_metadata example_verifier !! tr_link_id k) ∧
    node_status_at (rev pre) "A" = NodeDown.
Proof.
  eapply (down_send_reported hash_elements hash_elements_perm); example_hyps.
  reported_in_example.
Defined.

Lemma dropped_while_up_reported_witness :
  ∃ pre t k post f, example_log = pre ++ mkStep t (PacketInNode k) :: post ∧
    in_node_id k = "R" ∧ in_packet_id k = 3 ∧ in_flight_at (rev pre) 3 = Some f ∧
    is_Some (v_link_metadata example_verifier !! if_link_id f) ∧
    in_dropped_on_arrival k = true ∧ node_status_at (rev pre) "R" = NodeUp.
Proof.
  eapply (dropped_while_up_reported hash_elements hash_elements_perm); example_hyps.
  reported_in_example.
Defined.

Lemma created_by_router_reported_witness :
  ∃ pre t k post, example_log = pre ++ mkStep t (PacketInNode k) :: post ∧
    in_node_id k = "R" ∧ in_packet_id k = 7 ∧ in_flight_at (rev pre) 7 = None ∧
    "R" ∉ v_host_nodes example_verifier.
Proof.
  eapply (created_by_router_reported hash_elements hash_elements_perm); example_hyps.
  reported_in_example.
Defined.

Lemma missing_lost_reported_witness :
  ∃ pre t k post, example_log = pre ++ mkStep t (PacketLostInTransit k) :: post ∧
    lo_packet_id k = 9 ∧ in_flight_at (rev pre) 9 = None.
Proof.
  eapply (missing_lost_reported hash_elements hash_elements_perm); example_hyps.
  reported_in_example.
Defined.

Lemma buffer_overflow_reported_witness :
  ∃ h n b, h ∈ all_instants example_log ∧ n ∈ dom (v_nodes example_verifier) ∧
    buffer_size example_verifier n = Some b ∧ b < wrap64 (stored_bytes h n).
Proof.
  eapply (buffer_overflow_reported hash_elements hash_elements_perm); example_hyps.
  exists "A", 3000, 4500. reported_in_example.
Defined.

Lemma max_buffer_usage_exact_witness :
  ns_max_buffer_usage quiet_stats = 0 ∨
  ∃ h, h ∈ all_instants quiet_log ∧ ns_max_buffer_usage quiet_stats = wrap64 (stored_bytes h "A").
Proof.
  eapply (max_buffer_usage_exact hash_elements hash_elements_perm quiet_log quiet_log example_spec
    example_verifier quiet_report quiet_new quiet_typed (proj1 example_spec_bounded)
    quiet_verified "A" quiet_stats).
  - intros e. vm_compute. by intros ?%not_elem_of_nil.
  - vm_compute. reflexivity.
Defined.

Lemma verify_verdict_witness :
  (∃ r, verify example_log example_verifier = Ok r) ∧
  ∃ errors, verify faulty_log example_verifier =
    Err (mkInvalid (Some (PacketAlreadyReceived 1)) errors).
Proof.
  split.
  - pose proof (verify_verdict hash_elements example_log example_spec example_log
      example_verifier hash_elements_perm example_new example_spec_bounded example_bounded
      eq_refl) as H.
    assert (first_fault (dom (v_nodes example_verifier)) (dom (v_links example_verifier)) []
      example_log = None) as E by (vm_compute; reflexivity). by rewrite E in H.
  - pose proof (verify_verdict hash_elements faulty_log example_spec faulty_log
      example_verifier hash_elements_perm faulty_new example_spec_bounded faulty_bounded
      eq_refl) as H.
    assert (first_fault (dom (v_nodes example_verifier)) (dom (v_links example_verifier)) []
      faulty_log = Some (PacketAlreadyReceived 1)) as E by (vm_compute; reflexivity).
    by rewrite E in H.
Defined.

Lemma verifier_replays_in_time_order_witness :
  sorted_by_key step_time example_log ∧ example_log ≡ₚ shuffled_log ∧
  ∀ t, filter (λ s, step_time s = t) example_log = filter (λ s, step_time s = t) shuffled_log.
Proof.
  apply (verifier_replays_in_time_order hash_elements shuffled_log example_spec example_log
    example_verifier). vm_compute. reflexivity.
Defined.
