(* ===== verification/VerifierFindings.v ===== *)
(** * Where the verifier does not do what it means to

    Theorems about behaviour of the verifier that contradicts its intent, on
    small logs that exhibit it. *)

From S2P Require Import Prelude Ip Spec Event SimStep Replayed Verifier VerifierThms.
From S2P Require Import VerifierProps.

Definition reverse_elements (s : gset string) : list string := reverse (elements s).

(** The report for a log, under some iteration order of the hash maps. *)
Definition report (hash_order : gset string → list string) (log : list SimulationStep)
    : outcome InvalidSimulation VerifiedSimulation :=
  match verifier_new hash_order log example_spec with
  | Ok (steps, v) => verify steps v
  | Err _ => Err (mkInvalid None [])
  | Panic => Panic
  end.
Definition report_errors (r : outcome InvalidSimulation VerifiedSimulation) : list NonFatalError :=
  match r with Ok r => non_fatal_errors r | Err r => inv_non_fatal_errors r | Panic => [] end.
Definition report_max_usage (r : outcome InvalidSimulation VerifiedSimulation) (n : string)
    : option Z :=
  match r with Ok r => ns_max_buffer_usage <$> stats_by_node_ r !! n | _ => None end.

(** [A] stores 4500 bytes and [R] 3000, both more than their buffers hold. *)
Definition overflow_log : list SimulationStep :=
  [in_node_at 0 1 "A" false; in_node_at 0 2 "A" false; in_node_at 0 3 "A" false;
   sent_at 0 1 "A" "l"; sent_at 0 2 "A" "l"; in_node_at 5 1 "R" false; in_node_at 5 2 "R" false;
   in_node_at 5 4 "A" false; in_node_at 5 5 "A" false].

(** [A] stores too much at 0 ms, and nothing happens to it later. *)
Definition overflow_once_log : list SimulationStep :=
  [in_node_at 0 1 "A" false; in_node_at 0 2 "A" false; in_node_at 0 3 "A" false;
   node_at 1 "R" (Some NodeUp) false; node_at 2 "R" (Some NodeUp) false].

(** Host [A] is down and sends three packets, which it drops on arrival. *)
Definition down_host_log : list SimulationStep :=
  [node_at 0 "A" (Some NodeDown) false; in_node_at 1 1 "A" true; in_node_at 1 2 "A" true;
   in_node_at 1 3 "A" true].

(** Which buffer overflows are reported, and the maximum buffer usage of the other nodes,
    depend on the iteration order of a hash map: for the same log, in which two nodes exceed
    their buffers in the same instant, one order reports only the first node and loses the
    maximum of the second, and another order does the opposite. *)
Theorem overflow_report_depends_on_hash_order :
  (∀ s, hash_elements s ≡ₚ elements s) ∧ (∀ s, reverse_elements s ≡ₚ elements s) ∧
  filter (λ e, is_buffer_error e = true) (report_errors (report hash_elements overflow_log)) =
    [NodeExceedsBufferSize "A" 3000 4500] ∧
  filter (λ e, is_buffer_error e = true) (report_errors (report reverse_elements overflow_log)) =
    [NodeExceedsBufferSize "R" 1500 3000] ∧
  report_max_usage (report hash_elements overflow_log) "R" = Some 0 ∧
  report_max_usage (report reverse_elements overflow_log) "R" = Some 3000.
Proof.
  split_and!; [done|intros s; apply reverse_Permutation|vm_compute; reflexivity..].
Qed.

(** A buffer overflow is reported again at every later instant of the log, even if nothing
    happens to the node's buffer any more. *)
Theorem overflow_reported_at_every_instant :
  report_errors (report hash_elements overflow_once_log) =
    replicate 3 (NodeExceedsBufferSize "A" 3000 4500).
Proof. vm_compute. reflexivity. Qed.

(** Packets that a host drops because it is down count as received and stored: the verifier
    reports that the host received them while down, and that they exceed its buffer. *)
Theorem dropped_packets_fill_buffer :
  report_errors (report hash_elements down_host_log) =
    [NodeDownPacketReceive "A" 1; NodeDownPacketReceive "A" 2; NodeDownPacketReceive "A" 3;
     NodeExceedsBufferSize "A" 3000 4500].
Proof. vm_compute. reflexivity. Qed.
