(* ===== verification/VerifierNew.v ===== *)
(** * Which networks have a verifier

    [SimulationVerifier::new] refuses a network that [initialize] may accept: the
    addresses of its nodes are compared, and those of its links are looked up.
    This file says exactly when, and with which error. *)

From S2P Require Import Prelude Float Ip Spec SimStep Replayed Verifier.

(** An address that nodes with different ids use. *)
Definition addresses_unshared (ns : list NetworkNodeSpec) : Prop :=
  ∀ n1 n2 ip, n1 ∈ ns → n2 ∈ ns → ip ∈ node_addresses n1 → ip ∈ node_addresses n2 → node_id n1 = node_id n2.

Definition attached (ns : list NetworkNodeSpec) (ip : IpAddr) : Prop :=
  ∃ n, n ∈ ns ∧ ip ∈ node_addresses n.

(** The networks that have a verifier. *)
Definition verifiable (spec : NetworkSpec) : Prop :=
  addresses_unshared (nodes spec) ∧
  Forall (λ l, attached (nodes spec) (source l) ∧ attached (nodes spec) (target l)) (links spec).

Lemma new_addresses_cases id addrs (m : gmap IpAddr string) :
  match new_addresses id addrs m with
  | Ok m' => (∀ a e, a ∈ addrs → m !! as_ip_addr a = Some e → e = id) ∧
      ∀ ip, m' !! ip = if decide (ip ∈ as_ip_addr <$> addrs) then Some id else m !! ip
  | Err e => ∃ a existing, e = AddressMappedTwice a id existing ∧ a ∈ addrs ∧
      m !! as_ip_addr a = Some existing ∧ existing ≠ id
  | Panic => False
  end.
Proof.
  set (P := λ (pre : list Ipv4Cidr) (m' : gmap IpAddr string),
    (∀ a e, a ∈ pre → m !! as_ip_addr a = Some e → e = id) ∧
    ∀ ip, m' !! ip = if decide (ip ∈ as_ip_addr <$> pre) then Some id else m !! ip).
  unfold new_addresses. apply (foldM_cases P).
  - split; [by intros a e ?%not_elem_of_nil|]. intros ip. by rewrite decide_False by (apply not_elem_of_nil).
  - intros pre a post x -> [Hpre Hx].
    assert (∀ ip, <[as_ip_addr a := id]> x !! ip =
      if decide (ip ∈ as_ip_addr <$> (pre ++ [a])) then Some id else m !! ip) as Hins.
    { intros ip. rewrite fmap_app. destruct (decide (ip = as_ip_addr a)) as [->|Hne].
      - rewrite lookup_insert_eq, decide_True; [done|]. apply elem_of_app. right. by left.
      - rewrite lookup_insert_ne, Hx by done. repeat case_decide; try done; exfalso.
        + destruct H0. apply elem_of_app. by left.
        + apply elem_of_app in H0 as [?|?%list_elem_of_singleton]; done. }
    rewrite Hx. destruct (decide (as_ip_addr a ∈ as_ip_addr <$> pre)) as [Hin|Hnin].
    + rewrite decide_True by done. split; [|done]. intros b e [Hb| ->%list_elem_of_singleton]%elem_of_app Hm;
        [by eapply Hpre|]. apply list_elem_of_fmap in Hin as (c & Hc & Hin). rewrite Hc in Hm. by eapply Hpre.
    + destruct (m !! as_ip_addr a) as [existing|] eqn:Hm; [destruct (decide (existing = id)) as [->|Hne]|].
      * split; [|done]. intros b e [Hb| ->%list_elem_of_singleton]%elem_of_app Hb'; [by eapply Hpre|congruence].
      * exists a, existing. split_and!; try done. apply elem_of_app. right. by left.
      * split; [|done]. intros b e [Hb| ->%list_elem_of_singleton]%elem_of_app Hb'; [by eapply Hpre|congruence].
Qed.

Lemma node_ips n : as_ip_addr <$> (i ← interfaces n; Spec.addresses i) = node_addresses n.
Proof.
  unfold node_addresses. induction (interfaces n) as [|i l IH]; [done|].
  rewrite !bind_cons, fmap_app, IH. done.
Qed.

Lemma new_nodes_cases ns :
  match foldM new_node ns (mkNewNodes ∅ ∅ ∅ ∅) with
  | Ok acc => addresses_unshared ns ∧
      ∀ ip id, nn_ips acc !! ip = Some id ↔ ∃ n, n ∈ ns ∧ ip ∈ node_addresses n ∧ node_id n = id
  | Err e => ∃ a n1 n2, e = AddressMappedTwice a (node_id n1) (node_id n2) ∧ n1 ∈ ns ∧ n2 ∈ ns ∧
      as_ip_addr a ∈ node_addresses n1 ∧ as_ip_addr a ∈ node_addresses n2 ∧ node_id n1 ≠ node_id n2
  | Panic => False
  end.
Proof.
  apply (foldM_cases (λ pre acc, addresses_unshared pre ∧
    ∀ ip id, nn_ips acc !! ip = Some id ↔ ∃ n, n ∈ pre ∧ ip ∈ node_addresses n ∧ node_id n = id)).
  - split; [by intros n1 n2 ip ?%not_elem_of_nil|]. intros ip id. simpl. rewrite lookup_empty.
    split; [done|]. by intros (n & ?%not_elem_of_nil & _).
  - intros pre n post acc -> [Hun Hips]. unfold new_node.
    pose proof (new_addresses_cases (node_id n) (i ← interfaces n; Spec.addresses i) (nn_ips acc)) as Hc.
    pose proof (node_ips n) as Hadd.
    destruct (new_addresses _ _ _) as [m|e|]; simpl; [| |done].
    + destruct Hc as [Hold Hm]. rewrite Hadd in Hm.
      assert (∀ x ip, x ∈ pre → ip ∈ node_addresses x → ip ∈ node_addresses n → node_id x = node_id n) as Hnew.
      { intros x ip Hx Hipx Hip. assert (nn_ips acc !! ip = Some (node_id x)) as Hl by (apply Hips; eauto).
        rewrite <-Hadd in Hip. apply list_elem_of_fmap in Hip as (a & -> & Ha). by eapply Hold. }
      split.
      * intros n1 n2 ip [H1| ->%list_elem_of_singleton]%elem_of_app [H2| ->%list_elem_of_singleton]%elem_of_app Hi1 Hi2;
          [by eapply Hun|by eapply Hnew|symmetry; by eapply Hnew|done].
      * intros ip id. rewrite Hm. destruct (decide (ip ∈ node_addresses n)) as [Hip|Hip]; split.
        -- intros [= <-]. exists n. split; [apply elem_of_app; right; by left|done].
        -- intros (x & [Hx| ->%list_elem_of_singleton]%elem_of_app & Hipx & <-); [|done].
           f_equal. symmetry. by eapply Hnew.
        -- intros (x & Hx & ?)%Hips. exists x. split; [apply elem_of_app; by left|done].
        -- intros (x & [Hx| ->%list_elem_of_singleton]%elem_of_app & Hipx & <-); [apply Hips; eauto|done].
    + destruct Hc as (a & existing & -> & Ha & (x & Hx & Hipx & <-)%Hips & Hne). exists a, n, x.
      split_and!; try done; [apply elem_of_app; right; by left|apply elem_of_app; by left|].
      rewrite <-Hadd. apply list_elem_of_fmap. by exists a.
Qed.

Lemma new_links_cases ips ls :
  match foldM (new_link ips) ls (∅, ∅) with
  | Ok _ => Forall (λ l, is_Some (ips !! source l) ∧ is_Some (ips !! target l)) ls
  | Err e => ∃ l, l ∈ ls ∧ (e = NoSourceNode (Spec.link_id l) ∧ ips !! source l = None ∨
      e = NoTargetNode (Spec.link_id l) ∧ ips !! target l = None)
  | Panic => False
  end.
Proof.
  apply (foldM_cases (λ pre _, Forall (λ l, is_Some (ips !! source l) ∧ is_Some (ips !! target l)) pre)); [done|].
  intros pre l post acc -> Hpre. unfold new_link.
  assert (l ∈ pre ++ l :: post) as Hl by (apply elem_of_app; right; by left).
  destruct (ips !! source l) as [s|] eqn:Hs; simpl; [|by exists l; auto].
  destruct (ips !! target l) as [t|] eqn:Ht; simpl; [|by exists l; auto].
  apply Forall_app. split; [done|]. apply Forall_singleton. rewrite Hs, Ht. by split; eexists.
Qed.

(** The cases of [SimulationVerifier::new]. *)
Lemma verifier_new_cases hash_order log spec :
  match verifier_new hash_order log spec with
  | Ok _ => verifiable spec
  | Err (AddressMappedTwice a id existing) => ∃ n1 n2, n1 ∈ nodes spec ∧ n2 ∈ nodes spec ∧
      as_ip_addr a ∈ node_addresses n1 ∧ as_ip_addr a ∈ node_addresses n2 ∧
      node_id n1 = id ∧ node_id n2 = existing ∧ id ≠ existing
  | Err (NoSourceNode id) => ∃ l, l ∈ links spec ∧ Spec.link_id l = id ∧ ¬ attached (nodes spec) (source l)
  | Err (NoTargetNode id) => ∃ l, l ∈ links spec ∧ Spec.link_id l = id ∧ ¬ attached (nodes spec) (target l)
  | Panic => False
  end.
Proof.
  unfold verifier_new. pose proof (new_nodes_cases (nodes spec)) as Hn.
  destruct (foldM new_node _ _) as [acc|e|]; simpl; [| |done].
  2: { destruct Hn as (a & n1 & n2 & -> & ?). exists n1, n2. naive_solver. }
  destruct Hn as [Hun Hips].
  assert (∀ ip, is_Some (nn_ips acc !! ip) ↔ attached (nodes spec) ip) as Hatt.
  { intros ip. split; [intros [id (n & ? & ? & _)%Hips]; by exists n|].
    intros (n & ? & ?). exists (node_id n). apply Hips. eauto. }
  assert (∀ ip, nn_ips acc !! ip = None → ¬ attached (nodes spec) ip) as Hnone.
  { intros ip Hip [id Hid]%Hatt. congruence. }
  pose proof (new_links_cases (nn_ips acc) (links spec)) as Hl.
  destruct (foldM (new_link _) _ _) as [[rls mds]|e|]; simpl; [| |done].
  - split; [done|]. eapply Forall_impl; [exact Hl|]. intros l [Hs Ht]. by split; apply Hatt.
  - destruct Hl as (l & Hin & [[-> Hno]|[-> Hno]]); exists l; auto.
Qed.

Lemma verifier_new_iff hash_order log spec :
  (∃ steps v, verifier_new hash_order log spec = Ok (steps, v)) ↔ verifiable spec.
Proof.
  pose proof (verifier_new_cases hash_order log spec) as Hc.
  destruct (verifier_new _ _ _) as [[steps v]|e|]; [| |done].
  - split; [done|]. intros _. by exists steps, v.
  - split; [by intros (? & ? & ?)|]. intros [Hun Hatt]. exfalso.
    rewrite Forall_forall in Hatt. destruct e as [a id existing|id|id].
    + destruct Hc as (n1 & n2 & ? & ? & ? & ? & <- & <- & Hne). by apply Hne, (Hun _ _ (as_ip_addr a)).
    + destruct Hc as (l & Hl & _ & Hno). by apply Hno, Hatt.
    + destruct Hc as (l & Hl & _ & Hno). by apply Hno, Hatt.
Qed.

Lemma verifier_new_dec spec : verifiable spec ∨ ¬ verifiable spec.
Proof.
  rewrite <-(verifier_new_iff elements [] spec).
  destruct (verifier_new _ _ _) as [[steps v]|e|]; [left; by exists steps, v|right; by intros (? & ? & ?)..].
Qed.

(** C40: A verifier exists exactly for the networks in which no address is used by nodes with different
    ids and both ends of every link are addresses of nodes; the errors name what is wrong. *)
Theorem verifier_created hash_order log spec :
  ((∃ steps v, verifier_new hash_order log spec = Ok (steps, v)) ↔
    addresses_unshared (nodes spec) ∧
    Forall (λ l, attached (nodes spec) (source l) ∧ attached (nodes spec) (target l)) (links spec)) ∧
  match verifier_new hash_order log spec with
  | Ok _ => True
  | Err (AddressMappedTwice a id existing) => ∃ n1 n2, n1 ∈ nodes spec ∧ n2 ∈ nodes spec ∧
      as_ip_addr a ∈ node_addresses n1 ∧ as_ip_addr a ∈ node_addresses n2 ∧
      node_id n1 = id ∧ node_id n2 = existing ∧ id ≠ existing
  | Err (NoSourceNode id) => ∃ l, l ∈ links spec ∧ Spec.link_id l = id ∧ ¬ attached (nodes spec) (source l)
  | Err (NoTargetNode id) => ∃ l, l ∈ links spec ∧ Spec.link_id l = id ∧ ¬ attached (nodes spec) (target l)
  | Panic => False
  end.
Proof.
  split; [apply verifier_new_iff|]. pose proof (verifier_new_cases hash_order log spec) as Hc.
  by destruct (verifier_new _ _ _).
Qed.
