(* ===== verification/Heap.v ===== *)
(** * Binary heaps

    The interface of [std::collections::BinaryHeap] the workbench uses, with
    its laws, and an implementation that meets them.  [above x y] is [x >= y]
    in the order of the elements: the heap hands out a greatest element, and
    which of several greatest ones is unspecified. *)

From S2P Require Import Prelude.

Class BinaryHeap (A : Type) (above : A → A → Prop) (H : Type) : Type := {
  heap_new : H;
  heap_push : A → H → H;
  heap_peek : H → option A;
  heap_pop : H → option (A * H);
  heap_items : H → list A;
  heap_items_new : heap_items heap_new = [];
  heap_items_push : ∀ a h, heap_items (heap_push a h) ≡ₚ a :: heap_items h;
  heap_pop_items : ∀ a h h', heap_pop h = Some (a, h') → heap_items h ≡ₚ a :: heap_items h';
  heap_pop_greatest : ∀ a h h' b, heap_pop h = Some (a, h') → b ∈ heap_items h → above a b;
  heap_pop_empty : ∀ h, heap_pop h = None → heap_items h = [];
  heap_peek_pop : ∀ h, heap_peek h = fst <$> heap_pop h;
}.

Section heap.
Context {A : Type} {above : A → A → Prop} {H : Type} {HH : BinaryHeap A above H}.

Lemma heap_peek_in h a : heap_peek h = Some a → a ∈ heap_items h.
Proof.
  rewrite heap_peek_pop. intros ([x h'] & Hp & ->)%fmap_Some. simpl.
  rewrite (heap_pop_items _ _ _ Hp). left.
Qed.

Lemma heap_peek_greatest h a b : heap_peek h = Some a → b ∈ heap_items h → above a b.
Proof.
  rewrite heap_peek_pop. intros ([x h'] & Hp & ->)%fmap_Some. by eapply heap_pop_greatest.
Qed.

Lemma heap_peek_None h : heap_peek h = None → heap_items h = [].
Proof. rewrite heap_peek_pop. intros Hp%fmap_None. by apply heap_pop_empty. Qed.

Lemma heap_peek_Some h a : heap_peek h = Some a → ∃ h', heap_pop h = Some (a, h').
Proof. rewrite heap_peek_pop. intros ([x h'] & Hp & ->)%fmap_Some. by exists h'. Qed.
End heap.

(** ** An implementation: a list that is searched for a greatest element *)
Section list_heap.
Context {A : Type} (above : A → A → Prop) `{!∀ x y, Decision (above x y)}.
Context (Htrans : ∀ x y z, above x y → above y z → above x z).
Context (Htotal : ∀ x y, above x y ∨ above y x).

Fixpoint extract (l : list A) : option (A * list A) :=
  match l with
  | [] => None
  | a :: l' =>
      match extract l' with
      | None => Some (a, [])
      | Some (b, rest) => if decide (above a b) then Some (a, l') else Some (b, a :: rest)
      end
  end.

Lemma extract_None l : extract l = None → l = [].
Proof. destruct l as [|a l]; simpl; [done|]. repeat case_match; done. Qed.

Lemma extract_perm l a rest : extract l = Some (a, rest) → l ≡ₚ a :: rest.
Proof.
  revert a rest. induction l as [|x l IH]; intros a rest; simpl; [done|].
  destruct (extract l) as [[b r]|] eqn:E.
  - case_decide; intros [= <- <-]; [done|]. rewrite (IH b r eq_refl). constructor.
  - intros [= <- <-]. apply extract_None in E as ->. done.
Qed.

Lemma extract_greatest l a rest b : extract l = Some (a, rest) → b ∈ l → above a b.
Proof using Htrans Htotal.
  revert a rest b. induction l as [|x l IH]; intros a rest b; simpl; [done|].
  assert (∀ y, above y y) as Hrefl by (intros y; by destruct (Htotal y y)).
  destruct (extract l) as [[c r]|] eqn:E.
  - case_decide as Hd; intros [= <- <-] [->|Hb]%elem_of_cons; auto.
    + eapply Htrans; [done|]. by eapply IH.
    + by destruct (Htotal x c).
    + by eapply IH.
  - apply extract_None in E as ->. by intros [= <- <-] ->%list_elem_of_singleton.
Qed.

#[refine] Definition list_heap : BinaryHeap A above (list A) :=
  {| heap_new := []; heap_push := cons; heap_peek l := fst <$> extract l;
     heap_pop := extract; heap_items l := l |}.
Proof using Htrans Htotal H.
  - done.
  - done.
  - intros. by apply extract_perm.
  - intros. by eapply extract_greatest.
  - apply extract_None.
  - done.
Defined.
End list_heap.
