(* ===== verification/InboundQueue.v ===== *)
(** * The inbound queue

    Models [in-memory-network/src/network/inbound_queue.rs]: the queue that
    delivers packets when their arrival time comes, and the future that reads
    it. *)

From S2P Require Import Prelude Ip Transmit Heap.

Record PrioritizedInTransitData : Type := mkPrioritized {
  p_data : InTransitData;
  p_sent : Z;
  p_delay : Z;
}.

Definition arrival_time (p : PrioritizedInTransitData) : Z := p_sent p + p_delay p.

(** [self >= other] of the reversed [Ord]: earlier arrivals first, then lower
    packet numbers. *)
Definition above (p q : PrioritizedInTransitData) : Prop :=
  arrival_time p < arrival_time q ∨
  (arrival_time p = arrival_time q ∧ d_number (p_data p) ≤ d_number (p_data q)).

#[export] Instance above_dec p q : Decision (above p q).
Proof. unfold above. apply _. Defined.

Lemma above_trans p q r : above p q → above q r → above p r.
Proof. unfold above. lia. Qed.
Lemma above_total p q : above p q ∨ above q p.
Proof. unfold above. lia. Qed.
Lemma above_refl p : above p p.
Proof. unfold above. lia. Qed.
#[export] Hint Resolve above_refl : workbench.

Definition inbound_heap : BinaryHeap PrioritizedInTransitData above (list PrioritizedInTransitData) :=
  list_heap above above_trans above_total.

(** Wakers are identified by the task they wake. *)
Definition waker : Type := nat.

Section queue.
Context {H : Type} {HH : BinaryHeap PrioritizedInTransitData above H}.
(** Whether a timer with the given deadline is ready at the given instant. *)
Context (timer_elapsed : Z → Z → bool).

Record InboundQueue : Type := mkQueue {
  q_queue : H;
  q_notify_new_transmits : list waker;
}.

Definition InboundQueue_new : InboundQueue := mkQueue heap_new [].

(** [InboundQueue::send] at [now]; the second component is the tasks woken. *)
Definition queue_send (now : Z) (data : InTransitData) (delay : Z) (q : InboundQueue)
    : InboundQueue * list waker :=
  (mkQueue (heap_push (mkPrioritized data now delay) (q_queue q)) [],
   q_notify_new_transmits q).

Record DeliveredTransmit : Type := mkDelivered { dv_data : InTransitData; dv_sent : Z }.

Definition delivered_of (p : PrioritizedInTransitData) : DeliveredTransmit :=
  mkDelivered (p_data p) (p_sent p).

(** [NextPacketDelivery]: the state of the future; the queue is shared and is
    passed separately. *)
Record NextPacketDelivery : Type := mkDelivery {
  n_sleep : option Z;
  n_max_transmits : Z;
}.

Definition NextPacketDelivery_new (max_transmits : Z) : NextPacketDelivery :=
  mkDelivery None max_transmits.

(** How the loop of [poll] is left: through a [break], through the [ready!]
    of a timer that has not elapsed, or through a failed [unwrap]. *)
Inductive LoopExit : Type := Broke | NotReady | Panicked.

(** The loop of [poll].  An iteration leaves the loop, starts a timer or
    delivers a packet; [fuel] bounds the number of iterations. *)
Fixpoint poll_loop (fuel : nat) (now max_transmits : Z) (sleep : option Z) (queue : H)
    (delivered : list PrioritizedInTransitData)
    : option (LoopExit * option Z * H * list PrioritizedInTransitData) :=
  match fuel with
  | O => None
  | S fuel' =>
      let next_packet :=
        match heap_peek queue with
        | None => Some (Broke, None, queue, delivered)
        | Some next =>
            if now <? arrival_time next
            then poll_loop fuel' now max_transmits (Some (arrival_time next)) queue delivered
            else match heap_pop queue with
                 | Some (data, queue') =>
                     poll_loop fuel' now max_transmits None queue' (delivered ++ [data])
                 | None => Some (Panicked, None, queue, delivered)
                 end
        end in
      if max_transmits <=? Z.of_nat (length delivered)
      then Some (Broke, sleep, queue, delivered)
      else match sleep with
           | Some deadline =>
               if negb (bool_decide (delivered = []))
               then Some (Broke, sleep, queue, delivered)
               else if timer_elapsed deadline now then next_packet
               else Some (NotReady, sleep, queue, delivered)
           | None => next_packet
           end
  end.

Definition poll_fuel (queue : H) : nat := length (heap_items queue) + 3.

Inductive Poll : Type :=
  | Pending
  | Ready (delivered : list DeliveredTransmit)
  | PollPanic.

(** [NextPacketDelivery::poll] at [now], called by the task [w]. *)
Definition poll (now : Z) (w : waker) (f : NextPacketDelivery) (q : InboundQueue)
    : option (Poll * NextPacketDelivery * InboundQueue) :=
  match poll_loop (poll_fuel (q_queue q)) now (n_max_transmits f) (n_sleep f) (q_queue q) [] with
  | None => None
  | Some (exit, sleep, queue, delivered) =>
      let f' := mkDelivery sleep (n_max_transmits f) in
      match exit with
      | Panicked => Some (PollPanic, f', mkQueue queue (q_notify_new_transmits q))
      | NotReady => Some (Pending, f', mkQueue queue (q_notify_new_transmits q))
      | Broke =>
          match delivered with
          | [] => Some (Pending, f', mkQueue queue (q_notify_new_transmits q ++ [w]))
          | _ => Some (Ready (delivered_of <$> delivered), f',
                       mkQueue queue (q_notify_new_transmits q))
          end
      end
  end.

(** ** Correctness *)
Context (Helapsed : ∀ d n, timer_elapsed d n = true → d ≤ n).

(** What a delivery of [new] out of [items], leaving [rest], promises. *)
Record delivery (now max : Z) (items new rest : list PrioritizedInTransitData) : Prop :=
  mkDeliverySpec {
  del_perm : items ≡ₚ new ++ rest;
  del_due : ∀ p, p ∈ new → arrival_time p ≤ now;
  del_sorted : StronglySorted above new;
  del_first : ∀ p q, p ∈ new → q ∈ rest → above p q;
  del_bound : Z.of_nat (length new) ≤ max;
  del_complete : Z.of_nat (length new) < max → ∀ q, q ∈ rest → now < arrival_time q;
}.

Lemma delivery_cons now max items x items' new rest :
  items ≡ₚ x :: items' → arrival_time x ≤ now → (∀ q, q ∈ items → above x q) →
  delivery now max items' new rest → delivery now (max + 1) items (x :: new) rest.
Proof.
  intros Hp Hx Hfirst [D1 D2 D3 D4 D5 D6]. split.
  - by rewrite Hp, D1.
  - intros p [->|Hin]%elem_of_cons; auto.
  - constructor; [done|]. apply Forall_forall. intros q Hq. apply Hfirst.
    rewrite Hp, D1. rewrite elem_of_cons, elem_of_app. auto.
  - intros p q [->|Hin]%elem_of_cons Hq; [|by apply D4]. apply Hfirst.
    rewrite Hp, D1. rewrite elem_of_cons, elem_of_app. auto.
  - simpl. lia.
  - simpl. intros Hl. apply D6. lia.
Qed.

Lemma delivery_none now max items :
  0 ≤ max → (0 < max → ∀ q, q ∈ items → now < arrival_time q) → delivery now max items [] items.
Proof.
  intros Hmax Hr. split; try done; try by intros ? ?%not_elem_of_nil.
  - constructor.
  - intros p q ?%not_elem_of_nil. done.
Qed.

(** The loop, from an iteration without a timer. *)
Lemma poll_loop_spec fuel now max queue d0 :
  (length (heap_items queue) + 2 ≤ fuel)%nat → Z.of_nat (length d0) ≤ max →
  ∃ exit sleep queue' new,
    poll_loop fuel now max None queue d0 = Some (exit, sleep, queue', d0 ++ new) ∧
    delivery now (max - Z.of_nat (length d0)) (heap_items queue) new (heap_items queue') ∧
    (exit = Broke ∧ (sleep = None → d0 ++ new = [] → max = 0 ∨ heap_items queue' = []) ∨
     exit = NotReady ∧ d0 ++ new = [] ∧ is_Some sleep) ∧
    (∀ d, sleep = Some d → now < d ∧ (∀ q, q ∈ heap_items queue' → d ≤ arrival_time q) ∧
      ∃ q, q ∈ heap_items queue' ∧ arrival_time q = d).
Proof using Helapsed.
  revert queue d0. induction fuel as [|fuel IH]; intros queue d0 Hf Hd; [lia|]. simpl.
  destruct (Z.leb_spec max (Z.of_nat (length d0))).
  { exists Broke, None, queue, []. rewrite app_nil_r. split_and!; try done.
    - apply delivery_none; lia.
    - left. split; [done|]. intros _ ->. simpl in *. left. lia. }
  destruct (heap_peek queue) as [x|] eqn:Hpk.
  2: { apply heap_peek_None in Hpk. exists Broke, None, queue, []. rewrite app_nil_r.
       split_and!; try done; [|by left; auto].
       rewrite Hpk. apply delivery_none; [lia|]. by intros _ q ?%not_elem_of_nil. }
  destruct (Z.ltb_spec now (arrival_time x)) as [Hlate|Hdue].
  - destruct fuel as [|fuel]; [lia|]. simpl.
    destruct (Z.leb_spec max (Z.of_nat (length d0))); [lia|].
    assert (∀ q, q ∈ heap_items queue → arrival_time x ≤ arrival_time q) as Hall.
    { intros q Hq. pose proof (heap_peek_greatest _ _ _ Hpk Hq) as Ha. unfold above in Ha. lia. }
    assert (∀ d, Some (arrival_time x) = Some d → now < d ∧
      (∀ q, q ∈ heap_items queue → d ≤ arrival_time q) ∧
      ∃ q, q ∈ heap_items queue ∧ arrival_time q = d) as Hsleep.
    { intros d [= <-]. split_and!; try done. exists x. split; [|done]. by apply heap_peek_in. }
    assert (delivery now (max - Z.of_nat (length d0)) (heap_items queue) []
      (heap_items queue)).
    { apply delivery_none; [lia|]. intros _ q Hq. specialize (Hall q Hq). lia. }
    destruct (timer_elapsed (arrival_time x) now) eqn:He; [apply Helapsed in He; lia|].
    case_bool_decide as Hd0; simpl.
    + exists NotReady, (Some (arrival_time x)), queue, []. rewrite app_nil_r.
      split_and!; try done. right. split_and!; [done|done|by eexists].
    + exists Broke, (Some (arrival_time x)), queue, []. rewrite app_nil_r.
      split_and!; try done. by left.
  - destruct (heap_peek_Some _ _ Hpk) as (queue' & Hpop). rewrite Hpop.
    pose proof (heap_pop_items _ _ _ Hpop) as Hperm.
    destruct (IH queue' (d0 ++ [x])) as (exit & sleep & q2 & new & -> & Hdel & Hex & Hsl).
    { apply Permutation_length in Hperm. simpl in Hperm. lia. }
    { rewrite length_app. simpl. lia. }
    exists exit, sleep, q2, (x :: new). rewrite <-app_assoc in *. split_and!; try done.
    rewrite length_app in Hdel. simpl in Hdel.
    replace (max - Z.of_nat (length d0))
      with ((max - Z.of_nat (length d0 + 1)) + 1) by lia.
    eapply delivery_cons; [done|lia| |done].
    intros q Hq. by eapply heap_pop_greatest.
Qed.

(** What a poll takes out of the queue, whenever it is called: packets whose
    arrival time has come. *)
Lemma poll_loop_takes fuel now max sleep queue d0 exit sleep' queue' d :
  poll_loop fuel now max sleep queue d0 = Some (exit, sleep', queue', d) →
  ∃ new, d = d0 ++ new ∧ heap_items queue ≡ₚ new ++ heap_items queue' ∧
    (∀ p, p ∈ new → arrival_time p ≤ now) ∧ (exit = NotReady → d = []).
Proof.
  assert (∀ e s q q' x x', Some (e, s, q, x) = Some (exit, sleep', q', x') → (e = NotReady → x = []) →
    ∃ new, x' = x ++ new ∧ heap_items q ≡ₚ new ++ heap_items q' ∧
    (∀ p, p ∈ new → arrival_time p ≤ now) ∧ (exit = NotReady → x' = [])) as Hstop.
  { intros e s q q' x x' [= <- _ <- <-] He. exists []. rewrite app_nil_r. split_and!; try done.
    by intros p ?%not_elem_of_nil. }
  revert sleep queue d0. induction fuel as [|fuel IH]; intros sleep queue d0; [done|].
  cbn [poll_loop]. set (next := match heap_peek queue with Some _ => _ | None => _ end).
  assert (next = Some (exit, sleep', queue', d) → ∃ new, d = d0 ++ new ∧
    heap_items queue ≡ₚ new ++ heap_items queue' ∧ (∀ p, p ∈ new → arrival_time p ≤ now) ∧
    (exit = NotReady → d = [])) as Hnext.
  { unfold next. destruct (heap_peek queue) as [x|] eqn:Hpk; [|intros Hq; by eapply Hstop].
    destruct (Z.ltb_spec now (arrival_time x)); [apply IH|].
    destruct (heap_peek_Some _ _ Hpk) as (queue1 & Hpop). rewrite Hpop.
    intros (new & -> & Hp & Hdue & Hn)%IH. exists (x :: new). rewrite <-app_assoc in *.
    split_and!; [done|by rewrite (heap_pop_items _ _ _ Hpop), Hp| |done].
    intros p [->|Hin]%elem_of_cons; auto. }
  destruct (max <=? _); [intros Hq; by eapply Hstop|]. destruct sleep as [dl|]; [|exact Hnext].
  case_bool_decide as Hd; simpl; [|intros Hq; by eapply Hstop].
  destruct (timer_elapsed dl now); [exact Hnext|]. intros Hq. by eapply Hstop.
Qed.

Lemma poll_takes now w f q res f' q' :
  poll now w f q = Some (res, f', q') →
  ∃ new, heap_items (q_queue q) ≡ₚ new ++ heap_items (q_queue q') ∧
    (∀ p, p ∈ new → arrival_time p ≤ now) ∧
    (res = Ready (delivered_of <$> new) ∨ res = Pending ∧ new = [] ∨ res = PollPanic).
Proof.
  unfold poll. destruct (poll_loop _ _ _ _ _ _) as [[[[exit sleep] queue] d]|] eqn:Hl; [|done].
  apply poll_loop_takes in Hl as (new & -> & Hp & Hdue & Hn). simpl in *. intros Hres.
  destruct exit.
  - exists new. destruct new; injection Hres as <- <- <-; split_and!; auto.
  - assert (new = []) as -> by by apply Hn. injection Hres as <- <- <-. exists []. split_and!; auto.
  - injection Hres as <- <- <-. exists new. split_and!; auto.
Qed.

(** A timer that has not elapsed blocks the future before it looks at the
    queue. *)
Lemma poll_blocked now w f q d :
  n_sleep f = Some d → timer_elapsed d now = false → 0 < n_max_transmits f →
  poll now w f q = Some (Pending, f, q).
Proof.
  destruct f as [sl max], q as [queue ws]. simpl. intros -> He Hmax. unfold poll, poll_fuel.
  simpl. replace (length (heap_items queue) + 3)%nat with (S (length (heap_items queue) + 2)) by lia.
  cbn [poll_loop length]. destruct (Z.leb_spec max (Z.of_nat 0)); [lia|].
  rewrite bool_decide_eq_true_2 by done. simpl. by rewrite He.
Qed.

Definition unblocked (now : Z) (f : NextPacketDelivery) : Prop :=
  match n_sleep f with Some d => timer_elapsed d now = true | None => True end.

Lemma poll_unblocked now w f q :
  unblocked now f → 0 < n_max_transmits f →
  ∃ res f' q' new, poll now w f q = Some (res, f', q') ∧
    n_max_transmits f' = n_max_transmits f ∧
    delivery now (n_max_transmits f) (heap_items (q_queue q)) new (heap_items (q_queue q')) ∧
    (∀ d, n_sleep f' = Some d → now < d ∧
      (∀ p, p ∈ heap_items (q_queue q') → d ≤ arrival_time p) ∧
      ∃ p, p ∈ heap_items (q_queue q') ∧ arrival_time p = d) ∧
    (new = [] ∧ res = Pending ∧
       (is_Some (n_sleep f') ∨ w ∈ q_notify_new_transmits q' ∧ heap_items (q_queue q') = []) ∨
     new ≠ [] ∧ res = Ready (delivered_of <$> new)).
Proof using Helapsed.
  intros Hu Hmax. destruct f as [sl max], q as [queue ws]. simpl in *.
  assert (poll_loop (poll_fuel queue) now max sl queue [] =
    poll_loop (poll_fuel queue) now max None queue []) as Hloop.
  { unfold poll_fuel.
    replace (length (heap_items queue) + 3)%nat with (S (length (heap_items queue) + 2)) by lia.
    cbn [poll_loop]. destruct sl as [d|]; [|done]. unfold unblocked in Hu. simpl in Hu.
    rewrite bool_decide_eq_true_2 by done. destruct (Z.leb_spec max (Z.of_nat (length (@nil PrioritizedInTransitData))));
      [simpl in *; lia|]. simpl. by rewrite Hu. }
  destruct (poll_loop_spec (poll_fuel queue) now max queue []) as
    (exit & sleep & queue' & new & Heq & Hdel & Hexit & Hsleep); [unfold poll_fuel; lia|simpl; lia|].
  simpl in *. rewrite Z.sub_0_r in Hdel. unfold poll. simpl. rewrite Hloop, Heq.
  destruct Hexit as [[-> Hstop]|(-> & -> & Hsl)].
  - destruct new as [|x new].
    + do 4 eexists. split; [done|]. simpl. split_and!; try done. left. split_and!; try done.
      destruct sleep as [d|]; [by left; eexists|]. right.
      destruct Hstop as [?|?]; try done; [lia|]. split; [|done].
      rewrite elem_of_app, list_elem_of_singleton. by right.
    + do 4 eexists. split; [done|]. simpl. split_and!; try done. by right.
  - do 4 eexists. split; [done|]. simpl. split_and!; try done. left. split_and!; try done.
    by left.
Qed.

(** *** A reader and a writer of one queue

    The reader polls its future and starts a new one after each delivery, as
    [forward_packets_from_link_to_node] does. *)
Inductive queue_op : Type :=
  | OpSend (now : Z) (data : InTransitData) (delay : Z)
  | OpPoll (now : Z) (w : waker).

Definition op_time (o : queue_op) : Z :=
  match o with OpSend now _ _ => now | OpPoll now _ => now end.

Definition run_op (o : queue_op) (s : NextPacketDelivery * InboundQueue)
    : option (NextPacketDelivery * InboundQueue) :=
  let '(f, q) := s in
  match o with
  | OpSend now data delay => Some (f, fst (queue_send now data delay q))
  | OpPoll now w =>
      match poll now w f q with
      | Some (Ready _, _, q') => Some (NextPacketDelivery_new (n_max_transmits f), q')
      | Some (Pending, f', q') => Some (f', q')
      | _ => None
      end
  end.

Fixpoint run_ops (l : list queue_op) (s : NextPacketDelivery * InboundQueue)
    : option (NextPacketDelivery * InboundQueue) :=
  match l with [] => Some s | o :: l' => s' ← run_op o s; run_ops l' s' end.

(** Every packet is sent with the same delay. *)
Definition constant_delay (d : Z) (o : queue_op) : Prop :=
  match o with OpSend _ _ delay => delay = d | OpPoll _ _ => True end.

Record fifo_inv (d t : Z) (s : NextPacketDelivery * InboundQueue) : Prop := mkFifo {
  ff_max : 0 < n_max_transmits s.1;
  ff_items : ∀ p, p ∈ heap_items (q_queue s.2) → p_sent p ≤ t ∧ p_delay p = d;
  ff_sleep : ∀ x, n_sleep s.1 = Some x → x ≤ t + d ∧
    ∀ p, p ∈ heap_items (q_queue s.2) → x ≤ arrival_time p;
}.

Lemma fifo_inv_step d t o s s' :
  fifo_inv d t s → t ≤ op_time o → constant_delay d o → run_op o s = Some s' →
  fifo_inv d (op_time o) s'.
Proof using Helapsed.
  destruct s as [f q]. intros [Hmax Hit Hsl] Ht Hd Hrun. simpl in *.
  destruct o as [now data delay|now w]; simpl in *.
  - injection Hrun as <-. subst delay. split; simpl; try done.
    + intros p. rewrite heap_items_push. intros [->|Hin]%elem_of_cons; [done|].
      destruct (Hit p Hin). lia.
    + intros x Hx. destruct (Hsl x Hx) as [Hxt Hxp]. split; [lia|]. intros p.
      rewrite heap_items_push. intros [->|Hin]%elem_of_cons; [|by apply Hxp].
      unfold arrival_time. simpl. lia.
  - assert (unblocked now f ∨ ∃ x, n_sleep f = Some x ∧ timer_elapsed x now = false)
      as [Hu|(x & Hx & He)].
    { unfold unblocked. destruct (n_sleep f) as [x|]; [|by left].
      destruct (timer_elapsed x now) eqn:E; [by left|right; eauto]. }
    + destruct (poll_unblocked now w f q Hu Hmax)
        as (res & f' & q' & new & Hp & Hmx & Hdel & Hsl' & Hres).
      rewrite Hp in Hrun.
      assert (∀ p, p ∈ heap_items (q_queue q') → p_sent p ≤ now ∧ p_delay p = d) as Hit'.
      { intros p Hin. destruct (Hit p); [|lia]. rewrite (del_perm _ _ _ _ _ Hdel), elem_of_app.
        by right. }
      destruct Hres as [(-> & -> & _)|(_ & ->)]; injection Hrun as <-; split; simpl; try done.
      * by rewrite Hmx.
      * intros x Hx. destruct (Hsl' x Hx) as (_ & Hle & p & Hin & Harr). split; [|done].
        destruct (Hit' p Hin). unfold arrival_time in Harr. lia.
    + rewrite (poll_blocked now w f q x Hx He Hmax) in Hrun. injection Hrun as <-.
      split; simpl; try done.
      * intros p Hin. destruct (Hit p Hin). lia.
      * intros y Hy. destruct (Hsl y Hy). split; [lia|done].
Qed.

Lemma fifo_inv_run d t l s s' :
  fifo_inv d t s → sorted_by_key op_time l → (∀ o, o ∈ l → t ≤ op_time o) →
  Forall (constant_delay d) l → run_ops l s = Some s' →
  ∃ t', fifo_inv d t' s' ∧ (∀ n, t ≤ n → (∀ o, o ∈ l → op_time o ≤ n) → t' ≤ n).
Proof using Helapsed.
  revert t s. induction l as [|o l IH]; simpl; intros t s Hinv Hs Ht Hd Hrun.
  { injection Hrun as <-. by exists t; auto. }
  destruct (run_op o s) as [s1|] eqn:Ho; [|done]. simpl in Hrun.
  apply Forall_cons in Hd as [Hd1 Hd2].
  unfold sorted_by_key in Hs. apply StronglySorted_inv in Hs as [Hs1 Hs2].
  rewrite Forall_forall in Hs2.
  destruct (IH (op_time o) s1) as (t' & Hinv' & Hle); [|done|done|done|done|].
  { eapply fifo_inv_step; [done| |done|done]. apply Ht. left. }
  exists t'. split; [done|]. intros n Hn Hall. apply Hle; [apply Hall; left|].
  intros o' Ho'. apply Hall. by right.
Qed.

(** ** Properties *)

(** C9: A poll that is not blocked by a timer delivers, in arrival order (ties by packet
    number), only packets whose arrival time has come, as many of them as the limit allows, and
    keeps the others; when there is none it is pending, and then it is woken by a timer set to
    the earliest arrival or, if the queue is empty, by the next packet. *)
Theorem poll_delivers_due now w f q :
  unblocked now f → 0 < n_max_transmits f →
  ∃ res f' q' new, poll now w f q = Some (res, f', q') ∧
    delivery now (n_max_transmits f) (heap_items (q_queue q)) new (heap_items (q_queue q')) ∧
    (new = [] ∧ res = Pending ∧
       ((∃ d, n_sleep f' = Some d ∧ (∃ p, p ∈ heap_items (q_queue q') ∧ arrival_time p = d) ∧
          ∀ p, p ∈ heap_items (q_queue q') → d ≤ arrival_time p) ∨
        w ∈ q_notify_new_transmits q' ∧ heap_items (q_queue q') = []) ∨
     new ≠ [] ∧ res = Ready (delivered_of <$> new)).
Proof using Helapsed.
  intros Hu Hmax.
  destruct (poll_unblocked now w f q Hu Hmax) as
    (res & f' & q' & new & Hp & _ & Hdel & Hsl & [(-> & -> & Hwake)|(Hne & ->)]).
  - do 4 eexists. split_and!; [done|done|]. left. split_and!; [done|done|].
    destruct Hwake as [[d Hd]|?]; [left|by right].
    destruct (Hsl d Hd) as (_ & ? & ?). eauto.
  - do 4 eexists. split_and!; [done|done|]. by right.
Qed.

(** A poll always returns: nothing, or the packets it has taken out. *)
Lemma poll_total now w f q : 0 < n_max_transmits f →
  ∃ res f' q' new, poll now w f q = Some (res, f', q') ∧ n_max_transmits f' = n_max_transmits f ∧
    heap_items (q_queue q) ≡ₚ new ++ heap_items (q_queue q') ∧
    Z.of_nat (length new) ≤ n_max_transmits f ∧
    (res = Pending ∨ new ≠ [] ∧ res = Ready (delivered_of <$> new)).
Proof using Helapsed.
  intros Hmax.
  assert (unblocked now f ∨ ∃ x, n_sleep f = Some x ∧ timer_elapsed x now = false) as [Hu|(x & Hx & He)].
  { unfold unblocked. destruct (n_sleep f) as [x|]; [|by left].
    destruct (timer_elapsed x now) eqn:?; [by left|right; by exists x]. }
  - destruct (poll_unblocked now w f q Hu Hmax) as (res & f' & q' & new & Hp & Hm & Hdel & _ & Hres).
    exists res, f', q', new. split_and!; try done; [apply (del_perm _ _ _ _ _ Hdel)|apply (del_bound _ _ _ _ _ Hdel)|].
    destruct Hres as [(_ & -> & _)|[? ->]]; auto.
  - exists Pending, f, q, []. split_and!; try done; [by eapply poll_blocked|simpl; lia|by left].
Qed.

(** While its timer has not elapsed a poll does not look at the queue: a packet that has
    already arrived, because it was sent later with a shorter delay, is not delivered, and the
    queue will not wake the reader. *)
Theorem poll_sleeping_ignores_arrivals now w f q d p :
  n_sleep f = Some d → timer_elapsed d now = false → 0 < n_max_transmits f →
  p ∈ heap_items (q_queue q) → arrival_time p ≤ now →
  poll now w f q = Some (Pending, f, q).
Proof. intros. by eapply poll_blocked. Qed.

(** C21: If every packet is sent with the same delay and timers elapse at their deadline, no
    packet is late: whenever the reader polls, a pending result means that no packet is due. *)
Theorem constant_delay_never_late d max ops s now w f' q' :
  (∀ x n, x ≤ n → timer_elapsed x n = true) → 0 < max →
  sorted_by_key op_time ops → Forall (constant_delay d) ops →
  (∀ o, o ∈ ops → 0 ≤ op_time o ≤ now) → 0 ≤ now → 
  run_ops ops (NextPacketDelivery_new max, InboundQueue_new) = Some s →
  poll now w s.1 s.2 = Some (Pending, f', q') →
  ∀ p, p ∈ heap_items (q_queue q') → now < arrival_time p.
Proof using Helapsed.
  intros Hprecise Hmax Hs Hd Ht Hnow Hrun Hp p Hin.
  assert (fifo_inv d 0 (NextPacketDelivery_new max, InboundQueue_new)) as H0.
  { split; simpl; try done. rewrite heap_items_new. by intros ? ?%not_elem_of_nil. }
  destruct (fifo_inv_run d 0 ops _ s H0 Hs) as (t' & Hinv & Hle); [|done|done|].
  { intros o Ho. by apply Ht. }
  assert (t' ≤ now) by (apply Hle; [done|]; intros o Ho; by apply Ht).
  destruct s as [f q]. simpl in *. destruct Hinv as [Hm Hit Hsl]. simpl in *.
  assert (unblocked now f ∨ ∃ x, n_sleep f = Some x ∧ timer_elapsed x now = false)
    as [Hu|(x & Hx & He)].
  { unfold unblocked. destruct (n_sleep f) as [x|]; [|by left].
    destruct (timer_elapsed x now) eqn:E; [by left|right; eauto]. }
  - destruct (poll_unblocked now w f q Hu Hm)
      as (res & f2 & q2 & new & Hp' & _ & Hdel & _ & Hres).
    rewrite Hp' in Hp. injection Hp as -> -> ->.
    destruct Hres as [(-> & _ & _)|(_ & [=])].
    by apply (del_complete _ _ _ _ _ Hdel).
  - rewrite (poll_blocked now w f q x Hx He Hm) in Hp. injection Hp as <- <-.
    destruct (Hsl x Hx) as [_ Hlow]. specialize (Hlow p Hin).
    destruct (Z.le_gt_cases x now) as [Hle'|]; [|lia].
    by rewrite (Hprecise x now Hle') in He.
Qed.
End queue.

(** ** Witnesses: timers that elapse at their deadline, and a concrete heap *)
Definition exact_timer (deadline now : Z) : bool := deadline <=? now.

Lemma exact_timer_elapsed d n : exact_timer d n = true → d ≤ n.
Proof. apply Z.leb_le. Qed.

Definition data_number (n : Z) : InTransitData :=
  mkData n false (mkSocketAddr (V4 0) 8080) "A" (mkTransmit (mkSocketAddr (V4 1) 8080) None [] None) n.

#[local] Existing Instance inbound_heap.

(** Packet 0 is due at 100; packet 1 is sent later and is due at 30. *)
Definition late_queue : @InboundQueue (list PrioritizedInTransitData) :=
  fst (queue_send 20 (data_number 1) 10
    (fst (queue_send 0 (data_number 0) 100 InboundQueue_new))).

Lemma poll_delivers_due_witness :
  let f := NextPacketDelivery_new 10 in
  ∃ res f' q' new, poll exact_timer 50 7%nat f late_queue = Some (res, f', q') ∧
    delivery 50 10 (heap_items (q_queue late_queue)) new (heap_items (q_queue q')) ∧
    (new = [] ∧ res = Pending ∧
       ((∃ d, n_sleep f' = Some d ∧ (∃ p, p ∈ heap_items (q_queue q') ∧ arrival_time p = d) ∧
          ∀ p, p ∈ heap_items (q_queue q') → d ≤ arrival_time p) ∨
        7%nat ∈ q_notify_new_transmits q' ∧ heap_items (q_queue q') = []) ∨
     new ≠ [] ∧ res = Ready (delivered_of <$> new)).
Proof.
  apply (poll_delivers_due exact_timer exact_timer_elapsed 50 7%nat (NextPacketDelivery_new 10)
    late_queue); [done|reflexivity].
Defined.

Lemma poll_sleeping_ignores_arrivals_witness :
  poll exact_timer 50 7%nat (mkDelivery (Some 100) 10) late_queue =
  Some (Pending, mkDelivery (Some 100) 10, late_queue).
Proof.
  apply (poll_sleeping_ignores_arrivals exact_timer 50 7%nat (mkDelivery (Some 100) 10) late_queue 100
    (mkPrioritized (data_number 1) 20 10)); [done|done|reflexivity| |vm_compute; discriminate].
  vm_compute. left.
Defined.

Definition fifo_ops : list queue_op :=
  [OpSend 0 (data_number 0) 10; OpPoll 5 1%nat; OpSend 6 (data_number 1) 10].

Definition fifo_queue : @InboundQueue (list PrioritizedInTransitData) :=
  mkQueue [mkPrioritized (data_number 1) 6 10; mkPrioritized (data_number 0) 0 10] [].

Lemma constant_delay_never_late_witness :
  Forall (λ p, 8 < arrival_time p) (heap_items (q_queue fifo_queue)).
Proof.
  apply Forall_forall, (constant_delay_never_late exact_timer exact_timer_elapsed 10 5 fifo_ops
    (mkDelivery (Some 10) 5, fifo_queue) 8 1%nat (mkDelivery (Some 10) 5) fifo_queue).
  - intros x n. apply Z.leb_le.
  - reflexivity.
  - apply is_sorted_by_key_spec. reflexivity.
  - unfold fifo_ops. by rewrite !Forall_cons, Forall_nil.
  - unfold fifo_ops. intros o Ho. rewrite !elem_of_cons, elem_of_nil in Ho.
    destruct_or?; subst; simpl; try done; lia.
  - lia.
  - reflexivity.
  - reflexivity.
Defined.
