(* ===== verification/Node.v ===== *)
(** * Nodes

    Models [in-memory-network/src/network/node.rs] and [outbound_buffer.rs].
    A node that is down holds a one-shot channel that is fired when it comes
    back up; channels are numbered. *)

From S2P Require Import Prelude Float Ip Spec Event Transmit.

(** ** [OutboundBuffer] *)
Definition reserve (data_size available_capacity_bytes : Z) : bool * Z :=
  if available_capacity_bytes <? data_size then (false, available_capacity_bytes)
  else (true, wrap64 (available_capacity_bytes - data_size)).

Definition release (data_size available_capacity_bytes : Z) : Z :=
  wrap64 (available_capacity_bytes + data_size).

(** ** Status *)
Definition channel : Type := nat.

Inductive NodeStatus : Type :=
  | StatusUp
  | StatusDown (up : channel).

Definition notifier_for_node_up (s : NodeStatus) : option channel :=
  match s with StatusUp => None | StatusDown up => Some up end.

(** [update_status] of nodes, given the channel to create; the second component
    is the channel it fires. *)
Definition node_update_status (fresh : channel) (update : UpdateNodeStatus) (status : NodeStatus)
    : NodeStatus * option channel :=
  match status, update with
  | StatusDown _, NodeDown | StatusUp, NodeUp => (status, None)
  | StatusUp, NodeDown => (StatusDown fresh, None)
  | StatusDown up, NodeUp => (StatusUp, Some up)
  end.

(** ** [Node] *)
Record BufferedPacket : Type := mkBuffered {
  b_in_node_since : Z;
  b_data : InTransitData;
}.

(** [n_outbound] is the content of the channel [outbound_tx] writes to, and
    [n_outbound_open] says whether its receiver is still alive. *)
Record Node : Type := mkNode {
  n_addresses : list IpAddr;
  n_id : string;
  n_udp_endpoint : option SocketAddr;
  n_packet_loss_ratio : f64;
  n_packet_duplication_ratio : f64;
  n_status : NodeStatus;
  n_last_buffer_clear : option Z;
  n_available : Z;
  n_outbound : list BufferedPacket;
  n_outbound_open : bool;
}.

Definition set_n_status (v : NodeStatus) (n : Node) : Node :=
  mkNode (n_addresses n) (n_id n) (n_udp_endpoint n) (n_packet_loss_ratio n)
    (n_packet_duplication_ratio n) v (n_last_buffer_clear n) (n_available n) (n_outbound n)
    (n_outbound_open n).
Definition set_n_last_buffer_clear (v : option Z) (n : Node) : Node :=
  mkNode (n_addresses n) (n_id n) (n_udp_endpoint n) (n_packet_loss_ratio n)
    (n_packet_duplication_ratio n) (n_status n) v (n_available n) (n_outbound n)
    (n_outbound_open n).
Definition set_n_available (v : Z) (n : Node) : Node :=
  mkNode (n_addresses n) (n_id n) (n_udp_endpoint n) (n_packet_loss_ratio n)
    (n_packet_duplication_ratio n) (n_status n) (n_last_buffer_clear n) v (n_outbound n)
    (n_outbound_open n).
Definition set_n_outbound (v : list BufferedPacket) (n : Node) : Node :=
  mkNode (n_addresses n) (n_id n) (n_udp_endpoint n) (n_packet_loss_ratio n)
    (n_packet_duplication_ratio n) (n_status n) (n_last_buffer_clear n) (n_available n) v
    (n_outbound_open n).
Definition set_n_outbound_open (v : bool) (n : Node) : Node :=
  mkNode (n_addresses n) (n_id n) (n_udp_endpoint n) (n_packet_loss_ratio n)
    (n_packet_duplication_ratio n) (n_status n) (n_last_buffer_clear n) (n_available n)
    (n_outbound n) v.

Definition HOST_PORT : Z := 8080.

Inductive NodeError : Type :=
  | NotAHost (id : string)
  | HostWithoutInterfaces (id : string)
  | HostInterfaceWithoutAddress (id : string)
  | RouterWithoutAddresses (id : string).

(** [Node::host] *)
Definition host (node : NetworkNodeSpec) : outcome NodeError Node :=
  match kind node with
  | Router => Err (NotAHost (Spec.node_id node))
  | Host =>
      match interfaces node with
      | [] => Err (HostWithoutInterfaces (Spec.node_id node))
      | i0 :: _ =>
          match Spec.addresses i0 with
          | [] => Err (HostInterfaceWithoutAddress (Spec.node_id node))
          | _ =>
              let addresses := node_addresses node in
              quic_address ← unwrap (head addresses);
              Ok (mkNode addresses (Spec.node_id node) (Some (mkSocketAddr quic_address HOST_PORT))
                    (packet_loss_ratio node) (packet_duplication_ratio node) StatusUp None
                    (buffer_size_bytes node) [] true)
          end
      end
  end.

(** [Node::router] *)
Definition router (node : NetworkNodeSpec) : outcome NodeError Node :=
  match node_addresses node with
  | [] => Err (RouterWithoutAddresses (Spec.node_id node))
  | addresses =>
      Ok (mkNode addresses (Spec.node_id node) None
            (packet_loss_ratio node) (packet_duplication_ratio node) StatusUp None
            (buffer_size_bytes node) [] true)
  end.

Definition is_down (n : Node) : bool :=
  match n_status n with StatusDown _ => true | StatusUp => false end.

(** [Node::clear_buffer] at [now] *)
Definition clear_buffer (now : Z) (n : Node) : Node := set_n_last_buffer_clear (Some now) n.

(** [Node::enqueue_outbound]; [None] is the panic of the failed [unwrap], and
    the boolean says whether the packet was stored. *)
Definition enqueue_outbound (packet : BufferedPacket) (n : Node) : option (bool * Node) :=
  let '(ok, available) := reserve (d_size (b_data packet)) (n_available n) in
  if ok then
    if n_outbound_open n
    then Some (true, set_n_outbound (n_outbound n ++ [packet]) (set_n_available available n))
    else None
  else Some (false, n).

(** ** Lemmas *)
Lemma reserve_ok size avail ok avail' :
  0 ≤ size → 0 ≤ avail < 2 ^ 64 → reserve size avail = (ok, avail') →
  0 ≤ avail' ∧ avail' = if ok then avail - size else avail.
Proof.
  intros Hs Ha. unfold reserve. destruct (Z.ltb_spec avail size); intros [= <- <-]; [lia|].
  rewrite wrap64_small by (unfold in_u64; lia). lia.
Qed.

(** Reserving succeeds exactly when there is room. *)
Lemma reserve_spec size avail : fst (reserve size avail) = true ↔ size ≤ avail.
Proof. unfold reserve. destruct (Z.ltb_spec avail size); simpl; split; try done; lia. Qed.

Lemma release_reserve size avail :
  0 ≤ size → 0 ≤ avail < 2 ^ 64 → fst (reserve size avail) = true →
  release size (snd (reserve size avail)) = avail.
Proof.
  intros Hs Ha Hok. apply reserve_spec in Hok. unfold reserve.
  destruct (Z.ltb_spec avail size); [lia|]. simpl. unfold release.
  rewrite wrap64_add_l. replace (avail - size + size) with avail by lia.
  by apply wrap64_small.
Qed.

Lemma enqueue_outbound_ok packet n ok n' :
  0 ≤ n_available n < 2 ^ 64 → enqueue_outbound packet n = Some (ok, n') →
  n' = if ok then set_n_outbound (n_outbound n ++ [packet])
                    (set_n_available (n_available n - d_size (b_data packet)) n)
       else n.
Proof.
  intros Ha. unfold enqueue_outbound.
  destruct (reserve (d_size (b_data packet)) (n_available n)) as [o a] eqn:Hr.
  apply reserve_ok in Hr as [_ ->]; [|apply packet_size_range|done].
  destruct o; [destruct (n_outbound_open n)|]; by intros [= <- <-].
Qed.
