(* ===== verification/Link.v ===== *)
(** * Links

    Models [in-memory-network/src/network/link.rs]: the pacer, the status of a
    link, and [send].  The asynchronous [sleep_until_ready_to_send] is part of
    the link's task, in [Network]. *)

From S2P Require Import Prelude Float FloatBound Ip Spec Event Transmit SimStep Heap InboundQueue Node.

(** ** [PacketPacer] *)
Record PacketPacer : Type := mkPacer {
  pacer_bandwidth_bps : f64;
  last_send : option Z;
}.

Definition PacketPacer_new (bandwidth_bps : Z) : PacketPacer :=
  mkPacer (f64_of_Z bandwidth_bps) None.

Definition can_send (now : Z) (p : PacketPacer) : bool :=
  match last_send p with None => true | Some send_done => send_done <=? now end.

Definition duration_until_can_send (now : Z) (p : PacketPacer) : Z :=
  match last_send p with None => 0 | Some send_done => Z.max 0 (send_done - now) end.

(** How long the transmission of a packet takes, in milliseconds. *)
Definition send_duration_ms (packet_size_bytes : Z) (p : PacketPacer) : Z :=
  let packet_size_bits := saturating_mul64 packet_size_bytes 8 in
  f64_to_u64 (f64_ceil (f64_mul (f64_div (f64_of_Z packet_size_bits) (pacer_bandwidth_bps p))
                          (f64_of_Z 1000))).

Definition track_send (now packet_size_bytes : Z) (p : PacketPacer) : PacketPacer :=
  mkPacer (pacer_bandwidth_bps p) (Some (now + from_millis (send_duration_ms packet_size_bytes p))).

(** ** Status *)
Inductive LinkStatus : Type :=
  | LinkStatusUp
  | LinkStatusDown (up : channel).

Definition link_is_down (s : LinkStatus) : bool :=
  match s with LinkStatusUp => false | LinkStatusDown _ => true end.

Definition notifier_for_link_up (s : LinkStatus) : option channel :=
  match s with LinkStatusUp => None | LinkStatusDown up => Some up end.

Record PacketAnomalies : Type := mkAnomalies {
  congestion_experienced : bool;
  a_extra_delay : Z;
}.

(** Nodes, links and watch channels are referred to by number. *)
Definition node_ref : Type := nat.
Definition link_ref : Type := nat.
Definition watch_ref : Type := nat.

Record OutgoingPacket : Type := mkOutgoing {
  o_in_node_since : Z;
  o_src_node : node_ref;
  o_data : InTransitData;
  o_anomalies : PacketAnomalies;
  o_preferred_links : list link_ref;
  o_handled : watch_ref;
}.

Section link.
Context {H : Type} {HH : BinaryHeap PrioritizedInTransitData above H}.

(** [l_outgoing] is the content of the channel [outgoing_queue] writes to;
    [l_permit] says whether the permit of the semaphore is available. *)
Record NetworkLink : Type := mkLink {
  l_id : string;
  l_target : IpAddr;
  l_in_transit : @InboundQueue H;
  l_outgoing : list OutgoingPacket;
  l_pacer : PacketPacer;
  l_permit : bool;
  l_status : LinkStatus;
  l_last_down : option Z;
  l_delay : Z;
  l_bandwidth_bps : Z;
  l_congestion_event_ratio : f64;
  l_extra_delay : Z;
  l_extra_delay_ratio : f64;
}.
Definition set_l_in_transit (v : @InboundQueue H) (l : NetworkLink) : NetworkLink :=
  mkLink (l_id l) (l_target l) v (l_outgoing l) (l_pacer l) (l_permit l) (l_status l)
    (l_last_down l) (l_delay l) (l_bandwidth_bps l) (l_congestion_event_ratio l)
    (l_extra_delay l) (l_extra_delay_ratio l).
Definition set_l_outgoing (v : list OutgoingPacket) (l : NetworkLink) : NetworkLink :=
  mkLink (l_id l) (l_target l) (l_in_transit l) v (l_pacer l) (l_permit l) (l_status l)
    (l_last_down l) (l_delay l) (l_bandwidth_bps l) (l_congestion_event_ratio l)
    (l_extra_delay l) (l_extra_delay_ratio l).
Definition set_l_pacer (v : PacketPacer) (l : NetworkLink) : NetworkLink :=
  mkLink (l_id l) (l_target l) (l_in_transit l) (l_outgoing l) v (l_permit l) (l_status l)
    (l_last_down l) (l_delay l) (l_bandwidth_bps l) (l_congestion_event_ratio l)
    (l_extra_delay l) (l_extra_delay_ratio l).
Definition set_l_permit (v : bool) (l : NetworkLink) : NetworkLink :=
  mkLink (l_id l) (l_target l) (l_in_transit l) (l_outgoing l) (l_pacer l) v (l_status l)
    (l_last_down l) (l_delay l) (l_bandwidth_bps l) (l_congestion_event_ratio l)
    (l_extra_delay l) (l_extra_delay_ratio l).
Definition set_l_status (v : LinkStatus) (l : NetworkLink) : NetworkLink :=
  mkLink (l_id l) (l_target l) (l_in_transit l) (l_outgoing l) (l_pacer l) (l_permit l) v
    (l_last_down l) (l_delay l) (l_bandwidth_bps l) (l_congestion_event_ratio l)
    (l_extra_delay l) (l_extra_delay_ratio l).
Definition set_l_last_down (v : option Z) (l : NetworkLink) : NetworkLink :=
  mkLink (l_id l) (l_target l) (l_in_transit l) (l_outgoing l) (l_pacer l) (l_permit l)
    (l_status l) v (l_delay l) (l_bandwidth_bps l) (l_congestion_event_ratio l)
    (l_extra_delay l) (l_extra_delay_ratio l).

Definition NetworkLink_new (l : NetworkLinkSpec) : NetworkLink :=
  mkLink (Spec.link_id l) (target l) InboundQueue_new [] (PacketPacer_new (bandwidth_bps l))
    true LinkStatusUp None (delay l) (bandwidth_bps l) (congestion_event_ratio l)
    (extra_delay l) (extra_delay_ratio l).

Definition was_down_after (instant : Z) (l : NetworkLink) : bool :=
  match l_last_down l with Some down => instant <? down | None => false end.

(** [update_status] at [now], given the channel to create; the second component
    is the channel it fires. *)
Definition link_update_status (now : Z) (fresh : channel) (update : UpdateLinkStatus)
    (l : NetworkLink) : NetworkLink * option channel :=
  match l_status l, update with
  | LinkStatusDown _, LinkDown | LinkStatusUp, LinkUp => (l, None)
  | LinkStatusUp, LinkDown =>
      (set_l_last_down (Some now) (set_l_status (LinkStatusDown fresh) l), None)
  | LinkStatusDown up, LinkUp => (set_l_status LinkStatusUp l, Some up)
  end.

Definition has_bandwidth_available (now : Z) (l : NetworkLink) : bool :=
  let packets_are_waiting_for_bandwidth := negb (l_permit l) in
  if packets_are_waiting_for_bandwidth || link_is_down (l_status l) then false
  else can_send now (l_pacer l).

(** The ECN codepoints a transmit may carry when it supports ECN. *)
Definition supports_ecn (ecn : option Z) : bool :=
  match ecn with Some codepoint => (codepoint =? 2) || (codepoint =? 1) | None => false end.

Definition mark_congestion (data : InTransitData) : InTransitData :=
  mkData (d_id data) (d_duplicate data) (d_source_endpoint data) (d_source_id data)
    (set_ecn (Some 3) (d_transmit data)) (d_number data).

(** [NetworkLink::send] at [now]: the link, the source node, the recorded step
    and the tasks woken; [None] when an assertion fails or the delay
    overflows. *)
Definition link_send (now : Z) (src_node : Node) (data : InTransitData)
    (anomalies : PacketAnomalies) (l : NetworkLink)
    : option (NetworkLink * Node * SimulationStepKind * list waker) :=
  if negb (can_send now (l_pacer l)) then None
  else if link_is_down (l_status l) then None
  else if congestion_experienced anomalies && negb (supports_ecn (t_ecn (d_transmit data)))
  then None
  else
    let data := if congestion_experienced anomalies then mark_congestion data else data in
    let step := PacketInTransit (mkInTransit (d_id data) (n_id src_node) (l_id l)) in
    let pacer := track_send now (d_size data) (l_pacer l) in
    let src_node := set_n_available (release (d_size data) (n_available src_node)) src_node in
    match dur_add (E:=()) (l_delay l) (a_extra_delay anomalies) with
    | Ok delay =>
        let '(queue, woken) := queue_send now data delay (l_in_transit l) in
        Some (set_l_in_transit queue (set_l_pacer pacer l), src_node, step, woken)
    | _ => None
    end.
End link.

(** ** Lemmas *)
Lemma send_duration_ms_range size p : 0 ≤ send_duration_ms size p ≤ u64_max.
Proof. apply f64_to_u64_range. Qed.

(** The quotient and the product of the computation, within the rounding errors: [S] bits over a
    link of [B] bits per second take at most [c] milliseconds, and more than [c - 1]. *)
Lemma transmission_bounds S B : 0 < S < 2 ^ 53 → 0 < B < 2 ^ 53 →
  let c := f64_to_u64 (f64_ceil (f64_mul (f64_div (f64_of_Z S) (f64_of_Z B)) (f64_of_Z 1000))) in
  1000 * S * (2 ^ 52 - 1) ^ 2 ≤ c * B * 2 ^ 104 ∧ (c - 1) * B * 2 ^ 104 < 1000 * S * (2 ^ 52 + 1) ^ 2.
Proof.
  intros HS HB. cbv zeta.
  destruct (of_Z_exact S HS) as (p1 & e1 & -> & N1 & E1 & P1), (of_Z_exact B HB) as (p2 & e2 & -> & N2 & E2 & P2).
  destruct (of_Z_exact 1000 ltac:(lia)) as (p4 & e4 & -> & N4 & E4 & P4).
  destruct (div_bounds p1 e1 p2 e2 N1 N2 ltac:(lia)) as (p3 & e3 & -> & N3 & E3 & D3).
  destruct (mul_bounds p3 e3 p4 e4 N3 N4 ltac:(lia)) as (p5 & e5 & -> & N5 & M5).
  pose proof (scale_pos 0 ltac:(lia)) as H0. set (Q := Zpos p3 * scale e3) in *. set (V := Zpos p5 * scale e5) in *.
  assert (S * scale 0 * (2 ^ 52 - 1) ≤ Q * B * 2 ^ 52 ≤ S * scale 0 * (2 ^ 52 + 1)) as HQ.
  { assert (Zpos p1 * scale (e1 - e2) = S * scale 0 * 2 ^ (- e2)) as Hx.
    { replace (e1 - e2) with (e1 + - e2) by lia. rewrite scale_add by lia.
      rewrite Z.mul_assoc, (of_Z_scale S) by (done || lia). done. }
    rewrite Hx, P2 in D3. assert (0 < 2 ^ (- e2)) as Hk by (apply Z.pow_pos_nonneg; lia).
    split; apply (Z.mul_le_mono_pos_r _ _ (2 ^ (- e2))); lia. }
  assert (1000 * Q * (2 ^ 52 - 1) ≤ V * 2 ^ 52 ≤ 1000 * Q * (2 ^ 52 + 1)) as HV.
  { assert (Zpos p3 * Zpos p4 * scale (e3 + e4) = 1000 * Q) as Hx; [|by rewrite <-Hx].
    rewrite P4. unfold Q. assert (scale (e3 + e4) * 2 ^ (- e4) = scale e3) as <-; [|ring].
    rewrite <-scale_add by lia. f_equal. lia. }
  assert (V * B * 2 ^ 104 ≤ 1000 * S * scale 0 * (2 ^ 52 + 1) ^ 2) as Hhi by nia.
  assert (1000 * S * scale 0 * (2 ^ 52 - 1) ^ 2 ≤ V * B * 2 ^ 104) as Hlo by nia.
  destruct (ceil_bounds p5 e5 N5) as [Hc1 Hc2]; [fold V; unfold u64_max; nia|].
  fold V in Hc1, Hc2. set (c := f64_to_u64 _) in *.
  split; [apply (Z.mul_le_mono_pos_r _ _ (scale 0))|apply (Z.mul_lt_mono_pos_r (scale 0))]; nia.
Qed.

(** The duration of a transmission, to the millisecond: the link's bandwidth is enough for the packet,
    and would not be within one millisecond less. *)
Lemma send_duration_exact size bw : 0 ≤ size < 2 ^ 37 → 0 < bw < 2 ^ 53 →
  let c := send_duration_ms size (PacketPacer_new bw) in
  8000 * size ≤ c * bw ∧ (c - 1) * bw ≤ 8000 * size.
Proof.
  intros Hs Hb. cbv zeta. destruct (Z.eq_dec size 0) as [->|Hne].
  - assert (send_duration_ms 0 (PacketPacer_new bw) = 0) as ->; [|lia].
    unfold send_duration_ms, saturating_mul64. simpl.
    destruct (of_Z_exact bw Hb) as (p & e & -> & _). by vm_compute.
  - unfold send_duration_ms, saturating_mul64. rewrite Z.min_l by (unfold u64_max; lia).
    destruct (transmission_bounds (size * 8) bw) as [H1 H2]; [lia..|].
    set (c := f64_to_u64 _) in *. split; lia.
Qed.

Section link_lemmas.
Context {H : Type} {HH : BinaryHeap PrioritizedInTransitData above H}.

(** What a successful [send] requires and does. *)
Lemma link_send_inv now (n : Node) data an (l : @NetworkLink H) l' n' step woken :
  link_send now n data an l = Some (l', n', step, woken) →
  can_send now (l_pacer l) = true ∧ l_status l = LinkStatusUp ∧
  step = PacketInTransit (mkInTransit (d_id data) (n_id n) (l_id l)) ∧
  l_pacer l' = track_send now (d_size data) (l_pacer l) ∧
  n' = set_n_available (release (d_size data) (n_available n)) n ∧
  l_id l' = l_id l ∧ l_status l' = l_status l ∧ l_last_down l' = l_last_down l ∧
  l_outgoing l' = l_outgoing l ∧ l_permit l' = l_permit l ∧ l_target l' = l_target l ∧
  ∃ d, d = (if congestion_experienced an then mark_congestion data else data) ∧
    l_in_transit l' = fst (queue_send now d (l_delay l + a_extra_delay an) (l_in_transit l)).
Proof.
  unfold link_send. destruct (can_send now (l_pacer l)) eqn:Hc; [|done]. simpl.
  destruct (l_status l) eqn:Hs; [|done]. simpl.
  destruct (_ && negb _); [done|].
  set (d := if congestion_experienced an then mark_congestion data else data).
  assert (d_id d = d_id data ∧ d_size d = d_size data) as [-> ->]
    by (subst d; by destruct (congestion_experienced an)).
  unfold dur_add. destruct (_ <=? duration_max); [|done]. simpl.
  intros [= <- <- <- <-]. simpl. split_and!; try done. by exists d.
Qed.

(** A link that updates its status says so. *)
Lemma link_update_status_spec now fresh up (l : @NetworkLink H) l' fired :
  link_update_status now fresh up l = (l', fired) →
  link_is_down (l_status l') = match up with LinkDown => true | LinkUp => false end ∧
  l_id l' = l_id l ∧ l_outgoing l' = l_outgoing l ∧ l_pacer l' = l_pacer l ∧
  l_in_transit l' = l_in_transit l ∧ l_target l' = l_target l ∧ l_permit l' = l_permit l ∧
  l_delay l' = l_delay l.
Proof.
  unfold link_update_status. destruct (l_status l) eqn:Hs, up; intros [= <- <-]; simpl;
    rewrite ?Hs; by split_and!.
Qed.
End link_lemmas.

(** ** Properties *)

(** A link cannot mark a packet that does not announce support for ECN, and a packet that one
    link has marked announces it no longer: when a second link is to mark it too, the assertion in
    [send] fails. *)
Theorem marked_packet_cannot_be_marked {H} `{!BinaryHeap PrioritizedInTransitData above H}
    now (n : Node) data an (l : @NetworkLink H) :
  congestion_experienced an = true →
  link_send now n (mark_congestion data) an l = None ∧
  (t_ecn (d_transmit data) = None → link_send now n data an l = None).
Proof.
  intros Han. unfold link_send. rewrite Han.
  destruct (can_send now (l_pacer l)); [|done]. destruct (link_is_down (l_status l)); [done|].
  simpl. split; [done|]. by intros ->.
Qed.

(** ** Witnesses *)
#[local] Existing Instance inbound_heap.

Definition example_link : @NetworkLink (list PrioritizedInTransitData) :=
  NetworkLink_new (mkLinkSpec "l" (V4 1) (V4 2) (from_millis 5) 12000000 (f64_of_Z 0) 0 (f64_of_Z 0)).
Definition example_node : Node :=
  mkNode [V4 1] "A" None (f64_of_Z 0) (f64_of_Z 0) StatusUp None 0 [] true.

Lemma marked_packet_cannot_be_marked_witness :
  link_send 0 example_node (mark_congestion (data_number 0)) (mkAnomalies true 0) example_link = None.
Proof.
  refine (proj1 (marked_packet_cannot_be_marked 0 example_node (data_number 0)
    (mkAnomalies true 0) example_link _)). reflexivity.
Defined.
