(* ===== verification/Network.v ===== *)
(** * The in-memory network

    Models [in-memory-network/src/network/mod.rs] and the asynchronous part of
    [link.rs]: the shared state of the network and its background tasks.  Each
    task is a state machine; a definition [run_*] executes one task from one
    [await] to the next (for the tasks that loop, at most to the end of one
    iteration).  [Reach] lets any task run at any time and time advance between
    them. *)

From S2P Require Import Prelude Float Ip Spec Event Transmit SimStep Heap InboundQueue Node.
From S2P Require Import Link.

(** ** The state *)
Section state.
Context {H : Type} {HH : BinaryHeap PrioritizedInTransitData above H}.
(** The state of the random number generator. *)
Context {R : Type}.

(** Where the task of a link ([process_link_queue]) is suspended. *)
Inductive LinkPhase : Type :=
  | AwaitPacket
  | AwaitPermit (packet : OutgoingPacket)
  | AwaitBandwidth (packet : OutgoingPacket) (deadline : Z)
  | AwaitLinkUp (packet : OutgoingPacket) (up : channel)
  | AwaitNodeUp (packet : OutgoingPacket) (up : channel)
  | Yielded (packet : OutgoingPacket).

(** The maps fixed by [initialize]. *)
Record Topology : Type := mkTopology {
  nodes_by_addr : gmap IpAddr node_ref;
  nodes_by_id : gmap string node_ref;
  routes_by_addr : gmap IpAddr (list Route);
  links_by_addr : gmap (IpAddr * IpAddr) link_ref;
  links_by_id : gmap string link_ref;
}.

(** [w_handled] holds the watch channels that record whether a packet was
    handled; [w_fired] the one-shot channels that were fired; [w_next] is the
    next unused channel number.  [w_inbound] holds the inbound queues of the
    hosts, [w_forwarders] the futures of the links' forwarding tasks and
    [w_sockets] those of the hosts' sockets. *)
Record World : Type := mkWorld {
  w_now : Z;
  w_nodes : gmap node_ref Node;
  w_links : gmap link_ref (@NetworkLink H);
  w_inbound : gmap node_ref (@InboundQueue H);
  w_link_tasks : gmap link_ref LinkPhase;
  w_forwarders : gmap link_ref NextPacketDelivery;
  w_sockets : gmap node_ref NextPacketDelivery;
  w_handled : gmap watch_ref bool;
  w_fired : gset channel;
  w_next : nat;
  w_log : list SimulationStep;
  w_rng : R;
  w_next_transmit_number : Z;
  w_events : list NetworkEvent;
}.
Definition set_w_now (v : Z) (w : World) : World :=
  mkWorld v (w_nodes w) (w_links w) (w_inbound w) (w_link_tasks w) (w_forwarders w)
    (w_sockets w) (w_handled w) (w_fired w) (w_next w) (w_log w) (w_rng w)
    (w_next_transmit_number w) (w_events w).
Definition set_w_nodes (v : gmap node_ref Node) (w : World) : World :=
  mkWorld (w_now w) v (w_links w) (w_inbound w) (w_link_tasks w) (w_forwarders w) (w_sockets
    w) (w_handled w) (w_fired w) (w_next w) (w_log w) (w_rng w) (w_next_transmit_number w)
    (w_events w).
Definition set_w_links (v : gmap link_ref (@NetworkLink H)) (w : World) : World :=
  mkWorld (w_now w) (w_nodes w) v (w_inbound w) (w_link_tasks w) (w_forwarders w) (w_sockets
    w) (w_handled w) (w_fired w) (w_next w) (w_log w) (w_rng w) (w_next_transmit_number w)
    (w_events w).
Definition set_w_inbound (v : gmap node_ref (@InboundQueue H)) (w : World) : World :=
  mkWorld (w_now w) (w_nodes w) (w_links w) v (w_link_tasks w) (w_forwarders w) (w_sockets
    w) (w_handled w) (w_fired w) (w_next w) (w_log w) (w_rng w) (w_next_transmit_number w)
    (w_events w).
Definition set_w_link_tasks (v : gmap link_ref LinkPhase) (w : World) : World :=
  mkWorld (w_now w) (w_nodes w) (w_links w) (w_inbound w) v (w_forwarders w) (w_sockets w)
    (w_handled w) (w_fired w) (w_next w) (w_log w) (w_rng w) (w_next_transmit_number w)
    (w_events w).
Definition set_w_forwarders (v : gmap link_ref NextPacketDelivery) (w : World) : World :=
  mkWorld (w_now w) (w_nodes w) (w_links w) (w_inbound w) (w_link_tasks w) v (w_sockets w)
    (w_handled w) (w_fired w) (w_next w) (w_log w) (w_rng w) (w_next_transmit_number w)
    (w_events w).
Definition set_w_sockets (v : gmap node_ref NextPacketDelivery) (w : World) : World :=
  mkWorld (w_now w) (w_nodes w) (w_links w) (w_inbound w) (w_link_tasks w) (w_forwarders w)
    v (w_handled w) (w_fired w) (w_next w) (w_log w) (w_rng w) (w_next_transmit_number w)
    (w_events w).
Definition set_w_handled (v : gmap watch_ref bool) (w : World) : World :=
  mkWorld (w_now w) (w_nodes w) (w_links w) (w_inbound w) (w_link_tasks w) (w_forwarders w)
    (w_sockets w) v (w_fired w) (w_next w) (w_log w) (w_rng w) (w_next_transmit_number w)
    (w_events w).
Definition set_w_fired (v : gset channel) (w : World) : World :=
  mkWorld (w_now w) (w_nodes w) (w_links w) (w_inbound w) (w_link_tasks w) (w_forwarders w)
    (w_sockets w) (w_handled w) v (w_next w) (w_log w) (w_rng w) (w_next_transmit_number w)
    (w_events w).
Definition set_w_next (v : nat) (w : World) : World :=
  mkWorld (w_now w) (w_nodes w) (w_links w) (w_inbound w) (w_link_tasks w) (w_forwarders w)
    (w_sockets w) (w_handled w) (w_fired w) v (w_log w) (w_rng w) (w_next_transmit_number w)
    (w_events w).
Definition set_w_log (v : list SimulationStep) (w : World) : World :=
  mkWorld (w_now w) (w_nodes w) (w_links w) (w_inbound w) (w_link_tasks w) (w_forwarders w)
    (w_sockets w) (w_handled w) (w_fired w) (w_next w) v (w_rng w) (w_next_transmit_number
    w) (w_events w).
Definition set_w_rng (v : R) (w : World) : World :=
  mkWorld (w_now w) (w_nodes w) (w_links w) (w_inbound w) (w_link_tasks w) (w_forwarders w)
    (w_sockets w) (w_handled w) (w_fired w) (w_next w) (w_log w) v (w_next_transmit_number
    w) (w_events w).
Definition set_w_next_transmit_number (v : Z) (w : World) : World :=
  mkWorld (w_now w) (w_nodes w) (w_links w) (w_inbound w) (w_link_tasks w) (w_forwarders w)
    (w_sockets w) (w_handled w) (w_fired w) (w_next w) (w_log w) (w_rng w) v (w_events w).
Definition set_w_events (v : list NetworkEvent) (w : World) : World :=
  mkWorld (w_now w) (w_nodes w) (w_links w) (w_inbound w) (w_link_tasks w) (w_forwarders w)
    (w_sockets w) (w_handled w) (w_fired w) (w_next w) (w_log w) (w_rng w)
    (w_next_transmit_number w) v.
End state.
Arguments World : clear implicits.

(** ** Computations over the world

    [None] is a panic. *)
Definition NM (W A : Type) : Type := W → option (A * W).

#[export] Instance NM_ret {W} : MRet (NM W) := λ A a w, Some (a, w).
#[export] Instance NM_bind {W} : MBind (NM W) := λ A B f m w,
  match m w with Some (a, w') => f a w' | None => None end.

Definition npanic {W A} : NM W A := λ _, None.
Definition nget {W} : NM W W := λ w, Some (w, w).
Definition nmodify {W} (f : W → W) : NM W () := λ w, Some ((), f w).
(** [unwrap], indexing a map, and assertions *)
Definition nsome {W A} (o : option A) : NM W A := λ w, match o with Some a => Some (a, w) | None => None end.
Definition nassert {W} (b : bool) : NM W () := λ w, if b then Some ((), w) else None.

Fixpoint nforeach {W A} (f : A → NM W ()) (l : list A) : NM W () :=
  match l with [] => mret () | a :: l' => _ ← f a; nforeach f l' end.

(** ** The network *)
Section network.
Context {H : Type} {HH : BinaryHeap PrioritizedInTransitData above H}.
Context {R : Type} (rng_f64 : R → f64 * R) (rng_u128 : R → Z * R).
Context (timer_elapsed : Z → Z → bool).
Context (topo : Topology).

Abbreviation world := (World H R).
Abbreviation M := (NM world).

Definition record_step (kind : SimulationStepKind) : M () :=
  nmodify (λ w, set_w_log (record (mkStep (w_now w) kind) (w_log w)) w).

Definition draw_f64 : M f64 := λ w,
  let '(x, r) := rng_f64 (w_rng w) in Some (x, set_w_rng r w).
Definition new_packet_id : M Z := λ w,
  let '(x, r) := rng_u128 (w_rng w) in Some (wrap128 x, set_w_rng r w).

Definition fresh : M nat := λ w, Some (w_next w, set_w_next (S (w_next w)) w).

Definition get_node (n : node_ref) : M Node := w ← nget; nsome (w_nodes w !! n).
Definition put_node (n : node_ref) (nd : Node) : M () :=
  nmodify (λ w, set_w_nodes (<[n := nd]> (w_nodes w)) w).
Definition get_net_link (l : link_ref) : M (@NetworkLink H) :=
  w ← nget; nsome (w_links w !! l).
Definition put_net_link (l : link_ref) (lk : @NetworkLink H) : M () :=
  nmodify (λ w, set_w_links (<[l := lk]> (w_links w)) w).
Definition set_phase (l : link_ref) (p : LinkPhase) : M () :=
  nmodify (λ w, set_w_link_tasks (<[l := p]> (w_link_tasks w)) w).

(** A one-shot channel is fired. *)
Definition fire (c : option channel) : M () :=
  match c with
  | Some c => nmodify (λ w, set_w_fired ({[c]} ∪ w_fired w) w)
  | None => mret ()
  end.
Definition is_fired (c : channel) : M bool := w ← nget; mret (bool_decide (c ∈ w_fired w)).

(** [already_handled], and whether [changed] is ready on the receiver of a
    packet: the channel changes once, when the packet is handled. *)
Definition is_handled (p : OutgoingPacket) : M bool :=
  w ← nget; nsome (w_handled w !! o_handled p).
Definition set_handled (x : watch_ref) (b : bool) : M () :=
  nmodify (λ w, set_w_handled (<[x := b]> (w_handled w)) w).

Definition now : M Z := w ← nget; mret (w_now w).

(** [in_transit_data] *)
Definition in_transit_data (source : node_ref) (transmit : OwnedTransmit) : M InTransitData :=
  nd ← get_node source;
  id ← new_packet_id;
  endpoint ← nsome (n_udp_endpoint nd);
  w ← nget;
  _ ← nmodify (set_w_next_transmit_number (wrap64 (w_next_transmit_number w + 1)));
  mret (mkData id false endpoint (n_id nd) transmit (w_next_transmit_number w)).

Definition in_node_step (nd : Node) (data : InTransitData) (dropped_on_arrival : bool)
    : SimulationStepKind :=
  PacketInNode (mkInNode (d_id data) (d_number data) (d_size data) (n_id nd)
    dropped_on_arrival).
Definition dropped_step (nd : Node) (data : InTransitData) (reason : DropReason)
    : SimulationStepKind :=
  PacketDropped (mkDropped (d_id data) (n_id nd) reason).
Definition generic_event (nd : Node) (data : InTransitData) : GenericPacketEvent :=
  mkGeneric (d_id data) (d_number data) (d_size data) (n_id nd).

(** [track_injected_failures] *)
Definition track_injected_failures (nd : Node) (data : InTransitData) (duplicate : bool)
    (extra_delay : Z) (congestion_experienced : bool) : M () :=
  _ ← (if negb (extra_delay =? 0)
       then record_step (PacketExtraDelay (mkExtraDelay (d_id data) (n_id nd) extra_delay))
       else mret ());
  _ ← (if duplicate then record_step (PacketDuplicated (generic_event nd data)) else mret ());
  if congestion_experienced then record_step (PacketCongestionEvent (generic_event nd data))
  else mret ().

(** [Node::enqueue_outbound] *)
Definition enqueue (n : node_ref) (packet : BufferedPacket) : M () :=
  nd ← get_node n;
  '(stored, nd') ← nsome (enqueue_outbound packet nd);
  if stored : bool then put_node n nd'
  else record_step (dropped_step nd (b_data packet) BufferFull).

(** [forward] *)
Definition forward (n : node_ref) (data : InTransitData) : M () :=
  nd ← get_node n;
  if is_down nd then record_step (in_node_step nd data true)
  else
    _ ← record_step (in_node_step nd data false);
    if bool_decide (n_udp_endpoint nd = Some (t_destination (d_transmit data))) then
      w ← nget;
      queue ← nsome (w_inbound w !! n);
      nmodify (set_w_inbound (<[n := fst (queue_send (w_now w) data 0 queue)]> (w_inbound w)))
    else
      roll ← draw_f64;
      let randomly_dropped := f64_lt roll (n_packet_loss_ratio nd) in
      let duplicate :=
        negb randomly_dropped &&
        f64_lt roll (f64_add (n_packet_loss_ratio nd) (n_packet_duplication_ratio nd)) in
      if randomly_dropped then record_step (dropped_step nd data Random)
      else
        t ← now;
        let packet := mkBuffered t data in
        maybe_duplicate ←
          (if duplicate then
             id ← new_packet_id;
             mret (Some (mkBuffered t (mkData id true (d_source_endpoint data)
                           (d_source_id data) (d_transmit data) (d_number data))))
           else mret None);
        _ ← enqueue n packet;
        match maybe_duplicate with
        | Some duplicate =>
            _ ← track_injected_failures nd (b_data duplicate) true 0 false;
            enqueue n duplicate
        | None => mret ()
        end.

(** *** Routing *)

(** [walk_links]: [walk_fn] may stop the walk with a value; [None] is the
    panic of a node address without an entry in [routes_by_addr]. *)
Section walk.
Context {S T : Type} (walk_fn : link_ref → S → S * option T).

Fixpoint walk_list (ls : list link_ref) (s : S) : S * option T :=
  match ls with
  | [] => (s, None)
  | l :: ls' =>
      match walk_fn l s with
      | (s', Some v) => (s', Some v)
      | (s', None) => walk_list ls' s'
      end
  end.

Definition direct_links (addrs : list IpAddr) (dest : IpAddr) : list link_ref :=
  omap (λ a, links_by_addr topo !! (a, dest)) addrs.

Definition routed_links (addr : IpAddr) (routes : list Route) (dest : IpAddr)
    : list link_ref :=
  omap (λ next, links_by_addr topo !! (addr, next))
    (omap (λ r, next_hop_towards_destination r dest) routes).

Fixpoint walk_routes (addrs : list IpAddr) (dest : IpAddr) (s : S) : option (S * option T) :=
  match addrs with
  | [] => Some (s, None)
  | a :: addrs' =>
      match routes_by_addr topo !! a with
      | None => None
      | Some routes =>
          match walk_list (routed_links a routes dest) s with
          | (s', Some v) => Some (s', Some v)
          | (s', None) => walk_routes addrs' dest s'
          end
      end
  end.

Definition walk_links (addrs : list IpAddr) (dest : IpAddr) (s : S) : option (S * option T) :=
  match walk_list (direct_links addrs dest) s with
  | (s', Some v) => Some (s', Some v)
  | (s', None) => walk_routes addrs dest s'
  end.
End walk.

(** [has_route_to] *)
Definition has_route_to (addrs : list IpAddr) (dest : IpAddr) : option bool :=
  '(_, found) ← walk_links (λ _ s, (s, Some true)) addrs dest ();
  mret (default false found).

(** The links of [process_buffer_for_node], in order of preference. *)
Definition all_links (addrs : list IpAddr) (dest : IpAddr) : option (list link_ref) :=
  '(links, _) ← walk_links (T:=()) (λ l s, (s ++ [l], None)) addrs dest [];
  mret links.

(** [generate_packet_anomalies] *)
Definition generate_packet_anomalies (l : link_ref) : M PacketAnomalies :=
  lk ← get_net_link l;
  x ← draw_f64;
  let extra_delay := if f64_lt x (l_extra_delay_ratio lk) then l_extra_delay lk else 0 in
  y ← draw_f64;
  mret (mkAnomalies (f64_lt y (l_congestion_event_ratio lk)) extra_delay).

(** One iteration of [process_buffer_for_node]; nothing happens while there is
    no packet.  Without a route the task ends, which closes its channel. *)
Definition run_buffer (n : node_ref) : M () :=
  nd ← get_node n;
  match n_outbound nd with
  | [] => mret ()
  | packet :: rest =>
      let dest := sa_ip (t_destination (d_transmit (b_data packet))) in
      route ← nsome (has_route_to (n_addresses nd) dest);
      if negb route then put_node n (set_n_outbound_open false (set_n_outbound [] nd))
      else
        _ ← put_node n (set_n_outbound rest nd);
        x ← fresh;
        _ ← set_handled x false;
        links ← nsome (all_links (n_addresses nd) dest);
        nforeach (λ l,
          anomalies ← generate_packet_anomalies l;
          lk ← get_net_link l;
          put_net_link l (set_l_outgoing (l_outgoing lk ++
            [mkOutgoing (b_in_node_since packet) n (b_data packet) anomalies links x]) lk))
          links
  end.

(** *** The task of a link: [process_link_queue] and [sleep_until_ready_to_send] *)
Definition cleared_from_buffer (in_node_since : Z) (nd : Node) : bool :=
  match n_last_buffer_clear nd with Some t => in_node_since <? t | None => false end.

(** The end of the loop's body, when the link may send. *)
Definition finish_packet (l : link_ref) (p : OutgoingPacket) : M () :=
  handled ← is_handled p;
  _ ← (if handled : bool then mret ()
       else
         _ ← set_handled (o_handled p) true;
         nd ← get_node (o_src_node p);
         if cleared_from_buffer (o_in_node_since p) nd
         then record_step (dropped_step nd (o_data p) BufferCleared)
         else
           lk ← get_net_link l;
           t ← now;
           '(lk', nd', step, _) ← nsome (link_send t nd (o_data p) (o_anomalies p) lk);
           _ ← record_step step;
           _ ← put_net_link l lk';
           put_node (o_src_node p) nd');
  set_phase l AwaitPacket.

(** The loop that gives the preferred links a chance to send first. *)
Definition yield_loop (l : link_ref) (p : OutgoingPacket) : M () :=
  match o_preferred_links p with
  | [] => finish_packet l p
  | preferred_link :: rest =>
      let p := mkOutgoing (o_in_node_since p) (o_src_node p) (o_data p) (o_anomalies p) rest
                 (o_handled p) in
      if bool_decide (preferred_link = l) then finish_packet l p
      else
        handled ← is_handled p;
        if handled : bool then finish_packet l p else set_phase l (Yielded p)
  end.

Definition set_permit (l : link_ref) (b : bool) : M () :=
  lk ← get_net_link l; put_net_link l (set_l_permit b lk).

(** [sleep_until_ready_to_send] returns: the permit is dropped. *)
Definition sleep_done (l : link_ref) (p : OutgoingPacket) : M () :=
  _ ← set_permit l true; yield_loop l p.

(** The loop of [sleep_until_ready_to_send], from one of its two waits on. *)
Fixpoint sleep_loop (fuel : nat) (l : link_ref) (p : OutgoingPacket) : M () :=
  match fuel with
  | O => npanic
  | S fuel' =>
      lk ← get_net_link l;
      handled ← is_handled p;
      match notifier_for_link_up (l_status lk) with
      | Some c =>
          fired ← is_fired c;
          if handled : bool then sleep_done l p
          else if fired : bool then wait_for_node fuel' l p
          else set_phase l (AwaitLinkUp p c)
      | None => wait_for_node fuel' l p
      end
  end
with wait_for_node (fuel : nat) (l : link_ref) (p : OutgoingPacket) : M () :=
  match fuel with
  | O => npanic
  | S fuel' =>
      nd ← get_node (o_src_node p);
      handled ← is_handled p;
      match notifier_for_node_up (n_status nd) with
      | Some c =>
          fired ← is_fired c;
          if handled : bool then sleep_done l p
          else if fired : bool then recheck_link fuel' l p
          else set_phase l (AwaitNodeUp p c)
      | None => recheck_link fuel' l p
      end
  end
with recheck_link (fuel : nat) (l : link_ref) (p : OutgoingPacket) : M () :=
  match fuel with
  | O => npanic
  | S fuel' =>
      lk ← get_net_link l;
      if link_is_down (l_status lk) then sleep_loop fuel' l p else sleep_done l p
  end.

Definition sleep_fuel : nat := 5.

(** [sleep_until_ready_to_send], from the acquisition of its permit on. *)
Definition start_sleep (l : link_ref) (p : OutgoingPacket) : M () :=
  lk ← get_net_link l;
  t ← now;
  handled ← is_handled p;
  let deadline := t + duration_until_can_send t (l_pacer lk) in
  if handled : bool then sleep_done l p
  else if timer_elapsed deadline t then sleep_loop sleep_fuel l p
  else set_phase l (AwaitBandwidth p deadline).

Definition acquire_permit (l : link_ref) (p : OutgoingPacket) : M () :=
  lk ← get_net_link l;
  if l_permit lk then _ ← set_permit l false; start_sleep l p
  else set_phase l (AwaitPermit p).

Definition start_packet (l : link_ref) (p : OutgoingPacket) : M () :=
  lk ← get_net_link l;
  t ← now;
  if has_bandwidth_available t lk then yield_loop l p
  else
    (* the assertion at the start of [sleep_until_ready_to_send] *)
    _ ← nassert (negb (has_bandwidth_available t lk));
    acquire_permit l p.

(** The task of a link, from one suspension to the next. *)
Definition run_link (l : link_ref) : M () :=
  w ← nget;
  phase ← nsome (w_link_tasks w !! l);
  match phase with
  | AwaitPacket =>
      lk ← get_net_link l;
      match l_outgoing lk with
      | [] => mret ()
      | p :: rest => _ ← put_net_link l (set_l_outgoing rest lk); start_packet l p
      end
  | AwaitPermit p => acquire_permit l p
  | AwaitBandwidth p deadline =>
      handled ← is_handled p;
      if handled : bool then sleep_done l p
      else if timer_elapsed deadline (w_now w) then sleep_loop sleep_fuel l p
      else mret ()
  | AwaitLinkUp p c =>
      handled ← is_handled p;
      fired ← is_fired c;
      if handled : bool then sleep_done l p
      else if fired : bool then wait_for_node sleep_fuel l p
      else mret ()
  | AwaitNodeUp p c =>
      handled ← is_handled p;
      fired ← is_fired c;
      if handled : bool then sleep_done l p
      else if fired : bool then recheck_link sleep_fuel l p
      else mret ()
  | Yielded p => yield_loop l p
  end.

(** *** The forwarding task of a link: [forward_packets_from_link_to_node] *)
Definition deliver (l : link_ref) (transmit : DeliveredTransmit) : M () :=
  lk ← get_net_link l;
  if was_down_after (dv_sent transmit) lk
  then record_step (PacketLostInTransit (mkLost (d_id (dv_data transmit)) (l_id lk)))
  else
    n ← nsome (nodes_by_addr topo !! l_target lk);
    forward n (dv_data transmit).

Definition max_usize : Z := u64_max.

Definition run_forwarder (l : link_ref) : M () :=
  w ← nget;
  f ← nsome (w_forwarders w !! l);
  lk ← get_net_link l;
  '(res, f', queue) ← nsome (poll timer_elapsed (w_now w) l f (l_in_transit lk));
  _ ← put_net_link l (set_l_in_transit queue lk);
  match res with
  | Pending => nmodify (λ w, set_w_forwarders (<[l := f']> (w_forwarders w)) w)
  | Ready delivered =>
      _ ← nassert (negb (bool_decide (length delivered = 0%nat)));
      _ ← nforeach (deliver l) delivered;
      nmodify (λ w, set_w_forwarders (<[l := NextPacketDelivery_new max_usize]>
                                        (w_forwarders w)) w)
  | PollPanic => npanic
  end.

(** *** Network events *)
Definition process_node_event (event : NodeEventPayload) : M () :=
  match nodes_by_id topo !! ne_node_id event with
  | None => mret ()
  | Some n =>
      _ ← match ne_status event with
          | Some status =>
              nd ← get_node n;
              c ← fresh;
              let '(st, fired) := node_update_status c status (n_status nd) in
              _ ← put_node n (set_n_status st nd);
              fire fired
          | None => mret ()
          end;
      _ ← (if ne_clear_buffer event then
             nd ← get_node n;
             t ← now;
             put_node n (clear_buffer t nd)
           else mret ());
      record_step (NetworkEventStep (mkNetEvent None (Some event)))
  end.

(** Only the status of a link can be changed by an event; the other fields of
    the payload lead to warnings. *)
Definition process_link_event (event : LinkEventPayload) : M () :=
  match links_by_id topo !! le_link_id event with
  | None => mret ()
  | Some l =>
      _ ← match le_status event with
          | Some status =>
              lk ← get_net_link l;
              c ← fresh;
              t ← now;
              let '(lk', fired) := link_update_status t c status lk in
              _ ← put_net_link l lk';
              fire fired
          | None => mret ()
          end;
      record_step (NetworkEventStep (mkNetEvent (Some event) None))
  end.

Definition process_event (event : NetworkEventKind) : M () :=
  match event with
  | LinkEvent p => process_link_event p
  | NodeEvent p => process_node_event p
  end.

(** One iteration of the task that processes the events. *)
Definition run_events (start : Z) : M () :=
  w ← nget;
  match w_events w with
  | [] => mret ()
  | e :: rest =>
      if timer_elapsed (start + relative_time e) (w_now w) then
        _ ← nmodify (set_w_events rest);
        process_event (ev_kind e)
      else mret ()
  end.

(** *** The sockets of the hosts: [InMemoryUdpSocket] *)

(** [try_send]; the packet capture is left out *)
Definition try_send (n : node_ref) (transmit : OwnedTransmit) : M () :=
  _ ← nassert (bool_decide (t_segment_size transmit = None));
  data ← in_transit_data n transmit;
  forward n data.

(** [track_read_by_host] and the copy into a buffer of [size] bytes *)
Definition read_packet (n : node_ref) (delivered : DeliveredTransmit) (size : Z) : M () :=
  nd ← get_node n;
  _ ← record_step (PacketDeliveredToApplication (generic_event nd (dv_data delivered)));
  nassert (Z.of_nat (length (t_contents (d_transmit (dv_data delivered)))) <=? size).

(** [poll_recv] with [meta_len] metadata slots and buffers of the given sizes:
    the future is created by the first call and kept.  The result is the
    packets delivered, and [None] when the call is pending. *)
Definition poll_recv (n : node_ref) (meta_len : Z) (bufs : list Z)
    : M (option (list DeliveredTransmit)) :=
  _ ← nassert (meta_len <=? Z.of_nat (length bufs));
  w ← nget;
  let delivery := default (NextPacketDelivery_new meta_len) (w_sockets w !! n) in
  queue ← nsome (w_inbound w !! n);
  '(res, delivery', queue') ← nsome (poll timer_elapsed (w_now w) n delivery queue);
  _ ← nmodify (λ w, set_w_inbound (<[n := queue']> (w_inbound w))
                      (set_w_sockets (<[n := delivery']> (w_sockets w)) w));
  match res with
  | Pending => mret None
  | Ready delivered =>
      let out := zip delivered (take (Z.to_nat meta_len) bufs) in
      _ ← nforeach (λ '(d, size), read_packet n d size) out;
      mret (Some delivered)
  | PollPanic => npanic
  end.

(** ** Executions *)
Definition advance (t : Z) (w : world) : world := set_w_now t w.

(** One step of some task or host, or the passing of time. *)
Inductive NetStep (start : Z) : world → world → Prop :=
  | StepBuffer n w w' : run_buffer n w = Some ((), w') → NetStep start w w'
  | StepLink l w w' : run_link l w = Some ((), w') → NetStep start w w'
  | StepForwarder l w w' : run_forwarder l w = Some ((), w') → NetStep start w w'
  | StepEvents w w' : run_events start w = Some ((), w') → NetStep start w w'
  | StepSend n transmit w w' : try_send n transmit w = Some ((), w') → NetStep start w w'
  | StepRecv n meta_len bufs res w w' :
      poll_recv n meta_len bufs w = Some (res, w') → NetStep start w w'
  | StepTime t w : w_now w ≤ t → NetStep start w (advance t w).

Definition Reach (start : Z) : world → world → Prop := rtc (NetStep start).

(** A scripted execution. *)
Inductive Action : Type :=
  | RunBuffer (n : node_ref)
  | RunLink (l : link_ref)
  | RunForwarder (l : link_ref)
  | RunEvents
  | TrySend (n : node_ref) (transmit : OwnedTransmit)
  | PollRecv (n : node_ref) (meta_len : Z) (bufs : list Z)
  | Wait (duration : N).

Definition exec (start : Z) (a : Action) (w : world) : option world :=
  match a with
  | RunBuffer n => snd <$> run_buffer n w
  | RunLink l => snd <$> run_link l w
  | RunForwarder l => snd <$> run_forwarder l w
  | RunEvents => snd <$> run_events start w
  | TrySend n transmit => snd <$> try_send n transmit w
  | PollRecv n meta_len bufs => snd <$> poll_recv n meta_len bufs w
  | Wait duration => Some (advance (w_now w + Z.of_N duration) w)
  end.

Definition exec_all (start : Z) (l : list Action) (w : world) : option world :=
  foldl (λ o a, w ← o; exec start a w) (Some w) l.
End network.
