(* ===== verification/Tracer.v ===== *)
(** * The tracer

    Models [SimulationStepTracer] ([in-memory-network/src/tracing/tracer.rs]) as a
    component of its own: the log it records, as in [Network], and the warnings it
    prints unless they are muted, which [Network] leaves out.  A warning is kept with
    the time printed in front of it; [message] is its text. *)

From stdpp Require Import pretty.
From S2P Require Import Prelude Float Ip Spec Event Transmit SimStep Replayed Verifier Node Network.

Inductive Message : Type :=
  | PacketLost (source_id : string) (number : Z)
  | OutboundBufferFull (number : Z) (node_id : string)
  | SentDuplicate (node_id : string) (number : Z)
  | MarkedCongestion (node_id : string) (number : Z).

Record Warning : Type := mkWarning {
  wa_elapsed : Z;
  wa_message : Message;
}.

(** [tr_printed] is what was printed, in order. *)
Record SimulationStepTracer : Type := mkTracer {
  simulation_start : Z;
  recorded_steps : list SimulationStep;
  network_spec : NetworkSpec;
  already_warned_dropped_from_buffer : gset string;
  enable_warnings : bool;
  tr_printed : list Warning;
}.

(** The text of a warning. *)
Definition message (m : Message) : string :=
  match m with
  | PacketLost source_id number => source_id +:+ " packet lost (#" +:+ pretty number +:+ ")!"
  | OutboundBufferFull number node_id =>
      "packet #" +:+ pretty number +:+ " dropped by node `" +:+ node_id
        +:+ "` because its outbound buffer is full! (Note: further warnings for this link will be omitted to avoid cluttering the output)"
  | SentDuplicate node_id number => node_id +:+ " sent duplicate packet (#" +:+ pretty number +:+ ")!"
  | MarkedCongestion node_id number =>
      node_id +:+ " marked packet with CE ECN (#" +:+ pretty number +:+ ")!"
  end.

(** ** Operations; [now] is the instant of the call *)
Definition tracer_new (now : Z) (spec : NetworkSpec) : SimulationStepTracer :=
  mkTracer now [] spec ∅ true [].

Definition mute_warnings (t : SimulationStepTracer) : SimulationStepTracer :=
  mkTracer (simulation_start t) (recorded_steps t) (network_spec t)
    (already_warned_dropped_from_buffer t) false (tr_printed t).

(** [Instant::elapsed], which saturates. *)
Definition elapsed (now : Z) (t : SimulationStepTracer) : Z := Z.max 0 (now - simulation_start t).

Definition warn (now : Z) (m : Message) (t : SimulationStepTracer) : SimulationStepTracer :=
  if enable_warnings t then
    mkTracer (simulation_start t) (recorded_steps t) (network_spec t)
      (already_warned_dropped_from_buffer t) (enable_warnings t)
      (tr_printed t ++ [mkWarning (elapsed now t) m])
  else t.

Definition is_fresh (now : Z) (t : SimulationStepTracer) : bool := elapsed now t =? 0.

Definition stepper (t : SimulationStepTracer) : list SimulationStep := recorded_steps t.

Definition tracer_verifier (hash_order : gset string → list string) (t : SimulationStepTracer) :=
  verifier_new hash_order (stepper t) (network_spec t).

Definition record_kind (now : Z) (kind : SimulationStepKind) (t : SimulationStepTracer) : SimulationStepTracer :=
  mkTracer (simulation_start t) (record (mkStep (elapsed now t) kind) (recorded_steps t)) (network_spec t)
    (already_warned_dropped_from_buffer t) (enable_warnings t) (tr_printed t).

Definition track_link_event (now : Z) (event : LinkEventPayload) : SimulationStepTracer → SimulationStepTracer :=
  record_kind now (NetworkEventStep (mkNetEvent (Some event) None)).

Definition track_node_event (now : Z) (event : NodeEventPayload) : SimulationStepTracer → SimulationStepTracer :=
  record_kind now (NetworkEventStep (mkNetEvent None (Some event))).

Definition track_packet_in_node (now : Z) (node : Node) (packet : InTransitData)
    : SimulationStepTracer → SimulationStepTracer :=
  record_kind now (in_node_step node packet false).

Definition track_packet_in_transit (now : Z) (node : Node) (link_id : string) (packet : InTransitData)
    : SimulationStepTracer → SimulationStepTracer :=
  record_kind now (PacketInTransit (mkInTransit (d_id packet) (n_id node) link_id)).

Definition track_dropped_on_arrival (now : Z) (node : Node) (packet : InTransitData)
    : SimulationStepTracer → SimulationStepTracer :=
  record_kind now (in_node_step node packet true).

Definition track_dropped_by_buffer_clear_event (now : Z) (node : Node) (packet : InTransitData)
    : SimulationStepTracer → SimulationStepTracer :=
  record_kind now (dropped_step node packet BufferCleared).

Definition track_dropped_randomly (now : Z) (node : Node) (packet : InTransitData) (t : SimulationStepTracer)
    : SimulationStepTracer :=
  warn now (PacketLost (d_source_id packet) (d_number packet))
    (record_kind now (dropped_step node packet Random) t).

Definition set_warned (node_id : string) (t : SimulationStepTracer) : SimulationStepTracer :=
  mkTracer (simulation_start t) (recorded_steps t) (network_spec t)
    ({[node_id]} ∪ already_warned_dropped_from_buffer t) (enable_warnings t) (tr_printed t).

Definition track_dropped_because_buffer_full (now : Z) (node : Node) (packet : InTransitData)
    (t : SimulationStepTracer) : SimulationStepTracer :=
  let t := record_kind now (dropped_step node packet BufferFull) t in
  let first_dropped := negb (bool_decide (n_id node ∈ already_warned_dropped_from_buffer t)) in
  let t := set_warned (n_id node) t in
  if first_dropped then warn now (OutboundBufferFull (d_number packet) (n_id node)) t else t.

Definition track_lost_in_transit (now : Z) (link_id : string) (data : InTransitData)
    : SimulationStepTracer → SimulationStepTracer :=
  record_kind now (PacketLostInTransit (mkLost (d_id data) link_id)).

Definition track_failures (now : Z) (node : Node) (packet : InTransitData) (duplicate : bool)
    (extra_delay : Z) (congestion_experienced : bool) (t : SimulationStepTracer) : SimulationStepTracer :=
  let t := if negb (extra_delay =? 0)
           then record_kind now (PacketExtraDelay (mkExtraDelay (d_id packet) (n_id node) extra_delay)) t
           else t in
  let t := if duplicate
           then warn now (SentDuplicate (n_id node) (d_number packet))
                  (record_kind now (PacketDuplicated (generic_event node packet)) t)
           else t in
  if congestion_experienced
  then warn now (MarkedCongestion (n_id node) (d_number packet))
         (record_kind now (PacketCongestionEvent (generic_event node packet)) t)
  else t.

Definition track_read_by_host (now : Z) (host_id : string) (data : InTransitData)
    : SimulationStepTracer → SimulationStepTracer :=
  record_kind now (PacketDeliveredToApplication (mkGeneric (d_id data) (d_number data) (d_size data) host_id)).

(** What the network tells the tracer. *)
Inductive Track : Type :=
  | LinkChanged (e : LinkEventPayload)
  | NodeChanged (e : NodeEventPayload)
  | InNode (node : Node) (packet : InTransitData)
  | InTransit (node : Node) (link_id : string) (packet : InTransitData)
  | DroppedOnArrival (node : Node) (packet : InTransitData)
  | DroppedByClear (node : Node) (packet : InTransitData)
  | DroppedRandomly (node : Node) (packet : InTransitData)
  | DroppedBufferFull (node : Node) (packet : InTransitData)
  | LostInTransit (link_id : string) (packet : InTransitData)
  | InjectedFailures (node : Node) (packet : InTransitData) (duplicate : bool) (extra_delay : Z) (ce : bool)
  | ReadByHost (host_id : string) (packet : InTransitData).

Definition track (now : Z) (x : Track) (t : SimulationStepTracer) : SimulationStepTracer :=
  match x with
  | LinkChanged e => track_link_event now e t
  | NodeChanged e => track_node_event now e t
  | InNode node packet => track_packet_in_node now node packet t
  | InTransit node link_id packet => track_packet_in_transit now node link_id packet t
  | DroppedOnArrival node packet => track_dropped_on_arrival now node packet t
  | DroppedByClear node packet => track_dropped_by_buffer_clear_event now node packet t
  | DroppedRandomly node packet => track_dropped_randomly now node packet t
  | DroppedBufferFull node packet => track_dropped_because_buffer_full now node packet t
  | LostInTransit link_id packet => track_lost_in_transit now link_id packet t
  | InjectedFailures node packet duplicate extra_delay ce =>
      track_failures now node packet duplicate extra_delay ce t
  | ReadByHost host_id packet => track_read_by_host now host_id packet t
  end.

Definition track_all (l : list (Z * Track)) (t : SimulationStepTracer) : SimulationStepTracer :=
  foldl (λ t '(now, x), track now x t) t l.

(** ** Which steps of a log are warned of *)

(** The steps that are warned of; of the packets a node drops because its buffer is
    full, the first; [warned] are the nodes that had one before. *)
Fixpoint warned_steps (warned : gset string) (steps : list SimulationStep) : list SimulationStep :=
  match steps with
  | [] => []
  | s :: steps =>
      match step_kind s with
      | PacketDropped (mkDropped _ _ Random) | PacketDuplicated _ | PacketCongestionEvent _ =>
          s :: warned_steps warned steps
      | PacketDropped (mkDropped _ node_id BufferFull) =>
          if bool_decide (node_id ∈ warned) then warned_steps warned steps
          else s :: warned_steps ({[node_id]} ∪ warned) steps
      | _ => warned_steps warned steps
      end
  end.

(** The warning of a step. *)
Definition warns_of (s : SimulationStep) (w : Warning) : Prop :=
  wa_elapsed w = step_time s ∧
  match step_kind s, wa_message w with
  | PacketDropped (mkDropped _ _ Random), PacketLost _ _ => True
  | PacketDropped (mkDropped _ node_id BufferFull), OutboundBufferFull _ node_id' => node_id' = node_id
  | PacketDuplicated p, SentDuplicate node_id number => node_id = g_node_id p ∧ number = g_packet_number p
  | PacketCongestionEvent p, MarkedCongestion node_id number =>
      node_id = g_node_id p ∧ number = g_packet_number p
  | _, _ => False
  end.

(** The nodes that dropped a packet because their buffer was full. *)
Definition full_at (s : SimulationStep) : gset string :=
  match step_kind s with PacketDropped (mkDropped _ node_id BufferFull) => {[node_id]} | _ => ∅ end.

Definition full_nodes (steps : list SimulationStep) : gset string := ⋃ (full_at <$> steps).

(** ** The warnings follow the log *)
Lemma full_nodes_snoc steps s : full_nodes (steps ++ [s]) = full_nodes steps ∪ full_at s.
Proof. unfold full_nodes. rewrite fmap_app, union_list_app_L. simpl. set_solver. Qed.

Lemma warned_steps_app warned l k :
  warned_steps warned (l ++ k) = warned_steps warned l ++ warned_steps (warned ∪ full_nodes l) k.
Proof.
  revert warned. induction l as [|s l IH]; intros warned; simpl.
  { f_equal. unfold full_nodes. simpl. set_solver. }
  assert (full_nodes (s :: l) = full_at s ∪ full_nodes l) as -> by done.
  unfold full_at. destruct s as [time kind]. simpl.
  destruct kind as [p|[id node_id []]|p|p|p|p|p|p|e]; simpl; rewrite ?IH, ?union_empty_l_L; try done.
  assert (warned ∪ ({[node_id]} ∪ full_nodes l) = {[node_id]} ∪ warned ∪ full_nodes l) as -> by set_solver.
  case_bool_decide as Hin; simpl; [|done].
  assert ({[node_id]} ∪ warned = warned) as -> by set_solver. done.
Qed.

(** What holds of the tracer at any time. *)
Record tracer_ok (t : SimulationStepTracer) : Prop := mkTracerOk {
  ok_warned : already_warned_dropped_from_buffer t = full_nodes (recorded_steps t);
  ok_printed : if enable_warnings t
               then Forall2 warns_of (warned_steps ∅ (recorded_steps t)) (tr_printed t)
               else tr_printed t = [];
}.

(** A step that is not warned of. *)
Lemma record_ok now kind t :
  tracer_ok t → (∀ time, full_at (mkStep time kind) = ∅) →
  (∀ time warned, warned_steps warned [mkStep time kind] = []) → tracer_ok (record_kind now kind t).
Proof.
  intros [Hw Hp] Hfull Hquiet. split; simpl; unfold record.
  - rewrite full_nodes_snoc, Hfull, Hw. set_solver.
  - rewrite warned_steps_app, Hquiet, app_nil_r. done.
Qed.

(** A step with its warning. *)
Lemma record_warn_ok now kind m t :
  tracer_ok t → (∀ time, full_at (mkStep time kind) = ∅) →
  (∀ time warned, warned_steps warned [mkStep time kind] = [mkStep time kind]) →
  (∀ time, warns_of (mkStep time kind) (mkWarning time m)) → tracer_ok (warn now m (record_kind now kind t)).
Proof.
  intros [Hw Hp] Hfull Hloud Hm. unfold warn. simpl. destruct (enable_warnings t) eqn:He; split; simpl; unfold record;
    rewrite ?full_nodes_snoc, ?Hfull, ?Hw; try set_solver.
  - rewrite warned_steps_app, Hloud. apply Forall2_app; [done|]. by constructor.
  - by rewrite He.
Qed.

Lemma buffer_full_ok now node packet t :
  tracer_ok t → tracer_ok (track_dropped_because_buffer_full now node packet t).
Proof.
  intros [Hw Hp]. unfold track_dropped_because_buffer_full, warn. simpl.
  assert (warned_steps ∅ (recorded_steps t ++ [mkStep (elapsed now t) (dropped_step node packet BufferFull)]) =
    warned_steps ∅ (recorded_steps t) ++ if bool_decide (n_id node ∈ already_warned_dropped_from_buffer t) then []
      else [mkStep (elapsed now t) (dropped_step node packet BufferFull)]) as Hsteps
    by (rewrite warned_steps_app, union_empty_l_L, <- Hw; done).
  destruct (bool_decide _); simpl; destruct (enable_warnings t) eqn:He; split; simpl; unfold record;
    rewrite ?full_nodes_snoc, ?Hw, ?He; try (unfold full_at; simpl; set_solver); try done;
    rewrite Hsteps, ?app_nil_r; [done|].
  apply Forall2_app; [done|]. by repeat constructor.
Qed.

Lemma track_ok now x t : tracer_ok t → tracer_ok (track now x t).
Proof.
  intros Ht. destruct x as [e|e|nd p|nd l p|nd p|nd p|nd p|nd p|l p|nd p dup delay ce|h p];
    try (by apply record_ok); [by apply record_warn_ok|by apply buffer_full_ok|].
  simpl. unfold track_failures.
  assert (tracer_ok (if negb (delay =? 0)
    then record_kind now (PacketExtraDelay (mkExtraDelay (d_id p) (n_id nd) delay)) t else t)) as Ht'
    by (destruct (negb _); [by apply record_ok|done]).
  destruct dup, ce; repeat (done || apply record_warn_ok).
Qed.

Lemma track_all_ok l t : tracer_ok t → tracer_ok (track_all l t).
Proof. revert t. induction l as [|[now x] l IH]; simpl; auto using track_ok. Qed.

(** What a call records, muted or not. *)
Definition track_kinds (x : Track) : list SimulationStepKind :=
  match x with
  | LinkChanged e => [NetworkEventStep (mkNetEvent (Some e) None)]
  | NodeChanged e => [NetworkEventStep (mkNetEvent None (Some e))]
  | InNode node packet => [in_node_step node packet false]
  | InTransit node link_id packet => [PacketInTransit (mkInTransit (d_id packet) (n_id node) link_id)]
  | DroppedOnArrival node packet => [in_node_step node packet true]
  | DroppedByClear node packet => [dropped_step node packet BufferCleared]
  | DroppedRandomly node packet => [dropped_step node packet Random]
  | DroppedBufferFull node packet => [dropped_step node packet BufferFull]
  | LostInTransit link_id packet => [PacketLostInTransit (mkLost (d_id packet) link_id)]
  | InjectedFailures node packet duplicate extra_delay ce =>
      (if extra_delay =? 0 then [] else [PacketExtraDelay (mkExtraDelay (d_id packet) (n_id node) extra_delay)])
      ++ (if duplicate then [PacketDuplicated (generic_event node packet)] else [])
      ++ (if ce then [PacketCongestionEvent (generic_event node packet)] else [])
  | ReadByHost host_id packet =>
      [PacketDeliveredToApplication (mkGeneric (d_id packet) (d_number packet) (d_size packet) host_id)]
  end.

Lemma warn_fields now m t :
  recorded_steps (warn now m t) = recorded_steps t ∧ simulation_start (warn now m t) = simulation_start t ∧
  enable_warnings (warn now m t) = enable_warnings t.
Proof. unfold warn. by destruct (enable_warnings t) eqn:?. Qed.

Ltac forget_warning :=
  match goal with |- context [warn ?now ?m ?t] => destruct (warn_fields now m t) as (-> & -> & ->) end.

Lemma track_records now x t :
  recorded_steps (track now x t) = recorded_steps t ++ (mkStep (Z.max 0 (now - simulation_start t)) <$> track_kinds x) ∧
  simulation_start (track now x t) = simulation_start t ∧ enable_warnings (track now x t) = enable_warnings t.
Proof.
  destruct x as [e|e|nd p|nd l p|nd p|nd p|nd p|nd p|l p|nd p dup delay ce|h p]; try done; simpl.
  - unfold track_dropped_randomly. by forget_warning.
  - unfold track_dropped_because_buffer_full. destruct (negb _); [|done]. by forget_warning.
  - unfold track_failures, warn. destruct (delay =? 0), dup, ce, (enable_warnings t) eqn:He; simpl;
      rewrite ?He; simpl; rewrite ?He; simpl; unfold record, elapsed; simpl; rewrite <- ?app_assoc, ?app_nil_r; done.
Qed.

(** The steps of a sequence of calls, with the time since [start]. *)
Definition tracked_steps (start : Z) (l : list (Z * Track)) : list SimulationStep :=
  mjoin ((λ '(now, x), mkStep (Z.max 0 (now - start)) <$> track_kinds x) <$> l).

Lemma track_all_records l t :
  recorded_steps (track_all l t) = recorded_steps t ++ tracked_steps (simulation_start t) l ∧
  enable_warnings (track_all l t) = enable_warnings t.
Proof.
  revert t. induction l as [|[now x] l IH]; intros t; simpl; [by rewrite app_nil_r|].
  destruct (track_records now x t) as (Hr & Hs & He), (IH (track now x t)) as [IHr IHe].
  unfold track_all in *. rewrite IHr, IHe, Hr, Hs, He. split; [|done]. unfold tracked_steps. simpl. by rewrite app_assoc.
Qed.

(** The nodes whose full buffer was warned of, in order. *)
Definition full_warnings (l : list Warning) : list string :=
  omap (λ w, match wa_message w with OutboundBufferFull _ node_id => Some node_id | _ => None end) l.

Lemma minus_warned (n x : string) (full warned : gset string) :
  n ∈ ({[x]} ∪ full) ∖ warned ↔ if bool_decide (x ∈ warned) then n ∈ full ∖ warned
    else n = x ∨ n ∈ full ∖ ({[x]} ∪ warned).
Proof. case_bool_decide; [set_solver|]. destruct (decide (n = x)); set_solver. Qed.

Lemma full_warnings_once warned steps l :
  Forall2 warns_of (warned_steps warned steps) l →
  NoDup (full_warnings l) ∧ ∀ n, n ∈ full_warnings l ↔ n ∈ full_nodes steps ∖ warned.
Proof.
  revert warned l. induction steps as [|s steps IH]; intros warned l.
  { simpl. intros ->%Forall2_nil_inv_l. split; [constructor|]. intros n. unfold full_nodes. simpl. set_solver. }
  assert (full_nodes (s :: steps) = full_at s ∪ full_nodes steps) as -> by done.
  unfold full_at. destruct s as [time kind]. cbn [step_kind warned_steps].
  assert ((∀ w number n, warns_of (mkStep time kind) w → wa_message w ≠ OutboundBufferFull number n) →
    Forall2 warns_of (mkStep time kind :: warned_steps warned steps) l →
    NoDup (full_warnings l) ∧ ∀ n, n ∈ full_warnings l ↔ n ∈ full_nodes steps ∖ warned) as Hother.
  { intros Hm (w & l' & Hw & Hl & ->)%Forall2_cons_inv_l. simpl.
    destruct (wa_message w) eqn:Hw'; try by apply IH. by destruct (Hm w number node_id). }
  destruct kind as [p|[id node_id []]|p|p|p|p|p|p|e]; rewrite ?union_empty_l_L; try apply IH;
    try (apply Hother; intros w number n [_ Hw] Hm; simpl in Hw; by rewrite Hm in Hw).
  setoid_rewrite (minus_warned _ node_id). destruct (bool_decide (node_id ∈ warned)); [apply IH|].
  intros (w & l' & [_ Hw] & Hl & ->)%Forall2_cons_inv_l. simpl in *.
  destruct (wa_message w) as [|num n| |]; try done. subst n. destruct (IH _ _ Hl) as [Hd Hn]. split.
  - constructor; [|done]. rewrite Hn. set_solver.
  - intros n. by rewrite elem_of_cons, Hn.
Qed.

(** C31: The tracer records the same steps whether or not its warnings are muted, each with
    the time since it was created.  Muted it prints nothing; otherwise it prints one
    warning for each packet that is dropped randomly, duplicated or marked, in the
    order of the log and with the time of the step, and for each node that drops
    packets because its buffer is full exactly one, at the first of them. *)
Theorem tracer_warns start spec (muted : bool) (calls : list (Z * Track)) :
  let t := track_all calls (if muted then mute_warnings (tracer_new start spec) else tracer_new start spec) in
  recorded_steps t = tracked_steps start calls ∧
  (if muted then tr_printed t = [] else
   Forall2 warns_of (warned_steps ∅ (recorded_steps t)) (tr_printed t) ∧
   NoDup (full_warnings (tr_printed t)) ∧
   ∀ n, n ∈ full_warnings (tr_printed t) ↔ n ∈ full_nodes (recorded_steps t)).
Proof.
  set (t0 := if muted then _ else _). intros t.
  assert (tracer_ok t0) as Hok by (destruct muted; by repeat constructor).
  destruct (track_all_records calls t0) as [Hr He], (track_all_ok calls t0 Hok) as [Hw Hp].
  rewrite He in Hp. assert (enable_warnings t0 = negb muted) as Hm by (by destruct muted).
  fold t in Hr, Hw, Hp. split; [rewrite Hr; by destruct muted|]. rewrite Hm in Hp. destruct muted; [done|]. simpl in Hp.
  destruct (full_warnings_once _ _ _ Hp) as [Hd Hn]. split_and!; [done..|]. intros n. rewrite Hn. set_solver.
Qed.

(** A router with a full buffer and a loss: three packets, two warnings. *)
Example tracer_example :
  let node := mkNode [] "R" None f64_zero f64_zero StatusUp None 0 [] true in
  let packet id number := mkData id false (mkSocketAddr (V4 0) 0) "A" (mkTransmit (mkSocketAddr (V4 0) 0) None [] None) number in
  let t := track_all [(10, DroppedBufferFull node (packet 1 0)); (11, DroppedBufferFull node (packet 2 1));
                      (15, DroppedRandomly node (packet 3 2))] (tracer_new 10 (mkSpec [] [])) in
  ((λ w, (wa_elapsed w, message (wa_message w))) <$> tr_printed t) =
    [(0, message (OutboundBufferFull 0 "R")); (5, "A packet lost (#2)!")].
Proof. vm_compute. reflexivity. Qed.

(** ** The network records what the tracer records *)
Section network.
Context {H : Type} {R : Type}.
Abbreviation world := (World H R).

(** [track_injected_failures] of the network is the one of the tracer, without the
    warnings; the other calls record one step each. *)
Lemma network_tracks_failures nd data duplicate extra_delay ce (w : world) :
  track_injected_failures nd data duplicate extra_delay ce w =
  Some ((), set_w_log (w_log w ++
    (mkStep (w_now w) <$> track_kinds (InjectedFailures nd data duplicate extra_delay ce))) w).
Proof.
  unfold track_kinds, track_injected_failures, record_step, nmodify, mbind, NM_bind, mret, NM_ret. destruct w.
  destruct (extra_delay =? 0), duplicate, ce; unfold set_w_log; simpl; unfold record; simpl;
    rewrite ?app_nil_r, <- ?app_assoc; reflexivity.
Qed.
End network.
