(* ===== verification/NetworkInit.v ===== *)
(** * Building a network

    Models [InMemoryNetwork::initialize] of
    [in-memory-network/src/network/mod.rs]: the checks of the specification, the
    maps, and the initial events.  Nodes and links are numbered in the order in
    which they are created: hosts, then routers. *)

From S2P Require Import Prelude Float Ip Spec Event Transmit SimStep Heap InboundQueue Node.
From S2P Require Import Link Network.

Inductive InitError : Type :=
  | OldTracer
  | OldStart
  | NotEnoughHosts (found : nat)
  | InvalidNode (e : NodeError)
  | DuplicateHostAddress (addr : IpAddr)
  | DuplicateLinkAddresses (id existing : string)
  | DuplicateLinkId (id : string)
  | DuplicateNodeAddress (id existing : string) (addr : IpAddr).

Definition lift_node {A} (o : outcome NodeError A) : outcome InitError A :=
  match o with Ok a => Ok a | Err e => Err (InvalidNode e) | Panic => Panic end.

(** The routes of every interface address, cheapest first. *)
Definition init_routes (spec : list NetworkNodeSpec) : gmap IpAddr (list Route) :=
  foldl (λ m i,
    foldl (λ m addr, <[as_ip_addr addr := sort_by_key cost (Spec.routes i)]> m)
      m (Spec.addresses i))
    ∅ (n ← spec; interfaces n).

Definition is_host (n : NetworkNodeSpec) : bool :=
  match kind n with Host => true | Router => false end.

Section init.
Context {H : Type} {HH : BinaryHeap PrioritizedInTransitData above H}.
Context {R : Type}.

Record Builder : Type := mkBuilder {
  bd_by_addr : gmap IpAddr node_ref;
  bd_by_id : gmap string node_ref;
  bd_nodes : gmap node_ref Node;
  bd_next : node_ref;
}.

Definition builder_init : Builder := mkBuilder ∅ ∅ ∅ 0%nat.

Definition add_host (b : Builder) (spec : NetworkNodeSpec) : outcome InitError Builder :=
  h ← lift_node (host spec);
  endpoint ← unwrap (n_udp_endpoint h);
  let r := bd_next b in
  match bd_by_addr b !! sa_ip endpoint with
  | Some _ => Err (DuplicateHostAddress (sa_ip endpoint))
  | None => Ok (mkBuilder (<[sa_ip endpoint := r]> (bd_by_addr b)) (<[n_id h := r]> (bd_by_id b))
                  (<[r := h]> (bd_nodes b)) (S r))
  end.

(** The loop over a router's addresses. *)
Definition add_router_address (id : string) (r : node_ref) (nodes : gmap node_ref Node)
    (by_addr : gmap IpAddr node_ref) (addr : IpAddr)
    : outcome InitError (gmap IpAddr node_ref) :=
  match by_addr !! addr with
  | Some other =>
      Err (DuplicateNodeAddress id (default EmptyString (n_id <$> nodes !! other)) addr)
  | None => Ok (<[addr := r]> by_addr)
  end.

Definition add_router (b : Builder) (spec : NetworkNodeSpec) : outcome InitError Builder :=
  n ← lift_node (router spec);
  let r := bd_next b in
  let nodes := <[r := n]> (bd_nodes b) in
  by_addr ← foldM (add_router_address (n_id n) r nodes) (n_addresses n) (bd_by_addr b);
  Ok (mkBuilder by_addr (<[n_id n := r]> (bd_by_id b)) nodes (S r)).

Record Links : Type := mkLinks {
  lb_by_addr : gmap (IpAddr * IpAddr) link_ref;
  lb_by_id : gmap string link_ref;
  lb_links : gmap link_ref (@NetworkLink H);
  lb_next : link_ref;
}.

Definition add_link (b : Links) (l : NetworkLinkSpec) : outcome InitError Links :=
  let r := lb_next b in
  match lb_by_addr b !! (source l, target l) with
  | Some other =>
      Err (DuplicateLinkAddresses (Spec.link_id l)
             (default EmptyString (l_id <$> lb_links b !! other)))
  | None =>
      match lb_by_id b !! Spec.link_id l with
      | Some _ => Err (DuplicateLinkId (Spec.link_id l))
      | None =>
          Ok (mkLinks (<[(source l, target l) := r]> (lb_by_addr b))
                (<[Spec.link_id l := r]> (lb_by_id b))
                (<[r := NetworkLink_new l]> (lb_links b)) (S r))
      end
  end.

(** The inbound queues of the nodes that have an endpoint. *)
Definition inbound_queues (nodes : gmap node_ref Node) : gmap node_ref (@InboundQueue H) :=
  omap (λ n, match n_udp_endpoint n with Some _ => Some InboundQueue_new | None => None end)
    nodes.

(** At instant [now]; instants count from the creation of the tracer. *)
Definition initialize (now : Z) (spec : NetworkSpec) (events : NetworkEvents) (rng : R)
    (start : Z) (disable_time_warping : bool)
    : outcome InitError (Topology * World H R) :=
  _ ← (if disable_time_warping then Ok ()
       else if negb (now =? 0) then Err OldTracer
       else if negb (Z.max 0 (now - start) =? 0) then Err OldStart else Ok ());
  let routes := init_routes (nodes spec) in
  let hosts := filter (λ n, is_host n = true) (nodes spec) in
  let routers := filter (λ n, is_host n = false) (nodes spec) in
  _ ← (if (length hosts <? 2)%nat then Err (NotEnoughHosts (length hosts)) else Ok ());
  b ← foldM add_host hosts builder_init;
  ls ← foldM add_link (links spec) (mkLinks ∅ ∅ ∅ 0%nat);
  b ← foldM add_router routers b;
  let topo := mkTopology (bd_by_addr b) (bd_by_id b) routes (lb_by_addr ls) (lb_by_id ls) in
  let w := mkWorld now (bd_nodes b) (lb_links ls) (inbound_queues (bd_nodes b))
             ((λ _, AwaitPacket) <$> lb_links ls)
             ((λ _, NextPacketDelivery_new max_usize) <$> lb_links ls) ∅ ∅ ∅ 0%nat [] rng 0
             (sorted_events events) in
  match (_ ← nforeach (process_link_event topo) (initial_link_events events);
         nforeach (process_node_event topo) (initial_node_events events)) w with
  | Some (_, w) => Ok (topo, w)
  | None => Panic
  end.
End init.
