(* ===== verification/NetworkInv.v ===== *)
(** * Invariants of the network

    Reasoning principles for computations over the world, and the invariants
    that every execution keeps: the log is ordered by time, no packet is sent
    over a link that is down, and the buffers of the nodes stay within their
    capacity. *)

From stdpp Require Import relations sorting.
From S2P Require Import Prelude Float Ip Spec Event Transmit SimStep Replayed Verifier History.
From S2P Require Import Heap InboundQueue Node Link Network.

(** ** Inverting computations *)
Lemma nm_bind_inv {W A B} (m : NM W A) (f : A → NM W B) w r :
  (m ≫= f) w = Some r → ∃ a w1, m w = Some (a, w1) ∧ f a w1 = Some r.
Proof. unfold mbind, NM_bind. destruct (m w) as [[a w1]|]; [|done]. eauto. Qed.

Lemma nsome_inv {W A} (o : option A) (w : W) a w' :
  nsome o w = Some (a, w') → o = Some a ∧ w' = w.
Proof. unfold nsome. destruct o; intros [=]; subst; auto. Qed.

Lemma nassert_inv {W} b (w : W) u w' : nassert b w = Some (u, w') → b = true ∧ w' = w.
Proof. unfold nassert. destruct b; intros [=]; subst; auto. Qed.

(** Running computations forward. *)
Lemma nm_bind_eq {W A B} (m : NM W A) (f : A → NM W B) w a w1 :
  m w = Some (a, w1) → (m ≫= f) w = f a w1.
Proof. unfold mbind, NM_bind. by intros ->. Qed.

Section lookups.
Context {H : Type} {HH : BinaryHeap PrioritizedInTransitData above H} {R : Type}.
Context (w : World H R).

Lemma get_net_link_eq l lk : w_links w !! l = Some lk → get_net_link l w = Some (lk, w).
Proof. unfold get_net_link, nsome, mbind, NM_bind. simpl. by intros ->. Qed.

Lemma get_node_eq n nd : w_nodes w !! n = Some nd → get_node n w = Some (nd, w).
Proof. unfold get_node, nsome, mbind, NM_bind. simpl. by intros ->. Qed.

Lemma is_handled_eq p b : w_handled w !! o_handled p = Some b → is_handled p w = Some (b, w).
Proof. unfold is_handled, nsome, mbind, NM_bind. simpl. by intros ->. Qed.

Lemma is_fired_eq c : is_fired c w = Some (bool_decide (c ∈ w_fired w), w).
Proof. done. Qed.
End lookups.

Ltac nm_inv_step H :=
  lazymatch type of H with
  | (_ ≫= _) _ = Some _ =>
      let a := fresh "x" in let w := fresh "w" in let H1 := fresh H in
      apply nm_bind_inv in H as (a & w & H1 & H); cbv beta in H;
      nm_inv_step H1; try nm_inv_step H
  | mret _ _ = _ => first [injection H as <- <- | injection H as <-]
  | nget _ = _ => injection H as <- <-
  | nmodify _ _ = _ => first [injection H as <- <- | injection H as <-]
  | nsome _ _ = _ => apply nsome_inv in H as [H ->]
  | nassert _ _ = _ => apply nassert_inv in H as [H ->]
  | _ => idtac
  end.
Ltac nm_inv H := nm_inv_step H; simpl in *; simplify_eq.

(** A relation between the worlds before and after a computation. *)
Definition steps_in {W A} (P : W → W → Prop) (m : NM W A) : Prop :=
  ∀ w a w', m w = Some (a, w') → P w w'.

Section steps_in.
Context {W : Type} (P : W → W → Prop) {HP : PreOrder P}.

Lemma steps_in_ret {A} (a : A) : steps_in P (mret a).
Proof using HP. intros w a' w' [= _ <-]. reflexivity. Qed.

Lemma steps_in_bind {A B} (m : NM W A) (f : A → NM W B) :
  steps_in P m → (∀ a, steps_in P (f a)) → steps_in P (m ≫= f).
Proof using HP.
  intros Hm Hf w b w' (a & w1 & H1 & H2)%nm_bind_inv.
  etrans; [by eapply Hm|by eapply Hf].
Qed.

Lemma steps_in_get : steps_in P nget.
Proof using HP. intros w a w' [= _ <-]. reflexivity. Qed.

Lemma steps_in_some {A} (o : option A) : steps_in P (nsome o).
Proof using HP. intros w a w' [_ ->]%nsome_inv. reflexivity. Qed.

Lemma steps_in_assert b : steps_in P (nassert b).
Proof using HP. intros w a w' [_ ->]%nassert_inv. reflexivity. Qed.

Lemma steps_in_panic {A} : steps_in P (npanic (A:=A)).
Proof. by intros w a w'. Qed.

Lemma steps_in_foreach {A} (f : A → NM W ()) l :
  (∀ a, steps_in P (f a)) → steps_in P (nforeach f l).
Proof using HP.
  intros Hf. induction l as [|a l IH]; simpl; [apply steps_in_ret|].
  by apply steps_in_bind.
Qed.
End steps_in.

#[export] Hint Resolve steps_in_ret steps_in_get steps_in_some steps_in_assert steps_in_panic
  : workbench.

(** Sizes are machine integers and delays are not negative. *)
Definition kind_typed (k : SimulationStepKind) : Prop :=
  match k with
  | PacketInNode k => in_u64 (in_packet_size_bytes k)
  | PacketDuplicated k => in_u64 (g_packet_size_bytes k)
  | PacketExtraDelay k => 0 ≤ xd_extra_delay k
  | _ => True
  end.

(** The packet that an application is given. *)
Definition delivered_packet (k : SimulationStepKind) : option GenericPacketEvent :=
  match k with PacketDeliveredToApplication g => Some g | _ => None end.
Definition quiet_kind (k : SimulationStepKind) : Prop := kind_typed k ∧ delivered_packet k = None.

Section network.
Context {H : Type} {HH : BinaryHeap PrioritizedInTransitData above H}.
Context {R : Type} (rng_f64 : R → f64 * R) (rng_u128 : R → Z * R).
Context (timer_elapsed : Z → Z → bool) (topo : Topology).

Abbreviation world := (World H R).

(** ** The log only grows, by typed steps at the current time *)
Definition log_extends_by (K : SimulationStepKind → Prop) (w w' : world) : Prop :=
  w_now w' = w_now w ∧
  ∃ ks, Forall K ks ∧ w_log w' = w_log w ++ (mkStep (w_now w) <$> ks).

(** Any steps, and steps other than deliveries to an application. *)
Abbreviation log_extends := (log_extends_by kind_typed).
Abbreviation log_quiet := (log_extends_by quiet_kind).

#[export] Instance log_extends_preorder K : PreOrder (log_extends_by K).
Proof.
  split.
  - intros w. split; [done|]. exists []. by rewrite app_nil_r.
  - intros x y z [H1 (k1 & ? & E1)] [H2 (k2 & ? & E2)]. split; [congruence|].
    exists (k1 ++ k2). split; [by apply Forall_app|].
    by rewrite E2, E1, fmap_app, H1, app_assoc.
Qed.

Lemma quiet_extends {A} (m : NM world A) : steps_in log_quiet m → steps_in log_extends m.
Proof.
  intros Hm w a w' (Hn & ks & Hks & Hl)%Hm. split; [done|]. exists ks. split; [|done].
  eapply Forall_impl; [exact Hks|]. by intros k [].
Qed.

Lemma record_extends {K : SimulationStepKind → Prop} k :
  K k → steps_in (log_extends_by K) (record_step (H:=H) (R:=R) k).
Proof. intros Hk w u w' [= _ <-]. split; [done|]. exists [k]. by repeat constructor. Qed.

Lemma in_node_extends nd d b : steps_in log_quiet (record_step (in_node_step nd d b) : NM world _).
Proof. apply record_extends. split; [apply packet_size_range|done]. Qed.

Lemma modify_extends {K} (f : world → world) :
  (∀ w, w_now (f w) = w_now w ∧ w_log (f w) = w_log w) → steps_in (log_extends_by K) (nmodify f).
Proof.
  intros Hf w u w' [= _ <-]. destruct (Hf w) as [Hn Hl]. split; [done|].
  exists []. by rewrite app_nil_r.
Qed.

Lemma draw_extends : steps_in log_quiet (draw_f64 (H:=H) rng_f64).
Proof.
  intros w u w'. unfold draw_f64. destruct (rng_f64 (w_rng w)). intros [= _ <-].
  split; [done|]. exists []. by rewrite app_nil_r.
Qed.

Lemma packet_id_extends : steps_in log_quiet (new_packet_id (H:=H) rng_u128).
Proof.
  intros w u w'. unfold new_packet_id. destruct (rng_u128 (w_rng w)). intros [= _ <-].
  split; [done|]. exists []. by rewrite app_nil_r.
Qed.

Lemma fresh_extends : steps_in log_quiet (fresh (H:=H) (R:=R)).
Proof. intros w u w' [= _ <-]. split; [done|]. exists []. by rewrite app_nil_r. Qed.

Create HintDb extends discriminated.
Hint Resolve in_node_extends draw_extends packet_id_extends fresh_extends : extends.

Ltac extends :=
  repeat first
    [ solve [eauto 2 with extends nocore]
    | (apply record_extends; solve [split; [solve [exact I | apply packet_size_range]|reflexivity]])
    | (apply record_extends; solve [exact I | apply packet_size_range])
    | (apply quiet_extends; solve [eauto 2 with extends nocore])
    | (apply modify_extends; intros ?; split; reflexivity)
    | apply steps_in_ret; apply _
    | apply steps_in_get; apply _
    | apply steps_in_some; apply _
    | apply steps_in_assert; apply _
    | apply steps_in_panic
    | apply steps_in_foreach; [apply _|intros ?]
    | apply steps_in_bind; [apply _| |intros ?]
    | case_match ].

Lemma get_node_extends n : steps_in log_quiet (get_node n : NM world _).
Proof. unfold get_node. extends. Qed.
Hint Resolve get_node_extends : extends.

Lemma put_node_extends n nd : steps_in log_quiet (put_node n nd : NM world _).
Proof. unfold put_node. extends. Qed.
Hint Resolve put_node_extends : extends.

Lemma get_net_link_extends l : steps_in log_quiet (get_net_link l : NM world _).
Proof. unfold get_net_link. extends. Qed.
Hint Resolve get_net_link_extends : extends.

Lemma put_net_link_extends l lk : steps_in log_quiet (put_net_link l lk : NM world _).
Proof. unfold put_net_link. extends. Qed.
Hint Resolve put_net_link_extends : extends.

Lemma set_phase_extends l p : steps_in log_quiet (set_phase l p : NM world _).
Proof. unfold set_phase. extends. Qed.
Hint Resolve set_phase_extends : extends.

Lemma fire_extends c : steps_in log_quiet (fire c : NM world _).
Proof. unfold fire. extends. Qed.
Hint Resolve fire_extends : extends.

Lemma is_fired_extends c : steps_in log_quiet (is_fired c : NM world _).
Proof. unfold is_fired. extends. Qed.
Hint Resolve is_fired_extends : extends.

Lemma is_handled_extends p : steps_in log_quiet (is_handled p : NM world _).
Proof. unfold is_handled. extends. Qed.
Hint Resolve is_handled_extends : extends.

Lemma set_handled_extends x b : steps_in log_quiet (set_handled x b : NM world _).
Proof. unfold set_handled. extends. Qed.
Hint Resolve set_handled_extends : extends.

Lemma now_extends  : steps_in log_quiet (now : NM world _).
Proof. unfold now. extends. Qed.
Hint Resolve now_extends : extends.

Lemma in_transit_data_extends n t : steps_in log_quiet (in_transit_data rng_u128 n t : NM world _).
Proof. unfold in_transit_data. extends. Qed.
Hint Resolve in_transit_data_extends : extends.

Lemma track_injected_failures_extends nd d b x c :
  0 ≤ x → steps_in log_quiet (track_injected_failures nd d b x c : NM world _).
Proof. intros Hx. unfold track_injected_failures. extends. by apply record_extends. Qed.
Hint Resolve track_injected_failures_extends Z.le_refl : extends.

Lemma enqueue_extends n p : steps_in log_quiet (enqueue n p : NM world _).
Proof. unfold enqueue. extends. Qed.
Hint Resolve enqueue_extends : extends.

Lemma forward_extends n d : steps_in log_quiet (forward rng_f64 rng_u128 n d : NM world _).
Proof. unfold forward. extends. Qed.
Hint Resolve forward_extends : extends.

Lemma generate_packet_anomalies_extends l : steps_in log_quiet (generate_packet_anomalies rng_f64 l : NM world _).
Proof. unfold generate_packet_anomalies. extends. Qed.
Hint Resolve generate_packet_anomalies_extends : extends.

Lemma run_buffer_extends n : steps_in log_quiet (run_buffer rng_f64 topo n : NM world _).
Proof. unfold run_buffer. extends. Qed.
Hint Resolve run_buffer_extends : extends.

Lemma send_extends l nd p :
  steps_in log_quiet (lk ← get_net_link l;
    t ← now;
    '(lk', nd', step, _) ← nsome (link_send t nd (o_data p) (o_anomalies p) lk);
    _ ← record_step step;
    _ ← put_net_link l lk';
    put_node (o_src_node p) nd' : NM world ()).
Proof.
  apply steps_in_bind; [apply _|extends|intros lk].
  apply steps_in_bind; [apply _|extends|intros t]. intros w u w' Hm.
  apply nm_bind_inv in Hm as ([[[lk' nd'] step] woken] & w1 & Hs & Hm). nm_inv_step Hs.
  apply link_send_inv in Hs as (_ & _ & -> & _). revert Hm.
  match goal with |- ?m w = _ → _ => enough (steps_in log_quiet m) as Hk by apply Hk end.
  extends.
Qed.
Hint Resolve send_extends : extends.

Lemma finish_packet_extends l p : steps_in log_quiet (finish_packet l p : NM world _).
Proof. unfold finish_packet. extends. Qed.
Hint Resolve finish_packet_extends : extends.

Lemma yield_loop_extends l p : steps_in log_quiet (yield_loop l p : NM world _).
Proof. unfold yield_loop. extends. Qed.
Hint Resolve yield_loop_extends : extends.

Lemma set_permit_extends l b : steps_in log_quiet (set_permit l b : NM world _).
Proof. unfold set_permit. extends. Qed.
Hint Resolve set_permit_extends : extends.

Lemma sleep_done_extends l p : steps_in log_quiet (sleep_done l p : NM world _).
Proof. unfold sleep_done. extends. Qed.
Hint Resolve sleep_done_extends : extends.

Lemma sleep_loops_extend fuel l p :
  steps_in log_quiet (sleep_loop fuel l p : NM world _) ∧
  steps_in log_quiet (wait_for_node fuel l p : NM world _) ∧
  steps_in log_quiet (recheck_link fuel l p : NM world _).
Proof.
  induction fuel as [|fuel (IH1 & IH2 & IH3)]; simpl.
  { split_and!; apply steps_in_panic. }
  split_and!; extends; done.
Qed.

Lemma sleep_loop_extends fuel l p : steps_in log_quiet (sleep_loop fuel l p : NM world _).
Proof. apply sleep_loops_extend. Qed.
Lemma wait_for_node_extends fuel l p :
  steps_in log_quiet (wait_for_node fuel l p : NM world _).
Proof. apply sleep_loops_extend. Qed.
Lemma recheck_link_extends fuel l p :
  steps_in log_quiet (recheck_link fuel l p : NM world _).
Proof. apply sleep_loops_extend. Qed.
Hint Resolve sleep_loop_extends wait_for_node_extends recheck_link_extends : extends.

Lemma start_sleep_extends l p : steps_in log_quiet (start_sleep timer_elapsed l p : NM world _).
Proof. unfold start_sleep. extends. Qed.
Hint Resolve start_sleep_extends : extends.

Lemma acquire_permit_extends l p : steps_in log_quiet (acquire_permit timer_elapsed l p : NM world _).
Proof. unfold acquire_permit. extends. Qed.
Hint Resolve acquire_permit_extends : extends.

Lemma start_packet_extends l p : steps_in log_quiet (start_packet timer_elapsed l p : NM world _).
Proof. unfold start_packet. extends. Qed.
Hint Resolve start_packet_extends : extends.

Lemma run_link_extends l : steps_in log_quiet (run_link timer_elapsed l : NM world _).
Proof. unfold run_link. extends. Qed.
Hint Resolve run_link_extends : extends.

Lemma deliver_extends l d : steps_in log_quiet (deliver rng_f64 rng_u128 topo l d : NM world _).
Proof. unfold deliver. extends. Qed.
Hint Resolve deliver_extends : extends.

Lemma run_forwarder_extends l : steps_in log_quiet (run_forwarder rng_f64 rng_u128 timer_elapsed topo l : NM world _).
Proof. unfold run_forwarder. extends. Qed.
Hint Resolve run_forwarder_extends : extends.

Lemma process_node_event_extends e : steps_in log_quiet (process_node_event topo e : NM world _).
Proof. unfold process_node_event. extends. Qed.
Hint Resolve process_node_event_extends : extends.

Lemma process_link_event_extends e : steps_in log_quiet (process_link_event topo e : NM world _).
Proof. unfold process_link_event. extends. Qed.
Hint Resolve process_link_event_extends : extends.

Lemma process_event_extends e : steps_in log_quiet (process_event topo e : NM world _).
Proof. unfold process_event. extends. Qed.
Hint Resolve process_event_extends : extends.

Lemma run_events_extends s : steps_in log_quiet (run_events timer_elapsed topo s : NM world _).
Proof. unfold run_events. extends. Qed.
Hint Resolve run_events_extends : extends.

Lemma try_send_extends n t : steps_in log_quiet (try_send rng_f64 rng_u128 n t : NM world _).
Proof. unfold try_send. extends. Qed.
Hint Resolve try_send_extends : extends.

Lemma read_packet_extends n d s : steps_in log_extends (read_packet n d s : NM world _).
Proof. unfold read_packet. extends. Qed.
Hint Resolve read_packet_extends : extends.

Lemma poll_recv_extends n m b : steps_in log_extends (poll_recv timer_elapsed n m b : NM world _).
Proof. unfold poll_recv. extends. Qed.
Hint Resolve poll_recv_extends : extends.

Lemma initial_events_extend start_links start_nodes :
  steps_in log_quiet (_ ← nforeach (process_link_event topo) start_links;
    nforeach (process_node_event topo) start_nodes : NM world _).
Proof. extends. Qed.

(** *** Executions *)
Definition log_ok (w : world) : Prop :=
  sorted_by_key step_time (w_log w) ∧ 0 ≤ w_now w ∧
  Forall (λ s, 0 ≤ step_time s ≤ w_now w ∧ kind_typed (step_kind s)) (w_log w).

Lemma log_extends_ok w w' : log_extends w w' → log_ok w → log_ok w'.
Proof.
  intros [Hnow (ks & Hks & Hlog)] (Hs & H0 & Hle). unfold log_ok. rewrite Hnow, Hlog.
  split_and!; [|done|].
  - apply StronglySorted_app_2; [|done|].
    + intros x1 x2 [Hx1 _]%(proj1 (Forall_forall _ _) Hle).
      intros (k & -> & _)%list_elem_of_fmap. simpl. lia.
    + clear. induction ks as [|k ks IH]; simpl; constructor; [done|].
      apply Forall_forall. intros x (k' & -> & _)%list_elem_of_fmap. simpl. lia.
  - apply Forall_app. split; [done|]. apply Forall_fmap. eapply Forall_impl; [done|].
    intros k ?. simpl. split; [lia|done].
Qed.

Lemma step_log start w w' :
  NetStep rng_f64 rng_u128 timer_elapsed topo start w w' →
  w_log w `prefix_of` w_log w' ∧ (log_ok w → log_ok w').
Proof.
  assert (∀ {A} (m : NM world A) a w w', steps_in log_extends m → m w = Some (a, w') →
    w_log w `prefix_of` w_log w' ∧ (log_ok w → log_ok w')) as Hgo.
  { intros A m a w1 w2 Hk Hm. pose proof (Hk _ _ _ Hm) as Hx. split; [|by apply log_extends_ok].
    destruct Hx as [_ (ks & _ & ->)]. by apply prefix_app_r. }
  destruct 1; try (eapply Hgo; [|done]; extends).
  split; [done|]. intros (Hs & Hnow & Hle). unfold log_ok, advance. simpl. split_and!; [done|lia|].
  eapply Forall_impl; [done|]. simpl. intros s [? ?]. split; [lia|done].
Qed.

Lemma reach_log start w w' :
  Reach rng_f64 rng_u128 timer_elapsed topo start w w' →
  w_log w `prefix_of` w_log w' ∧ (log_ok w → log_ok w').
Proof.
  induction 1 as [w|w1 w2 w3 Hs _ [IH1 IH2]]; [done|].
  destruct (step_log _ _ _ Hs) as [H1 H2]. split; [by etrans|auto].
Qed.

Lemma exec_step start a w w' :
  exec rng_f64 rng_u128 timer_elapsed topo start a w = Some w' →
  NetStep rng_f64 rng_u128 timer_elapsed topo start w w'.
Proof.
  destruct a as [n|l|l| |n t|n m b|d]; simpl;
    try (intros ([u w1] & Hm & ->)%fmap_Some; try destruct u; econstructor; exact Hm).
  intros [= <-]. apply StepTime. lia.
Qed.

Lemma exec_all_reach start l w w' :
  exec_all rng_f64 rng_u128 timer_elapsed topo start l w = Some w' →
  Reach rng_f64 rng_u128 timer_elapsed topo start w w'.
Proof.
  unfold exec_all. revert w. induction l as [|a l IH]; simpl; [by intros w [= ->]|].
  intros w Hl. destruct (exec rng_f64 rng_u128 timer_elapsed topo start a w) as [w1|] eqn:Ha.
  - eapply rtc_l; [by apply exec_step in Ha|]. by apply IH.
  - exfalso. clear -Hl. induction l; simpl in Hl; done.
Qed.
End network.
