(* ===== verification/NetworkSteady.v ===== *)
(** * What only network events change

    The status of the nodes and links, their identity and the one-shot
    channels change only when a network event is processed, and only then is an
    event recorded.  Hence the channel that a node or link that is down waits on
    has never been fired. *)

From stdpp Require Import relations.
From S2P Require Import Prelude Float Ip Spec Event Transmit SimStep Heap InboundQueue Node.
From S2P Require Import Link Network NetworkInv.

Definition node_facts (n : Node) : list IpAddr * string * option SocketAddr * NodeStatus * option Z :=
  (n_addresses n, n_id n, n_udp_endpoint n, n_status n, n_last_buffer_clear n).

Section network.
Context {H : Type} {HH : BinaryHeap PrioritizedInTransitData above H}.
Context {R : Type} (rng_f64 : R → f64 * R) (rng_u128 : R → Z * R).
Context (timer_elapsed : Z → Z → bool) (topo : Topology).

Abbreviation world := (World H R).

Definition link_facts (l : @NetworkLink H) : string * IpAddr * LinkStatus * option Z * Z * Z :=
  (l_id l, l_target l, l_status l, l_last_down l, l_delay l, l_extra_delay l).

Definition not_event (k : SimulationStepKind) : Prop :=
  match k with NetworkEventStep _ => False | _ => True end.

Record steady (w w' : world) : Prop := mkSteady {
  st_now : w_now w' = w_now w;
  st_events : w_events w' = w_events w;
  st_fired : w_fired w' = w_fired w;
  st_next : (w_next w ≤ w_next w')%nat;
  st_nodes : node_facts <$> w_nodes w' = node_facts <$> w_nodes w;
  st_links : link_facts <$> w_links w' = link_facts <$> w_links w;
  st_log : ∃ ks, Forall not_event ks ∧ w_log w' = w_log w ++ (mkStep (w_now w) <$> ks);
}.

#[export] Instance steady_preorder : PreOrder steady.
Proof.
  split; [intros w; split; try done; exists []; by rewrite app_nil_r|].
  intros x y z [N1 ? ? ? ? ? (k1 & F1 & L1)] [? ? ? ? ? ? (k2 & F2 & L2)].
  split; try congruence; [lia|]. exists (k1 ++ k2). split; [by apply Forall_app|].
  by rewrite L2, L1, fmap_app, N1, app_assoc.
Qed.

Lemma steady_same (w w' : world) :
  w_now w' = w_now w → w_events w' = w_events w → w_fired w' = w_fired w →
  (w_next w ≤ w_next w')%nat → node_facts <$> w_nodes w' = node_facts <$> w_nodes w →
  link_facts <$> w_links w' = link_facts <$> w_links w → w_log w' = w_log w → steady w w'.
Proof. intros. split; try done. exists []. by rewrite app_nil_r. Qed.

Lemma modify_steady (f : world → world) : (∀ w, steady w (f w)) → steps_in steady (nmodify f).
Proof. by intros Hf w u w' [= _ <-]. Qed.

Lemma record_steady k : not_event k → steps_in steady (record_step (H:=H) (R:=R) k).
Proof. intros Hk. apply modify_steady. intros w. split; try done. exists [k]. by repeat constructor. Qed.

Lemma draw_steady : steps_in steady (draw_f64 (H:=H) rng_f64).
Proof.
  intros w u w'. unfold draw_f64. destruct (rng_f64 (w_rng w)). intros [= _ <-]. by apply steady_same.
Qed.

Lemma packet_id_steady : steps_in steady (new_packet_id (H:=H) rng_u128).
Proof.
  intros w u w'. unfold new_packet_id. destruct (rng_u128 (w_rng w)). intros [= _ <-]. by apply steady_same.
Qed.

Lemma fresh_steady : steps_in steady (fresh (H:=H) (R:=R)).
Proof. intros w u w' [= _ <-]. apply steady_same; try done. simpl. lia. Qed.

(** Writing a node or a link back with the same facts. *)
Lemma put_node_steady n nd nd' (w w' : world) u :
  w_nodes w !! n = Some nd → node_facts nd' = node_facts nd →
  put_node n nd' w = Some (u, w') → steady w w'.
Proof.
  intros Hn Hf [= _ <-]. apply steady_same; try done. simpl. rewrite fmap_insert, Hf. apply insert_id.
  by rewrite lookup_fmap, Hn.
Qed.

Lemma put_link_steady l lk lk' (w w' : world) u :
  w_links w !! l = Some lk → link_facts lk' = link_facts lk →
  put_net_link l lk' w = Some (u, w') → steady w w'.
Proof.
  intros Hl Hf [= _ <-]. apply steady_same; try done. simpl. rewrite fmap_insert, Hf. apply insert_id.
  by rewrite lookup_fmap, Hl.
Qed.

Lemma update_node_steady {A} n (f : Node → NM world A) :
  (∀ nd w a w', w_nodes w !! n = Some nd → f nd w = Some (a, w') → steady w w') →
  steps_in steady (get_node n ≫= f).
Proof.
  intros Hf w a w' Hm. nm_inv_step Hm. unfold get_node in Hm0. nm_inv Hm0. by eapply Hf.
Qed.

Lemma update_link_steady {A} l (f : @NetworkLink H → NM world A) :
  (∀ lk w a w', w_links w !! l = Some lk → f lk w = Some (a, w') → steady w w') →
  steps_in steady (get_net_link l ≫= f).
Proof.
  intros Hf w a w' Hm. nm_inv_step Hm. unfold get_net_link in Hm0. nm_inv Hm0. by eapply Hf.
Qed.

Create HintDb steady discriminated.
Hint Resolve draw_steady packet_id_steady fresh_steady : steady.

Ltac steady :=
  repeat first
    [ solve [eauto 2 with steady nocore]
    | (apply record_steady; exact I)
    | (apply modify_steady; intros ?; by apply steady_same)
    | apply steps_in_ret; apply _
    | apply steps_in_get; apply _
    | apply steps_in_some; apply _
    | apply steps_in_assert; apply _
    | apply steps_in_panic
    | apply steps_in_foreach; [apply _|intros ?]
    | apply steps_in_bind; [apply _| |intros ?]
    | case_match ].

(** Reads and changes of other parts of the world. *)
Lemma get_node_steady n : steps_in steady (get_node n : NM world _).
Proof. unfold get_node. steady. Qed.
Lemma get_net_link_steady l : steps_in steady (get_net_link l : NM world _).
Proof. unfold get_net_link. steady. Qed.
Lemma set_phase_steady l p : steps_in steady (set_phase l p : NM world _).
Proof. unfold set_phase. steady. Qed.
Lemma is_fired_steady c : steps_in steady (is_fired c : NM world _).
Proof. unfold is_fired. steady. Qed.
Lemma is_handled_steady p : steps_in steady (is_handled p : NM world _).
Proof. unfold is_handled. steady. Qed.
Lemma set_handled_steady x b : steps_in steady (set_handled x b : NM world _).
Proof. unfold set_handled. steady. Qed.
Lemma now_steady : steps_in steady (now : NM world _).
Proof. unfold now. steady. Qed.
Hint Resolve get_node_steady get_net_link_steady set_phase_steady is_fired_steady
  is_handled_steady set_handled_steady now_steady : steady.

(** The operations of the nodes. *)
Lemma in_transit_data_steady n t : steps_in steady (in_transit_data rng_u128 n t : NM world _).
Proof. unfold in_transit_data. steady. Qed.
Lemma track_injected_failures_steady nd d b x c :
  steps_in steady (track_injected_failures nd d b x c : NM world _).
Proof. unfold track_injected_failures. steady. Qed.
Lemma enqueue_steady n p : steps_in steady (enqueue n p : NM world _).
Proof.
  unfold enqueue. apply update_node_steady. intros nd w u w' Hn Hm.
  apply nm_bind_inv in Hm as ([stored nd'] & w1 & He & Hm). nm_inv_step He.
  destruct stored; [|by eapply record_steady; [|exact Hm]].
  eapply put_node_steady; [exact Hn| |exact Hm].
  unfold enqueue_outbound in He. destruct (reserve _ _) as [[] av]; [|done].
  destruct (n_outbound_open nd); [|done]. by injection He as <-.
Qed.
Hint Resolve in_transit_data_steady track_injected_failures_steady enqueue_steady : steady.

Lemma forward_steady n d : steps_in steady (forward rng_f64 rng_u128 n d : NM world _).
Proof. unfold forward. steady. Qed.
Lemma generate_packet_anomalies_steady l :
  steps_in steady (generate_packet_anomalies rng_f64 l : NM world _).
Proof. unfold generate_packet_anomalies. steady. Qed.
Hint Resolve forward_steady generate_packet_anomalies_steady : steady.

Lemma push_steady l (f : @NetworkLink H → list OutgoingPacket) :
  steps_in steady (lk ← get_net_link l; put_net_link l (set_l_outgoing (f lk) lk) : NM world _).
Proof.
  apply update_link_steady. intros lk w u w' Hl Hm. by eapply put_link_steady; [exact Hl| |exact Hm].
Qed.
Hint Resolve push_steady : steady.

Lemma run_buffer_steady n : steps_in steady (run_buffer rng_f64 topo n : NM world _).
Proof.
  unfold run_buffer. apply update_node_steady. intros nd w u w' Hn Hm.
  destruct (n_outbound nd) as [|packet rest]; [by injection Hm as _ <-|].
  apply nm_bind_inv in Hm as (route & w1 & Hr & Hm). nm_inv_step Hr.
  destruct route; simpl in Hm; [|by eapply put_node_steady; [exact Hn| |exact Hm]].
  apply nm_bind_inv in Hm as ([] & w1 & Hput & Hm).
  transitivity w1; [by eapply put_node_steady; [exact Hn| |exact Hput]|]. revert Hm.
  match goal with |- ?m w1 = _ → _ => enough (steps_in steady m) as Hk by apply Hk end.
  steady.
Qed.

Hint Resolve run_buffer_steady : steady.

(** The task of a link. *)
Lemma link_send_facts t nd d a (lk lk' : @NetworkLink H) nd' step woken :
  link_send t nd d a lk = Some (lk', nd', step, woken) →
  link_facts lk' = link_facts lk ∧ node_facts nd' = node_facts nd ∧ not_event step.
Proof.
  unfold link_send. repeat (case_match; [done|]). destruct (dur_add _ _); [|done..].
  by intros [= <- <- <- _].
Qed.

Lemma finish_packet_steady l p : steps_in steady (finish_packet l p : NM world _).
Proof.
  unfold finish_packet. apply steps_in_bind; [apply _|steady|intros handled].
  apply steps_in_bind; [apply _| |intros []; steady]. destruct handled; [steady|].
  apply steps_in_bind; [apply _|steady|intros []].
  apply update_node_steady. intros nd w u w' Hn Hm.
  destruct (cleared_from_buffer _ _); [by eapply record_steady; [|exact Hm]|].
  apply nm_bind_inv in Hm as (lk & w1 & Hl & Hm). unfold get_net_link in Hl. nm_inv_step Hl.
  apply nm_bind_inv in Hm as (t & w1 & [= <- <-] & Hm).
  apply nm_bind_inv in Hm as ([[[lk' nd'] step] woken] & w1 & Hs & Hm). nm_inv_step Hs.
  apply link_send_facts in Hs as (Hlf & Hnf & Hev).
  apply nm_bind_inv in Hm as ([] & w1 & Hrec & Hm).
  apply nm_bind_inv in Hm as ([] & w2 & Hput & Hm). injection Hrec as <-.
  transitivity w2.
  - transitivity (set_w_log (record (mkStep (w_now w) step) (w_log w)) w);
      [by apply (record_steady step Hev w ())|].
    by eapply put_link_steady; [exact Hl| |exact Hput].
  - injection Hput as <-. by eapply put_node_steady; [exact Hn| |exact Hm].
Qed.
Hint Resolve finish_packet_steady : steady.

Lemma set_permit_steady l b : steps_in steady (set_permit l b : NM world _).
Proof.
  apply update_link_steady. intros lk w u w' Hl Hm.
  by eapply put_link_steady; [exact Hl| |exact Hm].
Qed.
Hint Resolve set_permit_steady : steady.

Lemma yield_loop_steady l p : steps_in steady (yield_loop l p : NM world _).
Proof. unfold yield_loop. steady. Qed.
Hint Resolve yield_loop_steady : steady.

Lemma sleep_done_steady l p : steps_in steady (sleep_done l p : NM world _).
Proof. unfold sleep_done. steady. Qed.
Hint Resolve sleep_done_steady : steady.

Lemma sleep_loops_steady fuel l p :
  steps_in steady (sleep_loop fuel l p : NM world _) ∧
  steps_in steady (wait_for_node fuel l p : NM world _) ∧
  steps_in steady (recheck_link fuel l p : NM world _).
Proof.
  induction fuel as [|fuel (IH1 & IH2 & IH3)]; simpl.
  { split_and!; apply steps_in_panic. }
  split_and!; steady; done.
Qed.

Lemma run_link_steady l : steps_in steady (run_link timer_elapsed l : NM world _).
Proof.
  unfold run_link. apply steps_in_bind; [apply _|steady|intros w0].
  apply steps_in_bind; [apply _|steady|intros ph].
  assert (∀ p, steps_in steady (acquire_permit timer_elapsed l p : NM world _)) as Hperm
    by (intros p; unfold acquire_permit, start_sleep; steady).
  assert (∀ p, steps_in steady (start_packet timer_elapsed l p : NM world _)) as Hstart
    by (intros p; unfold start_packet; steady).
  pose proof (λ fuel l p, proj1 (sleep_loops_steady fuel l p)).
  pose proof (λ fuel l p, proj1 (proj2 (sleep_loops_steady fuel l p))).
  pose proof (λ fuel l p, proj2 (proj2 (sleep_loops_steady fuel l p))).
  destruct ph; try by steady.
  apply update_link_steady. intros lk w u w' Hl Hm.
  destruct (l_outgoing lk); [by injection Hm as _ <-|].
  apply nm_bind_inv in Hm as ([] & w1 & Hput & Hm).
  transitivity w1; [by eapply put_link_steady; [exact Hl| |exact Hput]|by eapply Hstart].
Qed.

(** The other tasks and the sockets. *)
Lemma run_forwarder_steady l :
  steps_in steady (run_forwarder rng_f64 rng_u128 timer_elapsed topo l : NM world _).
Proof.
  unfold run_forwarder. apply steps_in_bind; [apply _|steady|intros w0].
  apply steps_in_bind; [apply _|steady|intros f]. apply update_link_steady.
  intros lk w u w' Hl Hm.
  apply nm_bind_inv in Hm as ([[res f'] queue] & w1 & Hpoll & Hm). nm_inv_step Hpoll.
  apply nm_bind_inv in Hm as ([] & w1 & Hput & Hm).
  transitivity w1; [by eapply put_link_steady; [exact Hl| |exact Hput]|]. revert Hm.
  match goal with |- ?m w1 = _ → _ => enough (steps_in steady m) as Hk by apply Hk end.
  unfold deliver. steady.
Qed.

Lemma try_send_steady n t : steps_in steady (try_send rng_f64 rng_u128 n t : NM world _).
Proof. unfold try_send. steady. Qed.

Lemma poll_recv_steady n m b : steps_in steady (poll_recv timer_elapsed n m b : NM world _).
Proof. unfold poll_recv, read_packet. steady. Qed.

(** ** The channels of what is down *)

(** The link or node [o] waits for channel [c] to come back up. *)
Definition waits (w : world) (c : channel) (o : link_ref + node_ref) : Prop :=
  match o with
  | inl l => ∃ lk, w_links w !! l = Some lk ∧ l_status lk = LinkStatusDown c
  | inr n => ∃ nd, w_nodes w !! n = Some nd ∧ n_status nd = StatusDown c
  end.

Record chan_inv (w : world) : Prop := mkChanInv {
  ci_fired : ∀ c, c ∈ w_fired w → (c < w_next w)%nat;
  ci_waits : ∀ c o, waits w c o → (c < w_next w)%nat ∧ c ∉ w_fired w;
  ci_owner : ∀ c o o', waits w c o → waits w c o' → o = o';
}.

Lemma chan_inv_same w w' :
  (∀ c o, waits w' c o → waits w c o) → w_fired w' = w_fired w → (w_next w ≤ w_next w')%nat →
  chan_inv w → chan_inv w'.
Proof.
  intros Hw Hf Hx [H1 H2 H3]. split; rewrite ?Hf.
  - intros c Hc%H1. lia.
  - intros c o Ho%Hw%H2. split; [lia|apply Ho].
  - eauto.
Qed.

Lemma fmap_facts_lookup {K A B} `{Countable K} (f : A → B) (m m' : gmap K A) k x' :
  f <$> m' = f <$> m → m' !! k = Some x' → ∃ x, m !! k = Some x ∧ f x' = f x.
Proof.
  intros Hm Hk. assert ((f <$> m') !! k = Some (f x')) as Hf by by rewrite lookup_fmap, Hk.
  rewrite Hm, lookup_fmap in Hf. apply fmap_Some in Hf as (x & ? & ?). by exists x.
Qed.

Lemma steady_chan w w' : steady w w' → chan_inv w → chan_inv w'.
Proof.
  intros [_ _ Hf Hx Hn Hl _]. apply chan_inv_same; [|done|done].
  intros c [l|n] (x' & Hk & Hs); simpl.
  - destruct (fmap_facts_lookup _ _ _ _ _ Hl Hk) as (x & ? & [=]). exists x. split; congruence.
  - destruct (fmap_facts_lookup _ _ _ _ _ Hn Hk) as (x & ? & [=]). exists x. split; congruence.
Qed.

(** The status of [o] is updated: nothing changes, [o] goes down with a new
    channel, or it comes up and fires its channel. *)
Definition status_change (new : channel) (s s' f : option channel) : Prop :=
  (s' = s ∧ f = None) ∨ (s = None ∧ s' = Some new ∧ f = None) ∨
  (∃ up, s = Some up ∧ s' = None ∧ f = Some up).

Lemma chan_inv_update w w' o s s' f :
  chan_inv w → status_change (w_next w) s s' f →
  (∀ c, waits w c o ↔ s = Some c) → (∀ c, waits w' c o ↔ s' = Some c) →
  (∀ c o', o' ≠ o → waits w' c o' → waits w c o') →
  w_next w' = S (w_next w) →
  w_fired w' = match f with Some c => {[c]} ∪ w_fired w | None => w_fired w end →
  chan_inv w'.
Proof.
  intros [H1 H2 H3] Hch Hs Hs' Hne Hx Hf.
  assert (∀ c o', o' ≠ o → waits w' c o' → waits w c o' ∧ s ≠ Some c) as Hother.
  { intros c o' Ho Hw. split; [by apply Hne|]. intros Hc%Hs. apply Ho. by eapply H3; [apply Hne|]. }
  split; rewrite ?Hx, ?Hf.
  - intros c Hc. destruct f as [up|]; [|specialize (H1 c Hc); lia].
    destruct Hch as [[_ [=]]|[(_ & _ & [=])|(? & Hup & _ & [= <-])]].
    apply Hs, H2 in Hup as [? _].
    apply elem_of_union in Hc as [->%elem_of_singleton|Hc%H1]; lia.
  - intros c o' Hw. destruct (decide (o' = o)) as [->|Ho].
    + apply Hs' in Hw as Hc. destruct Hch as [[-> ->]|[(_ & -> & ->)|(? & _ & -> & _)]]; [| |done].
      * apply Hs, H2 in Hc as [? ?]. split; [lia|done].
      * injection Hc as <-. split; [lia|]. intros ?%H1. lia.
    + destruct (Hother c o' Ho Hw) as [[? ?]%H2 Hsc]. split; [lia|].
      destruct f as [up|]; [|done].
      destruct Hch as [[_ [=]]|[(_ & _ & [=])|(? & -> & _ & [= <-])]]. set_solver.
  - intros c o1 o2 Hw1 Hw2. destruct (decide (o1 = o)) as [->|Ho1], (decide (o2 = o)) as [->|Ho2].
    + done.
    + exfalso. destruct (Hother _ _ Ho2 Hw2) as [Hw Hsc]. apply Hs' in Hw1.
      destruct Hch as [[-> _]|[(_ & -> & _)|(? & _ & -> & _)]]; [done| |done].
      injection Hw1 as <-. apply H2 in Hw as [? _]. lia.
    + exfalso. destruct (Hother _ _ Ho1 Hw1) as [Hw Hsc]. apply Hs' in Hw2.
      destruct Hch as [[-> _]|[(_ & -> & _)|(? & _ & -> & _)]]; [done| |done].
      injection Hw2 as <-. apply H2 in Hw as [? _]. lia.
    + eapply H3; by apply Hne.
Qed.

Definition keeps_chan (w w' : world) : Prop := chan_inv w → chan_inv w'.

#[export] Instance keeps_chan_preorder : PreOrder keeps_chan.
Proof. unfold keeps_chan. split; intros ?; tauto. Qed.

Lemma steady_keeps {A} (m : NM world A) : steps_in steady m → steps_in keeps_chan m.
Proof. intros Hm w a w' Hx%Hm. exact (steady_chan w w' Hx). Qed.

Lemma fire_world f (w w' : world) u :
  fire f w = Some (u, w') →
  w' = set_w_fired (match f with Some c => {[c]} ∪ w_fired w | None => w_fired w end) w.
Proof. destruct f; intros [= _ <-]; [done|by destruct w]. Qed.

Lemma update_link_chan l status :
  steps_in keeps_chan (lk ← get_net_link l; c ← fresh; t ← now;
    let '(lk', fired) := link_update_status t c status lk in
    _ ← put_net_link l lk'; fire fired : NM world ()).
Proof.
  intros w u w' Hm Hi. apply nm_bind_inv in Hm as (lk & w1 & Hl & Hm).
  unfold get_net_link in Hl. nm_inv_step Hl.
  apply nm_bind_inv in Hm as (c & w1 & [= <- <-] & Hm).
  apply nm_bind_inv in Hm as (t & w1 & [= <- <-] & Hm).
  destruct (link_update_status _ _ _ _) as [lk' f] eqn:Hup.
  apply nm_bind_inv in Hm as ([] & w1 & [= <-] & ->%fire_world).
  apply (chan_inv_update w _ (inl l) (notifier_for_link_up (l_status lk))
    (notifier_for_link_up (l_status lk')) f Hi); simpl.
  - unfold link_update_status in Hup.
    destruct (l_status lk) eqn:Hs, status; injection Hup as <- <-; simpl; rewrite ?Hs;
      unfold status_change; simpl; eauto 10.
  - intros c. rewrite Hl. split.
    + by intros (? & [= <-] & ->).
    + intros Hs. exists lk. split; [done|]. destruct (l_status lk); by simplify_eq/=.
  - intros c. rewrite lookup_insert_eq. split.
    + by intros (? & [= <-] & ->).
    + intros Hs. exists lk'. split; [done|]. destruct (l_status lk'); by simplify_eq/=.
  - intros c [l'|n] Hne; simpl; [|done]. rewrite lookup_insert_ne; [done|]. congruence.
  - done.
  - done.
Qed.

Lemma update_node_chan n status :
  steps_in keeps_chan (nd ← get_node n; c ← fresh;
    let '(st, fired) := node_update_status c status (n_status nd) in
    _ ← put_node n (set_n_status st nd); fire fired : NM world ()).
Proof.
  intros w u w' Hm Hi. apply nm_bind_inv in Hm as (nd & w1 & Hn & Hm).
  unfold get_node in Hn. nm_inv_step Hn.
  apply nm_bind_inv in Hm as (c & w1 & [= <- <-] & Hm).
  destruct (node_update_status _ _ _) as [st f] eqn:Hup.
  apply nm_bind_inv in Hm as ([] & w1 & [= <-] & ->%fire_world).
  apply (chan_inv_update w _ (inr n) (notifier_for_node_up (n_status nd))
    (notifier_for_node_up st) f Hi); simpl.
  - unfold node_update_status in Hup.
    destruct (n_status nd) eqn:Hs, status; injection Hup as <- <-; simpl;
      unfold status_change; simpl; eauto 10.
  - intros c. rewrite Hn. split.
    + by intros (? & [= <-] & ->).
    + intros Hs. exists nd. split; [done|]. destruct (n_status nd); by simplify_eq/=.
  - intros c. rewrite lookup_insert_eq. split.
    + by intros (? & [= <-] & Hst); simpl in Hst; subst.
    + intros Hs. eexists. split; [done|]. simpl. destruct st; by simplify_eq/=.
  - intros c [l|n'] Hne; simpl; [done|]. rewrite lookup_insert_ne; [done|]. congruence.
  - done.
  - done.
Qed.

Lemma process_event_chan e : steps_in keeps_chan (process_event topo e : NM world _).
Proof.
  assert (∀ k, steps_in keeps_chan (record_step k : NM world _)) as Hrec
    by (intros k w u w' [= _ <-] Hi; by apply (chan_inv_same w)).
  destruct e as [e|e]; simpl.
  - unfold process_link_event. destruct (links_by_id topo !! _) as [l|];
      [|apply steps_in_ret; apply _].
    apply steps_in_bind; [apply _| |by intros []].
    destruct (le_status e); [apply update_link_chan|apply steps_in_ret; apply _].
  - unfold process_node_event. destruct (nodes_by_id topo !! _) as [n|];
      [|apply steps_in_ret; apply _].
    apply steps_in_bind; [apply _| |intros []; apply steps_in_bind; [apply _| |by intros []]].
    { destruct (ne_status e); [apply update_node_chan|apply steps_in_ret; apply _]. }
    destruct (ne_clear_buffer e); [|apply steps_in_ret; apply _].
    intros w u w' Hm. apply nm_bind_inv in Hm as (nd & w1 & Hn & Hm).
    unfold get_node in Hn. nm_inv_step Hn.
    apply nm_bind_inv in Hm as (t & w1 & [= <- <-] & [= _ <-]).
    intros Hi. apply (chan_inv_same w); [|done|simpl; lia|exact Hi]. intros c [l|m]; simpl; [done|].
    destruct (decide (m = n)) as [->|]; [|by rewrite lookup_insert_ne].
    rewrite lookup_insert_eq. intros (? & [= <-] & ?). by exists nd.
Qed.

Lemma run_events_chan s : steps_in keeps_chan (run_events timer_elapsed topo s : NM world _).
Proof.
  unfold run_events. apply steps_in_bind; [apply _|apply steps_in_get; apply _|intros w].
  destruct (w_events w); [apply steps_in_ret; apply _|].
  destruct (timer_elapsed _ _); [|apply steps_in_ret; apply _].
  apply steps_in_bind; [apply _| |intros []; apply process_event_chan].
  intros w1 u w2 [= _ <-] Hi. by apply (chan_inv_same w1).
Qed.

Lemma initial_events_chan start_links start_nodes :
  steps_in keeps_chan (_ ← nforeach (process_link_event topo) start_links;
    nforeach (process_node_event topo) start_nodes : NM world _).
Proof.
  apply steps_in_bind; [apply _| |intros []]; apply steps_in_foreach; try apply _; intros e.
  - apply (process_event_chan (LinkEvent e)).
  - apply (process_event_chan (NodeEvent e)).
Qed.

Lemma step_chan start w w' :
  NetStep rng_f64 rng_u128 timer_elapsed topo start w w' → keeps_chan w w'.
Proof.
  destruct 1 as [n w w' Hm|l w w' Hm|l w w' Hm|w w' Hm|n t w w' Hm|n m b r w w' Hm|t w _].
  - by eapply (steady_keeps _ (run_buffer_steady n)).
  - by eapply (steady_keeps _ (run_link_steady l)).
  - by eapply (steady_keeps _ (run_forwarder_steady l)).
  - by eapply run_events_chan.
  - by eapply (steady_keeps _ (try_send_steady n t)).
  - by eapply (steady_keeps _ (poll_recv_steady n m b)).
  - intros Hi. by apply (chan_inv_same w).
Qed.

Lemma reach_chan start w w' :
  Reach rng_f64 rng_u128 timer_elapsed topo start w w' → keeps_chan w w'.
Proof. induction 1 as [|x y z Hs _ IH]; [done|]. intros Hx. by apply IH, (step_chan start x). Qed.
End network.
