(* ===== verification/NetworkRng.v ===== *)
(** * The packet ids that an execution draws

    The ids of packets are the draws of the network's random number generator,
    cut to 128 bits.  Nothing in the program keeps two draws from being the
    same; what is proved about the custody of packets concerns the executions
    in which they are not.  To state this, an execution is run with a generator
    that records the ids it hands out: [recorded_u128] draws from the generator
    of the program and writes the id down, so a network with the state [(r, [])]
    does what a network with the state [r] does, and at the end of an execution
    [drawn] has the ids that were drawn in it. *)

From stdpp Require Import relations.
From S2P Require Import Prelude Float Ip Spec Event Transmit SimStep Heap InboundQueue Node.
From S2P Require Import Link Network NetworkInv.

(** ** The generator only moves forward *)
Section forward.
Context {H : Type} {HH : BinaryHeap PrioritizedInTransitData above H}.
Context {R : Type} (rng_f64 : R → f64 * R) (rng_u128 : R → Z * R).
Context (timer_elapsed : Z → Z → bool) (topo : Topology).

(** Whatever a draw does to the state of the generator, the network does to it. *)
Context (later : relation R) {Hpre : PreOrder later}.
Context (Hf64 : ∀ r x r', rng_f64 r = (x, r') → later r r').
Context (Hu128 : ∀ r x r', rng_u128 r = (x, r') → later r r').

Abbreviation world := (World H R).

Definition rng_later (w w' : world) : Prop := later (w_rng w) (w_rng w').

#[export] Instance rng_later_preorder : PreOrder rng_later.
Proof using Hpre. unfold rng_later. split; [by intros ?|]. intros x y z. apply transitivity. Qed.

Lemma modify_later (f : world → world) : (∀ w, w_rng (f w) = w_rng w) → steps_in rng_later (nmodify f).
Proof using Hpre. intros Hf w u w' [= _ <-]. unfold rng_later. by rewrite Hf. Qed.

Lemma draw_later : steps_in rng_later (draw_f64 (H:=H) rng_f64).
Proof using Hpre Hf64.
  intros w u w'. unfold draw_f64. destruct (rng_f64 (w_rng w)) eqn:E. intros [= _ <-]. by eapply Hf64.
Qed.

Lemma packet_id_later : steps_in rng_later (new_packet_id (H:=H) rng_u128).
Proof using Hpre Hu128.
  intros w u w'. unfold new_packet_id. destruct (rng_u128 (w_rng w)) eqn:E. intros [= _ <-].
  by eapply Hu128.
Qed.

Create HintDb later discriminated.
Hint Resolve draw_later packet_id_later : later.

Ltac later :=
  repeat first
    [ solve [eauto 2 with later nocore]
    | (apply modify_later; intros ?; reflexivity)
    | apply steps_in_ret; apply _
    | apply steps_in_get; apply _
    | apply steps_in_some; apply _
    | apply steps_in_assert; apply _
    | apply steps_in_panic
    | apply steps_in_foreach; [apply _|intros ?]
    | apply steps_in_bind; [apply _| |intros ?]
    | case_match ].

Lemma get_node_later n : steps_in rng_later (get_node n : NM world _).
Proof using Hpre. unfold get_node. later. Qed.
Lemma put_node_later n nd : steps_in rng_later (put_node n nd : NM world _).
Proof using Hpre. unfold put_node. later. Qed.
Lemma get_net_link_later l : steps_in rng_later (get_net_link l : NM world _).
Proof using Hpre. unfold get_net_link. later. Qed.
Lemma put_net_link_later l lk : steps_in rng_later (put_net_link l lk : NM world _).
Proof using Hpre. unfold put_net_link. later. Qed.
Lemma record_later k : steps_in rng_later (record_step k : NM world _).
Proof using Hpre. unfold record_step. later. Qed.
Lemma set_phase_later l p : steps_in rng_later (set_phase l p : NM world _).
Proof using Hpre. unfold set_phase. later. Qed.
Lemma set_permit_later l b : steps_in rng_later (set_permit l b : NM world _).
Proof using Hpre. unfold set_permit, get_net_link, put_net_link. later. Qed.
Lemma is_fired_later c : steps_in rng_later (is_fired c : NM world _).
Proof using Hpre. unfold is_fired. later. Qed.
Lemma is_handled_later p : steps_in rng_later (is_handled p : NM world _).
Proof using Hpre. unfold is_handled. later. Qed.
Lemma set_handled_later x b : steps_in rng_later (set_handled x b : NM world _).
Proof using Hpre. unfold set_handled. later. Qed.
Lemma now_later : steps_in rng_later (now : NM world _).
Proof using Hpre. unfold now. later. Qed.
Lemma fresh_later : steps_in rng_later (fresh : NM world _).
Proof using Hpre. intros w u w' [= _ <-]. by unfold rng_later. Qed.
Lemma fire_later c : steps_in rng_later (fire c : NM world _).
Proof using Hpre. unfold fire. later. Qed.
Lemma track_injected_failures_later nd d b x c :
  steps_in rng_later (track_injected_failures nd d b x c : NM world _).
Proof using Hpre. unfold track_injected_failures. later; apply record_later. Qed.
Hint Resolve get_node_later put_node_later get_net_link_later put_net_link_later record_later set_phase_later
  set_permit_later is_fired_later is_handled_later set_handled_later now_later fresh_later fire_later
  track_injected_failures_later : later.

Lemma enqueue_later n p : steps_in rng_later (enqueue n p : NM world _).
Proof using Hpre. unfold enqueue. later. Qed.
Hint Resolve enqueue_later : later.

(** A packet is stored, and maybe its duplicate. *)
Lemma store_later n b nd (dup : option BufferedPacket) :
  steps_in rng_later (_ ← enqueue n b;
    match dup with
    | Some duplicate => _ ← track_injected_failures nd (b_data duplicate) true 0 false; enqueue n duplicate
    | None => mret ()
    end : NM world _).
Proof using Hpre. later. Qed.

Lemma forward_later n d : steps_in rng_later (forward rng_f64 rng_u128 n d : NM world _).
Proof using Hpre Hf64 Hu128. unfold forward. later. Qed.
Hint Resolve forward_later : later.

Lemma try_send_later n t : steps_in rng_later (try_send rng_f64 rng_u128 n t : NM world _).
Proof using Hpre Hf64 Hu128. unfold try_send, in_transit_data. later. Qed.

Lemma poll_recv_later n m b : steps_in rng_later (poll_recv timer_elapsed n m b : NM world _).
Proof using Hpre. unfold poll_recv, read_packet. later. Qed.

Lemma run_buffer_later n : steps_in rng_later (run_buffer rng_f64 topo n : NM world _).
Proof using Hpre Hf64. unfold run_buffer, generate_packet_anomalies. later. Qed.

Lemma deliver_later l d : steps_in rng_later (deliver rng_f64 rng_u128 topo l d : NM world _).
Proof using Hpre Hf64 Hu128. unfold deliver. later. Qed.
Hint Resolve deliver_later : later.

Lemma deliver_all_later l ds :
  steps_in rng_later (nforeach (deliver rng_f64 rng_u128 topo l) ds : NM world _).
Proof using Hpre Hf64 Hu128. later. Qed.

Lemma run_forwarder_later l :
  steps_in rng_later (run_forwarder rng_f64 rng_u128 timer_elapsed topo l : NM world _).
Proof using Hpre Hf64 Hu128. unfold run_forwarder. later. Qed.

Lemma finish_packet_later l p : steps_in rng_later (finish_packet l p : NM world _).
Proof using Hpre. unfold finish_packet. later. Qed.
Hint Resolve finish_packet_later : later.

Lemma yield_loop_later l p : steps_in rng_later (yield_loop l p : NM world _).
Proof using Hpre. unfold yield_loop. later. Qed.
Hint Resolve yield_loop_later : later.

Lemma sleep_done_later l p : steps_in rng_later (sleep_done l p : NM world _).
Proof using Hpre. unfold sleep_done. later. Qed.
Hint Resolve sleep_done_later : later.

Lemma sleep_loops_later fuel l p :
  steps_in rng_later (sleep_loop fuel l p : NM world _) ∧
  steps_in rng_later (wait_for_node fuel l p : NM world _) ∧
  steps_in rng_later (recheck_link fuel l p : NM world _).
Proof using Hpre.
  induction fuel as [|fuel (IH1 & IH2 & IH3)]; simpl.
  { split_and!; apply steps_in_panic. }
  split_and!; later; done.
Qed.

Lemma run_link_later l : steps_in rng_later (run_link timer_elapsed l : NM world _).
Proof using Hpre.
  pose proof (λ fuel l p, proj1 (sleep_loops_later fuel l p)).
  pose proof (λ fuel l p, proj1 (proj2 (sleep_loops_later fuel l p))).
  pose proof (λ fuel l p, proj2 (proj2 (sleep_loops_later fuel l p))).
  unfold run_link, start_packet, acquire_permit, start_sleep. later; done.
Qed.

Lemma process_event_later e : steps_in rng_later (process_event topo e : NM world _).
Proof using Hpre. destruct e as [e|e]; simpl; [unfold process_link_event|unfold process_node_event]; later. Qed.
Hint Resolve process_event_later : later.

Lemma run_events_later s : steps_in rng_later (run_events timer_elapsed topo s : NM world _).
Proof using Hpre. unfold run_events. later. Qed.

Lemma step_later start w w' : NetStep rng_f64 rng_u128 timer_elapsed topo start w w' → rng_later w w'.
Proof using Hpre Hf64 Hu128.
  destruct 1 as [n w w' Hm|l w w' Hm|l w w' Hm|w w' Hm|n t w w' Hm|n m b r w w' Hm|t w _]; [..|by unfold rng_later].
  - by eapply run_buffer_later.
  - by eapply run_link_later.
  - by eapply run_forwarder_later.
  - by eapply run_events_later.
  - by eapply try_send_later.
  - by eapply poll_recv_later.
Qed.

Lemma reach_later start w w' : Reach rng_f64 rng_u128 timer_elapsed topo start w w' → rng_later w w'.
Proof using Hpre Hf64 Hu128.
  induction 1 as [|x y z Hs _ IH]; [done|]. etrans; [by eapply step_later|exact IH].
Qed.
End forward.

(** ** Ids that are drawn once *)

(** What the custody of packets needs to know of a generator: [seen r i] once [i] was drawn, and
    [live r] as long as nothing was drawn twice. *)
Class PacketIds {R} (rng_f64 : R → f64 * R) (rng_u128 : R → Z * R) (seen : R → Z → Prop) (live : R → Prop) : Prop := {
  ids_drawn r i r' : rng_u128 r = (i, r') → seen r' (wrap128 i) ∧ (live r' → ¬ seen r (wrap128 i));
  ids_u128 r i r' : rng_u128 r = (i, r') → (∀ j, seen r j → seen r' j) ∧ (live r' → live r);
  ids_f64 r x r' : rng_f64 r = (x, r') → (∀ j, seen r j → seen r' j) ∧ (live r' → live r);
}.

(** The state of the generator has moved on, and keeps what it has seen. *)
Definition ids_later {R} (seen : R → Z → Prop) (live : R → Prop) (r r' : R) : Prop :=
  (∀ j, seen r j → seen r' j) ∧ (live r' → live r).

#[export] Instance ids_later_preorder {R} seen live : PreOrder (@ids_later R seen live).
Proof. unfold ids_later. split; [by split|]. intros x y z [] []. split; auto. Qed.

(** ** The recording generator *)
Section recorded.
Context {R : Type} (rng_f64 : R → f64 * R) (rng_u128 : R → Z * R).

(** Draws that are no packet ids leave the record alone. *)
Definition unrecorded {A} (draw : R → A * R) (r : R * list Z) : A * (R * list Z) :=
  let '(x, r') := draw r.1 in (x, (r', r.2)).

Definition recorded_f64 : R * list Z → f64 * (R * list Z) := unrecorded rng_f64.
Definition recorded_u128 (r : R * list Z) : Z * (R * list Z) :=
  let '(i, r') := rng_u128 r.1 in (i, (r', wrap128 i :: r.2)).

#[export] Instance recorded_ids :
  PacketIds recorded_f64 recorded_u128 (λ r i, i ∈ r.2) (λ r, NoDup r.2).
Proof.
  split; intros [r l] x [r' l']; unfold recorded_u128, recorded_f64, unrecorded; simpl;
    destruct (_ r) as [y s]; intros [= <- <- <-].
  - split; [left|]. by intros [? _]%NoDup_cons.
  - split; [by right|]. by intros [_ ?]%NoDup_cons.
  - done.
Qed.
End recorded.

(** The ids that were drawn, the last one first. *)
Definition drawn {H R} (w : World H (R * list Z)) : list Z := (w_rng w).2.
