(* ===== verification/NetworkLinks.v ===== *)
(** * Links that are down do not send

    The status of every link of the network is the one its log records, and
    the log has no transmission over a link that is down. *)

From stdpp Require Import relations.
From S2P Require Import Prelude Float Ip Spec Event Transmit SimStep Replayed Verifier History.
From S2P Require Import Heap InboundQueue Node Link Network NetworkInv.

(** No packet is sent over a link while the latest status event of the link
    says it is down. *)
Definition online_sends (log : list SimulationStep) : Prop :=
  ∀ pre t k post, log = pre ++ mkStep t (PacketInTransit k) :: post →
    link_status_at (rev pre) (tr_link_id k) = LinkUp.

(** Steps that are neither a transmission nor a status event of a link. *)
Definition neutral_kind (k : SimulationStepKind) : Prop :=
  match k with
  | PacketInTransit _ => False
  | NetworkEventStep e => match ev_link e with Some p => le_status p = None | None => True end
  | _ => True
  end.

Lemma link_status_at_neutral t k h l :
  neutral_kind k → link_status_at (mkStep t k :: h) l = link_status_at h l.
Proof.
  intros Hk. simpl. unfold link_event. simpl. destruct k as [| | | | | | | |e]; try done.
  simpl in Hk. destruct (ev_link e); simpl; [|done]. rewrite Hk. by case_decide.
Qed.

Lemma link_status_at_transit t k h l :
  link_status_at (mkStep t (PacketInTransit k) :: h) l = link_status_at h l.
Proof. done. Qed.

Lemma snoc_split {A} (log pre post : list A) s x :
  log ++ [s] = pre ++ x :: post →
  (∃ post', post = post' ++ [s] ∧ log = pre ++ x :: post') ∨ (pre = log ∧ x = s ∧ post = []).
Proof.
  destruct post as [|y post _] using rev_ind.
  - intros [-> [= ->]]%app_inj_tail. by right.
  - rewrite app_comm_cons, app_assoc. intros [-> ->]%app_inj_tail. left. by exists post.
Qed.

Lemma online_sends_neutral log t k :
  online_sends log → neutral_kind k → online_sends (log ++ [mkStep t k]).
Proof.
  intros Hlog Hk pre t' k' post [(post' & -> & Heq)|(-> & [= -> <-] & ->)]%snoc_split;
    [by eapply Hlog|done].
Qed.

Lemma online_sends_transit log t k :
  online_sends log → link_status_at (rev log) (tr_link_id k) = LinkUp →
  online_sends (log ++ [mkStep t (PacketInTransit k)]).
Proof.
  intros Hlog Hk pre t' k' post [(post' & -> & Heq)|(-> & [= -> ->] & ->)]%snoc_split;
    [by eapply Hlog|done].
Qed.

Lemma online_sends_event log t e :
  online_sends log → online_sends (log ++ [mkStep t (NetworkEventStep e)]).
Proof.
  intros Hlog pre t' k' post [(post' & -> & Heq)|(-> & [=] & ->)]%snoc_split.
  by eapply Hlog.
Qed.

Section network.
Context {H : Type} {HH : BinaryHeap PrioritizedInTransitData above H}.
Context {R : Type} (rng_f64 : R → f64 * R) (rng_u128 : R → Z * R).
Context (timer_elapsed : Z → Z → bool) (topo : Topology).

Abbreviation world := (World H R).

(** The links known by their id, and their status. *)
Record status_inv (w : world) : Prop := mkStatusInv {
  si_id : ∀ l lk, w_links w !! l = Some lk → links_by_id topo !! l_id lk = Some l;
  si_known : ∀ id l, links_by_id topo !! id = Some l →
    ∃ lk, w_links w !! l = Some lk ∧ l_id lk = id;
  si_status : ∀ l lk, w_links w !! l = Some lk →
    link_is_down (l_status lk) = bool_decide (link_status_at (rev (w_log w)) (l_id lk) = LinkDown);
  si_online : online_sends (w_log w);
}.

Definition keeps_status (w w' : world) : Prop := status_inv w → status_inv w'.

#[export] Instance keeps_status_preorder : PreOrder keeps_status.
Proof. unfold keeps_status. split; intros ?; tauto. Qed.

Lemma status_inv_frame (w w' : world) :
  w_links w' = w_links w → w_log w' = w_log w → status_inv w → status_inv w'.
Proof. intros Hl Hg [? ? ? ?]. split; rewrite ?Hl, ?Hg; done. Qed.

Lemma status_inv_record w k :
  neutral_kind k → status_inv w →
  status_inv (set_w_log (record (mkStep (w_now w) k) (w_log w)) w).
Proof.
  intros Hk [Hid Hkn Hst Hon]. split; simpl; unfold record; try done.
  - intros l lk Hl. rewrite rev_app_distr. cbn [rev app].
    rewrite link_status_at_neutral by done. by eapply Hst.
  - by apply online_sends_neutral.
Qed.

(** A link may change anything but its id and whether it is up. *)
Lemma status_inv_put w l lk lk' :
  w_links w !! l = Some lk → l_id lk' = l_id lk →
  link_is_down (l_status lk') = link_is_down (l_status lk) →
  status_inv w → status_inv (set_w_links (<[l := lk']> (w_links w)) w).
Proof.
  intros Hl Hi Hs [Hid Hkn Hst Hon]. split; simpl; try done.
  - intros m mk. destruct (decide (m = l)) as [->|].
    + rewrite lookup_insert_eq. intros [= <-]. rewrite Hi. by apply Hid.
    + rewrite lookup_insert_ne by done. apply Hid.
  - intros id m Hm. destruct (Hkn id m Hm) as (mk & Hmk & <-).
    destruct (decide (m = l)) as [->|].
    + exists lk'. rewrite lookup_insert_eq. simplify_eq. by rewrite Hi.
    + exists mk. by rewrite lookup_insert_ne.
  - intros m mk. destruct (decide (m = l)) as [->|].
    + rewrite lookup_insert_eq. intros [= <-]. rewrite Hi, Hs. by eapply Hst.
    + rewrite lookup_insert_ne by done. eapply Hst.
Qed.

Lemma record_keeps k :
  neutral_kind k → steps_in keeps_status (record_step (H:=H) (R:=R) k).
Proof. intros Hk w u w' [= _ <-] Hi. by apply status_inv_record. Qed.

Lemma modify_keeps (f : world → world) :
  (∀ w, w_links (f w) = w_links w ∧ w_log (f w) = w_log w) → steps_in keeps_status (nmodify f).
Proof. intros Hf w u w' [= _ <-]. destruct (Hf w). intros ?; by apply (status_inv_frame w). Qed.

Lemma draw_keeps : steps_in keeps_status (draw_f64 (H:=H) rng_f64).
Proof.
  intros w u w'. unfold draw_f64. destruct (rng_f64 (w_rng w)). intros [= _ <-].
  intros ?; by apply (status_inv_frame w).
Qed.

Lemma packet_id_keeps : steps_in keeps_status (new_packet_id (H:=H) rng_u128).
Proof.
  intros w u w'. unfold new_packet_id. destruct (rng_u128 (w_rng w)). intros [= _ <-].
  intros ?; by apply (status_inv_frame w).
Qed.

Lemma fresh_keeps : steps_in keeps_status (fresh (H:=H) (R:=R)).
Proof. intros w u w' [= _ <-]. intros ?; by apply (status_inv_frame w). Qed.

(** Reading a link and writing it back with the same id and status. *)
Lemma update_link_keeps {A} l (f : @NetworkLink H → NM world A) :
  (∀ lk w a w', w_links w !! l = Some lk → f lk w = Some (a, w') → keeps_status w w') →
  steps_in keeps_status (get_net_link l ≫= f).
Proof.
  intros Hf w a w' Hm. nm_inv_step Hm. unfold get_net_link in Hm0. nm_inv Hm0. by eapply Hf.
Qed.

Create HintDb keeps discriminated.
Hint Resolve record_keeps draw_keeps packet_id_keeps fresh_keeps : keeps.
Hint Extern 1 (neutral_kind _) => exact I : keeps.

Ltac keeps :=
  repeat first
    [ solve [eauto 2 with keeps nocore]
    | (apply modify_keeps; intros ?; split; reflexivity)
    | apply steps_in_ret; apply _
    | apply steps_in_get; apply _
    | apply steps_in_some; apply _
    | apply steps_in_assert; apply _
    | apply steps_in_panic
    | apply steps_in_foreach; [apply _|intros ?]
    | apply steps_in_bind; [apply _| |intros ?]
    | case_match ].

Lemma get_node_keeps n : steps_in keeps_status (get_node n : NM world _).
Proof. unfold get_node. keeps. Qed.
Hint Resolve get_node_keeps : keeps.

Lemma put_node_keeps n nd : steps_in keeps_status (put_node n nd : NM world _).
Proof. unfold put_node. keeps. Qed.
Hint Resolve put_node_keeps : keeps.

Lemma get_net_link_keeps l : steps_in keeps_status (get_net_link l : NM world _).
Proof. unfold get_net_link. keeps. Qed.
Hint Resolve get_net_link_keeps : keeps.

Lemma set_phase_keeps l p : steps_in keeps_status (set_phase l p : NM world _).
Proof. unfold set_phase. keeps. Qed.
Hint Resolve set_phase_keeps : keeps.

Lemma fire_keeps c : steps_in keeps_status (fire c : NM world _).
Proof. unfold fire. keeps. Qed.
Hint Resolve fire_keeps : keeps.

Lemma is_fired_keeps c : steps_in keeps_status (is_fired c : NM world _).
Proof. unfold is_fired. keeps. Qed.
Hint Resolve is_fired_keeps : keeps.

Lemma is_handled_keeps p : steps_in keeps_status (is_handled p : NM world _).
Proof. unfold is_handled. keeps. Qed.
Hint Resolve is_handled_keeps : keeps.

Lemma set_handled_keeps x b : steps_in keeps_status (set_handled x b : NM world _).
Proof. unfold set_handled. keeps. Qed.
Hint Resolve set_handled_keeps : keeps.

Lemma now_keeps  : steps_in keeps_status (now : NM world _).
Proof. unfold now. keeps. Qed.
Hint Resolve now_keeps : keeps.

Lemma in_transit_data_keeps n t : steps_in keeps_status (in_transit_data rng_u128 n t : NM world _).
Proof. unfold in_transit_data. keeps. Qed.
Hint Resolve in_transit_data_keeps : keeps.

Lemma track_injected_failures_keeps nd d b x c : steps_in keeps_status (track_injected_failures nd d b x c : NM world _).
Proof. unfold track_injected_failures. keeps. Qed.
Hint Resolve track_injected_failures_keeps : keeps.

Lemma enqueue_keeps n p : steps_in keeps_status (enqueue n p : NM world _).
Proof. unfold enqueue. keeps. Qed.
Hint Resolve enqueue_keeps : keeps.

Lemma forward_keeps n d : steps_in keeps_status (forward rng_f64 rng_u128 n d : NM world _).
Proof. unfold forward. keeps. Qed.
Hint Resolve forward_keeps : keeps.

Lemma generate_packet_anomalies_keeps l : steps_in keeps_status (generate_packet_anomalies rng_f64 l : NM world _).
Proof. unfold generate_packet_anomalies. keeps. Qed.
Hint Resolve generate_packet_anomalies_keeps : keeps.

Lemma put_back_keeps l lk' w u w' lk :
  w_links w !! l = Some lk → l_id lk' = l_id lk →
  link_is_down (l_status lk') = link_is_down (l_status lk) →
  put_net_link l lk' w = Some (u, w') → keeps_status w w'.
Proof. intros Hl Hi Hs [= _ <-] ?. by eapply status_inv_put. Qed.

Lemma push_keeps l (f : @NetworkLink H → list OutgoingPacket) :
  steps_in keeps_status (lk ← get_net_link l; put_net_link l (set_l_outgoing (f lk) lk)
    : NM world ()).
Proof. apply update_link_keeps. intros lk w u w' Hl Hp. by (eapply put_back_keeps; [exact Hl| | |exact Hp]). Qed.
Hint Resolve push_keeps : keeps.

Lemma run_buffer_keeps n : steps_in keeps_status (run_buffer rng_f64 topo n : NM world _).
Proof. unfold run_buffer. keeps. Qed.
Hint Resolve run_buffer_keeps : keeps.

Lemma set_permit_keeps l b : steps_in keeps_status (set_permit l b : NM world _).
Proof.
  unfold set_permit. apply update_link_keeps. intros lk w u w' Hl Hp.
  by (eapply put_back_keeps; [exact Hl| | |exact Hp]).
Qed.
Hint Resolve set_permit_keeps : keeps.

(** A link only sends when it is up, so the transmission it records is fine. *)
Lemma send_keeps l nd p :
  steps_in keeps_status (lk ← get_net_link l;
    t ← now;
    '(lk', nd', step, _) ← nsome (link_send t nd (o_data p) (o_anomalies p) lk);
    _ ← record_step step;
    _ ← put_net_link l lk';
    put_node (o_src_node p) nd' : NM world ()).
Proof.
  apply update_link_keeps. intros lk w u w' Hl Hm. unfold now in Hm.
  nm_inv_step Hm. destruct x as [[[lk' nd'] step] woken].
  apply link_send_inv in Hm0 as (_ & Hup & -> & _ & _ & Hid & Hst & _).
  apply nm_bind_inv in Hm as ([] & w1 & [= <-] & Hm).
  apply nm_bind_inv in Hm as ([] & w2 & [= <-] & [= _ <-]).
  intros [Hi Hkn Hs Hon]. pose proof (Hs _ _ Hl) as Hs'. rewrite Hup in Hs'. simpl in Hs'.
  symmetry in Hs'. apply bool_decide_eq_false in Hs'.
  apply (status_inv_frame (set_w_links (<[l := lk']> (w_links w))
    (set_w_log (record (mkStep (w_now w) (PacketInTransit (mkInTransit (d_id (o_data p))
       (n_id nd) (l_id lk)))) (w_log w)) w))); [done..|].
  apply (status_inv_put (set_w_log (record (mkStep (w_now w) (PacketInTransit (mkInTransit
    (d_id (o_data p)) (n_id nd) (l_id lk)))) (w_log w)) w) l lk lk'); [done|done|by rewrite Hst|].
  split; simpl; unfold record; try done.
  - intros m mk Hm. rewrite rev_app_distr. simpl. by eapply Hs.
  - apply online_sends_transit; [done|]. simpl. by destruct (link_status_at _ _).
Qed.
Hint Resolve send_keeps : keeps.

Lemma finish_packet_keeps l p : steps_in keeps_status (finish_packet l p : NM world _).
Proof. unfold finish_packet. keeps. Qed.
Hint Resolve finish_packet_keeps : keeps.

Lemma yield_loop_keeps l p : steps_in keeps_status (yield_loop l p : NM world _).
Proof. unfold yield_loop. keeps. Qed.
Hint Resolve yield_loop_keeps : keeps.

Lemma sleep_done_keeps l p : steps_in keeps_status (sleep_done l p : NM world _).
Proof. unfold sleep_done. keeps. Qed.
Hint Resolve sleep_done_keeps : keeps.

Lemma sleep_loops_keep fuel l p :
  steps_in keeps_status (sleep_loop fuel l p : NM world _) ∧
  steps_in keeps_status (wait_for_node fuel l p : NM world _) ∧
  steps_in keeps_status (recheck_link fuel l p : NM world _).
Proof.
  induction fuel as [|fuel (IH1 & IH2 & IH3)]; simpl.
  { split_and!; apply steps_in_panic. }
  split_and!; keeps; done.
Qed.

Lemma sleep_loop_keeps fuel l p : steps_in keeps_status (sleep_loop fuel l p : NM world _).
Proof. apply sleep_loops_keep. Qed.
Lemma wait_for_node_keeps fuel l p : steps_in keeps_status (wait_for_node fuel l p : NM world _).
Proof. apply sleep_loops_keep. Qed.
Lemma recheck_link_keeps fuel l p : steps_in keeps_status (recheck_link fuel l p : NM world _).
Proof. apply sleep_loops_keep. Qed.
Hint Resolve sleep_loop_keeps wait_for_node_keeps recheck_link_keeps : keeps.

Lemma start_sleep_keeps l p : steps_in keeps_status (start_sleep timer_elapsed l p : NM world _).
Proof. unfold start_sleep. keeps. Qed.
Hint Resolve start_sleep_keeps : keeps.

Lemma acquire_permit_keeps l p : steps_in keeps_status (acquire_permit timer_elapsed l p : NM world _).
Proof. unfold acquire_permit. keeps. Qed.
Hint Resolve acquire_permit_keeps : keeps.

Lemma start_packet_keeps l p : steps_in keeps_status (start_packet timer_elapsed l p : NM world _).
Proof. unfold start_packet. keeps. Qed.
Hint Resolve start_packet_keeps : keeps.

Lemma take_packet_keeps l :
  steps_in keeps_status (lk ← get_net_link l;
    match l_outgoing lk with
    | [] => mret ()
    | p :: rest => _ ← put_net_link l (set_l_outgoing rest lk); start_packet timer_elapsed l p
    end : NM world ()).
Proof.
  apply update_link_keeps. intros lk w u w' Hl Hm.
  destruct (l_outgoing lk) as [|p rest]; [by injection Hm as _ <-|].
  apply nm_bind_inv in Hm as ([] & w1 & H1 & H2).
  etrans; [by (eapply put_back_keeps; [exact Hl| | |exact H1])|]. by eapply start_packet_keeps.
Qed.
Hint Resolve take_packet_keeps : keeps.

Lemma run_link_keeps l : steps_in keeps_status (run_link timer_elapsed l : NM world _).
Proof. unfold run_link. keeps. Qed.
Hint Resolve run_link_keeps : keeps.

Lemma deliver_keeps l d : steps_in keeps_status (deliver rng_f64 rng_u128 topo l d : NM world _).
Proof. unfold deliver. keeps. Qed.
Hint Resolve deliver_keeps : keeps.

Lemma run_forwarder_keeps l :
  steps_in keeps_status (run_forwarder rng_f64 rng_u128 timer_elapsed topo l : NM world _).
Proof.
  unfold run_forwarder. apply steps_in_bind; [apply _|apply steps_in_get; apply _|intros w0].
  apply steps_in_bind; [apply _|apply steps_in_some; apply _|intros f].
  apply update_link_keeps. intros lk w u w' Hl Hm.
  apply nm_bind_inv in Hm as ([[res f'] queue] & w1 & Hp & Hm).
  apply nsome_inv in Hp as [_ ->].
  apply nm_bind_inv in Hm as ([] & w2 & H1 & H2).
  etrans; [by (eapply put_back_keeps; [exact Hl| | |exact H1])|]. revert H2.
  match goal with |- ?m w2 = _ → _ => enough (steps_in keeps_status m) as Hk by apply Hk end.
  keeps.
Qed.
Hint Resolve run_forwarder_keeps : keeps.

Lemma process_node_event_keeps e : steps_in keeps_status (process_node_event topo e : NM world _).
Proof. unfold process_node_event. keeps. Qed.
Hint Resolve process_node_event_keeps : keeps.

(** The status a link event sets is recorded in the same instant. *)
Lemma process_link_event_keeps e :
  steps_in keeps_status (process_link_event topo e : NM world _).
Proof.
  intros w u w' Hm Hinv. unfold process_link_event in Hm.
  destruct (links_by_id topo !! le_link_id e) as [l|] eqn:Hl; [|by injection Hm as _ <-].
  destruct (le_status e) as [st|] eqn:Hst.
  2: { apply nm_bind_inv in Hm as ([] & w1 & H1 & H2). injection H1 as <-.
       injection H2 as _ <-. apply status_inv_record; [|done]. by simpl. }
  apply nm_bind_inv in Hm as ([] & w1 & H1 & H2). injection H2 as _ <-.
  unfold get_net_link, now in H1. nm_inv_step H1. injection H2 as <- <-. simpl in H1.
  destruct (link_update_status (w_now w) (w_next w) st x) as [lk' fired] eqn:Hup.
  apply nm_bind_inv in H1 as ([] & w2 & [= <-] & H1).
  apply link_update_status_spec in Hup as (Hdown & Hid & _).
  destruct Hinv as [Hi Hkn Hs Hon].
  assert (w_links w1 = <[l := lk']> (w_links w) ∧ w_log w1 = w_log w) as [E1 E2].
  { destruct fired; by injection H1 as <-. }
  destruct (Hkn _ _ Hl) as (lk & Hlk & Hlid). simplify_eq.
  assert (∀ id, link_status_at (rev (w_log w ++ [mkStep (w_now w1)
    (NetworkEventStep (mkNetEvent (Some e) None))])) id =
    if decide (le_link_id e = id) then st else link_status_at (rev (w_log w)) id) as Hat.
  { intros id. rewrite rev_app_distr. simpl. unfold link_event. simpl.
    rewrite Hst. by case_decide. }
  split; simpl; unfold record; rewrite ?E1, ?E2.
  - intros m mk. destruct (decide (m = l)) as [->|].
    + rewrite lookup_insert_eq. intros [= <-]. by rewrite Hid, Hlid.
    + rewrite lookup_insert_ne by done. apply Hi.
  - intros id m Hm. destruct (Hkn id m Hm) as (mk & Hmk & <-).
    destruct (decide (m = l)) as [->|].
    + exists lk'. rewrite lookup_insert_eq. simplify_eq. by rewrite Hid.
    + exists mk. by rewrite lookup_insert_ne.
  - intros m mk. rewrite Hat. destruct (decide (m = l)) as [->|Hne].
    + rewrite lookup_insert_eq. intros [= <-]. rewrite Hid, Hlid, decide_True by done.
      rewrite Hdown. by destruct st.
    + rewrite lookup_insert_ne by done. intros Hmk.
      rewrite decide_False; [by eapply Hs|]. intros Heq. apply Hi in Hmk. congruence.
  - by apply online_sends_event.
Qed.
Hint Resolve process_link_event_keeps : keeps.

Lemma process_event_keeps e : steps_in keeps_status (process_event topo e : NM world _).
Proof. unfold process_event. keeps. Qed.
Hint Resolve process_event_keeps : keeps.

Lemma run_events_keeps s : steps_in keeps_status (run_events timer_elapsed topo s : NM world _).
Proof. unfold run_events. keeps. Qed.
Hint Resolve run_events_keeps : keeps.

Lemma try_send_keeps n t : steps_in keeps_status (try_send rng_f64 rng_u128 n t : NM world _).
Proof. unfold try_send. keeps. Qed.
Hint Resolve try_send_keeps : keeps.

Lemma read_packet_keeps n d s : steps_in keeps_status (read_packet n d s : NM world _).
Proof. unfold read_packet. keeps. Qed.
Hint Resolve read_packet_keeps : keeps.

Lemma poll_recv_keeps n m b : steps_in keeps_status (poll_recv timer_elapsed n m b : NM world _).
Proof. unfold poll_recv. keeps. Qed.
Hint Resolve poll_recv_keeps : keeps.

Lemma initial_events_keep start_links start_nodes :
  steps_in keeps_status (_ ← nforeach (process_link_event topo) start_links;
    nforeach (process_node_event topo) start_nodes : NM world _).
Proof. keeps. Qed.

Lemma reach_status start w w' :
  Reach rng_f64 rng_u128 timer_elapsed topo start w w' → status_inv w → status_inv w'.
Proof.
  induction 1 as [|x y z Hs _ IH]; [done|]. intros Hx. apply IH. clear IH.
  assert (∀ {A} (m : NM world A) a w w', steps_in keeps_status m → m w = Some (a, w') →
    status_inv w → status_inv w') as Hgo.
  { intros A m a w1 w2 Hk Hm. by apply (Hk _ _ _ Hm). }
  destruct Hs; try (by eapply Hgo; [|done|done]; keeps). by apply (status_inv_frame w).
Qed.
End network.
