(* ===== verification/NetworkBuffers.v ===== *)
(** * The buffers stay within their capacity

    The bytes a node has reserved for packets on their way out never exceed the
    capacity of its buffer, whatever the tasks do and in whatever order.

    A packet's bytes are reserved while it waits in the node's channel and,
    once the node's task has handed it to the links, until one of the links
    handles it.  The ghost map [g] of the invariant holds the packets handed
    to the links and not handled yet, by their watch channel. *)

From stdpp Require Import relations.
From S2P Require Import Prelude Float Ip Spec Event Transmit SimStep Heap InboundQueue Node.
From S2P Require Import Link Network NetworkInv.

Definition queued (nd : Node) : Z := sumZ (λ p, d_size (b_data p)) (n_outbound nd).

Abbreviation ghost := (gmap watch_ref (node_ref * Z)).

Definition reserved_by (n : node_ref) (e : node_ref * Z) : Z :=
  if decide (e.1 = n) then e.2 else 0.

(** The bytes of node [n] that are handed to the links. *)
Definition handed (g : ghost) (n : node_ref) : Z := map_sumZ (reserved_by n) g.

Definition phase_packet (ph : LinkPhase) : option OutgoingPacket :=
  match ph with
  | AwaitPacket => None
  | AwaitPermit p | AwaitBandwidth p _ | AwaitLinkUp p _ | AwaitNodeUp p _ | Yielded p => Some p
  end.

(** The packet is the one its watch channel, created before [next], stands
    for. *)
Definition packet_ok (g : ghost) (next : nat) (p : OutgoingPacket) : Prop :=
  (o_handled p < next)%nat ∧ ∀ e, g !! o_handled p = Some e → e = (o_src_node p, d_size (o_data p)).

Lemma packet_ok_delete g next x p : packet_ok g next p → packet_ok (delete x g) next p.
Proof. intros [Hx Hp]. split; [done|]. intros e [_ He]%lookup_delete_Some. by apply Hp. Qed.

Lemma packet_ok_next g next next' p :
  (next ≤ next')%nat → packet_ok g next p → packet_ok g next' p.
Proof. intros Hle [? ?]. split; [lia|done]. Qed.

Lemma packet_ok_insert g next n s p :
  packet_ok g next p → packet_ok (<[next := (n, s)]> g) (S next) p.
Proof.
  intros [Hx Hp]. split; [lia|]. intros e He. rewrite lookup_insert_ne in He by lia. by apply Hp.
Qed.

(** The packet a computation handles, if any. *)
Definition held (g : ghost) (next : nat) (op : option OutgoingPacket) : Prop :=
  ∀ p, op = Some p → packet_ok g next p.

Lemma handed_insert g n m s x :
  g !! x = None → handed (<[x := (m, s)]> g) n = (if decide (m = n) then s else 0) + handed g n.
Proof. intros Hx. by apply (map_sumZ_insert (reserved_by n) g x (m, s)). Qed.

Lemma handed_delete g n m s x :
  g !! x = Some (m, s) → handed (delete x g) n = handed g n - (if decide (m = n) then s else 0).
Proof. intros Hx. by apply (map_sumZ_delete (reserved_by n) g x (m, s)). Qed.

(** Distinct packets that were handed over by a node. *)
Lemma handed_list (g : ghost) n (ps : list OutgoingPacket) :
  (∀ x m s, g !! x = Some (m, s) → 0 ≤ s) → NoDup (o_handled <$> ps) →
  (∀ p, p ∈ ps → g !! o_handled p = Some (n, d_size (o_data p))) →
  sumZ (λ p, d_size (o_data p)) ps ≤ handed g n.
Proof.
  revert g. induction ps as [|p ps IH]; intros g Hs Hnd Hp; simpl.
  { apply map_sumZ_nonneg. intros x [m s] Hx. unfold reserved_by. simpl. specialize (Hs x m s Hx).
    case_decide; lia. }
  rewrite fmap_cons, NoDup_cons in Hnd. destruct Hnd as [Hnot Hnd].
  specialize (IH (delete (o_handled p) g)). rewrite (handed_delete g n n (d_size (o_data p))), decide_True in IH
    by (done || apply Hp; left).
  enough (sumZ (λ p, d_size (o_data p)) ps ≤ handed g n - d_size (o_data p)) by lia.
  apply IH; [|done|].
  - intros x m s [_ Hx]%lookup_delete_Some. by eapply Hs.
  - intros q Hq. rewrite lookup_delete_ne; [apply Hp; by right|].
    intros Heq. apply Hnot. rewrite Heq. apply list_elem_of_fmap. by exists q.
Qed.

Section network.
Context {H : Type} {HH : BinaryHeap PrioritizedInTransitData above H}.
Context {R : Type} (rng_f64 : R → f64 * R) (rng_u128 : R → Z * R).
Context (timer_elapsed : Z → Z → bool) (topo : Topology).
(** The id and the capacity of every node. *)
Context (cap : gmap node_ref (string * Z)).

Abbreviation world := (World H R).

Record buf_inv (g : ghost) (w : world) : Prop := mkBufInv {
  bi_dom : ∀ x, w_handled w !! x = Some false ↔ is_Some (g !! x);
  bi_fresh : ∀ x, is_Some (w_handled w !! x) → (x < w_next w)%nat;
  bi_queue : ∀ l lk p, w_links w !! l = Some lk → p ∈ l_outgoing lk → packet_ok g (w_next w) p;
  bi_phase : ∀ l ph p, w_link_tasks w !! l = Some ph → phase_packet ph = Some p →
    packet_ok g (w_next w) p;
  bi_size : ∀ x m s, g !! x = Some (m, s) → 0 ≤ s;
  bi_node : ∀ n nd, w_nodes w !! n = Some nd → ∃ c, cap !! n = Some (n_id nd, c) ∧
    0 ≤ n_available nd ∧ n_available nd + queued nd + handed g n ≤ c < 2 ^ 64;
}.

(** Link [l] has the packet, in its channel or in its task. *)
Definition offered (w : world) (l : link_ref) (p : OutgoingPacket) : Prop :=
  (∃ lk, w_links w !! l = Some lk ∧ p ∈ l_outgoing lk) ∨
  (∃ ph, w_link_tasks w !! l = Some ph ∧ phase_packet ph = Some p).

(** Packets of node [n] that links have and none has handled, no two for the same packet. *)
Definition pending (w : world) (n : node_ref) (ps : list OutgoingPacket) : Prop :=
  NoDup (o_handled <$> ps) ∧
  ∀ p, p ∈ ps → o_src_node p = n ∧ w_handled w !! o_handled p = Some false ∧ ∃ l, offered w l p.

Lemma pending_handed g w n ps :
  buf_inv g w → pending w n ps → sumZ (λ p, d_size (o_data p)) ps ≤ handed g n.
Proof.
  intros Hi [Hnd Hps]. apply handed_list; [by apply Hi|done|]. intros p Hp.
  destruct (Hps p Hp) as (<- & Hh & l & Ho).
  destruct (proj1 (bi_dom _ _ Hi _) Hh) as [e He].
  assert (packet_ok g (w_next w) p) as [_ Hok].
  { destruct Ho as [(lk & Hl & Hin)|(ph & Hl & Hin)]; [by eapply (bi_queue _ _ Hi)|by eapply (bi_phase _ _ Hi)]. }
  by rewrite He, (Hok e He).
Qed.

Lemma handed_nonneg g w n : buf_inv g w → 0 ≤ handed g n.
Proof.
  intros Hi. apply map_sumZ_nonneg. intros x [m s] Hx. unfold reserved_by. simpl.
  pose proof (bi_size _ _ Hi _ _ _ Hx). case_decide; lia.
Qed.

Lemma queued_nonneg nd : 0 ≤ queued nd.
Proof. apply sumZ_nonneg. intros p _. apply packet_size_range. Qed.

(** A computation that handles the packet [op], if any, keeps the invariant. *)
Definition keeps_buf (op : option OutgoingPacket) (w w' : world) : Prop :=
  ∀ g, buf_inv g w → held g (w_next w) op → ∃ g', buf_inv g' w' ∧ held g' (w_next w') op.

#[export] Instance keeps_buf_preorder p : PreOrder (keeps_buf p).
Proof.
  split.
  - intros w g ? ?. by exists g.
  - intros x y z Hxy Hyz g Hx Hp. destruct (Hxy g Hx Hp) as (g1 & ? & ?). by apply (Hyz g1).
Qed.

(** Worlds that agree on everything the invariant talks about. *)
Lemma buf_inv_frame g (w w' : world) :
  w_nodes w' = w_nodes w → w_links w' = w_links w → w_link_tasks w' = w_link_tasks w →
  w_handled w' = w_handled w → (w_next w ≤ w_next w')%nat → buf_inv g w → buf_inv g w'.
Proof.
  intros En El Et Eh Ex [? Hf Hq Hp ? ?]. split; rewrite ?En, ?El, ?Et, ?Eh; try done.
  - intros x Hx. specialize (Hf x Hx). lia.
  - intros l lk p Hl Hin. eapply packet_ok_next; [done|]. by eapply Hq.
  - intros l ph p Hl Hin. eapply packet_ok_next; [done|]. by eapply Hp.
Qed.

Lemma buf_inv_put_node g w n nd nd' :
  w_nodes w !! n = Some nd → n_id nd' = n_id nd → 0 ≤ n_available nd' →
  n_available nd' + queued nd' ≤ n_available nd + queued nd →
  buf_inv g w → buf_inv g (set_w_nodes (<[n := nd']> (w_nodes w)) w).
Proof.
  intros Hn Hid Ha Hle [? ? ? ? ? Hnode]. split; simpl; try done.
  intros m md. destruct (decide (m = n)) as [->|].
  - rewrite lookup_insert_eq. intros [= <-]. destruct (Hnode n nd Hn) as (c & ? & ? & ?).
    exists c. rewrite Hid. split; [done|lia].
  - rewrite lookup_insert_ne by done. apply Hnode.
Qed.

Lemma buf_inv_put_link g w l lk' :
  (∀ p, p ∈ l_outgoing lk' → packet_ok g (w_next w) p) →
  buf_inv g w → buf_inv g (set_w_links (<[l := lk']> (w_links w)) w).
Proof.
  intros Hout [? ? Hq ? ? ?]. split; simpl; try done.
  intros m mk p. destruct (decide (m = l)) as [->|].
  - rewrite lookup_insert_eq. intros [= <-]. apply Hout.
  - rewrite lookup_insert_ne by done. apply Hq.
Qed.

Lemma buf_inv_set_phase g w l ph :
  (∀ p, phase_packet ph = Some p → packet_ok g (w_next w) p) →
  buf_inv g w → buf_inv g (set_w_link_tasks (<[l := ph]> (w_link_tasks w)) w).
Proof.
  intros Hph [? ? ? Hp ? ?]. split; simpl; try done.
  intros m ph' p. destruct (decide (m = l)) as [->|].
  - rewrite lookup_insert_eq. intros [= <-]. apply Hph.
  - rewrite lookup_insert_ne by done. apply Hp.
Qed.

(** *** Computations *)
Section packet.
Context (p : option OutgoingPacket).

Lemma modify_buf (f : world → world) :
  (∀ w, w_nodes (f w) = w_nodes w ∧ w_links (f w) = w_links w ∧
    w_link_tasks (f w) = w_link_tasks w ∧ w_handled (f w) = w_handled w ∧
    w_next (f w) = w_next w) →
  steps_in (keeps_buf p) (nmodify f).
Proof.
  intros Hf w u w' [= _ <-] g Hi Hp. destruct (Hf w) as (? & ? & ? & ? & Hx).
  exists g. rewrite Hx. split; [|done]. apply (buf_inv_frame g w); try done. by rewrite Hx.
Qed.

Lemma record_buf k : steps_in (keeps_buf p) (record_step (H:=H) (R:=R) k).
Proof. by apply modify_buf. Qed.

Lemma draw_buf : steps_in (keeps_buf p) (draw_f64 (H:=H) rng_f64).
Proof.
  intros w u w'. unfold draw_f64. destruct (rng_f64 (w_rng w)). intros [= _ <-] g Hi Hp.
  exists g. split; [|done]. by apply (buf_inv_frame g w).
Qed.

Lemma packet_id_buf : steps_in (keeps_buf p) (new_packet_id (H:=H) rng_u128).
Proof.
  intros w u w'. unfold new_packet_id. destruct (rng_u128 (w_rng w)). intros [= _ <-] g Hi Hp.
  exists g. split; [|done]. by apply (buf_inv_frame g w).
Qed.

Lemma fresh_buf : steps_in (keeps_buf p) (fresh (H:=H) (R:=R)).
Proof.
  intros w u w' [= _ <-] g Hi Hp. exists g. split.
  - apply (buf_inv_frame g w); try done. simpl. lia.
  - intros q Hq. eapply packet_ok_next; [|by apply Hp]. simpl. lia.
Qed.

Lemma set_phase_buf l ph :
  phase_packet ph = None ∨ (∃ q q', phase_packet ph = Some q ∧ p = Some q' ∧
    o_handled q = o_handled q' ∧ o_src_node q = o_src_node q' ∧ o_data q = o_data q') →
  steps_in (keeps_buf p) (set_phase l ph : NM world _).
Proof.
  intros Hph w u w' [= _ <-] g Hi Hp. exists g. split; [|done].
  apply buf_inv_set_phase; [|done]. intros q Hq.
  destruct Hph as [?|(q1 & q2 & Hq1 & -> & E1 & E2 & E3)]; [congruence|].
  assert (q1 = q) as -> by congruence. destruct (Hp q2 eq_refl) as [Hx Hg].
  split; [by rewrite E1|]. intros e. rewrite E1, E2, E3. apply Hg.
Qed.

(** Reading a node and writing it back, without using more of the buffer. *)
Lemma update_node_buf {A} n (f : Node → NM world A) :
  (∀ nd w a w', w_nodes w !! n = Some nd → f nd w = Some (a, w') → keeps_buf p w w') →
  steps_in (keeps_buf p) (get_node n ≫= f).
Proof.
  intros Hf w a w' Hm. nm_inv_step Hm. unfold get_node in Hm0. nm_inv Hm0. by eapply Hf.
Qed.

Lemma update_link_buf {A} l (f : @NetworkLink H → NM world A) :
  (∀ lk w a w', w_links w !! l = Some lk → f lk w = Some (a, w') → keeps_buf p w w') →
  steps_in (keeps_buf p) (get_net_link l ≫= f).
Proof.
  intros Hf w a w' Hm. nm_inv_step Hm. unfold get_net_link in Hm0. nm_inv Hm0. by eapply Hf.
Qed.

Lemma put_node_buf n nd nd' (w w' : world) u :
  w_nodes w !! n = Some nd → n_id nd' = n_id nd → n_available nd' = n_available nd →
  n_outbound nd' = n_outbound nd → put_node n nd' w = Some (u, w') → keeps_buf p w w'.
Proof.
  intros Hn Hid Ha Ho [= _ <-] g Hi Hp. exists g. split; [|done].
  apply (buf_inv_put_node _ _ _ nd); try done.
  - rewrite Ha. by destruct (bi_node _ _ Hi _ _ Hn) as (? & _ & ? & _).
  - unfold queued. rewrite Ha, Ho. lia.
Qed.

Lemma put_link_buf l lk lk' (w w' : world) u :
  w_links w !! l = Some lk → (∀ q, q ∈ l_outgoing lk' → q ∈ l_outgoing lk) →
  put_net_link l lk' w = Some (u, w') → keeps_buf p w w'.
Proof.
  intros Hl Ho [= _ <-] g Hi Hp. exists g. split; [|done].
  apply buf_inv_put_link; [|done]. intros q Hq. eapply (bi_queue _ _ Hi); [done|]. by apply Ho.
Qed.

(** Storing a packet takes from the available bytes what it adds to the
    queue. *)
Lemma enqueue_buf n packet : steps_in (keeps_buf p) (enqueue n packet : NM world _).
Proof.
  unfold enqueue. apply update_node_buf. intros nd w u w' Hn Hm.
  nm_inv_step Hm. destruct x as [stored nd'].
  intros g Hi Hp. destruct (bi_node _ _ Hi _ _ Hn) as (c & _ & Ha & Hc).
  pose proof (queued_nonneg nd). pose proof (handed_nonneg g w n Hi).
  pose proof (packet_size_range (d_transmit (b_data packet))) as Hsz.
  unfold enqueue_outbound in Hm0.
  destruct (reserve (d_size (b_data packet)) (n_available nd)) as [ok avail] eqn:Hr.
  apply reserve_ok in Hr as [Hav ->]; [|apply packet_size_range|lia].
  destruct ok; [destruct (n_outbound_open nd); [|done]|]; injection Hm0 as <- <-; simpl in Hm.
  - injection Hm as _ <-. exists g. split; [|done].
    apply (buf_inv_put_node _ _ _ nd); try done. simpl. unfold queued. simpl.
    rewrite sumZ_app. simpl. lia.
  - by apply (record_buf _ _ _ _ Hm g).
Qed.
End packet.

Create HintDb bufs discriminated.
Hint Resolve record_buf draw_buf packet_id_buf fresh_buf enqueue_buf : bufs.

Ltac bufs :=
  repeat first
    [ solve [eauto 2 with bufs nocore]
    | (apply modify_buf; intros ?; split_and!; reflexivity)
    | (apply set_phase_buf; solve [by left | right; by eauto 10])
    | apply steps_in_ret; apply _
    | apply steps_in_get; apply _
    | apply steps_in_some; apply _
    | apply steps_in_assert; apply _
    | apply steps_in_panic
    | apply steps_in_foreach; [apply _|intros ?]
    | apply steps_in_bind; [apply _| |intros ?]
    | case_match ].

Lemma get_node_buf p n : steps_in (keeps_buf p) (get_node n : NM world _).
Proof. unfold get_node. bufs. Qed.
Hint Resolve get_node_buf : bufs.

Lemma get_net_link_buf p l : steps_in (keeps_buf p) (get_net_link l : NM world _).
Proof. unfold get_net_link. bufs. Qed.
Hint Resolve get_net_link_buf : bufs.

Lemma fire_buf p c : steps_in (keeps_buf p) (fire c : NM world _).
Proof. unfold fire. bufs. Qed.
Hint Resolve fire_buf : bufs.

Lemma is_fired_buf p c : steps_in (keeps_buf p) (is_fired c : NM world _).
Proof. unfold is_fired. bufs. Qed.
Hint Resolve is_fired_buf : bufs.

Lemma is_handled_buf p q : steps_in (keeps_buf p) (is_handled q : NM world _).
Proof. unfold is_handled. bufs. Qed.
Hint Resolve is_handled_buf : bufs.

Lemma now_buf p  : steps_in (keeps_buf p) (now : NM world _).
Proof. unfold now. bufs. Qed.
Hint Resolve now_buf : bufs.

Lemma in_transit_data_buf p n t : steps_in (keeps_buf p) (in_transit_data rng_u128 n t : NM world _).
Proof. unfold in_transit_data. bufs. Qed.
Hint Resolve in_transit_data_buf : bufs.

Lemma track_injected_failures_buf p nd d b x c : steps_in (keeps_buf p) (track_injected_failures nd d b x c : NM world _).
Proof. unfold track_injected_failures. bufs. Qed.
Hint Resolve track_injected_failures_buf : bufs.

Lemma forward_buf p n d : steps_in (keeps_buf p) (forward rng_f64 rng_u128 n d : NM world _).
Proof. unfold forward. bufs. Qed.
Hint Resolve forward_buf : bufs.

Lemma generate_packet_anomalies_buf p l : steps_in (keeps_buf p) (generate_packet_anomalies rng_f64 l : NM world _).
Proof. unfold generate_packet_anomalies. bufs. Qed.
Hint Resolve generate_packet_anomalies_buf : bufs.

Lemma set_permit_buf p l b : steps_in (keeps_buf p) (set_permit l b : NM world _).
Proof.
  unfold set_permit. apply update_link_buf. intros lk w u w' Hl Hm.
  by eapply put_link_buf; [exact Hl| |exact Hm].
Qed.
Hint Resolve set_permit_buf : bufs.

(** Handling a packet gives its bytes back. *)
Lemma handle_packet g w p :
  buf_inv g w → packet_ok g (w_next w) p → w_handled w !! o_handled p = Some false →
  g !! o_handled p = Some (o_src_node p, d_size (o_data p)) ∧
  buf_inv (delete (o_handled p) g)
    (set_w_handled (<[o_handled p := true]> (w_handled w)) w) ∧
  ∀ nd, w_nodes w !! o_src_node p = Some nd → ∃ c, cap !! o_src_node p = Some (n_id nd, c) ∧
    n_available nd + queued nd + handed (delete (o_handled p) g) (o_src_node p)
      + d_size (o_data p) ≤ c.
Proof.
  intros [Hd Hf Hq Hph Hs Hnode] Hp Hh.
  destruct (proj1 (Hd _) Hh) as [e He].
  assert (e = (o_src_node p, d_size (o_data p))) as -> by by apply Hp.
  split; [done|]. split.
  - split; simpl.
    + intros x. destruct (decide (x = o_handled p)) as [->|].
      * rewrite lookup_insert_eq, lookup_delete_eq. split; [done|by intros []].
      * by rewrite lookup_insert_ne, lookup_delete_ne by done.
    + intros x. destruct (decide (x = o_handled p)) as [->|].
      * intros _. apply Hf. by eexists.
      * rewrite lookup_insert_ne by done. apply Hf.
    + intros. eapply packet_ok_delete, Hq; done.
    + intros. eapply packet_ok_delete, Hph; done.
    + intros x m s [_ Hx]%lookup_delete_Some. by eapply Hs.
    + intros n nd Hn. destruct (Hnode n nd Hn) as (c & Hcap & ? & ?). exists c.
      split; [done|]. rewrite (handed_delete _ _ _ _ _ He).
      pose proof (packet_size_range (d_transmit (o_data p))) as Hsz.
      change (packet_size (d_transmit (o_data p))) with (d_size (o_data p)) in Hsz.
      case_decide; lia.
  - intros nd Hn. destruct (Hnode _ nd Hn) as (c & Hcap & ? & ?). exists c.
    split; [done|]. rewrite (handed_delete _ _ _ _ _ He), decide_True by done. lia.
Qed.

(** Sending a packet releases its bytes; dropping it because the buffer was
    cleared does not. *)
Lemma send_buf g (w w' : world) l p nd lk lk' nd' step woken u :
  buf_inv g w → packet_ok g (w_next w) p → w_handled w !! o_handled p = Some false →
  w_nodes w !! o_src_node p = Some nd → w_links w !! l = Some lk →
  link_send (w_now w) nd (o_data p) (o_anomalies p) lk = Some (lk', nd', step, woken) →
  (_ ← set_handled (o_handled p) true; _ ← record_step step; _ ← put_net_link l lk';
   put_node (o_src_node p) nd') w = Some (u, w') →
  ∃ g', buf_inv g' w' ∧ packet_ok g' (w_next w') p.
Proof.
  intros Hi Hp Hh Hn Hl Hs Hm.
  destruct (handle_packet g w p Hi Hp Hh) as (He & Hi' & Hcap).
  apply link_send_inv in Hs as (_ & _ & _ & _ & -> & _ & _ & _ & Hout & _).
  apply nm_bind_inv in Hm as ([] & w1 & [= <-] & Hm).
  apply nm_bind_inv in Hm as ([] & w2 & [= <-] & Hm).
  apply nm_bind_inv in Hm as ([] & w3 & [= <-] & [= _ <-]).
  exists (delete (o_handled p) g). split; [|by apply packet_ok_delete].
  destruct (bi_node _ _ Hi' _ _ Hn) as (c & Hc1 & Ha & Hc).
  destruct (Hcap nd Hn) as (c' & Hc2 & Hroom). simplify_eq.
  pose proof (queued_nonneg nd). pose proof (handed_nonneg _ _ (o_src_node p) Hi').
  pose proof (packet_size_range (d_transmit (o_data p))) as Hsz.
  change (packet_size (d_transmit (o_data p))) with (d_size (o_data p)) in Hsz.
  assert (release (d_size (o_data p)) (n_available nd) = n_available nd + d_size (o_data p))
    as Hrel by (unfold release; apply wrap64_small; unfold in_u64; lia).
  rewrite Hrel. destruct Hi' as [Id If Iq Ip Is In]. split; simpl in *; try done.
  - intros m mk q. destruct (decide (m = l)) as [->|].
    + rewrite lookup_insert_eq. intros [= <-]. rewrite Hout. by eapply Iq.
    + rewrite lookup_insert_ne by done. eapply Iq.
  - intros m md. destruct (decide (m = o_src_node p)) as [->|].
    + rewrite lookup_insert_eq. intros [= <-]. eexists. unfold queued in *. simpl.
      split; [done|lia].
    + rewrite lookup_insert_ne by done. apply In.
Qed.

Lemma held_some g next p : held g next (Some p) ↔ packet_ok g next p.
Proof. split; [intros Hp; by apply Hp|by intros Hp q [= <-]]. Qed.

Lemma finish_packet_buf p l : steps_in (keeps_buf (Some p)) (finish_packet l p : NM world _).
Proof.
  intros w u w' Hm g Hi Hp%held_some. unfold finish_packet in Hm.
  apply nm_bind_inv in Hm as (handled & w0 & Hh & Hm).
  unfold is_handled in Hh. nm_inv_step Hh.
  apply nm_bind_inv in Hm as ([] & w1 & Hbody & Hset).
  assert (∃ g', buf_inv g' w1 ∧ packet_ok g' (w_next w1) p) as (g' & Hi' & Hp').
  { destruct handled; [injection Hbody as <-; by exists g|].
    apply nm_bind_inv in Hbody as ([] & w2 & Hset1 & Hbody).
    apply nm_bind_inv in Hbody as (nd & w3 & Hn & Hbody).
    unfold get_node in Hn. nm_inv_step Hn. injection Hset1 as <-. simpl in Hn.
    destruct (handle_packet g w p Hi Hp Hh) as (He & Hi' & Hcap).
    destruct (cleared_from_buffer (o_in_node_since p) nd).
    - apply (record_buf (Some p)) in Hbody. apply (packet_ok_delete _ _ (o_handled p)) in Hp.
      apply held_some in Hp.
      destruct (Hbody _ Hi' Hp) as (g' & ? & ?%held_some). by exists g'.
    - apply nm_bind_inv in Hbody as (lk & w4 & Hl & Hbody).
      unfold get_net_link in Hl. nm_inv_step Hl.
      apply nm_bind_inv in Hbody as (t & w5 & [= <- <-] & Hbody).
      apply nm_bind_inv in Hbody as ([[[lk' nd'] step] woken] & w6 & Hs & Hbody).
      nm_inv_step Hs. by eapply (send_buf g w w1 l p nd lk lk'). }
  apply held_some in Hp'.
  by apply (set_phase_buf (Some p) l AwaitPacket (or_introl eq_refl) _ _ _ Hset g').
Qed.
Hint Resolve finish_packet_buf : bufs.

Lemma yield_loop_buf p l : steps_in (keeps_buf (Some p)) (yield_loop l p : NM world _).
Proof.
  unfold yield_loop. destruct (o_preferred_links p) as [|pl rest]; [bufs|].
  set (p' := mkOutgoing _ _ _ _ _ _).
  assert (steps_in (keeps_buf (Some p)) (finish_packet l p' : NM world _)) as Hfin.
  { (* the preferred links of a packet do not matter to the invariant *)
    intros w u w' Hm g Hi Hp%held_some.
    assert (held g (w_next w) (Some p')) as Hp1 by by apply held_some.
    destruct (finish_packet_buf _ _ _ _ _ Hm g Hi Hp1) as (g' & ? & Hp'%held_some).
    exists g'. split; [done|]. by apply held_some. }
  case_bool_decide; [done|]. apply steps_in_bind; [apply _|bufs|intros handled].
  destruct handled; [done|]. apply set_phase_buf. right. exists p', p. by split_and!.
Qed.
Hint Resolve yield_loop_buf : bufs.

Lemma sleep_done_buf p l : steps_in (keeps_buf (Some p)) (sleep_done l p : NM world _).
Proof. unfold sleep_done. bufs. Qed.
Hint Resolve sleep_done_buf : bufs.

Lemma sleep_loops_buf fuel l p :
  steps_in (keeps_buf (Some p)) (sleep_loop fuel l p : NM world _) ∧
  steps_in (keeps_buf (Some p)) (wait_for_node fuel l p : NM world _) ∧
  steps_in (keeps_buf (Some p)) (recheck_link fuel l p : NM world _).
Proof.
  induction fuel as [|fuel (IH1 & IH2 & IH3)]; simpl.
  { split_and!; apply steps_in_panic. }
  split_and!; bufs; done.
Qed.

Lemma sleep_loop_buf p fuel l : steps_in (keeps_buf (Some p)) (sleep_loop fuel l p : NM world _).
Proof. apply sleep_loops_buf. Qed.
Lemma wait_for_node_buf p fuel l :
  steps_in (keeps_buf (Some p)) (wait_for_node fuel l p : NM world _).
Proof. apply sleep_loops_buf. Qed.
Lemma recheck_link_buf p fuel l :
  steps_in (keeps_buf (Some p)) (recheck_link fuel l p : NM world _).
Proof. apply sleep_loops_buf. Qed.
Hint Resolve sleep_loop_buf wait_for_node_buf recheck_link_buf : bufs.

Lemma start_sleep_buf p l : steps_in (keeps_buf (Some p)) (start_sleep timer_elapsed l p : NM world _).
Proof. unfold start_sleep. bufs. Qed.
Hint Resolve start_sleep_buf : bufs.

Lemma acquire_permit_buf p l : steps_in (keeps_buf (Some p)) (acquire_permit timer_elapsed l p : NM world _).
Proof. unfold acquire_permit. bufs. Qed.
Hint Resolve acquire_permit_buf : bufs.

Lemma start_packet_buf p l : steps_in (keeps_buf (Some p)) (start_packet timer_elapsed l p : NM world _).
Proof. unfold start_packet. bufs. Qed.
Hint Resolve start_packet_buf : bufs.

(** *** The tasks *)
Definition buf_ok (w : world) : Prop := ∃ g, buf_inv g w.

Lemma buf_ok_keeps {A} (m : NM world A) w a w' :
  steps_in (keeps_buf None) m → m w = Some (a, w') → buf_ok w → buf_ok w'.
Proof.
  intros Hk Hm [g Hi]. destruct (Hk _ _ _ Hm g Hi) as (g' & ? & _); [done|by exists g'].
Qed.

Lemma run_link_ok l w u w' :
  run_link timer_elapsed l w = Some (u, w') → buf_ok w → buf_ok w'.
Proof.
  intros Hm [g Hi]. unfold run_link in Hm.
  apply nm_bind_inv in Hm as (w0 & w1 & [= <- <-] & Hm).
  apply nm_bind_inv in Hm as (ph & w1 & Hph & Hm). nm_inv_step Hph.
  pose proof (λ p, bi_phase _ _ Hi _ _ p Hph) as Hok.
  assert (∀ p (m : NM world ()) w0 g, steps_in (keeps_buf (Some p)) m → buf_inv g w0 →
    packet_ok g (w_next w0) p → m w0 = Some (u, w') → buf_ok w') as Hgo.
  { intros p m w0 g0 Hk Hi0 Hp%held_some Hw.
    destruct (Hk _ _ _ Hw g0 Hi0 Hp) as (g' & ? & _). by exists g'. }
  destruct ph as [|p|p d|p c|p c|p]; simpl in Hok;
    try (eapply (Hgo p); [|done|by apply Hok|exact Hm]; by bufs).
  apply nm_bind_inv in Hm as (lk & w1 & Hl & Hm). unfold get_net_link in Hl. nm_inv_step Hl.
  destruct (l_outgoing lk) as [|p rest] eqn:Hout; [injection Hm as _ <-; by exists g|].
  apply nm_bind_inv in Hm as ([] & w1 & Hput & Hm).
  assert (packet_ok g (w_next w) p) as Hp by (eapply (bi_queue _ _ Hi); [done|]; rewrite Hout; left).
  eapply (put_link_buf (Some p)) in Hput; [|done|by intros q Hq; rewrite Hout; right].
  apply held_some in Hp. destruct (Hput g Hi Hp) as (g1 & Hi1 & Hp1%held_some).
  eapply (Hgo p); [|done|exact Hp1|exact Hm]. bufs.
Qed.

(** The task of a node hands a packet from the node's channel to the links. *)
Lemma hand_over g w n nd packet rest :
  buf_inv g w → w_nodes w !! n = Some nd → n_outbound nd = packet :: rest →
  buf_inv (<[w_next w := (n, d_size (b_data packet))]> g)
    (set_w_handled (<[w_next w := false]> (w_handled w))
      (set_w_next (S (w_next w))
        (set_w_nodes (<[n := set_n_outbound rest nd]> (w_nodes w)) w))).
Proof.
  intros Hi Hn Hout. pose proof (handed_nonneg g w n Hi).
  assert (w_handled w !! w_next w = None) as Hnone.
  { destruct (w_handled w !! w_next w) eqn:E; [|done].
    assert (w_next w < w_next w)%nat by (apply (bi_fresh _ _ Hi); by eexists). lia. }
  assert (g !! w_next w = None) as Hg.
  { destruct (g !! w_next w) eqn:E; [|done].
    assert (w_handled w !! w_next w = Some false) by (apply (bi_dom _ _ Hi); by eexists).
    congruence. }
  destruct Hi as [Hd Hf Hq Hph Hs Hnode]. split; simpl.
  - intros x. destruct (decide (x = w_next w)) as [->|].
    + rewrite !lookup_insert_eq. split; [by eexists|done].
    + by rewrite !lookup_insert_ne by done.
  - intros x. destruct (decide (x = w_next w)) as [->|]; [lia|].
    rewrite lookup_insert_ne by done. intros Hx%Hf. lia.
  - intros l lk p Hl Hin. apply packet_ok_insert. by eapply Hq.
  - intros l ph p Hl Hin. apply packet_ok_insert. by eapply Hph.
  - intros x m s. destruct (decide (x = w_next w)) as [->|].
    + rewrite lookup_insert_eq. intros [= <- <-]. apply packet_size_range.
    + rewrite lookup_insert_ne by done. apply Hs.
  - intros m md. rewrite (handed_insert _ _ _ _ _ Hg).
    destruct (decide (m = n)) as [->|].
    + rewrite lookup_insert_eq, decide_True by done. intros [= <-].
      destruct (Hnode n nd Hn) as (c & ? & ? & ?). exists c. split; [done|].
      unfold queued in *. rewrite Hout in *. simpl in *. lia.
    + rewrite lookup_insert_ne, decide_False by done. apply Hnode.
Qed.
(** The packet is pushed to the queue of a link. *)
Lemma push_buf p l since links :
  steps_in (keeps_buf (Some p))
    (anomalies ← generate_packet_anomalies rng_f64 l;
     lk ← get_net_link l;
     put_net_link l (set_l_outgoing (l_outgoing lk ++
       [mkOutgoing since (o_src_node p) (o_data p) anomalies links (o_handled p)]) lk)
     : NM world _).
Proof.
  apply steps_in_bind; [apply _|bufs|intros anomalies]. apply update_link_buf.
  intros lk w u w' Hl [= _ <-] g Hi Hp. exists g. split; [|done].
  apply buf_inv_put_link; [|done]. simpl. intros q [Hq|Hq]%elem_of_app;
    [|apply list_elem_of_singleton in Hq as ->].
  - by eapply (bi_queue _ _ Hi).
  - by apply held_some in Hp.
Qed.

Lemma run_buffer_ok n w u w' :
  run_buffer rng_f64 topo n w = Some (u, w') → buf_ok w → buf_ok w'.
Proof.
  intros Hm [g Hi]. unfold run_buffer in Hm.
  apply nm_bind_inv in Hm as (nd & w1 & Hn & Hm). unfold get_node in Hn. nm_inv_step Hn.
  destruct (n_outbound nd) as [|packet rest] eqn:Hout; [injection Hm as _ <-; by exists g|].
  apply nm_bind_inv in Hm as (route & w1 & Hroute & Hm). nm_inv_step Hroute.
  destruct route; simpl in Hm; cycle 1.
  { injection Hm as _ <-. exists g. apply (buf_inv_put_node _ _ _ nd); try done.
    - by destruct (bi_node _ _ Hi _ _ Hn) as (? & _ & ? & _).
    - simpl. pose proof (queued_nonneg nd). unfold queued at 1. simpl. lia. }
  apply nm_bind_inv in Hm as ([] & w1 & [= <-] & Hm).
  apply nm_bind_inv in Hm as (x & w1 & [= <- <-] & Hm).
  apply nm_bind_inv in Hm as ([] & w1 & [= <-] & Hm).
  apply nm_bind_inv in Hm as (links & w1 & Hlinks & Hm). nm_inv_step Hlinks.
  pose proof (hand_over g w n nd packet rest Hi Hn Hout) as Hi'.
  set (p := mkOutgoing (b_in_node_since packet) n (b_data packet) (mkAnomalies false 0) links
    (w_next w)).
  assert (steps_in (keeps_buf (Some p)) (nforeach (λ l,
    anomalies ← generate_packet_anomalies rng_f64 l; lk ← get_net_link l;
    put_net_link l (set_l_outgoing (l_outgoing lk ++ [mkOutgoing (b_in_node_since packet) n
      (b_data packet) anomalies links (w_next w)]) lk)) links : NM world _)) as Hpush.
  { apply steps_in_foreach; [apply _|]. intros l. apply (push_buf p). }
  destruct (Hpush _ _ _ Hm _ Hi') as (g' & ? & _); [|by exists g'].
  apply held_some. split; simpl; [lia|]. intros e. rewrite lookup_insert_eq. by intros [= <-].
Qed.

(** *** The computations that handle no packet of a buffer *)
Lemma deliver_buf p l d :
  steps_in (keeps_buf p) (deliver rng_f64 rng_u128 topo l d : NM world _).
Proof. unfold deliver. bufs. Qed.
Hint Resolve deliver_buf : bufs.

Lemma run_forwarder_buf l :
  steps_in (keeps_buf None) (run_forwarder rng_f64 rng_u128 timer_elapsed topo l : NM world _).
Proof.
  unfold run_forwarder. apply steps_in_bind; [apply _|bufs|intros w0].
  apply steps_in_bind; [apply _|bufs|intros f]. apply update_link_buf. intros lk w u w' Hl Hm.
  apply nm_bind_inv in Hm as ([[res f'] queue] & w1 & Hpoll & Hm). nm_inv_step Hpoll.
  apply nm_bind_inv in Hm as ([] & w1 & Hput & Hm).
  transitivity w1; [by eapply put_link_buf; [exact Hl| |exact Hput]|]. revert Hm.
  match goal with |- ?m w1 = _ → _ => enough (steps_in (keeps_buf None) m) as Hk by apply Hk end.
  bufs.
Qed.

(** The status of a node and the time of its last clear do not matter to its
    buffer, nor does the status of a link. *)
Lemma process_node_event_buf e : steps_in (keeps_buf None) (process_node_event topo e : NM world _).
Proof.
  unfold process_node_event. case_match; [|bufs]. apply steps_in_bind; [apply _| |intros []].
  - case_match; [|bufs]. apply update_node_buf. intros nd w v w' Hn Hm.
    apply nm_bind_inv in Hm as (c & w1 & Hc & Hm). pose proof (fresh_buf None _ _ _ Hc) as Hfresh.
    injection Hc as _ <-. transitivity (set_w_next (S (w_next w)) w); [done|].
    destruct (node_update_status _ _ _) as [st fired].
    apply nm_bind_inv in Hm as ([] & w2 & Hput & Hm).
    transitivity w2; [by (eapply put_node_buf; [exact Hn| | | |exact Hput])|].
    by apply (fire_buf None) in Hm.
  - apply steps_in_bind; [apply _| |intros []; bufs]. case_match; [|bufs].
    apply update_node_buf. intros nd w u w' Hn Hm.
    apply nm_bind_inv in Hm as (t & w1 & [= <- <-] & Hm).
    by eapply put_node_buf; [exact Hn| | | |exact Hm].
Qed.

Lemma process_link_event_buf e : steps_in (keeps_buf None) (process_link_event topo e : NM world _).
Proof.
  unfold process_link_event. case_match; [|bufs].
  apply steps_in_bind; [apply _| |intros []; bufs]. case_match; [|bufs].
  apply update_link_buf. intros lk w v w' Hl Hm.
  apply nm_bind_inv in Hm as (c & w1 & Hc & Hm). pose proof (fresh_buf None _ _ _ Hc) as Hfresh.
  injection Hc as _ <-. transitivity (set_w_next (S (w_next w)) w); [done|].
  apply nm_bind_inv in Hm as (t & w2 & [= _ <-] & Hm).
  destruct (link_update_status _ _ _ _) as [lk' fired] eqn:Hup.
  apply nm_bind_inv in Hm as ([] & w2 & Hput & Hm).
  transitivity w2; [|by apply (fire_buf None) in Hm].
  eapply put_link_buf; [exact Hl| |exact Hput]. intros q.
  unfold link_update_status in Hup. repeat case_match; by injection Hup as <- _.
Qed.
Hint Resolve process_node_event_buf process_link_event_buf : bufs.

Lemma initial_events_buf start_links start_nodes :
  steps_in (keeps_buf None) (_ ← nforeach (process_link_event topo) start_links;
    nforeach (process_node_event topo) start_nodes : NM world _).
Proof. bufs. Qed.

Lemma run_events_buf s : steps_in (keeps_buf None) (run_events timer_elapsed topo s : NM world _).
Proof. unfold run_events, process_event. bufs. Qed.

Lemma try_send_buf n t : steps_in (keeps_buf None) (try_send rng_f64 rng_u128 n t : NM world _).
Proof. unfold try_send. bufs. Qed.

Lemma read_packet_buf p n d s : steps_in (keeps_buf p) (read_packet n d s : NM world _).
Proof. unfold read_packet. bufs. Qed.
Hint Resolve read_packet_buf : bufs.

Lemma poll_recv_buf n m b : steps_in (keeps_buf None) (poll_recv timer_elapsed n m b : NM world _).
Proof. unfold poll_recv. bufs. Qed.

Lemma advance_ok t w : buf_ok w → buf_ok (advance t w).
Proof. intros [g Hi]. exists g. by apply (buf_inv_frame g w). Qed.

Lemma reach_buf start w w' :
  Reach rng_f64 rng_u128 timer_elapsed topo start w w' → buf_ok w → buf_ok w'.
Proof.
  induction 1 as [|x y z Hs _ IH]; [done|]. intros Hok. apply IH.
  destruct Hs; eauto using run_buffer_ok, run_link_ok, advance_ok, buf_ok_keeps,
    run_forwarder_buf, run_events_buf, try_send_buf, poll_recv_buf.
Qed.
End network.
