(* ===== verification/NetworkStart.v ===== *)
(** * The network that [initialize] builds satisfies the invariants

    Every invariant of the network holds of the world [initialize] returns, so
    it holds of every world its tasks can reach. *)

From stdpp Require Import relations.
From S2P Require Import Prelude Float Ip Spec Event Transmit SimStep Replayed Verifier History.
From S2P Require Import Heap InboundQueue Node Link Network NetworkInit NetworkInv.
From S2P Require Import NetworkSteady NetworkLinks NetworkBuffers.

Section start.
Context {H : Type} {HH : BinaryHeap PrioritizedInTransitData above H}.
Context {R : Type}.

(** The links are numbered, up and idle, and known by their ids. *)
Definition links_ok (b : @Links H) : Prop :=
  (∀ (l : link_ref) lk, lb_links b !! l = Some lk →
    (l < lb_next b)%nat ∧ lb_by_id b !! l_id lk = Some l ∧ l_status lk = LinkStatusUp ∧
    l_outgoing lk = [] ∧ l_in_transit lk = InboundQueue_new) ∧
  (∀ id l, lb_by_id b !! id = Some l → ∃ lk, lb_links b !! l = Some lk ∧ l_id lk = id).

Lemma add_link_ok b l b' : links_ok b → add_link b l = Ok b' → links_ok b'.
Proof.
  intros [H1 H2]. unfold add_link. destruct (lb_by_addr b !! _); [done|].
  destruct (lb_by_id b !! Spec.link_id l) eqn:Hnew; [done|]. intros [= <-].
  assert (lb_links b !! lb_next b = None) as Hnone.
  { destruct (lb_links b !! lb_next b) as [lk|] eqn:E; [|done].
    destruct (H1 _ _ E). lia. }
  split; simpl.
  - intros m lk. destruct (decide (m = lb_next b)) as [->|].
    + rewrite lookup_insert_eq. intros [= <-]. simpl. rewrite lookup_insert_eq.
      split_and!; [lia|done..].
    + rewrite lookup_insert_ne by done. intros Hm. destruct (H1 _ _ Hm) as (? & Hid & ? & ? & ?).
      split_and!; [lia| |done..]. rewrite lookup_insert_ne; [done|]. congruence.
  - intros id m. destruct (decide (id = Spec.link_id l)) as [->|].
    + rewrite lookup_insert_eq. intros [= <-]. eexists. by rewrite lookup_insert_eq.
    + rewrite lookup_insert_ne by done. intros (lk & Hm & ?)%H2. exists lk.
      rewrite lookup_insert_ne; [done|]. intros <-. congruence.
Qed.

Lemma add_links_ok ls b : foldM add_link ls (mkLinks ∅ ∅ ∅ 0%nat) = Ok b → links_ok b.
Proof.
  intros Hb. refine (foldM_inv links_ok _ _ _ _ _ _ Hb).
  - split; simpl; intros ? ?; by rewrite lookup_empty.
  - intros x l x' Hx _. by apply add_link_ok.
Qed.

(** The nodes are numbered, and their buffers are empty. *)
Definition nodes_ok (specs : list NetworkNodeSpec) (b : Builder) : Prop :=
  ∀ n nd, bd_nodes b !! n = Some nd →
    (n < bd_next b)%nat ∧ n_outbound nd = [] ∧ n_status nd = StatusUp ∧
    ∃ spec, spec ∈ specs ∧ node_id spec = n_id nd ∧ buffer_size_bytes spec = n_available nd.

Lemma nodes_ok_add specs b by_addr by_id spec nd :
  nodes_ok specs b → spec ∈ specs → n_outbound nd = [] → n_status nd = StatusUp → node_id spec = n_id nd →
  buffer_size_bytes spec = n_available nd →
  nodes_ok specs (mkBuilder by_addr by_id (<[bd_next b := nd]> (bd_nodes b)) (S (bd_next b))).
Proof.
  intros Hb Hs Ho Hst Hid Ha n md. simpl. destruct (decide (n = bd_next b)) as [->|].
  - rewrite lookup_insert_eq. intros [= <-]. split_and!; [lia|done|done|]. by exists spec.
  - rewrite lookup_insert_ne by done. intros (? & ? & ? & ?)%Hb. split_and!; [lia|done..].
Qed.

Lemma lift_node_ok {A} (o : outcome NodeError A) a : lift_node o = Ok a → o = Ok a.
Proof. destruct o; by intros [= ->]. Qed.

Lemma host_ok spec nd :
  host spec = Ok nd →
  n_outbound nd = [] ∧ n_status nd = StatusUp ∧ node_id spec = n_id nd ∧ buffer_size_bytes spec = n_available nd.
Proof.
  unfold host. destruct (kind spec); [|done]. destruct (interfaces spec); [done|].
  destruct (Spec.addresses _); [done|]. intros Hh. inv_bind Hh. by injection Hh as <-.
Qed.

Lemma router_ok spec nd :
  router spec = Ok nd →
  n_outbound nd = [] ∧ n_status nd = StatusUp ∧ node_id spec = n_id nd ∧ buffer_size_bytes spec = n_available nd.
Proof. unfold router. destruct (node_addresses spec); [done|]. by intros [= <-]. Qed.

Lemma add_host_ok specs b spec b' :
  nodes_ok specs b → spec ∈ specs → add_host b spec = Ok b' → nodes_ok specs b'.
Proof.
  intros Hb Hs Ha. unfold add_host in Ha. inv_bind Ha. inv_bind Ha.
  apply lift_node_ok, host_ok in Ham as (? & ? & ? & ?).
  destruct (bd_by_addr b !! _); [done|]. injection Ha as <-. by eapply nodes_ok_add.
Qed.

Lemma add_router_ok specs b spec b' :
  nodes_ok specs b → spec ∈ specs → add_router b spec = Ok b' → nodes_ok specs b'.
Proof.
  intros Hb Hs Ha. unfold add_router in Ha. inv_bind Ha. inv_bind Ha.
  apply lift_node_ok, router_ok in Ham as (? & ? & ? & ?).
  injection Ha as <-. by eapply nodes_ok_add.
Qed.

(** The addresses of hosts are those of their endpoints. *)
Definition addrs_ok (b : Builder) : Prop :=
  ∀ a n, bd_by_addr b !! a = Some n → (n < bd_next b)%nat ∧ ∃ nd, bd_nodes b !! n = Some nd ∧
    (n_udp_endpoint nd = None ∨ n_udp_endpoint nd = Some (mkSocketAddr a HOST_PORT)).

Lemma addrs_ok_add b by_addr by_id nd :
  addrs_ok b →
  (∀ a n, by_addr !! a = Some n → bd_by_addr b !! a = Some n ∨ n = bd_next b ∧
     (n_udp_endpoint nd = None ∨ n_udp_endpoint nd = Some (mkSocketAddr a HOST_PORT))) →
  addrs_ok (mkBuilder by_addr by_id (<[bd_next b := nd]> (bd_nodes b)) (S (bd_next b))).
Proof.
  intros Hb Ha a n [Hn|[-> He]]%Ha; simpl.
  - destruct (Hb _ _ Hn) as (? & x & ? & ?). split; [lia|]. exists x.
    rewrite lookup_insert_ne by lia. done.
  - split; [lia|]. exists nd. by rewrite lookup_insert_eq.
Qed.

Lemma add_host_addrs b spec b' : addrs_ok b → add_host b spec = Ok b' → addrs_ok b'.
Proof.
  intros Hb Ha. unfold add_host in Ha. inv_bind Ha. inv_bind Ha. apply lift_node_ok in Ham.
  destruct (bd_by_addr b !! _); [done|]. injection Ha as <-. apply addrs_ok_add; [done|].
  intros x n [[<- <-]|[_ ?]]%lookup_insert_Some; [right|by left]. split; [done|]. right.
  unfold host in Ham. destruct (kind spec); [|done]. destruct (interfaces spec); [done|].
  destruct (Spec.addresses _); [done|]. inv_bind Ham. injection Ham as <-. simpl in *.
  by injection Ham0 as <-.
Qed.

Lemma add_router_addrs b spec b' : addrs_ok b → add_router b spec = Ok b' → addrs_ok b'.
Proof.
  intros Hb Ha. unfold add_router in Ha. inv_bind Ha. inv_bind Ha. apply lift_node_ok in Ham.
  injection Ha as <-. apply addrs_ok_add; [done|].
  assert (n_udp_endpoint a = None) as He.
  { unfold router in Ham. destruct (node_addresses spec); [done|]. by injection Ham as <-. }
  refine (foldM_inv (λ m, ∀ x n, m !! x = Some n → bd_by_addr b !! x = Some n ∨ n = bd_next b ∧
    (n_udp_endpoint a = None ∨ n_udp_endpoint a = Some (mkSocketAddr x HOST_PORT))) _ _ _ _ _ _ Ham0);
    [by left|].
  intros m y m' Hm _. unfold add_router_address. destruct (m !! y); [done|]. intros [= <-] x n.
  intros [[<- <-]|[_ ?]]%lookup_insert_Some; auto.
Qed.

Lemma inbound_queues_empty nodes n (q : @InboundQueue H) :
  inbound_queues nodes !! n = Some q → heap_items (q_queue q) = [].
Proof.
  unfold inbound_queues. rewrite lookup_omap. intros (nd & _ & Hq)%bind_Some.
  destruct (n_udp_endpoint nd); simplify_eq. simpl. apply heap_items_new.
Qed.

Context (now : Z) (spec : NetworkSpec) (events : NetworkEvents) (rng : R) (start : Z).
Context (disable_time_warping : bool) (topo : Topology) (w0 : World H R).
Context (Hinit : initialize now spec events rng start disable_time_warping = Ok (topo, w0)).

(** The world before the initial events. *)
Lemma initialize_inv :
  ∃ b ls w, nodes_ok (nodes spec) b ∧ links_ok ls ∧
    w_now w = now ∧ w_nodes w = bd_nodes b ∧ w_links w = lb_links ls ∧
    w_link_tasks w = (λ _, AwaitPacket) <$> lb_links ls ∧ w_handled w = ∅ ∧ w_log w = [] ∧ w_fired w = ∅ ∧
    links_by_id topo = lb_by_id ls ∧ w_inbound w = inbound_queues (w_nodes w) ∧
    addrs_ok b ∧ nodes_by_addr topo = bd_by_addr b ∧ w_sockets w = ∅ ∧
    (_ ← nforeach (process_link_event topo) (initial_link_events events);
     nforeach (process_node_event topo) (initial_node_events events)) w = Some ((), w0).
Proof using Hinit.
  unfold initialize in Hinit. inv_bind Hinit. clear Hinitm.
  inv_bind Hinit. clear Hinitm. inv_bind Hinit. inv_bind Hinit. inv_bind Hinit.
  rename a1 into b, a2 into ls, a3 into b'. set (w := mkWorld _ _ _ _ _ _ _ _ _ _ _ _ _ _) in Hinit.
  set (t := mkTopology _ _ _ _ _) in Hinit.
  match type of Hinit with context [match ?x with _ => _ end] =>
    destruct x as [[[] w']|] eqn:Hw; [|done] end. injection Hinit as <- <-.
  exists b', ls, w. split_and!; try done.
  - refine (foldM_inv (nodes_ok (nodes spec)) _ _ _ _ _ _ Hinitm1).
    + refine (foldM_inv (nodes_ok (nodes spec)) _ _ _ _ _ _ Hinitm).
      * intros n nd. simpl. by rewrite lookup_empty.
      * intros x y x' Hx [_ Hy]%list_elem_of_filter. by eapply add_host_ok.
    + intros x y x' Hx [_ Hy]%list_elem_of_filter. by eapply add_router_ok.
  - by eapply add_links_ok.
  - refine (foldM_inv addrs_ok _ _ _ _ _ _ Hinitm1).
    + refine (foldM_inv addrs_ok _ _ _ _ _ _ Hinitm); [by intros ? ?|].
      intros x y x' Hx _. by apply add_host_addrs.
    + intros x y x' Hx _. by apply add_router_addrs.
Qed.

Lemma initialize_log_ok : 0 ≤ now → log_ok w0.
Proof using Hinit.
  intros Hnow. destruct initialize_inv as (b & ls & w & _ & _ & Ht & _ & _ & _ & _ & Hl & _ & _ & _ & _ & _ & _ & Hm).
  apply (log_extends_ok w); [by eapply (quiet_extends _ (initial_events_extend topo _ _))|].
  unfold log_ok. rewrite Hl, Ht. split_and!; [constructor|done|constructor].
Qed.

(** Nothing is delivered before the tasks run. *)
Lemma initialize_quiet : Forall (λ s, delivered_packet (step_kind s) = None) (w_log w0).
Proof using Hinit.
  destruct initialize_inv as (b & ls & w & _ & _ & _ & _ & _ & _ & _ & Hl & _ & _ & _ & _ & _ & _ & Hm).
  apply initial_events_extend in Hm as (_ & ks & Hks & ->). rewrite Hl. simpl.
  apply Forall_fmap. eapply Forall_impl; [exact Hks|]. by intros k [].
Qed.

Lemma initialize_status : status_inv topo w0.
Proof using Hinit.
  destruct initialize_inv as (b & ls & w & _ & [H1 H2] & Ht & _ & Hlk & _ & _ & Hl & _ & Hid & _ & _ & _ & _ & Hm).
  revert Hm. match goal with |- ?m w = _ → _ =>
    enough (steps_in (keeps_status topo) m) as Hk end.
  - intros Hm. apply (Hk _ _ _ Hm). split; rewrite ?Hlk, ?Hl, ?Hid; simpl.
    + intros l lk Hx. by destruct (H1 _ _ Hx) as (? & ? & ? & ?).
    + apply H2.
    + intros l lk Hx. by destruct (H1 _ _ Hx) as (? & ? & -> & ?).
    + by intros [|? ?] ? ? ? ?.
  - apply initial_events_keep.
Qed.

(** The capacities of the specification. *)
Definition capacities (cap : gmap node_ref (string * Z)) : Prop :=
  ∀ n id c, cap !! n = Some (id, c) →
    ∃ ns, ns ∈ nodes spec ∧ node_id ns = id ∧ buffer_size_bytes ns = c.

Lemma initialize_buffers :
  Forall (λ ns, in_u64 (buffer_size_bytes ns)) (nodes spec) →
  ∃ cap, capacities cap ∧ buf_ok cap w0.
Proof using Hinit.
  intros Hsz. destruct initialize_inv as
    (b & ls & w & Hn & [H1 _] & Ht & Hnd & Hlk & Htasks & Hh & Hl & _ & _ & _ & _ & _ & _ & Hm).
  exists ((λ nd, (n_id nd, n_available nd)) <$> bd_nodes b). split.
  - intros n id c. rewrite lookup_fmap. intros (nd & Hx & [= -> ->])%fmap_Some.
    by destruct (Hn _ _ Hx) as (_ & _ & _ & ns & ? & ? & ?); exists ns.
  - apply (buf_ok_keeps _ _ _ _ _ (initial_events_buf topo _ _ _) Hm).
    exists ∅. split; rewrite ?Hnd, ?Hlk, ?Htasks, ?Hh.
    + intros x. rewrite !lookup_empty. split; [done|by intros []].
    + intros x. rewrite lookup_empty. by intros [].
    + intros l lk p (_ & _ & _ & -> & _)%H1. by intros ?%not_elem_of_nil.
    + intros l ph p. rewrite lookup_fmap. by intros (? & ? & ->)%fmap_Some.
    + intros x m s. by rewrite lookup_empty.
    + intros n nd Hx. exists (n_available nd). rewrite lookup_fmap, Hx. split; [done|].
      destruct (Hn _ _ Hx) as (_ & Ho & _ & ns & Hin & _ & <-).
      rewrite Forall_forall in Hsz. specialize (Hsz _ Hin). unfold in_u64 in Hsz.
      assert (handed ∅ n = 0) as -> by done. unfold queued. rewrite Ho. simpl. lia.
Qed.

Lemma initialize_chan : chan_inv w0.
Proof using Hinit.
  destruct initialize_inv as (b & ls & w & Hn & [H1 _] & _ & Hnd & Hlk & _ & _ & _ & Hf & _ & _ & _ & _ & _ & Hm).
  apply (initial_events_chan topo _ _ _ _ _ Hm).
  assert (∀ c o, ¬ waits w c o) as Hnone.
  { intros c [l|n] (x & Hx & Hs).
    - rewrite Hlk in Hx. destruct (H1 _ _ Hx) as (_ & _ & ? & _). congruence.
    - rewrite Hnd in Hx. destruct (Hn _ _ Hx) as (_ & _ & ? & _). congruence. }
  split.
  - rewrite Hf. set_solver.
  - by intros c o ?%Hnone.
  - by intros c o o' ?%Hnone.
Qed.
End start.
