(* ===== verification/NetworkArrivals.v ===== *)
(** * Packets that wait in a host have arrived there

    Every packet in the inbound queue of a host has a step in the log that
    says that it arrived at the host. *)

From stdpp Require Import relations.
From S2P Require Import Prelude Float Ip Spec Event Transmit SimStep Heap InboundQueue Node.
From S2P Require Import Link Network NetworkInit NetworkInv NetworkSteady NetworkStart.

Lemma get_packet_arrived_at_in steps id node :
  is_Some (get_packet_arrived_at steps id node) ↔
  ∃ t k, mkStep t (PacketInNode k) ∈ steps ∧ in_packet_id k = id ∧ in_node_id k = node.
Proof.
  unfold get_packet_arrived_at. set (f := λ s : SimulationStep, match step_kind s with _ => _ end).
  split.
  - intros [t Ht]. destruct (omap f steps) as [|t' l] eqn:E; [done|]. injection Ht as ->.
    assert (t ∈ omap f steps) as ([t0 k] & Hin & Hk)%list_elem_of_omap by (rewrite E; left).
    subst f. simpl in Hk. destruct k as [k| | | | | | | |]; try done.
    destruct (in_packet_id k =? id) eqn:Hid; simpl in Hk; [|done].
    case_bool_decide; [|done]. apply Z.eqb_eq in Hid. by exists t0, k.
  - intros (t & k & Hin & <- & <-).
    assert (t ∈ omap f steps) as Hm.
    { apply list_elem_of_omap. exists (mkStep t (PacketInNode k)). split; [done|]. subst f. simpl.
      by rewrite Z.eqb_refl, bool_decide_eq_true_2. }
    destruct (omap f steps); [by apply not_elem_of_nil in Hm|by eexists].
Qed.

(** The time it reports is that of the packet's first arrival at the node. *)
Lemma get_packet_arrived_at_first steps id node t :
  get_packet_arrived_at steps id node = Some t →
  ∃ pre k post, steps = pre ++ mkStep t (PacketInNode k) :: post ∧
    in_packet_id k = id ∧ in_node_id k = node ∧ get_packet_arrived_at pre id node = None.
Proof.
  induction steps as [|s steps IH]; [done|]. unfold get_packet_arrived_at. simpl.
  match goal with |- context [match ?x with Some _ => _ | None => _ end] => destruct x as [t'|] eqn:E end.
  - intros [= <-]. destruct s as [t0 k]. destruct k as [k| | | | | | | |]; try done. simpl in *.
    destruct (in_packet_id k =? id) eqn:Hid; simpl in E; [|done].
    case_bool_decide; [|done]. injection E as ->. apply Z.eqb_eq in Hid. by exists [], k, steps.
  - intros (pre & k & post & -> & H1 & H2 & H3)%IH. exists (s :: pre), k, post. split_and!; [done..|].
    unfold get_packet_arrived_at. simpl. by rewrite E.
Qed.

Section network.
Context {H : Type} {HH : BinaryHeap PrioritizedInTransitData above H}.
Context {R : Type} (rng_f64 : R → f64 * R) (rng_u128 : R → Z * R).
Context (timer_elapsed : Z → Z → bool) (topo : Topology).

Abbreviation world := (World H R).

(** ** Most computations leave the inbound queues and the identity of the nodes alone *)
Definition identity (nd : Node) : string * option SocketAddr := (n_id nd, n_udp_endpoint nd).

Definition calm (w w' : world) : Prop :=
  w_inbound w' = w_inbound w ∧ identity <$> w_nodes w' = identity <$> w_nodes w.

#[export] Instance calm_preorder : PreOrder calm.
Proof. split; [by intros w|]. intros x y z [] []. split; congruence. Qed.

Lemma modify_calm (f : world → world) : (∀ w, calm w (f w)) → steps_in calm (nmodify f).
Proof. by intros Hf w u w' [= _ <-]. Qed.

Lemma draw_calm : steps_in calm (draw_f64 (H:=H) rng_f64).
Proof. intros w u w'. unfold draw_f64. destruct (rng_f64 (w_rng w)). by intros [= _ <-]. Qed.
Lemma packet_id_calm : steps_in calm (new_packet_id (H:=H) rng_u128).
Proof. intros w u w'. unfold new_packet_id. destruct (rng_u128 (w_rng w)). by intros [= _ <-]. Qed.
Lemma fresh_calm : steps_in calm (fresh (H:=H) (R:=R)).
Proof. by intros w u w' [= _ <-]. Qed.

Lemma put_node_calm n nd nd' (w w' : world) u :
  w_nodes w !! n = Some nd → identity nd' = identity nd → put_node n nd' w = Some (u, w') → calm w w'.
Proof.
  intros Hn Hf [= _ <-]. split; [done|]. simpl. rewrite fmap_insert, Hf. apply insert_id.
  by rewrite lookup_fmap, Hn.
Qed.

Lemma update_node_calm {A} n (f : Node → NM world A) :
  (∀ nd w a w', w_nodes w !! n = Some nd → f nd w = Some (a, w') → calm w w') →
  steps_in calm (get_node n ≫= f).
Proof.
  intros Hf w a w' Hm. nm_inv_step Hm. unfold get_node in Hm0. nm_inv Hm0. by eapply Hf.
Qed.

Create HintDb calm discriminated.
Hint Resolve draw_calm packet_id_calm fresh_calm : calm.

Ltac calm :=
  repeat first
    [ solve [eauto 2 with calm nocore]
    | (apply modify_calm; intros ?; by split)
    | apply steps_in_ret; apply _
    | apply steps_in_get; apply _
    | apply steps_in_some; apply _
    | apply steps_in_assert; apply _
    | apply steps_in_panic
    | apply steps_in_foreach; [apply _|intros ?]
    | apply steps_in_bind; [apply _| |intros ?]
    | case_match ].

Lemma get_node_calm n : steps_in calm (get_node n : NM world _).
Proof. unfold get_node. calm. Qed.
Lemma get_net_link_calm l : steps_in calm (get_net_link l : NM world _).
Proof. unfold get_net_link. calm. Qed.
Lemma put_net_link_calm l lk : steps_in calm (put_net_link l lk : NM world _).
Proof. unfold put_net_link. calm. Qed.
Lemma record_calm k : steps_in calm (record_step k : NM world _).
Proof. unfold record_step. calm. Qed.
Lemma set_phase_calm l p : steps_in calm (set_phase l p : NM world _).
Proof. unfold set_phase. calm. Qed.
Lemma is_fired_calm c : steps_in calm (is_fired c : NM world _).
Proof. unfold is_fired. calm. Qed.
Lemma is_handled_calm p : steps_in calm (is_handled p : NM world _).
Proof. unfold is_handled. calm. Qed.
Lemma set_handled_calm x b : steps_in calm (set_handled x b : NM world _).
Proof. unfold set_handled. calm. Qed.
Lemma now_calm : steps_in calm (now : NM world _).
Proof. unfold now. calm. Qed.
Lemma fire_calm c : steps_in calm (fire c : NM world _).
Proof. unfold fire. calm. Qed.
Hint Resolve get_node_calm get_net_link_calm put_net_link_calm record_calm set_phase_calm
  is_fired_calm is_handled_calm set_handled_calm now_calm fire_calm : calm.

Lemma track_injected_failures_calm nd d b x c :
  steps_in calm (track_injected_failures nd d b x c : NM world _).
Proof. unfold track_injected_failures. calm. Qed.

Lemma enqueue_calm n b : steps_in calm (enqueue n b : NM world _).
Proof.
  unfold enqueue. apply update_node_calm. intros nd w u w' Hn Hm.
  apply nm_bind_inv in Hm as ([ok nd'] & w1 & He & Hm). nm_inv_step He.
  unfold enqueue_outbound in He. destruct (reserve _ _) as [okr avail].
  destruct okr; [destruct (n_outbound_open nd); [|done]|]; injection He as <- <-.
  - by eapply put_node_calm; [exact Hn| |exact Hm].
  - by eapply record_calm.
Qed.
Lemma in_transit_data_calm n t : steps_in calm (in_transit_data rng_u128 n t : NM world _).
Proof. unfold in_transit_data. calm. Qed.
Hint Resolve track_injected_failures_calm enqueue_calm in_transit_data_calm : calm.

Lemma run_buffer_calm n : steps_in calm (run_buffer rng_f64 topo n : NM world _).
Proof.
  unfold run_buffer. apply update_node_calm. intros nd w u w' Hn Hm.
  destruct (n_outbound nd) as [|packet rest]; [by injection Hm as _ <-|].
  apply nm_bind_inv in Hm as (route & w1 & Hr & Hm). nm_inv_step Hr.
  destruct route; simpl in Hm; [|by eapply put_node_calm; [exact Hn| |exact Hm]].
  apply nm_bind_inv in Hm as ([] & w1 & Hput & Hm).
  transitivity w1; [by eapply put_node_calm; [exact Hn| |exact Hput]|]. revert Hm.
  match goal with |- ?m w1 = _ → _ => enough (steps_in calm m) as Hk by apply Hk end.
  unfold generate_packet_anomalies. calm.
Qed.

Lemma finish_packet_calm l p : steps_in calm (finish_packet l p : NM world _).
Proof.
  unfold finish_packet. apply steps_in_bind; [apply _|calm|intros handled].
  apply steps_in_bind; [apply _| |intros []; calm]. destruct handled; [calm|].
  apply steps_in_bind; [apply _|calm|intros []].
  apply update_node_calm. intros nd w u w' Hn Hm.
  destruct (cleared_from_buffer _ _); [by eapply record_calm|].
  apply nm_bind_inv in Hm as (lk & w1 & Hl & Hm). unfold get_net_link in Hl. nm_inv_step Hl.
  apply nm_bind_inv in Hm as (t & w1 & [= <- <-] & Hm).
  apply nm_bind_inv in Hm as ([[[lk' nd'] step] woken] & w1 & Hs & Hm). nm_inv_step Hs.
  apply link_send_inv in Hs as (_ & _ & _ & _ & -> & _).
  apply nm_bind_inv in Hm as ([] & w1 & [= <-] & Hm).
  apply nm_bind_inv in Hm as ([] & w2 & [= <-] & Hm).
  match type of Hm with _ ?x = _ => transitivity x; [by split|] end.
  by eapply put_node_calm; [| |exact Hm].
Qed.
Hint Resolve finish_packet_calm : calm.

Lemma yield_loop_calm l p : steps_in calm (yield_loop l p : NM world _).
Proof. unfold yield_loop. calm. Qed.
Hint Resolve yield_loop_calm : calm.

Lemma sleep_done_calm l p : steps_in calm (sleep_done l p : NM world _).
Proof. unfold sleep_done, set_permit. calm. Qed.
Hint Resolve sleep_done_calm : calm.

Lemma sleep_loops_calm fuel l p :
  steps_in calm (sleep_loop fuel l p : NM world _) ∧
  steps_in calm (wait_for_node fuel l p : NM world _) ∧
  steps_in calm (recheck_link fuel l p : NM world _).
Proof.
  induction fuel as [|fuel (IH1 & IH2 & IH3)]; simpl.
  { split_and!; apply steps_in_panic. }
  split_and!; calm; done.
Qed.

Lemma run_link_calm l : steps_in calm (run_link timer_elapsed l : NM world _).
Proof.
  pose proof (λ fuel l p, proj1 (sleep_loops_calm fuel l p)).
  pose proof (λ fuel l p, proj1 (proj2 (sleep_loops_calm fuel l p))).
  pose proof (λ fuel l p, proj2 (proj2 (sleep_loops_calm fuel l p))).
  unfold run_link, start_packet, acquire_permit, start_sleep, set_permit. calm.
Qed.

Lemma process_event_calm e : steps_in calm (process_event topo e : NM world _).
Proof.
  destruct e as [e|e]; simpl; [unfold process_link_event; calm|].
  unfold process_node_event. case_match; [|calm].
  apply steps_in_bind; [apply _| |intros []; apply steps_in_bind; [apply _| |intros []; calm]].
  - case_match; [|calm]. apply update_node_calm. intros nd w v w' Hn Hm.
    apply nm_bind_inv in Hm as (c & w1 & [= <- <-] & Hm).
    destruct (node_update_status _ _ _) as [st fired].
    apply nm_bind_inv in Hm as ([] & w2 & Hput & Hm).
    transitivity w2; [|by apply fire_calm in Hm].
    match type of Hput with _ ?x = _ => transitivity x; [by split|] end.
    by eapply put_node_calm; [| |exact Hput].
  - case_match; [|calm]. apply update_node_calm. intros nd w u w' Hn Hm.
    apply nm_bind_inv in Hm as (t & w1 & [= <- <-] & Hm).
    by eapply put_node_calm; [exact Hn| |exact Hm].
Qed.
Hint Resolve process_event_calm : calm.

Lemma run_events_calm s : steps_in calm (run_events timer_elapsed topo s : NM world _).
Proof. unfold run_events. calm. Qed.

Lemma initial_events_calm start_links start_nodes :
  steps_in calm (_ ← nforeach (process_link_event topo) start_links;
    nforeach (process_node_event topo) start_nodes : NM world _).
Proof.
  pose proof (λ e, process_event_calm (LinkEvent e)). pose proof (λ e, process_event_calm (NodeEvent e)).
  calm; done.
Qed.

(** ** The invariant *)
Definition arrived (w : world) : Prop :=
  ∀ n q p nd, w_inbound w !! n = Some q → p ∈ heap_items (q_queue q) → w_nodes w !! n = Some nd →
    is_Some (get_packet_arrived_at (w_log w) (d_id (p_data p)) (n_id nd)).

(** The invariant is kept, the hosts keep their queues and the nodes their
    identities. *)
Record keeps_arrived (w w' : world) : Prop := mkKeepsArrived {
  ka_queues : dom (w_inbound w') = dom (w_inbound w);
  ka_nodes : identity <$> w_nodes w' = identity <$> w_nodes w;
  ka_arrived : arrived w → arrived w';
}.

#[export] Instance keeps_arrived_preorder : PreOrder keeps_arrived.
Proof. split; [by intros w|]. intros x y z [] []. split; [congruence..|auto]. Qed.

Lemma arrived_at_prefix log log' id node :
  log `prefix_of` log' → is_Some (get_packet_arrived_at log id node) →
  is_Some (get_packet_arrived_at log' id node).
Proof.
  intros [l ->]. rewrite !get_packet_arrived_at_in. intros (t & k & ? & ? & ?). exists t, k.
  rewrite elem_of_app. auto.
Qed.

Lemma calm_arrived w w' : calm w w' → w_log w `prefix_of` w_log w' → keeps_arrived w w'.
Proof.
  intros [Hq Hn] Hl. split; [by rewrite Hq|done|]. intros Ha n q p nd'. rewrite Hq. intros Hnq Hp Hnd'.
  destruct (fmap_facts_lookup _ _ _ _ _ Hn Hnd') as (nd & Hnd & [= -> _]).
  eapply arrived_at_prefix; [done|by eapply Ha].
Qed.

Lemma calm_keeps {A K} (m : NM world A) :
  steps_in calm m → steps_in (log_extends_by K) m → steps_in keeps_arrived m.
Proof.
  intros Hq Hl w a w' Hm. apply calm_arrived; [by eapply Hq|].
  destruct (Hl _ _ _ Hm) as [_ (ks & _ & ->)]. by apply prefix_app_r.
Qed.

Lemma forward_arrived n data : steps_in keeps_arrived (forward rng_f64 rng_u128 n data : NM world _).
Proof.
  intros w u w' Hm. unfold forward in Hm.
  apply nm_bind_inv in Hm as (nd & w1 & Hn & Hm). unfold get_node in Hn. nm_inv_step Hn.
  assert (∀ k, steps_in keeps_arrived (record_step k : NM world _)) as Hrec.
  { intros k x v x' [= _ <-]. apply calm_arrived; [by split|]. by apply prefix_app_r. }
  destruct (is_down nd); [by eapply Hrec|].
  apply nm_bind_inv in Hm as ([] & w1 & Hr & Hm). pose proof (Hrec _ _ _ _ Hr) as H1.
  transitivity w1; [exact H1|]. injection Hr as <-. case_bool_decide.
  - apply nm_bind_inv in Hm as (w2 & w3 & [= <- <-] & Hm).
    apply nm_bind_inv in Hm as (q & w2 & Hq & Hm). nm_inv_step Hq. injection Hm as _ <-.
    split; [simpl; apply dom_insert_lookup_L; by eexists|done|].
    intros Ha m q' p md. simpl. destruct (decide (m = n)) as [->|].
    + rewrite lookup_insert_eq. intros [= <-]. simpl. rewrite heap_items_push.
      intros [->|Hp]%elem_of_cons Hmd; [|by eapply (Ha n q)]. simplify_eq.
      apply get_packet_arrived_at_in. do 2 eexists.
      split; [unfold record; apply elem_of_app; right; left|done].
    + rewrite lookup_insert_ne by done. apply Ha.
  - revert Hm. match goal with |- ?m ?x = _ → _ => enough (steps_in keeps_arrived m) as Hk by apply Hk end.
    apply (calm_keeps (K := quiet_kind)); [calm|].
    pose proof (enqueue_extends (H:=H) (R:=R)). pose proof (draw_extends (H:=H) rng_f64).
    pose proof (packet_id_extends (H:=H) rng_u128). pose proof (now_extends (H:=H) (R:=R)).
    pose proof (λ nd d b c, track_injected_failures_extends (H:=H) (R:=R) nd d b 0 c (Z.le_refl 0)).
    repeat first [ apply steps_in_ret; apply _ | by auto | apply steps_in_bind; [apply _| |intros ?]
      | by apply record_extends | case_match ].
Qed.

Lemma put_link_arrived l lk : steps_in keeps_arrived (put_net_link l lk : NM world _).
Proof. eapply calm_keeps; [apply put_net_link_calm|apply put_net_link_extends]. Qed.

Lemma deliver_arrived l d : steps_in keeps_arrived (deliver rng_f64 rng_u128 topo l d : NM world _).
Proof.
  unfold deliver. apply steps_in_bind; [apply _|eapply calm_keeps; [apply get_net_link_calm|apply get_net_link_extends]|intros lk].
  case_match; [apply (calm_keeps (K := kind_typed)); [apply record_calm|by apply record_extends]|].
  apply steps_in_bind; [apply _|apply steps_in_some; apply _|intros n]. apply forward_arrived.
Qed.

Lemma run_forwarder_arrived l :
  steps_in keeps_arrived (run_forwarder rng_f64 rng_u128 timer_elapsed topo l : NM world _).
Proof.
  assert (∀ f, (∀ w, calm w (f w) ∧ w_log (f w) = w_log w) → steps_in keeps_arrived (nmodify f)) as Hmod.
  { intros f Hf w u w' [= _ <-]. destruct (Hf w) as [? E]. apply calm_arrived; [done|by rewrite E]. }
  unfold run_forwarder. repeat first
    [ apply steps_in_ret; apply _ | apply steps_in_get; apply _ | apply steps_in_some; apply _
    | apply steps_in_assert; apply _ | apply steps_in_panic | apply put_link_arrived
    | apply Hmod; intros ?; by repeat split
    | eapply calm_keeps; [apply get_net_link_calm|apply get_net_link_extends]
    | apply steps_in_foreach; [apply _|intros ?; apply deliver_arrived]
    | apply steps_in_bind; [apply _| |intros ?] | case_match ].
Qed.

Lemma try_send_arrived n t : steps_in keeps_arrived (try_send rng_f64 rng_u128 n t : NM world _).
Proof.
  unfold try_send. apply steps_in_bind; [apply _|apply steps_in_assert; apply _|intros _].
  apply steps_in_bind; [apply _| |intros data; apply forward_arrived].
  eapply calm_keeps; [apply in_transit_data_calm|apply in_transit_data_extends].
Qed.

(** Packets are taken out of a queue. *)
Lemma take_arrived w n q q' l :
  w_inbound w !! n = Some q → heap_items (q_queue q) ≡ₚ l ++ heap_items (q_queue q') →
  keeps_arrived w (set_w_inbound (<[n := q']> (w_inbound w)) w).
Proof.
  intros Hq Hp. split; [simpl; apply dom_insert_lookup_L; by eexists|done|].
  intros Ha m x p nd. simpl. destruct (decide (m = n)) as [->|].
  - rewrite lookup_insert_eq. intros [= <-] Hin. apply (Ha n q); [done|]. rewrite Hp, elem_of_app. by right.
  - rewrite lookup_insert_ne by done. apply Ha.
Qed.

Lemma poll_recv_arrived n m b : steps_in keeps_arrived (poll_recv timer_elapsed n m b : NM world _).
Proof.
  intros w res w' Hm. unfold poll_recv in Hm.
  apply nm_bind_inv in Hm as ([] & w1 & Ha & Hm). apply nassert_inv in Ha as [_ ->].
  apply nm_bind_inv in Hm as (w1 & w2 & [= <- <-] & Hm).
  apply nm_bind_inv in Hm as (q & w1 & Hq & Hm). nm_inv_step Hq.
  apply nm_bind_inv in Hm as ([[r f'] q'] & w1 & Hpoll & Hm). nm_inv_step Hpoll.
  apply nm_bind_inv in Hm as ([] & w1 & [= <-] & Hm).
  apply poll_takes in Hpoll as (new & Hperm & _ & _).
  transitivity (set_w_inbound (<[n := q']> (w_inbound w)) w); [by eapply take_arrived|].
  match type of Hm with _ ?x = _ => transitivity x end.
  { apply calm_arrived; [by split|done]. }
  revert Hm. match goal with |- ?m ?x = _ → _ => enough (steps_in keeps_arrived m) as Hk by apply Hk end.
  destruct r as [|d|]; [apply steps_in_ret; apply _| |apply steps_in_panic].
  apply steps_in_bind; [apply _| |intros _; apply steps_in_ret; apply _].
  apply steps_in_foreach; [apply _|]. intros [d' size].
  eapply calm_keeps; [unfold read_packet; calm|apply read_packet_extends].
Qed.

Lemma step_arrived start w w' :
  NetStep rng_f64 rng_u128 timer_elapsed topo start w w' → keeps_arrived w w'.
Proof.
  destruct 1 as [n w w' Hm|l w w' Hm|l w w' Hm|w w' Hm|n t w w' Hm|n m b r w w' Hm|t w _].
  - by eapply (calm_keeps _ (run_buffer_calm n) (run_buffer_extends _ _ n)).
  - by eapply (calm_keeps _ (run_link_calm l) (run_link_extends _ l)).
  - by eapply run_forwarder_arrived.
  - by eapply (calm_keeps _ (run_events_calm start) (run_events_extends _ _ start)).
  - by eapply try_send_arrived.
  - by eapply poll_recv_arrived.
  - by apply calm_arrived; [split|].
Qed.

(** The initial world holds no packets. *)
Lemma initialize_arrived now spec events rng start b (w0 : world) :
  initialize now spec events rng start b = Ok (topo, w0) →
  arrived w0 ∧ ∀ n nd, w_nodes w0 !! n = Some nd → is_Some (n_udp_endpoint nd) →
    n ∈ dom (w_inbound w0).
Proof.
  intros Hinit. destruct (initialize_inv now spec events rng start b topo w0 Hinit) as
    (bd & ls & w & _ & _ & _ & _ & _ & _ & _ & _ & _ & _ & Ei & _ & _ & _ & Hw).
  assert (arrived w ∧ ∀ n nd, w_nodes w !! n = Some nd → is_Some (n_udp_endpoint nd) →
    n ∈ dom (w_inbound w)) as [Ha Hq].
  { rewrite Ei. split.
    - intros n q p nd. rewrite Ei. intros ->%inbound_queues_empty. by intros ?%not_elem_of_nil.
    - intros n nd Hn [x Hx]. apply elem_of_dom. unfold inbound_queues.
      rewrite lookup_omap, Hn. simpl. rewrite Hx. by eexists. }
  assert (keeps_arrived w w0) as [K1 K2 K3].
  { apply calm_arrived; [by apply initial_events_calm in Hw|].
    pose proof (initial_events_extend topo _ _ _ _ _ Hw) as [_ (ks & _ & ->)]. by apply prefix_app_r. }
  split; [auto|]. intros n nd' Hn' He.
  destruct (fmap_facts_lookup _ _ _ _ _ K2 Hn') as (nd & Hn & [= _ E]).
  rewrite K1. apply (Hq n nd Hn). by rewrite <-E.
Qed.

(** A host is found by the address of its endpoint. *)
Lemma initialize_endpoint now spec events rng start b (w0 : world) ip n nd :
  initialize now spec events rng start b = Ok (topo, w0) →
  nodes_by_addr topo !! ip = Some n → w_nodes w0 !! n = Some nd → is_Some (n_udp_endpoint nd) →
  n_udp_endpoint nd = Some (mkSocketAddr ip HOST_PORT).
Proof.
  intros Hinit Hip Hn [e He]. destruct (initialize_inv now spec events rng start b topo w0 Hinit) as
    (bd & ls & w & _ & _ & _ & En & _ & _ & _ & _ & _ & _ & _ & Ha & Et & _ & Hw).
  apply initial_events_calm in Hw as [_ K]. destruct (fmap_facts_lookup _ _ _ _ _ K Hn) as (md & Hmd & [= _ E]).
  rewrite Et in Hip. rewrite En in Hmd. destruct (Ha _ _ Hip) as (_ & x & Hx & Hor).
  pose proof (eq_trans (eq_sym Hx) Hmd) as [= ->]. destruct Hor as [Hor|Hor]; [|congruence].
  rewrite <-E, He in Hor. done.
Qed.

Lemma reach_arrived start w w' :
  Reach rng_f64 rng_u128 timer_elapsed topo start w w' → keeps_arrived w w'.
Proof. induction 1 as [|x y z Hs _ IH]; [done|]. etrans; [by eapply step_arrived|done]. Qed.
End network.
