(* ===== verification/NetworkWired.v ===== *)
(** * The network and its verifier agree on the specification

    [initialize] and the verifier's constructor read the same specification:
    the ids, the ends and the delays of the links of the network they build are
    the same.  Only the statuses of nodes and links change afterwards. *)

From stdpp Require Import relations.
From S2P Require Import Prelude Float Ip Spec Event Transmit SimStep Replayed Verifier History.
From S2P Require Import VerifierThms Heap InboundQueue Node Link Network NetworkInit NetworkInv.
From S2P Require Import NetworkSteady NetworkStart.

(** ** What the verifier knows *)
Record known_node (acc : NewNodes) (ns : NetworkNodeSpec) : Prop := mkKnownNode {
  kn_node : node_id ns ∈ dom (nn_nodes acc);
  kn_host : kind ns = Host → node_id ns ∈ nn_hosts acc;
  kn_ips : ∀ a, a ∈ node_addresses ns → nn_ips acc !! a = Some (node_id ns);
}.

Lemma new_addresses_spec id addrs m m' :
  new_addresses id addrs m = Ok m' →
  (∀ a i, m !! a = Some i → m' !! a = Some i) ∧
  ∀ c, c ∈ addrs → m' !! as_ip_addr c = Some id.
Proof.
  unfold new_addresses. intros Hf. eapply (foldM_inv_prefix (λ pre x,
    (∀ a i, m !! a = Some i → x !! a = Some i) ∧
    ∀ c, c ∈ pre → x !! as_ip_addr c = Some id)) in Hf; [exact Hf|..].
  - split; [done|]. by intros c ?%not_elem_of_nil.
  - intros pre b _ x x' _ [H1 H2] Hx.
    assert ((x !! as_ip_addr b = None ∨ x !! as_ip_addr b = Some id) ∧
      x' = <[as_ip_addr b := id]> x) as [Hold ->].
    { destruct (x !! as_ip_addr b) as [e|]; [case_decide; [subst|done]|]; injection Hx as <-; auto. }
    split.
    + intros a i Ha%H1. destruct (decide (a = as_ip_addr b)) as [->|].
      * rewrite lookup_insert_eq. destruct Hold; congruence.
      * by rewrite lookup_insert_ne.
    + intros c [Hc| ->%list_elem_of_singleton]%elem_of_app; [|by rewrite lookup_insert_eq].
      destruct (decide (as_ip_addr c = as_ip_addr b)) as [->|]; [by rewrite lookup_insert_eq|].
      rewrite lookup_insert_ne by done. by apply H2.
Qed.

Lemma new_nodes_known ns acc :
  foldM new_node ns (mkNewNodes ∅ ∅ ∅ ∅) = Ok acc → Forall (known_node acc) ns.
Proof.
  apply (foldM_inv_prefix (λ pre acc, Forall (known_node acc) pre)); [constructor|].
  intros pre b _ x x' _ Hpre Hx. unfold new_node in Hx. inv_bind Hx. injection Hx as <-.
  apply new_addresses_spec in Hxm as [Hold Hnew]. apply Forall_app. split.
  - eapply Forall_impl; [exact Hpre|]. intros y [H1 H2 H3]. split; simpl.
    + rewrite dom_insert. set_solver.
    + intros Hk%H2. destruct (kind b); set_solver.
    + intros c Hc. by apply Hold, H3.
  - constructor; [|done]. split; simpl.
    + rewrite dom_insert. set_solver.
    + intros ->. set_solver.
    + intros c Hc. unfold node_addresses in Hc. apply list_elem_of_bind in Hc as (i & Hc & Hi).
      apply list_elem_of_fmap in Hc as (cidr & -> & Hc). apply Hnew, list_elem_of_bind. eauto.
Qed.

(** The metadata of a link whose id is unique. *)
Lemma new_links_known ips ls rls mds :
  NoDup (Spec.link_id <$> ls) → foldM (new_link ips) ls (∅, ∅) = Ok (rls, mds) →
  Forall (λ l, Spec.link_id l ∈ dom rls ∧ ∃ s t, ips !! source l = Some s ∧ ips !! target l = Some t ∧
    mds !! Spec.link_id l = Some (mkLinkMetadata s t (delay l) (bandwidth_bps l))) ls.
Proof.
  intros Hnd Hf. eapply (foldM_inv_prefix (λ pre x, Forall (λ l, Spec.link_id l ∈ dom x.1 ∧
    ∃ s t, ips !! source l = Some s ∧ ips !! target l = Some t ∧
    x.2 !! Spec.link_id l = Some (mkLinkMetadata s t (delay l) (bandwidth_bps l))) pre)) in Hf;
    [exact Hf|constructor|].
  intros pre b post x x' -> Hpre Hx. unfold new_link in Hx.
  destruct (ips !! source b) as [s|] eqn:Hs; [|done]. simpl in Hx.
  destruct (ips !! target b) as [t|] eqn:Ht; [|done]. injection Hx as <-. simpl.
  apply Forall_app. split.
  - apply Forall_forall. intros l Hl.
    assert (Spec.link_id l ≠ Spec.link_id b) as Hne.
    { rewrite fmap_app, fmap_cons in Hnd. apply NoDup_app in Hnd as (_ & Hd & _).
      intros Heq. apply (Hd (Spec.link_id l)); [by apply list_elem_of_fmap_2|]. rewrite Heq. left. }
    rewrite Forall_forall in Hpre. destruct (Hpre l Hl) as (H1 & s' & t' & H2 & H3 & H4).
    rewrite dom_insert, lookup_insert_ne by done. split; [set_solver|eauto].
  - constructor; [|done]. rewrite dom_insert, lookup_insert_eq. split; [set_solver|eauto].
Qed.

(** ** What the network is built from *)
Section start.
Context {H : Type} {HH : BinaryHeap PrioritizedInTransitData above H}.
Context {R : Type}.

Definition node_of (ns : NetworkNodeSpec) (nd : Node) : Prop :=
  n_id nd = node_id ns ∧ n_addresses nd = node_addresses ns ∧
  (is_Some (n_udp_endpoint nd) → kind ns = Host) ∧
  n_status nd = StatusUp ∧ n_last_buffer_clear nd = None ∧ n_outbound nd = [].

(** The nodes built from [specs]. *)
Record built (specs : list NetworkNodeSpec) (b : Builder) : Prop := mkBuilt {
  bu_node : ∀ n nd, bd_nodes b !! n = Some nd →
    (n < bd_next b)%nat ∧ bd_by_id b !! n_id nd = Some n ∧ ∃ ns, ns ∈ specs ∧ node_of ns nd;
  bu_by_id : ∀ id n, bd_by_id b !! id = Some n → ∃ nd, bd_nodes b !! n = Some nd ∧ n_id nd = id;
  bu_by_addr : ∀ a n, bd_by_addr b !! a = Some n →
    ∃ nd, bd_nodes b !! n = Some nd ∧ a ∈ n_addresses nd;
}.

(** A node with a new id is added. *)
Lemma built_add specs b ns nd by_addr :
  built specs b → node_of ns nd → node_id ns ∉ node_id <$> specs →
  (∀ a n, by_addr !! a = Some n → bd_by_addr b !! a = Some n ∨ n = bd_next b ∧ a ∈ n_addresses nd) →
  built (specs ++ [ns])
    (mkBuilder by_addr (<[n_id nd := bd_next b]> (bd_by_id b)) (<[bd_next b := nd]> (bd_nodes b))
       (S (bd_next b))).
Proof.
  intros [H1 H2 H3] Hof Hnew Haddr.
  assert (∀ id n, bd_by_id b !! id = Some n → id ≠ n_id nd) as Hid.
  { intros id n (md & Hmd & <-)%H2 Heq. apply H1 in Hmd as (_ & _ & ns' & Hin & Hof').
    apply Hnew. destruct Hof as [<- _], Hof' as [Hid _]. rewrite <-Heq, Hid.
    by apply list_elem_of_fmap_2. }
  assert (∀ n md, bd_nodes b !! n = Some md → n ≠ bd_next b) as Hne.
  { intros n md (? & _)%H1. lia. }
  split; simpl.
  - intros n md. destruct (decide (n = bd_next b)) as [->|].
    + rewrite lookup_insert_eq. intros [= <-]. rewrite lookup_insert_eq.
      split_and!; [lia|done|]. exists ns. split; [apply elem_of_app; right; left|done].
    + rewrite lookup_insert_ne by done. intros (Hn & Hb & ns' & Hin & Hof')%H1.
      split_and!; [lia| |].
      * rewrite lookup_insert_ne; [done|]. apply Hid in Hb. done.
      * exists ns'. split; [by apply elem_of_app; left|done].
  - intros id n. destruct (decide (id = n_id nd)) as [->|].
    + rewrite lookup_insert_eq. intros [= <-]. exists nd. by rewrite lookup_insert_eq.
    + rewrite lookup_insert_ne by done. intros (md & Hmd & <-)%H2. exists md.
      rewrite lookup_insert_ne; [done|]. intros <-. by apply Hne in Hmd.
  - intros a n [(md & Hmd & Ha)%H3|[-> Ha]]%Haddr.
    + exists md. rewrite lookup_insert_ne; [done|]. intros <-. by apply Hne in Hmd.
    + exists nd. by rewrite lookup_insert_eq.
Qed.

Lemma host_of ns nd : host ns = Ok nd → node_of ns nd ∧ ∃ a rest, n_addresses nd = a :: rest ∧
  n_udp_endpoint nd = Some (mkSocketAddr a HOST_PORT).
Proof.
  unfold host. destruct (kind ns) eqn:Hk; [|done]. destruct (interfaces ns); [done|].
  destruct (Spec.addresses _); [done|]. intros Hh. inv_bind Hh. injection Hh as <-.
  split; [by split_and!|]. simpl. destruct (node_addresses ns) as [|a' rest]; [done|].
  injection Hhm as ->. by exists a, rest.
Qed.

Lemma router_of ns nd : router ns = Ok nd → node_of ns nd.
Proof.
  unfold router. destruct (node_addresses ns) eqn:Ha; [done|]. intros [= <-].
  by split_and!; simpl; try done; intros [].
Qed.

Lemma built_host specs b ns b' :
  built specs b → node_id ns ∉ node_id <$> specs → add_host b ns = Ok b' → built (specs ++ [ns]) b'.
Proof.
  intros Hb Hnew Ha. unfold add_host in Ha. inv_bind Ha. inv_bind Ha.
  apply lift_node_ok, host_of in Ham as (Hof & x & rest & Haddr & Hep). rewrite Hep in Ham0.
  injection Ham0 as <-. simpl in Ha. destruct (bd_by_addr b !! x); [done|]. injection Ha as <-.
  apply (built_add _ _ _ _ _ Hb Hof Hnew). intros y n. destruct (decide (y = x)) as [->|].
  - rewrite lookup_insert_eq. intros [= <-]. right. split; [done|]. rewrite Haddr. left.
  - rewrite lookup_insert_ne by done. auto.
Qed.

Lemma built_router specs b ns b' :
  built specs b → node_id ns ∉ node_id <$> specs → add_router b ns = Ok b' → built (specs ++ [ns]) b'.
Proof.
  intros Hb Hnew Ha. unfold add_router in Ha. inv_bind Ha. inv_bind Ha.
  apply lift_node_ok, router_of in Ham as Hof. injection Ha as <-.
  apply (built_add _ _ _ _ _ Hb Hof Hnew). revert Ham0.
  apply (foldM_inv (λ m, ∀ x n, m !! x = Some n →
    bd_by_addr b !! x = Some n ∨ n = bd_next b ∧ x ∈ n_addresses a)); [auto|].
  intros m y m' Hm Hy Hx. unfold add_router_address in Hx. destruct (m !! y); [done|].
  injection Hx as <-. intros x n. destruct (decide (x = y)) as [->|].
  - rewrite lookup_insert_eq. intros [= <-]. by right.
  - rewrite lookup_insert_ne by done. apply Hm.
Qed.

(** The links built from [specs]. *)
Record linked (specs : list NetworkLinkSpec) (b : @Links H) : Prop := mkLinked {
  ln_nodup : NoDup (Spec.link_id <$> specs);
  ln_link : ∀ l lk, lb_links b !! l = Some lk →
    (l < lb_next b)%nat ∧ ∃ ls, ls ∈ specs ∧ lk = NetworkLink_new ls;
  ln_ids : ∀ ls, ls ∈ specs → is_Some (lb_by_id b !! Spec.link_id ls);
  ln_by_addr : ∀ s t l, lb_by_addr b !! (s, t) = Some l →
    ∃ ls, ls ∈ specs ∧ lb_links b !! l = Some (NetworkLink_new ls) ∧ source ls = s ∧ target ls = t;
}.

Lemma linked_add specs b ls b' : linked specs b → add_link b ls = Ok b' → linked (specs ++ [ls]) b'.
Proof.
  intros [H0 H1 H2 H3]. unfold add_link. destruct (lb_by_addr b !! _); [done|].
  destruct (lb_by_id b !! Spec.link_id ls) eqn:Hid; [done|]. intros [= <-]. split; simpl.
  - rewrite fmap_app. apply NoDup_app. split_and!; [done| |repeat constructor; set_solver].
    intros id (l & -> & Hl)%list_elem_of_fmap Heq%list_elem_of_singleton.
    destruct (H2 l Hl) as [x Hx]. congruence.
  - intros l lk. destruct (decide (l = lb_next b)) as [->|].
    + rewrite lookup_insert_eq. intros [= <-]. split; [lia|]. exists ls.
      split; [apply elem_of_app; right; left|done].
    + rewrite lookup_insert_ne by done. intros (? & x & ? & ->)%H1. split; [lia|]. exists x.
      split; [by apply elem_of_app; left|done].
  - intros x [Hx| ->%list_elem_of_singleton]%elem_of_app.
    + apply lookup_insert_is_Some'. right. by apply H2.
    + rewrite lookup_insert_eq. by eexists.
  - intros s t l. destruct (decide ((s, t) = (source ls, target ls))) as [[= -> ->]|].
    + rewrite lookup_insert_eq. intros [= <-]. exists ls. rewrite lookup_insert_eq.
      split_and!; try done. apply elem_of_app. right. left.
    + rewrite lookup_insert_ne by done. intros (x & Hx & Hl & ? & ?)%H3. exists x.
      split_and!; try done; [by apply elem_of_app; left|].
      rewrite lookup_insert_ne; [done|]. intros <-. apply H1 in Hl as [? _]. lia.
Qed.

(** ** The facts that never change *)
Section wired.
Context (topo : Topology) (v0 : SimulationVerifier).

Abbreviation world := (World H R).

Definition node_fixed (n : Node) : list IpAddr * string * option SocketAddr :=
  (n_addresses n, n_id n, n_udp_endpoint n).
Definition link_fixed (l : @NetworkLink H) : string * IpAddr * Z * Z :=
  (l_id l, l_target l, l_delay l, l_extra_delay l).

Record fixed (w w' : world) : Prop := mkFixed {
  fx_nodes : node_fixed <$> w_nodes w' = node_fixed <$> w_nodes w;
  fx_links : link_fixed <$> w_links w' = link_fixed <$> w_links w;
}.

#[export] Instance fixed_preorder : PreOrder fixed.
Proof. split; [by intros w|]. intros x y z [] []. split; congruence. Qed.

Lemma steady_fixed w w' : steady w w' → fixed w w'.
Proof.
  intros [_ _ _ _ Hn Hl _]. split.
  - assert (∀ m : gmap node_ref Node, node_fixed <$> m =
      (λ '(a, i, e, _, _), (a, i, e)) <$> (node_facts <$> m)) as Hf
      by (intros m; rewrite <-map_fmap_compose; done).
    by rewrite !Hf, Hn.
  - assert (∀ m : gmap link_ref (@NetworkLink H), link_fixed <$> m =
      (λ '(i, t, _, _, d, x), (i, t, d, x)) <$> (link_facts <$> m)) as Hf
      by (intros m; rewrite <-map_fmap_compose; done).
    by rewrite !Hf, Hl.
Qed.

(** A link as the verifier knows it. *)
Record wired_link (w : world) (l : link_ref) (lk : @NetworkLink H) (md : LinkMetadata) : Prop :=
  mkWiredLink {
  wl_delay : lm_delay md = l_delay lk;
  wl_extra : 0 ≤ l_extra_delay lk;
  wl_target : ∀ n nd, nodes_by_addr topo !! l_target lk = Some n → w_nodes w !! n = Some nd →
    n_id nd = lm_target_node_id md;
  wl_source : ∀ n nd a dest, w_nodes w !! n = Some nd → a ∈ n_addresses nd →
    links_by_addr topo !! (a, dest) = Some l → n_id nd = lm_source_node_id md;
}.

Record wired (w : world) : Prop := mkWired {
  wi_node : ∀ n nd, w_nodes w !! n = Some nd →
    n_id nd ∈ dom (v_nodes v0) ∧ nodes_by_id topo !! n_id nd = Some n ∧
    (is_Some (n_udp_endpoint nd) → n_id nd ∈ v_host_nodes v0);
  wi_by_id : ∀ id n, nodes_by_id topo !! id = Some n → ∃ nd, w_nodes w !! n = Some nd ∧ n_id nd = id;
  wi_link : ∀ l lk, w_links w !! l = Some lk →
    l_id lk ∈ dom (v_links v0) ∧ ∃ md, v_link_metadata v0 !! l_id lk = Some md ∧ wired_link w l lk md;
}.

Lemma wired_fixed w w' : fixed w w' → wired w → wired w'.
Proof.
  intros [Hn Hl] [H1 H2 H3].
  assert (∀ n nd', w_nodes w' !! n = Some nd' → ∃ nd, w_nodes w !! n = Some nd ∧
    node_fixed nd' = node_fixed nd) as Hback by (intros n nd'; by apply fmap_facts_lookup).
  split.
  - intros n nd' (nd & Hnd & [= _ -> ->])%Hback. by apply H1.
  - intros id n (nd & Hnd & <-)%H2. symmetry in Hn.
    destruct (fmap_facts_lookup _ _ _ _ _ Hn Hnd) as (nd' & Hnd' & [= _ -> _]). by exists nd'.
  - intros l lk' Hlk'. destruct (fmap_facts_lookup _ _ _ _ _ Hl Hlk') as (lk & Hlk & [= Hi Ht Hd Hx]).
    rewrite Hi. destruct (H3 l lk Hlk) as (? & md & Hmd & [W1 W2 W3 W4]). split; [done|].
    exists md. split; [done|]. split; rewrite ?Hd, ?Hx, ?Ht; try done.
    + intros n nd' Hn' (nd & Hnd & [= _ -> _])%Hback. by eapply W3.
    + intros n nd' a dest (nd & Hnd & [= -> -> _])%Hback. by apply (W4 n nd).
Qed.

(** A network in which nothing has happened yet. *)
Record pristine (w : world) : Prop := mkPristine {
  pr_log : w_log w = [];
  pr_handled : w_handled w = ∅;
  pr_nodes : ∀ n nd, w_nodes w !! n = Some nd →
    n_status nd = StatusUp ∧ n_last_buffer_clear nd = None ∧ n_outbound nd = [];
  pr_links : ∀ l lk, w_links w !! l = Some lk →
    l_outgoing lk = [] ∧ l_in_transit lk = InboundQueue_new ∧ l_status lk = LinkStatusUp ∧
    l_last_down lk = None;
  pr_tasks : ∀ l ph, w_link_tasks w !! l = Some ph → ph = AwaitPacket;
  pr_inbound : ∀ n q, w_inbound w !! n = Some q → q = InboundQueue_new;
}.
End wired.

Section initial.
Context (now : Z) (spec : NetworkSpec) (events : NetworkEvents) (rng : R) (start : Z).
Context (disable_time_warping : bool) (topo : Topology) (w0 : World H R).
Context (Hinit : initialize now spec events rng start disable_time_warping = Ok (topo, w0)).
Context (Hids : NoDup (node_id <$> nodes spec)).

Lemma built_fold add l0 l b b' :
  (∀ specs b ns b', built specs b → node_id ns ∉ node_id <$> specs → add b ns = Ok b' →
     built (specs ++ [ns]) b') →
  NoDup (node_id <$> l0 ++ l) → built l0 b → foldM (E:=InitError) add l b = Ok b' → built (l0 ++ l) b'.
Proof.
  intros Hadd Hnd Hb. apply (foldM_inv_prefix (λ pre b, built (l0 ++ pre) b)); [by rewrite app_nil_r|].
  intros pre ns post x x' -> Hx Ha. rewrite app_assoc. eapply Hadd; [done| |done].
  rewrite app_assoc, fmap_app, fmap_cons in Hnd. apply NoDup_app in Hnd as (_ & Hd & _).
  intros Hin. apply (Hd _ Hin). left.
Qed.

(** The world before the initial events. *)
Lemma initialize_built :
  ∃ b ls w, built (filter (λ n, is_host n = true) (nodes spec) ++
      filter (λ n, is_host n = false) (nodes spec)) b ∧ linked (links spec) ls ∧
    links_ok ls ∧ w_nodes w = bd_nodes b ∧ w_links w = lb_links ls ∧ pristine w ∧ w_rng w = rng ∧
    w_now w = now ∧
    nodes_by_addr topo = bd_by_addr b ∧ nodes_by_id topo = bd_by_id b ∧
    links_by_addr topo = lb_by_addr ls ∧ links_by_id topo = lb_by_id ls ∧
    (_ ← nforeach (process_link_event topo) (initial_link_events events);
     nforeach (process_node_event topo) (initial_node_events events)) w = Some ((), w0).
Proof using Hinit Hids.
  unfold initialize in Hinit. inv_bind Hinit. clear Hinitm.
  inv_bind Hinit. clear Hinitm. inv_bind Hinit. inv_bind Hinit. inv_bind Hinit.
  rename a1 into b, a2 into ls, a3 into b'. set (w := mkWorld _ _ _ _ _ _ _ _ _ _ _ _ _ _) in Hinit.
  set (t := mkTopology _ _ _ _ _) in Hinit.
  match type of Hinit with context [match ?x with _ => _ end] =>
    destruct x as [[[] w']|] eqn:Hw; [|done] end. injection Hinit as <- <-.
  set (hosts := filter (λ n, is_host n = true) (nodes spec)) in *.
  set (routers := filter (λ n, is_host n = false) (nodes spec)) in *.
  assert (NoDup (node_id <$> hosts ++ routers)) as Hnd.
  { assert (hosts ++ routers ≡ₚ nodes spec) as Hp; [|by rewrite Hp].
    subst hosts routers. clear. induction (nodes spec) as [|x l IH]; [done|].
    rewrite !filter_cons. destruct (is_host x); simpl; [by rewrite IH|].
    by rewrite <-Permutation_middle, IH. }
  assert (built (hosts ++ routers) b') as Hb'.
  { eapply (built_fold add_router); [apply built_router|done| |exact Hinitm1].
    apply (built_fold add_host [] hosts builder_init); [apply built_host| | |done].
    - rewrite fmap_app in Hnd. by apply NoDup_app in Hnd as (? & _ & _).
    - split; simpl; intros ? ?; by rewrite lookup_empty. }
  assert (linked (links spec) ls) as Hls.
  { refine (foldM_inv_prefix linked _ _ _ _ _ _ Hinitm0).
    - split; simpl; try (intros *; by rewrite ?lookup_empty); [constructor|].
      by intros ? ?%not_elem_of_nil.
    - intros pre l _ x x' _ Hx Ha. by apply (linked_add _ x). }
  pose proof (add_links_ok _ _ Hinitm0) as Hok.
  exists b', ls, w. split; [done|]. split; [done|]. split; [done|]. split_and!; try done. split; try done.
  - intros n nd (_ & _ & ns & _ & _ & _ & _ & ? & ? & ?)%(bu_node _ _ Hb'). done.
  - intros l lk (_ & x & _ & ->)%(ln_link _ _ Hls). done.
  - intros l ph. simpl. rewrite lookup_fmap. by intros (? & _ & ->)%fmap_Some.
  - intros n q. simpl. unfold inbound_queues. rewrite lookup_omap.
    intros (nd & _ & Hq)%bind_Some. destruct (n_udp_endpoint nd); by simplify_eq.
Qed.

Context (hash_order : gset string → list string) (log steps : list SimulationStep).
Context (v0 : SimulationVerifier).
Context (Hnew : verifier_new hash_order log spec = Ok (steps, v0)).
Context (Hextra : Forall (λ l, 0 ≤ extra_delay l) (links spec)).

Lemma verifier_knows :
  NoDup (Spec.link_id <$> links spec) → ∃ ips : gmap IpAddr string,
    (∀ ns, ns ∈ nodes spec → node_id ns ∈ dom (v_nodes v0) ∧
       (kind ns = Host → node_id ns ∈ v_host_nodes v0) ∧
       ∀ a, a ∈ node_addresses ns → ips !! a = Some (node_id ns)) ∧
    (∀ l, l ∈ links spec → Spec.link_id l ∈ dom (v_links v0) ∧
       ∃ s t, ips !! source l = Some s ∧ ips !! target l = Some t ∧
         v_link_metadata v0 !! Spec.link_id l = Some (mkLinkMetadata s t (delay l) (bandwidth_bps l))).
Proof using Hnew.
  intros Hnd. unfold verifier_new in Hnew. inv_bind Hnew. inv_bind Hnew. destruct a0 as [rls mds].
  injection Hnew as _ <-. simpl. exists (nn_ips a).
  apply new_nodes_known in Hnewm. apply new_links_known in Hnewm0; [|done].
  rewrite Forall_forall in Hnewm. rewrite Forall_forall in Hnewm0.
  split; [|exact Hnewm0]. intros ns Hns. by destruct (Hnewm ns Hns).
Qed.

Lemma initialize_wired :
  ∃ w, wired topo v0 w ∧ pristine w ∧ w_rng w = rng ∧ w_now w = now ∧
    (∀ l lk, w_links w !! l = Some lk → links_by_id topo !! l_id lk = Some l) ∧
    (∀ id l, links_by_id topo !! id = Some l → ∃ lk, w_links w !! l = Some lk ∧ l_id lk = id) ∧
    (_ ← nforeach (process_link_event topo) (initial_link_events events);
     nforeach (process_node_event topo) (initial_node_events events)) w = Some ((), w0).
Proof using Hinit Hids Hnew Hextra.
  destruct initialize_built as (b & ls & w & Hb & Hls & [Hok1 Hok2] & Hn & Hl & Hpr & Hr & Ht & Ea & Ei & El & Elid & Hev).
  exists w. split_and!; try done.
  2: { intros l lk. rewrite Hl, Elid. by intros (_ & ? & _)%Hok1. }
  2: { intros id l. rewrite Hl, Elid. apply Hok2. }
  destruct (verifier_knows (ln_nodup _ _ Hls)) as (ips & Hnodes & Hlinks).
  assert (∀ n nd, w_nodes w !! n = Some nd → nodes_by_id topo !! n_id nd = Some n ∧
    ∃ ns, ns ∈ nodes spec ∧ node_of ns nd) as Hnode.
  { intros n nd. rewrite Hn, Ei. intros (_ & ? & ns & Hin & Hof)%(bu_node _ _ Hb). split; [done|].
    exists ns. split; [|done].
    by apply elem_of_app in Hin as [[_ ?]%list_elem_of_filter|[_ ?]%list_elem_of_filter]. }
  assert (∀ n nd a, w_nodes w !! n = Some nd → a ∈ n_addresses nd → ips !! a = Some (n_id nd)) as Hips.
  { intros n nd a (_ & ns & Hin & -> & -> & _)%Hnode Ha.
    destruct (Hnodes ns Hin) as (_ & _ & Hi). by apply Hi. }
  split.
  - intros n nd (Hid & ns & Hin & Hi & _ & Hk & _)%Hnode. rewrite Hi in *.
    destruct (Hnodes ns Hin) as (H1 & H2 & _). auto.
  - intros id n. rewrite Ei, Hn. apply (bu_by_id _ _ Hb).
  - intros l lk. rewrite Hl. intros Hlk. destruct (ln_link _ _ Hls _ _ Hlk) as (_ & x & Hin & ->).
    destruct (Hlinks x Hin) as (Hd & s & t & Hs & Hx & Hmd). split; [done|].
    eexists. split; [exact Hmd|]. simpl. split; simpl; try done.
    + rewrite Forall_forall in Hextra. by apply Hextra.
    + intros n nd. rewrite Ea. intros (md & Hmd' & Ha)%(bu_by_addr _ _ Hb) Hnd.
      rewrite Hn in Hnd. simplify_eq. rewrite <-Hn in Hmd'. specialize (Hips _ _ _ Hmd' Ha). congruence.
    + intros n nd a dest Hnd Ha. rewrite El. intros (y & Hy & Hly & <- & _)%(ln_by_addr _ _ Hls).
      rewrite Hlk in Hly. assert (Spec.link_id x = Spec.link_id y) as Hxy by (unfold NetworkLink_new in Hly; congruence).
      destruct (Hlinks y Hy) as (_ & s' & t' & Hs' & _ & Hmd'). rewrite <-Hxy in Hmd'.
      specialize (Hips _ _ _ Hnd Ha). congruence.
Qed.
End initial.
End start.
