(* ===== verification/NetworkTold.v ===== *)
(** * The log tells the statuses

    What the log says about the status of a node or link, about the latest
    buffer clear of a node and about the failures of a link is what the network
    knows. *)

From stdpp Require Import relations.
From S2P Require Import Prelude Float Ip Spec Event Transmit SimStep Replayed Verifier History.
From S2P Require Import VerifierThms Custody Heap InboundQueue Node Link Network NetworkInit.
From S2P Require Import NetworkInv NetworkSteady NetworkStart NetworkWired.

(** ** Steps that are no events *)
Definition told_same (h h' : history) : Prop :=
  (∀ n, node_status_at h' n = node_status_at h n) ∧
  (∀ n, node_last_clear h' n = node_last_clear h n) ∧
  (∀ l, link_status_at h' l = link_status_at h l) ∧
  (∀ l, link_last_down h' l = link_last_down h l) ∧
  (∀ l t, went_down_at h' l t ↔ went_down_at h l t).

#[export] Instance told_same_preorder : PreOrder told_same.
Proof.
  split; [by intros h|]. intros x y z (A1 & A2 & A3 & A4 & A5) (B1 & B2 & B3 & B4 & B5).
  split_and!; intros; [by rewrite B1|by rewrite B2|by rewrite B3|by rewrite B4|by rewrite B5].
Qed.

Lemma told_same_step h t k : not_event k → told_same h (mkStep t k :: h).
Proof.
  intros Hk. assert ((∀ n, node_event (mkStep t k) n = None) ∧ ∀ l, link_event (mkStep t k) l = None)
    as [Hn Hl].
  { unfold node_event, link_event. destruct k; done. }
  split_and!; intros; simpl; rewrite ?Hn, ?Hl; try done.
  unfold went_down_at. setoid_rewrite elem_of_cons. split; [|naive_solver].
  intros (s & [->|Hs] & He & Ht); [congruence|eauto].
Qed.

Lemma told_same_app log t ks :
  Forall not_event ks → told_same (rev log) (rev (log ++ (mkStep t <$> ks))).
Proof.
  intros Hks. rewrite rev_app_distr. induction ks as [|k ks IH] using rev_ind; [done|].
  apply Forall_app in Hks as [Hks [Hk _]%Forall_cons].
  rewrite fmap_app, rev_app_distr. simpl. etrans; [by apply IH|]. by apply told_same_step.
Qed.

Lemma last_down_went_down h l d : link_last_down h l = Some d → went_down_at h l d.
Proof.
  induction h as [|s h IH]; simpl; [done|].
  assert (link_last_down h l = Some d → went_down_at (s :: h) l d) as Hih.
  { intros (x & Hx & ?)%IH. exists x. split; [by right|done]. }
  destruct (link_event s l) as [[]|] eqn:He; [exact Hih| |exact Hih].
  intros [= <-]. exists s. split; [left|done].
Qed.

Section network.
Context {H : Type} {HH : BinaryHeap PrioritizedInTransitData above H}.
Context {R : Type} (rng_f64 : R → f64 * R) (rng_u128 : R → Z * R).
Context (timer_elapsed : Z → Z → bool) (topo : Topology) (v0 : SimulationVerifier).

Abbreviation world := (World H R).

Definition node_update (nd : Node) : UpdateNodeStatus := if is_down nd then NodeDown else NodeUp.

Record told (w : world) : Prop := mkTold {
  td_wired : wired topo v0 w;
  td_link_id : ∀ l lk, w_links w !! l = Some lk → links_by_id topo !! l_id lk = Some l;
  td_link_known : ∀ id l, links_by_id topo !! id = Some l → ∃ lk, w_links w !! l = Some lk ∧ l_id lk = id;
  td_node : ∀ n nd, w_nodes w !! n = Some nd →
    node_status_at (rev (w_log w)) (n_id nd) = node_update nd ∧
    node_last_clear (rev (w_log w)) (n_id nd) = n_last_buffer_clear nd;
  td_link : ∀ l lk, w_links w !! l = Some lk →
    link_is_down (l_status lk) = bool_decide (link_status_at (rev (w_log w)) (l_id lk) = LinkDown) ∧
    ∀ d, l_last_down lk = Some d → went_down_at (rev (w_log w)) (l_id lk) d;
  td_past : ∀ s, s ∈ w_log w → step_time s ≤ w_now w;
}.

Lemma steady_told w w' : steady w w' → told w → told w'.
Proof.
  intros Hst [T1 T2 T3 T4 T5 T6]. pose proof (steady_fixed _ _ Hst) as Hfx.
  destruct Hst as [Hnow _ _ _ Hn Hl (ks & Hks & Hlog)].
  pose proof (told_same_app (w_log w) (w_now w) ks Hks) as (S1 & S2 & S3 & S4 & S5).
  rewrite <-Hlog in S1, S2, S3, S4, S5. split.
  - by apply (wired_fixed _ _ w).
  - intros l lk' Hlk'. destruct (fmap_facts_lookup _ _ _ _ _ Hl Hlk') as (lk & Hlk & [= -> _ _ _ _]).
    by apply T2.
  - intros id l (lk & Hlk & <-)%T3. symmetry in Hl.
    destruct (fmap_facts_lookup _ _ _ _ _ Hl Hlk) as (lk' & Hlk' & [= -> _ _ _ _]). by exists lk'.
  - intros n nd' Hnd'. destruct (fmap_facts_lookup _ _ _ _ _ Hn Hnd') as (nd & Hnd & [= _ Hi _ Hs Hc]).
    destruct (T4 n nd Hnd) as [Ha Hb]. rewrite S1, S2, Hi, Hc, Ha, Hb. split; [|done].
    unfold node_update, is_down. by rewrite Hs.
  - intros l lk' Hlk'. destruct (fmap_facts_lookup _ _ _ _ _ Hl Hlk') as (lk & Hlk & [= Hi _ Hs Hd _ _]).
    destruct (T5 l lk Hlk) as [Ha Hb]. rewrite Hi, Hs, Hd, Ha, S3. split; [done|].
    intros d Hdd. by apply S5, Hb.
  - intros s. rewrite Hlog, elem_of_app, Hnow. intros [Hs|(k & -> & _)%list_elem_of_fmap]; [auto|done].
Qed.

(** ** Events *)

(** A packet that left over the link at [ts] and has not arrived yet: the link
    went down at that instant, or it knows that it went down since, or it is up
    and all its failures are older. *)
Definition settled (h : history) (lk : @NetworkLink H) (ts : Z) : Prop :=
  went_down_at h (l_id lk) ts ∨ (∃ d, l_last_down lk = Some d ∧ ts ≤ d) ∨
  (link_is_down (l_status lk) = false ∧ ∀ d, link_last_down h (l_id lk) = Some d → d < ts).

(** What an event leaves alone. *)
Record undisturbed (w w' : world) : Prop := mkUndisturbed {
  un_now : w_now w' = w_now w;
  un_inbound : w_inbound w' = w_inbound w;
  un_tasks : w_link_tasks w' = w_link_tasks w;
  un_handled : w_handled w' = w_handled w;
  un_rng : w_rng w' = w_rng w;
  un_next : (w_next w ≤ w_next w')%nat;
  un_fixed : fixed w w';
  un_outbound : n_outbound <$> w_nodes w' = n_outbound <$> w_nodes w;
  un_queues : (λ lk, (l_outgoing lk, l_in_transit lk)) <$> w_links w' =
              (λ lk, (l_outgoing lk, l_in_transit lk)) <$> w_links w;
  un_settled : ∀ l lk lk' ts, w_links w !! l = Some lk → w_links w' !! l = Some lk' →
    ts ≤ w_now w → settled (rev (w_log w)) lk ts → settled (rev (w_log w')) lk' ts;
  un_log : w_log w' = w_log w ∨ ∃ e, w_log w' = w_log w ++ [mkStep (w_now w) (NetworkEventStep e)] ∧
    (∀ p, ev_link e = Some p → le_link_id p ∈ dom (v_links v0)) ∧
    (∀ p, ev_node e = Some p → ne_node_id p ∈ dom (v_nodes v0));
}.

Lemma undisturbed_refl w : undisturbed w w.
Proof. split; try done; [|by left]. intros l lk lk' ts ??. by simplify_eq. Qed.

(** What an event does to a node. *)
Lemma process_node_event_run e w w' :
  told w → process_node_event topo e w = Some ((), w') →
  w' = w ∨ ∃ n nd nd' next fired, w_nodes w !! n = Some nd ∧ n_id nd = ne_node_id e ∧
    w' = set_w_log (w_log w ++ [mkStep (w_now w) (NetworkEventStep (mkNetEvent None (Some e)))])
           (set_w_nodes (<[n := nd']> (w_nodes w)) (set_w_next next (set_w_fired fired w))) ∧
    (w_next w ≤ next)%nat ∧
    node_fixed nd' = node_fixed nd ∧ n_outbound nd' = n_outbound nd ∧
    node_update nd' = default (node_update nd) (ne_status e) ∧
    n_last_buffer_clear nd' = if ne_clear_buffer e then Some (w_now w) else n_last_buffer_clear nd.
Proof.
  intros Ht Hm. unfold process_node_event in Hm.
  destruct (nodes_by_id topo !! ne_node_id e) as [n|] eqn:Hid; [|injection Hm as <-; by left].
  destruct (wi_by_id _ _ _ (td_wired _ Ht) _ _ Hid) as (nd & Hnd & Hnid).
  right. apply nm_bind_inv in Hm as ([] & w1 & H1 & Hm).
  assert (∃ nd1 next fired, w1 = set_w_nodes (<[n := nd1]> (w_nodes w)) (set_w_next next (set_w_fired fired w)) ∧
    (w_next w ≤ next)%nat ∧ node_fixed nd1 = node_fixed nd ∧ n_outbound nd1 = n_outbound nd ∧
    n_last_buffer_clear nd1 = n_last_buffer_clear nd ∧
    node_update nd1 = default (node_update nd) (ne_status e)) as
    (nd1 & next & fired & -> & Hnext & Hf1 & Ho1 & Hc1 & Hu1).
  { destruct (ne_status e) as [st|].
    - rewrite (nm_bind_eq _ _ _ nd w) in H1 by by apply get_node_eq.
      apply nm_bind_inv in H1 as (c & w2 & [= <- <-] & H1).
      destruct (node_update_status (w_next w) st (n_status nd)) as [st' f] eqn:Hst.
      apply nm_bind_inv in H1 as ([] & w3 & [= <-] & ->%fire_world).
      exists (set_n_status st' nd), (S (w_next w)),
        (match f with Some c => {[c]} ∪ w_fired w | None => w_fired w end).
      split; [done|]. simpl.
      split_and!; try done; [lia|]. unfold node_update, is_down. simpl.
      unfold node_update_status in Hst. destruct (n_status nd), st; by injection Hst as <- _.
    - injection H1 as <-. exists nd, (w_next w), (w_fired w). rewrite insert_id by done.
      split_and!; try done. by destruct w. }
  apply nm_bind_inv in Hm as ([] & w2 & H2 & Hm). injection Hm as <-.
  exists n, nd. destruct (ne_clear_buffer e).
  - rewrite (nm_bind_eq _ _ _ nd1 _) in H2 by (apply get_node_eq; simpl; by rewrite lookup_insert_eq).
    apply nm_bind_inv in H2 as (t & w3 & [= <- <-] & [= <-]).
    exists (clear_buffer (w_now w) nd1), next, fired. split_and!; try done.
    simpl. unfold set_w_nodes. simpl. by rewrite insert_insert_eq.
  - injection H2 as <-. exists nd1, next, fired. by split_and!.
Qed.

Lemma fmap_insert_same {K A B} `{Countable K} (f : A → B) (m : gmap K A) k x x' :
  m !! k = Some x → f x' = f x → f <$> <[k := x']> m = f <$> m.
Proof. intros Hk Hf. rewrite fmap_insert, Hf. apply insert_id. by rewrite lookup_fmap, Hk. Qed.

Lemma process_node_event_told e w w' :
  told w → process_node_event topo e w = Some ((), w') → told w' ∧ undisturbed w w'.
Proof.
  intros Ht Hm. destruct (process_node_event_run e w w' Ht Hm) as
    [->|(n & nd & nd' & next & fired & Hnd & Hid & -> & Hnext & Hf & Ho & Hu & Hc)];
    [split; [done|apply undisturbed_refl]|].
  set (s := mkStep (w_now w) (NetworkEventStep (mkNetEvent None (Some e)))).
  match goal with |- told ?w' ∧ _ => assert (fixed w w') as Hfx end.
  { split; simpl; [by apply (fmap_insert_same _ _ _ nd)|done]. }
  destruct Ht as [T1 T2 T3 T4 T5 T6].
  assert (rev (w_log w ++ [s]) = s :: rev (w_log w)) as Hrev by by rewrite rev_app_distr.
  assert (∀ l, link_event s l = None) as Hle by done.
  assert (∀ m, node_event s m = if decide (ne_node_id e = m) then Some e else None) as Hne by done.
  assert (∀ l t, went_down_at (rev (w_log w)) l t → went_down_at (s :: rev (w_log w)) l t) as Hwd.
  { intros l t. apply (went_down_at_app _ [s]). }
  split.
  - split; simpl; rewrite ?Hrev; try done.
    + by apply (wired_fixed _ _ w).
    + intros m md. destruct (decide (m = n)) as [->|Hmn].
      * rewrite lookup_insert_eq. intros [= <-]. injection Hf as _ Hi _.
        cbn [node_status_at node_last_clear]. rewrite Hne, Hi, decide_True by done. simpl.
        destruct (T4 n nd Hnd) as [-> ->]. rewrite Hu, Hc. split; [done|]. by destruct (ne_clear_buffer e).
      * rewrite lookup_insert_ne by done. intros Hmd.
        cbn [node_status_at node_last_clear]. rewrite Hne, decide_False.
        { simpl. by apply (T4 m). }
        intros Heq. destruct (wi_node _ _ _ T1 _ _ Hmd) as (_ & H1 & _).
        destruct (wi_node _ _ _ T1 _ _ Hnd) as (_ & H2 & _). congruence.
    + intros l lk Hlk. destruct (T5 l lk Hlk) as [-> Hd]. cbn [link_status_at]. rewrite Hle.
      split; [done|]. intros d ?. by apply Hwd, Hd.
    + intros x [Hx| ->%list_elem_of_singleton]%elem_of_app; [auto|done].
  - split; simpl; try done.
    + by apply (fmap_insert_same _ _ _ nd).
    + intros l lk lk' ts Hlk Hlk' _. simplify_eq. rewrite Hrev. intros [Hs|[Hs|[Hs Hd]]].
      * left. by apply Hwd.
      * by right; left.
      * right; right. split; [done|]. cbn [link_last_down]. by rewrite Hle.
    + right. exists (mkNetEvent None (Some e)). split_and!; [done|done|]. simpl. intros p [= <-].
      rewrite <-Hid. by apply (wi_node _ _ _ T1 _ _ Hnd).
Qed.

Lemma link_update_facts t c st (lk lk' : @NetworkLink H) f :
  link_update_status t c st lk = (lk', f) →
  link_fixed lk' = link_fixed lk ∧ l_outgoing lk' = l_outgoing lk ∧
  l_in_transit lk' = l_in_transit lk ∧
  link_is_down (l_status lk') = match st with LinkDown => true | LinkUp => false end ∧
  l_last_down lk' = match st with
    | LinkDown => if link_is_down (l_status lk) then l_last_down lk else Some t
    | LinkUp => l_last_down lk
    end.
Proof.
  unfold link_update_status. destruct (l_status lk) eqn:Hs, st; intros [= <- <-]; simpl; rewrite ?Hs;
    by split_and!.
Qed.

(** What an event makes of the status of its link. *)
Definition link_changed (now : Z) (e : LinkEventPayload) (lk lk' : @NetworkLink H) : Prop :=
  match le_status e with
  | Some st =>
      link_is_down (l_status lk') = match st with LinkDown => true | LinkUp => false end ∧
      l_last_down lk' = match st with
        | LinkDown => if link_is_down (l_status lk) then l_last_down lk else Some now
        | LinkUp => l_last_down lk
        end
  | None => lk' = lk
  end.

Lemma process_link_event_run e w w' :
  told w → process_link_event topo e w = Some ((), w') →
  w' = w ∨ ∃ l lk lk' next fired, w_links w !! l = Some lk ∧ l_id lk = le_link_id e ∧
    w' = set_w_log (w_log w ++ [mkStep (w_now w) (NetworkEventStep (mkNetEvent (Some e) None))])
           (set_w_links (<[l := lk']> (w_links w)) (set_w_next next (set_w_fired fired w))) ∧
    (w_next w ≤ next)%nat ∧
    link_fixed lk' = link_fixed lk ∧ l_outgoing lk' = l_outgoing lk ∧
    l_in_transit lk' = l_in_transit lk ∧
    link_changed (w_now w) e lk lk'.
Proof.
  intros Ht Hm. unfold process_link_event in Hm. unfold link_changed.
  destruct (links_by_id topo !! le_link_id e) as [l|] eqn:Hid; [|injection Hm as <-; by left].
  destruct (td_link_known _ Ht _ _ Hid) as (lk & Hlk & Hlid).
  right. apply nm_bind_inv in Hm as ([] & w1 & H1 & Hm). injection Hm as <-. exists l, lk.
  destruct (le_status e) as [st|].
  - rewrite (nm_bind_eq _ _ _ lk w) in H1 by by apply get_net_link_eq.
    apply nm_bind_inv in H1 as (c & w2 & [= <- <-] & H1).
    apply nm_bind_inv in H1 as (t & w3 & [= <- <-] & H1). simpl in H1.
    destruct (link_update_status (w_now w) (w_next w) st lk) as [lk' f] eqn:Hst.
    apply nm_bind_inv in H1 as ([] & w3 & [= <-] & ->%fire_world).
    apply link_update_facts in Hst as (? & ? & ? & ? & ?).
    exists lk', (S (w_next w)), (match f with Some c => {[c]} ∪ w_fired w | None => w_fired w end).
    split_and!; try done. lia.
  - injection H1 as <-. exists lk, (w_next w), (w_fired w). split_and!; try done.
    rewrite insert_id by done. by destruct w.
Qed.

(** The status of the link is the one the log tells, before and after the event. *)
Lemma link_changed_told h now e (lk lk' : @NetworkLink H) :
  l_id lk = le_link_id e → l_id lk' = l_id lk → link_changed now e lk lk' →
  link_is_down (l_status lk) = bool_decide (link_status_at h (l_id lk) = LinkDown) ∧
    (∀ d, l_last_down lk = Some d → went_down_at h (l_id lk) d) →
  let h' := mkStep now (NetworkEventStep (mkNetEvent (Some e) None)) :: h in
  link_is_down (l_status lk') = bool_decide (link_status_at h' (l_id lk') = LinkDown) ∧
    ∀ d, l_last_down lk' = Some d → went_down_at h' (l_id lk') d.
Proof.
  intros Hid Hid' Hst [Hs Hd]. set (s := mkStep now _). cbn zeta. cbn [link_status_at].
  assert (∀ m, link_event s m = if decide (le_link_id e = m) then le_status e else None) as Hle by done.
  assert (∀ d, l_last_down lk = Some d → went_down_at (s :: h) (l_id lk) d) as Hkeep.
  { intros d Hl. by apply (went_down_at_app _ [s]), Hd. }
  unfold link_changed in Hst. rewrite Hid', Hle, decide_True by done.
  destruct (le_status e) as [st|] eqn:Hstat; simpl; [|by subst lk'].
  destruct Hst as [-> Hld]. split; [by destruct st|]. intros d. rewrite Hld.
  destruct st; [apply Hkeep|]. destruct (link_is_down (l_status lk)); [apply Hkeep|].
  intros [= <-]. exists s. split_and!; [left| |done]. by rewrite Hle, decide_True.
Qed.

(** What was settled for a packet on the link stays settled. *)
Lemma link_changed_settled h now e (lk lk' : @NetworkLink H) ts :
  l_id lk = le_link_id e → l_id lk' = l_id lk → link_changed now e lk lk' → ts ≤ now →
  settled h lk ts → settled (mkStep now (NetworkEventStep (mkNetEvent (Some e) None)) :: h) lk' ts.
Proof.
  intros Hid Hid' Hst Hts Hs. set (s := mkStep now _). unfold settled in *. rewrite Hid'.
  cbn [link_last_down].
  assert (link_event s (l_id lk) = le_status e) as ->.
  { change (link_event s (l_id lk)) with (if decide (le_link_id e = l_id lk) then le_status e else None).
    by rewrite decide_True. }
  assert (went_down_at h (l_id lk) ts → went_down_at (s :: h) (l_id lk) ts) as Hwd by apply (went_down_at_app _ [s]).
  unfold link_changed in Hst. destruct (le_status e) as [[]|]; simpl.
  - destruct Hst as [Hdn Hld]. rewrite Hdn, Hld. destruct Hs as [Hs|[Hs|[_ Hs]]]; auto.
  - destruct Hst as [Hdn Hld]. rewrite Hld. destruct Hs as [Hs|[Hs|[Hs _]]]; [auto| |].
    + right; left. destruct (link_is_down (l_status lk)); [done|]. by exists now.
    + right; left. rewrite Hs. by exists now.
  - subst lk'. destruct Hs as [Hs|[Hs|Hs]]; auto.
Qed.

Lemma process_link_event_told e w w' :
  told w → process_link_event topo e w = Some ((), w') → told w' ∧ undisturbed w w'.
Proof.
  intros Ht Hm. destruct (process_link_event_run e w w' Ht Hm) as
    [->|(l & lk & lk' & next & fired & Hlk & Hid & -> & Hnext & Hf & Ho & Hq & Hst)];
    [split; [done|apply undisturbed_refl]|].
  set (s := mkStep (w_now w) (NetworkEventStep (mkNetEvent (Some e) None))).
  match goal with |- told ?w' ∧ _ => assert (fixed w w') as Hfx end.
  { split; simpl; [done|by apply (fmap_insert_same _ _ _ lk)]. }
  destruct Ht as [T1 T2 T3 T4 T5 T6].
  assert (rev (w_log w ++ [s]) = s :: rev (w_log w)) as Hrev by by rewrite rev_app_distr.
  assert (∀ m, link_event s m = if decide (le_link_id e = m) then le_status e else None) as Hle by done.
  assert (∀ m, node_event s m = None) as Hne by done.
  assert (∀ l t, went_down_at (rev (w_log w)) l t → went_down_at (s :: rev (w_log w)) l t) as Hwd.
  { intros m t. apply (went_down_at_app _ [s]). }
  assert (∀ m mk, m ≠ l → w_links w !! m = Some mk → link_event s (l_id mk) = None) as Hother.
  { intros m mk Hm' Hmk. rewrite Hle, decide_False; [done|]. intros Heq.
    apply T2 in Hmk, Hlk. congruence. }
  assert (l_id lk' = l_id lk) as Hid' by by injection Hf.
  split.
  - split; simpl; rewrite ?Hrev; try done.
    + by apply (wired_fixed _ _ w).
    + intros m mk. destruct (decide (m = l)) as [->|]; [|rewrite lookup_insert_ne by done; apply T2].
      rewrite lookup_insert_eq. intros [= <-]. rewrite Hid'. by apply T2.
    + intros id m (mk & Hmk & <-)%T3. destruct (decide (m = l)) as [->|].
      * exists lk'. rewrite lookup_insert_eq. simplify_eq. done.
      * exists mk. by rewrite lookup_insert_ne.
    + intros m mk. destruct (decide (m = l)) as [->|Hml].
      * rewrite lookup_insert_eq. intros [= <-]. exact (link_changed_told _ _ _ _ _ Hid Hid' Hst (T5 l lk Hlk)).
      * rewrite lookup_insert_ne by done. intros Hmk. cbn [link_status_at].
        rewrite (Hother _ _ Hml Hmk). simpl. destruct (T5 m mk Hmk) as [? Hd].
        split; [done|]. intros d ?. by apply Hwd, Hd.
    + intros x [Hx| ->%list_elem_of_singleton]%elem_of_app; [auto|done].
  - split; simpl; try done.
    + apply (fmap_insert_same _ _ _ lk); [done|]. by rewrite Ho, Hq.
    + intros m mk mk' ts Hmk Hmk' Hts. rewrite Hrev. destruct (decide (m = l)) as [->|Hml].
      * rewrite lookup_insert_eq in Hmk'. simplify_eq. by apply (link_changed_settled _ _ _ lk).
      * rewrite lookup_insert_ne in Hmk' by done. simplify_eq. unfold settled.
        cbn [link_last_down]. rewrite (Hother _ _ Hml Hmk). intros [Hs|[Hs|Hs]]; auto.
    + right. exists (mkNetEvent (Some e) None). split_and!; [done| |done]. simpl. intros p [= <-].
      rewrite <-Hid. by apply (wi_link _ _ _ T1 _ _ Hlk).
Qed.

Lemma pristine_told w : wired topo v0 w → pristine w →
  (∀ l lk, w_links w !! l = Some lk → links_by_id topo !! l_id lk = Some l) →
  (∀ id l, links_by_id topo !! id = Some l → ∃ lk, w_links w !! l = Some lk ∧ l_id lk = id) → told w.
Proof.
  intros Hw [P1 P2 P3 P4 P5 P6] Hl Hk. split; rewrite ?P1; try done.
  - intros n nd (Hs & Hc & _)%P3. unfold node_update, is_down. by rewrite Hs, Hc.
  - intros l lk (_ & _ & Hs & Hd)%P4. rewrite Hs, Hd. done.
  - by intros s ?%not_elem_of_nil.
Qed.
End network.
