(* ===== verification/NetworkRoutes.v ===== *)
(** * The links a packet is offered to

    [walk_links] visits the links that lead straight to the destination, then
    those of the routing tables of the node's addresses, cheapest first;
    [has_route_to] tells whether there is one. *)

From S2P Require Import Prelude Float Ip Spec Event Transmit SimStep Heap InboundQueue Node.
From S2P Require Import Link Network NetworkInit.

Section routes.
Context (topo : Topology).

Lemma walk_list_collect ls s :
  walk_list (T:=()) (λ l s, (s ++ [l], None)) ls s = (s ++ ls, None).
Proof.
  revert s. induction ls as [|l ls IH]; intros s; simpl; [by rewrite app_nil_r|].
  by rewrite IH, <-app_assoc.
Qed.

Lemma walk_list_first ls s :
  walk_list (λ _ s, (s, Some true)) ls s =
    (s : (), match ls with [] => None | _ => Some true end).
Proof. by destruct ls. Qed.

(** The links of the routing tables [rs] of the addresses. *)
Definition table_links (addrs : list IpAddr) (rs : list (list Route)) (dest : IpAddr)
    : list link_ref :=
  concat (zip_with (λ a routes, routed_links topo a routes dest) addrs rs).

Lemma walk_routes_collect addrs rs dest s :
  Forall2 (λ a routes, routes_by_addr topo !! a = Some routes) addrs rs →
  walk_routes topo (T:=()) (λ l s, (s ++ [l], None)) addrs dest s =
    Some (s ++ table_links addrs rs dest, None).
Proof.
  intros Hrs. revert s. induction Hrs as [|a routes addrs rs Ha _ IH]; intros s; simpl.
  { by rewrite app_nil_r. }
  rewrite Ha, walk_list_collect, IH. unfold table_links. simpl. by rewrite <-app_assoc.
Qed.

Lemma walk_routes_tables {T} (f : link_ref → list link_ref → list link_ref * option T) addrs dest s r :
  (∀ l s, snd (f l s) = None) → walk_routes topo f addrs dest s = Some r →
  ∃ rs, Forall2 (λ a routes, routes_by_addr topo !! a = Some routes) addrs rs.
Proof.
  intros Hf. assert (∀ ls s, snd (walk_list f ls s) = None) as Hl.
  { induction ls as [|l ls IH]; intros s1; simpl; [done|].
    specialize (Hf l s1). destruct (f l s1) as [s2 o]. simpl in Hf. by subst o. }
  revert s. induction addrs as [|a addrs IH]; intros s; simpl; [by exists []|].
  destruct (routes_by_addr topo !! a) as [routes|] eqn:Ha; [|done].
  specialize (Hl (routed_links topo a routes dest) s).
  destruct (walk_list f _ s) as [s1 o]. simpl in Hl. subst o.
  intros [rs Hrs]%IH. exists (routes :: rs). by constructor.
Qed.

Lemma all_links_spec addrs dest links :
  all_links topo addrs dest = Some links →
  ∃ rs, Forall2 (λ a routes, routes_by_addr topo !! a = Some routes) addrs rs ∧
    links = direct_links topo addrs dest ++ table_links addrs rs dest.
Proof.
  unfold all_links, walk_links. rewrite walk_list_collect. simpl. intros Hw.
  destruct (walk_routes topo _ addrs dest _) as [[s o]|] eqn:E; [|done]. simpl in Hw.
  injection Hw as <-.
  destruct (walk_routes_tables (T:=()) (λ l s, (s ++ [l], None)) addrs dest _ _ (λ _ _, eq_refl) E)
    as [rs Hrs].
  exists rs. split; [done|]. rewrite (walk_routes_collect _ rs) in E by done. by injection E as <-.
Qed.

(** A packet is only offered to links that start at an address of the node. *)
Lemma all_links_source addrs dest links l :
  all_links topo addrs dest = Some links → l ∈ links →
  ∃ a d, a ∈ addrs ∧ links_by_addr topo !! (a, d) = Some l.
Proof.
  intros (rs & Hrs & ->)%all_links_spec [Hl|Hl]%elem_of_app.
  - apply list_elem_of_omap in Hl as (a & Ha & Hl). eauto.
  - unfold table_links in Hl. induction Hrs as [|a routes addrs rs _ _ IH]; simpl in Hl.
    { by apply not_elem_of_nil in Hl. }
    apply elem_of_app in Hl as [Hl|Hl].
    + apply list_elem_of_omap in Hl as (next & _ & Hl). exists a, next. split; [left|done].
    + destruct (IH Hl) as (b & d & ? & ?). exists b, d. split; [by right|done].
Qed.

Lemma has_route_spec addrs dest rs :
  Forall2 (λ a routes, routes_by_addr topo !! a = Some routes) addrs rs →
  has_route_to topo addrs dest =
    Some (bool_decide (direct_links topo addrs dest ++ table_links addrs rs dest ≠ [])).
Proof.
  intros Hrs. unfold has_route_to, walk_links. rewrite walk_list_first.
  destruct (direct_links topo addrs dest) as [|l ls]; [|done]. simpl.
  assert (walk_routes topo (λ _ s, (s, Some true)) addrs dest () =
    Some ((), match table_links addrs rs dest with [] => None | _ => Some true end)) as ->.
  { induction Hrs as [|a routes addrs rs Ha _ IH]; simpl; [done|].
    rewrite Ha, walk_list_first. unfold table_links in *. simpl.
    destruct (routed_links topo a routes dest); [apply IH|done]. }
  by destruct (table_links addrs rs dest).
Qed.
End routes.

(** The routing tables of a network list the cheapest routes first. *)
Lemma init_routes_sorted ns a routes :
  init_routes ns !! a = Some routes → sorted_by_key cost routes.
Proof.
  unfold init_routes.
  assert (∀ (ifs : list NetworkInterface) (m : gmap IpAddr (list Route)),
    (∀ a routes, m !! a = Some routes → sorted_by_key cost routes) →
    ∀ a routes, foldl (λ m i, foldl (λ m addr,
      <[as_ip_addr addr := sort_by_key cost (Spec.routes i)]> m) m (Spec.addresses i)) m ifs !! a =
      Some routes → sorted_by_key cost routes) as Hgen.
  { induction ifs as [|i ifs IH]; intros m Hm; simpl; [done|]. apply IH. clear IH.
    revert m Hm. induction (Spec.addresses i) as [|addr l IH]; intros m Hm; simpl; [done|].
    apply IH. intros b rs. destruct (decide (b = as_ip_addr addr)) as [->|].
    - rewrite lookup_insert_eq. intros [= <-]. apply sort_by_key_sorted.
    - rewrite lookup_insert_ne by done. apply Hm. }
  apply Hgen. intros b rs. by rewrite lookup_empty.
Qed.

Lemma initialize_routes {H} `{!BinaryHeap PrioritizedInTransitData above H} {R} now spec events
    (rng : R) start dtw topo (w0 : World H R) :
  initialize now spec events rng start dtw = Ok (topo, w0) →
  routes_by_addr topo = init_routes (nodes spec).
Proof.
  intros Hinit. unfold initialize in Hinit. do 5 inv_bind Hinit.
  match type of Hinit with context [match ?x with _ => _ end] =>
    destruct x as [[[] w']|]; [|done] end.
  by injection Hinit as <- _.
Qed.
