(* ===== verification/NetworkCustody.v ===== *)
(** * Where the packets of the network are

    Every packet that the network holds is where its log says it is: the
    packets in the channel of a node, those offered to the links, those on
    their way over a link and those that wait to be read by a host.  The ghost
    map [G] gives every packet one place, so no packet is in two of them. *)

From stdpp Require Import relations.
From S2P Require Import Prelude Float Ip Spec Event Transmit SimStep Replayed Verifier History.
From S2P Require Import VerifierThms Custody Heap InboundQueue Node Link Network NetworkInit.
From S2P Require Import NetworkInv NetworkSteady NetworkBuffers NetworkStart NetworkWired NetworkTold.

Inductive place : Type :=
  | Queued (n : node_ref)
  | Offered (n : node_ref) (x : watch_ref)
  | Transit (l : link_ref)
  | Inbound (n : node_ref).

Abbreviation places := (gmap Z place).

(** ** Lanes: the packets of one place *)
Section lane.
Context {A : Type} (id : A → Z).

Record lane (G : places) (q : place) (P : A → Prop) (l : list A) : Prop := mkLane {
  ln_nodup : NoDup (id <$> l);
  ln_item : ∀ a, a ∈ l → G !! id a = Some q ∧ P a;
}.

Lemma lane_nil G q P : lane G q P [].
Proof. split; [constructor|]. by intros a ?%not_elem_of_nil. Qed.

Lemma lane_perm G q P l l' : l ≡ₚ l' → lane G q P l → lane G q P l'.
Proof. intros Hl [H1 H2]. split; [by rewrite <-Hl|]. intros a. rewrite <-Hl. apply H2. Qed.

(** The packets stay in their place. *)
Lemma lane_mono (G G' : places) q (P P' : A → Prop) l :
  (∀ a, G !! id a = Some q → P a → G' !! id a = Some q ∧ P' a) → lane G q P l → lane G' q P' l.
Proof. intros Hm [H1 H2]. split; [done|]. intros a [? ?]%H2. by apply Hm. Qed.

Lemma lane_cons G q P a l : lane G q P (a :: l) →
  (G !! id a = Some q ∧ P a) ∧ lane G q P l ∧ ∀ b, b ∈ l → id b ≠ id a.
Proof.
  intros [H1 H2]. rewrite fmap_cons, NoDup_cons in H1. destruct H1 as [Ha H1].
  split; [apply H2; left|]. split; [split; [done|]; intros b Hb; apply H2; by right|].
  intros b Hb Heq. apply Ha. rewrite <-Heq. by apply list_elem_of_fmap_2.
Qed.

Lemma lane_push (G : places) q P a l : lane G q P l → G !! id a = None → P a →
  lane (<[id a := q]> G) q P (a :: l).
Proof.
  intros [H1 H2] Ha HP. assert (id a ∉ id <$> l) as Hnot.
  { intros (b & Hb & Hin)%list_elem_of_fmap. apply H2 in Hin as [? _]. congruence. }
  split; [by apply NoDup_cons|]. intros b [->|Hb]%elem_of_cons; [by rewrite lookup_insert_eq|].
  rewrite lookup_insert_ne; [by apply H2|]. intros Heq. apply Hnot. rewrite Heq.
  by apply list_elem_of_fmap_2.
Qed.

Lemma lane_app G q P l l' : lane G q P (l ++ l') →
  lane G q P l ∧ lane G q P l' ∧ ∀ a b, a ∈ l → b ∈ l' → id a ≠ id b.
Proof.
  intros [H1 H2]. rewrite fmap_app, NoDup_app in H1. destruct H1 as (H1 & Hd & H3). split_and!.
  - split; [done|]. intros a Ha. apply H2, elem_of_app. by left.
  - split; [done|]. intros a Ha. apply H2, elem_of_app. by right.
  - intros a b Ha Hb Heq. apply (Hd (id a)); [by apply list_elem_of_fmap_2|].
    rewrite Heq. by apply list_elem_of_fmap_2.
Qed.
End lane.

Section network.
Context {H : Type} {HH : BinaryHeap PrioritizedInTransitData above H}.
Context {R : Type} (rng_f64 : R → f64 * R) (rng_u128 : R → Z * R).
Context (timer_elapsed : Z → Z → bool) (topo : Topology) (v0 : SimulationVerifier).
(** The packet ids the random number generator has handed out. *)
Context (seen : R → Z → Prop).

Abbreviation world := (World H R).
Abbreviation lawful_h h :=
  (lawful_log (v_link_metadata v0) (v_host_nodes v0) (dom (v_nodes v0)) (dom (v_links v0)) h).
Abbreviation lawful_s h s :=
  (lawful (v_link_metadata v0) (v_host_nodes v0) (dom (v_nodes v0)) (dom (v_links v0)) h s).
Abbreviation wlog w := (rev (w_log w)).

(** ** What holds for the packets of each place *)
Definition stored (h : history) (n : node_ref) (p since : Z) : Prop :=
  ∃ id, nodes_by_id topo !! id = Some n ∧ custody_at h p = At id since.

Definition queued_item (h : history) (n : node_ref) (b : BufferedPacket) : Prop :=
  stored h n (d_id (b_data b)) (b_in_node_since b).

Definition inbound_item (h : history) (n : node_ref) (p : PrioritizedInTransitData) : Prop :=
  ∃ t, stored h n (d_id (p_data p)) t.

Definition transit_item (h : history) (now : Z) (lk : @NetworkLink H) (p : PrioritizedInTransitData)
    : Prop :=
  custody_at h (d_id (p_data p)) = Flying (l_id lk) (p_sent p) ∧ l_delay lk ≤ p_delay p ∧
  p_sent p ≤ now ∧ settled h lk (p_sent p).

(** A packet offered to link [l], which one of the links may still have to
    handle. *)
Record offered_ok (G : places) (w : world) (l : link_ref) (p : OutgoingPacket) : Prop := mkOfferedOk {
  of_watch : (o_handled p < w_next w)%nat;
  of_delay : 0 ≤ a_extra_delay (o_anomalies p);
  of_source : ∃ lid md nid, links_by_id topo !! lid = Some l ∧ v_link_metadata v0 !! lid = Some md ∧
    nodes_by_id topo !! nid = Some (o_src_node p) ∧ nid = lm_source_node_id md;
  of_place : w_handled w !! o_handled p = Some false →
    G !! d_id (o_data p) = Some (Offered (o_src_node p) (o_handled p)) ∧
    stored (wlog w) (o_src_node p) (d_id (o_data p)) (o_in_node_since p);
}.

Definition transit_items (lk : @NetworkLink H) : list PrioritizedInTransitData :=
  heap_items (q_queue (l_in_transit lk)).

Record inv (G : places) (w : world) : Prop := mkInv {
  iv_told : told topo v0 w;
  iv_lawful : lawful_h (wlog w);
  iv_queued : ∀ n nd, w_nodes w !! n = Some nd →
    lane (λ b, d_id (b_data b)) G (Queued n) (queued_item (wlog w) n) (n_outbound nd);
  iv_transit : ∀ l lk, w_links w !! l = Some lk →
    lane (λ p, d_id (p_data p)) G (Transit l) (transit_item (wlog w) (w_now w) lk) (transit_items lk);
  iv_inbound : ∀ n q, w_inbound w !! n = Some q →
    lane (λ p, d_id (p_data p)) G (Inbound n) (inbound_item (wlog w) n) (heap_items (q_queue q));
  iv_outgoing : ∀ l lk p, w_links w !! l = Some lk → p ∈ l_outgoing lk → offered_ok G w l p;
  iv_phase : ∀ l ph p, w_link_tasks w !! l = Some ph → phase_packet ph = Some p → offered_ok G w l p;
  iv_watch : ∀ x, is_Some (w_handled w !! x) → (x < w_next w)%nat;
  iv_seen : ∀ p, custody_at (wlog w) p ≠ Nowhere ∨ is_Some (G !! p) → seen (w_rng w) p;
}.

(** ** What keeps the invariant *)

(** The packets that have a place keep it, and the log moves none of them. *)
Definition keeps_places (G : places) (w : world) (G' : places) (w' : world) : Prop :=
  ∀ p q, G !! p = Some q → G' !! p = Some q ∧ custody_at (wlog w') p = custody_at (wlog w) p.

Lemma offered_mono G w G' w' l p :
  (w_next w ≤ w_next w')%nat →
  (w_handled w' !! o_handled p = Some false → w_handled w !! o_handled p = Some false) →
  keeps_places G w G' w' → offered_ok G w l p → offered_ok G' w' l p.
Proof.
  intros Hn Hh Hk [H1 H2 H3 H4]. split; [lia|done..|]. intros Hx%Hh. destruct (H4 Hx) as [Hg Hs].
  destruct (Hk _ _ Hg) as [? Hc]. split; [done|]. unfold stored. by rewrite Hc.
Qed.

Lemma inv_same G w w' :
  told topo v0 w' → lawful_h (wlog w') → w_now w ≤ w_now w' → (w_next w ≤ w_next w')%nat →
  n_outbound <$> w_nodes w' = n_outbound <$> w_nodes w →
  (λ lk, (l_outgoing lk, l_in_transit lk)) <$> w_links w' =
    (λ lk, (l_outgoing lk, l_in_transit lk)) <$> w_links w →
  fixed w w' → w_inbound w' = w_inbound w → w_link_tasks w' = w_link_tasks w →
  w_handled w' = w_handled w → keeps_places G w G w' →
  (∀ l lk lk' ts, w_links w !! l = Some lk → w_links w' !! l = Some lk' → ts ≤ w_now w →
     settled (wlog w) lk ts → settled (wlog w') lk' ts) →
  (∀ p, custody_at (wlog w') p ≠ Nowhere ∨ is_Some (G !! p) → seen (w_rng w') p) →
  inv G w → inv G w'.
Proof.
  intros Ht Hlaw Hnow Hnext Hout Hq Hfx Hin Htasks Hh Hk Hset Hseen [I1 I2 I3 I4 I5 I6 I7 I8 I9].
  assert (∀ l p, offered_ok G w l p → offered_ok G w' l p) as Hof.
  { intros l p. apply offered_mono; [done|by rewrite Hh|done]. }
  split; rewrite ?Hin, ?Htasks, ?Hh; try done.
  - intros n nd' Hnd'. destruct (fmap_facts_lookup _ _ _ _ _ Hout Hnd') as (nd & Hnd & ->).
    eapply lane_mono; [|by apply I3]. intros b Hb. unfold queued_item, stored.
    by destruct (Hk _ _ Hb) as [? ->].
  - intros l lk' Hlk'. destruct (fmap_facts_lookup _ _ _ _ _ Hq Hlk') as (lk & Hlk & [= _ Hi]).
    destruct (fmap_facts_lookup _ _ _ _ _ (fx_links _ _ Hfx) Hlk') as (lk2 & Hlk2 & [= Hid _ Hd _]).
    simplify_eq. unfold transit_items. rewrite Hi. eapply lane_mono; [|by apply (I4 l lk)].
    intros p Hp (Hc & Hdel & Hs & Hst). unfold transit_item. rewrite Hid, Hd.
    destruct (Hk _ _ Hp) as [? ->]. split_and!; try done; [lia|]. by eapply Hset.
  - intros n q Hnq. eapply lane_mono; [|by apply I5]. intros p Hp. unfold inbound_item, stored.
    by destruct (Hk _ _ Hp) as [? ->].
  - intros l lk' p Hlk' Hp. destruct (fmap_facts_lookup _ _ _ _ _ Hq Hlk') as (lk & Hlk & [= Ho _]).
    apply Hof. apply (I6 l lk); [done|]. by rewrite <-Ho.
  - intros l ph p Hl Hp. apply Hof. by eapply I7.
  - intros x Hx%I8. lia.
Qed.

(** *** Events and the passing of time *)
Lemma custody_event h t e p : custody_at (mkStep t (NetworkEventStep e) :: h) p = custody_at h p.
Proof. done. Qed.

Lemma inv_undisturbed G w w' : told topo v0 w' → undisturbed v0 w w' → inv G w → inv G w'.
Proof.
  intros Ht [U1 U2 U3 U4 U5 U6 U7 U8 U9 U10 U11] Hi.
  assert ((∀ p, custody_at (wlog w') p = custody_at (wlog w) p) ∧ lawful_h (wlog w')) as [Hc Hlaw].
  { pose proof (iv_lawful _ _ Hi) as Hl. destruct U11 as [->|(e & -> & He1 & He2)]; [done|].
    rewrite rev_app_distr. split; [done|]. by split. }
  apply (inv_same G w w'); try done; [lia|].
  intros p. rewrite Hc, U5. apply (iv_seen _ _ Hi).
Qed.

Lemma inv_advance G t w : w_now w ≤ t → inv G w → inv G (advance t w).
Proof.
  intros Hle Hi. apply (inv_same G w); try done;
    [|by apply Hi|by intros l lk lk' ts Hl Hl' _; simpl in Hl'; simplify_eq|by apply Hi].
  destruct (iv_told _ _ Hi) as [T1 T2 T3 T4 T5 T6]. split; try done.
  - by apply (wired_fixed _ _ w).
  - intros s Hs%T6. simpl. lia.
Qed.

(** *** The places *)
Lemma inv_insert G w p q : inv G w → G !! p = None → seen (w_rng w) p → inv (<[p := q]> G) w.
Proof.
  intros [I1 I2 I3 I4 I5 I6 I7 I8 I9] Hp Hs.
  assert (∀ i r, G !! i = Some r → <[p := q]> G !! i = Some r) as Hk.
  { intros i r Hi. rewrite lookup_insert_ne; [done|]. congruence. }
  split; try done.
  - intros n nd Hnd. eapply lane_mono; [|by apply I3]. eauto.
  - intros l lk Hlk. eapply lane_mono; [|by apply I4]. eauto.
  - intros n x Hx. eapply lane_mono; [|by apply I5]. eauto.
  - intros l lk x Hlk Hx. apply (offered_mono G w); [done|done| |by eapply I6]. intros i r Hi. eauto.
  - intros l ph x Hl Hx. apply (offered_mono G w); [done|done| |by eapply I7]. intros i r Hi. eauto.
  - intros i. destruct (decide (i = p)) as [->|]; [done|]. rewrite lookup_insert_ne by done. apply I9.
Qed.

(** The network holds the packet at its place. *)
Definition occupied (w : world) (p : Z) (q : place) : Prop :=
  match q with
  | Queued n => ∃ nd b, w_nodes w !! n = Some nd ∧ b ∈ n_outbound nd ∧ d_id (b_data b) = p
  | Offered _ x => w_handled w !! x = Some false
  | Transit l => ∃ lk b, w_links w !! l = Some lk ∧ b ∈ transit_items lk ∧ d_id (p_data b) = p
  | Inbound n => ∃ x b, w_inbound w !! n = Some x ∧ b ∈ heap_items (q_queue x) ∧ d_id (p_data b) = p
  end.

(** A packet that is not at its place any more has no place. *)
Lemma inv_delete G w p q : inv G w → G !! p = Some q → ¬ occupied w p q → inv (delete p G) w.
Proof.
  intros [I1 I2 I3 I4 I5 I6 I7 I8 I9] Hp Hno.
  assert (∀ {A} (id : A → Z) q' P l, lane id G q' P l → (q' = q → ∀ a, a ∈ l → id a ≠ p) →
    lane id (delete p G) q' P l) as Hlane.
  { intros A id q' P l [H1 H2] Hne. split; [done|]. intros a Ha. destruct (H2 a Ha) as [Hg HP].
    split; [|done]. rewrite lookup_delete_ne; [done|]. intros Heq. subst p.
    rewrite Hg in Hp. injection Hp as ->. by apply (Hne eq_refl a). }
  assert (∀ l x, offered_ok G w l x → offered_ok (delete p G) w l x) as Hof.
  { intros l x [O1 O2 O3 O4]. split; try done. intros Hx. destruct (O4 Hx) as [Hg Hs].
    split; [|done]. rewrite lookup_delete_ne; [done|]. intros Heq. subst p.
    rewrite Hg in Hp. injection Hp as <-. by apply Hno. }
  split; try done.
  - intros n nd Hnd. apply Hlane; [by apply I3|]. intros <- b Hb Heq. apply Hno. simpl. eauto.
  - intros l lk Hlk. apply Hlane; [by apply I4|]. intros <- b Hb Heq. apply Hno. simpl. eauto.
  - intros n x Hx. apply Hlane; [by apply I5|]. intros <- b Hb Heq. apply Hno. simpl. eauto.
  - intros l lk x Hlk Hx. apply Hof. by eapply I6.
  - intros l ph x Hl Hx. apply Hof. by eapply I7.
  - intros i. destruct (decide (i = p)) as [->|].
    + intros _. apply I9. right. by eexists.
    + rewrite lookup_delete_ne by done. apply I9.
Qed.

(** *** Recording a step about a packet without a place *)
Lemma inv_record G w k p :
  not_event k → step_packet (mkStep (w_now w) k) = Some p → G !! p = None → seen (w_rng w) p →
  lawful_s (wlog w) (mkStep (w_now w) k) → inv G w →
  inv G (set_w_log (record (mkStep (w_now w) k) (w_log w)) w).
Proof.
  intros Hev Hp Hg Hs Hlaw Hi. set (w' := set_w_log _ w).
  assert (steady w w') as Hst by (by apply (record_steady k Hev w ())).
  assert (wlog w' = mkStep (w_now w) k :: wlog w) as Hw' by (unfold w'; simpl; unfold record; by rewrite rev_app_distr).
  assert (∀ i, i ≠ p → custody_at (wlog w') i = custody_at (wlog w) i) as Hc.
  { intros i Hne. rewrite Hw'. cbn [custody_at]. unfold custody_step. rewrite decide_False; congruence. }
  apply (inv_same G w w'); try done.
  - eapply steady_told; [done|apply Hi].
  - rewrite Hw'. split; [done|apply Hi].
  - intros i q Hi'. split; [done|]. apply Hc. congruence.
  - intros l lk lk' ts Hlk Hlk' _. simpl in Hlk'. simplify_eq. rewrite Hw'. unfold settled.
    destruct (told_same_step (wlog w) (w_now w) k Hev) as (_ & _ & _ & E4 & E5).
    setoid_rewrite E4. by rewrite E5.
  - intros i. destruct (decide (i = p)) as [->|Hne]; [done|]. rewrite Hc by done. apply (iv_seen _ _ Hi).
Qed.

(** *** Other changes of the world *)
Lemma told_view (w w' : world) :
  w_nodes w' = w_nodes w → w_links w' = w_links w → w_log w' = w_log w → w_now w' = w_now w →
  told topo v0 w → told topo v0 w'.
Proof.
  intros En El Eg Et [T1 T2 T3 T4 T5 T6]. split; rewrite ?En, ?El, ?Eg, ?Et; try done.
  apply (wired_fixed _ _ w); [|done]. by split; rewrite ?En, ?El.
Qed.

Lemma inv_view G (w w' : world) :
  w_nodes w' = w_nodes w → w_links w' = w_links w → w_log w' = w_log w → w_now w' = w_now w →
  w_inbound w' = w_inbound w → w_link_tasks w' = w_link_tasks w → w_handled w' = w_handled w →
  (w_next w ≤ w_next w')%nat → (∀ p, seen (w_rng w) p → seen (w_rng w') p) → inv G w → inv G w'.
Proof.
  intros En El Eg Et Ei Ek Eh Hx Hs Hi. apply (inv_same G w); rewrite ?En, ?El, ?Eg; try done; [| |lia|..].
  - apply (told_view w); try done. apply Hi.
  - apply Hi.
  - by split; rewrite ?En, ?El.
  - intros p q Hp. by rewrite Eg.
  - intros l lk lk' ts ???. by simplify_eq.
  - intros p Hp. by apply Hs, (iv_seen _ _ Hi).
Qed.

Lemma inv_put_node G w n nd nd' :
  w_nodes w !! n = Some nd → node_facts nd' = node_facts nd →
  (lane (λ b, d_id (b_data b)) G (Queued n) (queued_item (wlog w) n) (n_outbound nd) →
   lane (λ b, d_id (b_data b)) G (Queued n) (queued_item (wlog w) n) (n_outbound nd')) →
  inv G w → inv G (set_w_nodes (<[n := nd']> (w_nodes w)) w).
Proof.
  intros Hn Hf Hl Hi. assert (told topo v0 (set_w_nodes (<[n := nd']> (w_nodes w)) w)) as Ht.
  { eapply steady_told; [by eapply (put_node_steady n nd nd' w _ ())|apply Hi]. }
  destruct Hi as [I1 I2 I3 I4 I5 I6 I7 I8 I9]. split; try done.
  - intros m md. simpl. destruct (decide (m = n)) as [->|].
    + rewrite lookup_insert_eq. intros [= <-]. by apply Hl, I3.
    + rewrite lookup_insert_ne by done. apply I3.
  - intros l lk p Hlk Hp. apply (offered_mono G w); try done. by eapply I6.
  - intros l ph p Hlk Hp. apply (offered_mono G w); try done. by eapply I7.
Qed.

Lemma inv_put_link G w l lk lk' :
  w_links w !! l = Some lk → link_facts lk' = link_facts lk →
  (lane (λ p, d_id (p_data p)) G (Transit l) (transit_item (wlog w) (w_now w) lk) (transit_items lk) →
   lane (λ p, d_id (p_data p)) G (Transit l) (transit_item (wlog w) (w_now w) lk) (transit_items lk')) →
  (∀ p, p ∈ l_outgoing lk' → p ∈ l_outgoing lk ∨ offered_ok G w l p) →
  inv G w → inv G (set_w_links (<[l := lk']> (w_links w)) w).
Proof.
  intros Hn Hf Hl Ho Hi. assert (told topo v0 (set_w_links (<[l := lk']> (w_links w)) w)) as Ht.
  { eapply steady_told; [by eapply (put_link_steady l lk lk' w _ ())|apply Hi]. }
  injection Hf as E1 E2 E3 E4 E5 E6.
  destruct Hi as [I1 I2 I3 I4 I5 I6 I7 I8 I9]. split; try done.
  - intros m md. simpl. destruct (decide (m = l)) as [->|].
    + rewrite lookup_insert_eq. intros [= <-]. eapply lane_mono; [|by apply Hl, I4].
      intros a Ha. unfold transit_item, settled. by rewrite E1, E3, E4, E5.
    + rewrite lookup_insert_ne by done. apply I4.
  - intros m mk p Hmk Hp. apply (offered_mono G w); try done. simpl in Hmk. revert Hmk.
    destruct (decide (m = l)) as [->|].
    + rewrite lookup_insert_eq. intros [= <-]. destruct (Ho p Hp); [by eapply I6|done].
    + rewrite lookup_insert_ne by done. intros Hmk. by eapply I6.
  - intros m ph p Hlk Hp. apply (offered_mono G w); try done. by eapply I7.
Qed.

Lemma inv_put_inbound G w n q' :
  lane (λ p, d_id (p_data p)) G (Inbound n) (inbound_item (wlog w) n) (heap_items (q_queue q')) →
  inv G w → inv G (set_w_inbound (<[n := q']> (w_inbound w)) w).
Proof.
  intros Hl [I1 I2 I3 I4 I5 I6 I7 I8 I9]. split; try done.
  - by apply (told_view w).
  - intros m q. simpl. destruct (decide (m = n)) as [->|].
    + rewrite lookup_insert_eq. by intros [= <-].
    + rewrite lookup_insert_ne by done. apply I5.
  - intros l lk p Hlk Hp. apply (offered_mono G w); try done. by eapply I6.
  - intros l ph p Hlk Hp. apply (offered_mono G w); try done. by eapply I7.
Qed.

Lemma inv_set_phase G w l ph :
  (∀ p, phase_packet ph = Some p → offered_ok G w l p) → inv G w →
  inv G (set_w_link_tasks (<[l := ph]> (w_link_tasks w)) w).
Proof.
  intros Hl [I1 I2 I3 I4 I5 I6 I7 I8 I9]. split; try done.
  - by apply (told_view w).
  - intros m mk p Hlk Hp. apply (offered_mono G w); try done. by eapply I6.
  - intros m ph' p. simpl. destruct (decide (m = l)) as [->|].
    + rewrite lookup_insert_eq. intros [= <-] Hp. apply (offered_mono G w); try done. by apply Hl.
    + rewrite lookup_insert_ne by done. intros Hm Hp. apply (offered_mono G w); try done. by eapply I7.
Qed.

(** A packet is handled, or a new watch channel is created. *)
Lemma inv_set_handled G w x :
  (x < w_next w)%nat → inv G w → inv G (set_w_handled (<[x := true]> (w_handled w)) w).
Proof.
  intros Hx [I1 I2 I3 I4 I5 I6 I7 I8 I9].
  assert (∀ l p, offered_ok G w l p →
    offered_ok G (set_w_handled (<[x := true]> (w_handled w)) w) l p) as Hof.
  { intros l p Hp. apply (offered_mono G w); try done. simpl.
    destruct (decide (o_handled p = x)) as [->|]; [by rewrite lookup_insert_eq|].
    by rewrite lookup_insert_ne. }
  split; try done.
  - by apply (told_view w).
  - intros l lk p Hlk Hp. apply Hof. by eapply I6.
  - intros l ph p Hlk Hp. apply Hof. by eapply I7.
  - intros y. simpl. destruct (decide (y = x)) as [->|]; [done|]. rewrite lookup_insert_ne by done. apply I8.
Qed.

Lemma inv_new_watch G w :
  inv G w → inv G (set_w_handled (<[w_next w := false]> (w_handled w)) (set_w_next (S (w_next w)) w)).
Proof.
  intros [I1 I2 I3 I4 I5 I6 I7 I8 I9]. set (w' := set_w_handled _ _).
  assert (∀ l p, offered_ok G w l p → offered_ok G w' l p) as Hof.
  { intros l p Hp. apply (offered_mono G w); try done; simpl; [lia|].
    rewrite lookup_insert_ne; [done|]. pose proof (of_watch _ _ _ _ Hp). lia. }
  split; try done.
  - by apply (told_view w).
  - intros l lk p Hlk Hp. apply Hof. by eapply I6.
  - intros l ph p Hlk Hp. apply Hof. by eapply I7.
  - intros y. simpl. destruct (decide (y = w_next w)) as [->|]; [lia|].
    rewrite lookup_insert_ne by done. intros Hy%I8. lia.
Qed.
End network.
