(* ===== verification/NetworkCarry.v ===== *)
(** * The tasks carry the packets

    Every task of the network, every socket and every event keeps the packets
    where the log says they are. *)

From stdpp Require Import relations.
From S2P Require Import Prelude Float Ip Spec Event Transmit SimStep Replayed Verifier History.
From S2P Require Import VerifierThms Custody Heap InboundQueue Node Link Network NetworkInit.
From S2P Require Import NetworkInv NetworkSteady NetworkBuffers NetworkStart NetworkWired NetworkTold.
From S2P Require Import NetworkRoutes NetworkRng NetworkCustody.

Section network.
Context {H : Type} {HH : BinaryHeap PrioritizedInTransitData above H}.
Context {R : Type} (rng_f64 : R → f64 * R) (rng_u128 : R → Z * R).
Context (timer_elapsed : Z → Z → bool) (topo : Topology) (v0 : SimulationVerifier).
(** The executions that are followed are those in which no packet id is drawn twice: the generator
    is [live] at their end. *)
Context (seen : R → Z → Prop) (live : R → Prop) {Hids : PacketIds rng_f64 rng_u128 seen live}.

Abbreviation world := (World H R).
Abbreviation lawful_s h s :=
  (lawful (v_link_metadata v0) (v_host_nodes v0) (dom (v_nodes v0)) (dom (v_links v0)) h s).
Abbreviation wlog w := (rev (w_log w)).
Abbreviation inv := (inv topo v0 seen).

(** Only packet [p] and packets created meanwhile are moved. *)
Record carried (p : Z) (G : places) (w : world) (G' : places) (w' : world) : Prop := mkCarried {
  ca_steady : steady w w';
  ca_seen : ∀ i, seen (w_rng w) i → seen (w_rng w') i;
  ca_rest : ∀ i, i ≠ p → seen (w_rng w) i →
    G' !! i = G !! i ∧ custody_at (wlog w') i = custody_at (wlog w) i;
}.

Lemma carried_trans p G w G1 w1 G2 w2 :
  carried p G w G1 w1 → carried p G1 w1 G2 w2 → carried p G w G2 w2.
Proof.
  intros [S1 N1 R1] [S2 N2 R2]. split; [by etrans|auto|]. intros i Hne Hi.
  destruct (R1 i Hne Hi) as [<- <-]. by apply R2; [|apply N1].
Qed.

(** The second move concerns a packet created meanwhile. *)
Lemma carried_new p p' G w G1 w1 G2 w2 :
  carried p G w G1 w1 → ¬ seen (w_rng w) p' → carried p' G1 w1 G2 w2 → carried p G w G2 w2.
Proof.
  intros [S1 N1 R1] Hp [S2 N2 R2]. split; [by etrans|auto|]. intros i Hne Hi.
  destruct (R1 i Hne Hi) as [<- <-]. apply R2; [by intros ->|by apply N1].
Qed.

Lemma carried_place p q G (w : world) : carried p G w (<[p := q]> G) w.
Proof. split; [done|done|]. intros i Hne Hi. by rewrite lookup_insert_ne. Qed.

Lemma carried_unplace p G (w : world) : carried p G w (delete p G) w.
Proof. split; [done|done|]. intros i Hne Hi. by rewrite lookup_delete_ne. Qed.

Lemma steady_carried p G w w' :
  steady w w' → w_log w' = w_log w → (∀ i, seen (w_rng w) i → seen (w_rng w') i) → carried p G w G w'.
Proof. intros Hs Hl Hn. split; [done|done|]. intros i _ Hi. by rewrite Hl. Qed.

(** A packet that is stored in a node. *)
Lemma stored_node G w n nd p t :
  inv G w → w_nodes w !! n = Some nd → stored topo (wlog w) n p t →
  n_id nd ∈ dom (v_nodes v0) ∧ custody_at (wlog w) p = At (n_id nd) t.
Proof.
  intros Hi Hn (id & Hn' & Hc). pose proof (td_wired _ _ _ (iv_told _ _ _ _ _ Hi)) as Hw.
  destruct (wi_by_id _ _ _ Hw _ _ Hn') as (nd' & Hnd' & <-). simplify_eq.
  split; [by apply (wi_node _ _ _ Hw n)|done].
Qed.

Lemma node_stored G w n nd p t :
  inv G w → w_nodes w !! n = Some nd → custody_at (wlog w) p = At (n_id nd) t →
  stored topo (wlog w) n p t.
Proof.
  intros Hi Hn Hc. exists (n_id nd). split; [|done].
  by apply (wi_node _ _ _ (td_wired _ _ _ (iv_told _ _ _ _ _ Hi)) n).
Qed.

(** A step about a packet without a place is recorded. *)
Lemma record_carried G (w w' : world) u k p :
  inv G w → record_step k w = Some (u, w') → not_event k →
  step_packet (mkStep (w_now w) k) = Some p → G !! p = None → seen (w_rng w) p →
  lawful_s (wlog w) (mkStep (w_now w) k) →
  inv G w' ∧ carried p G w G w' ∧ w_rng w' = w_rng w ∧ w_nodes w' = w_nodes w ∧
  w_links w' = w_links w ∧
  w_inbound w' = w_inbound w ∧ w_handled w' = w_handled w ∧ w_next w' = w_next w ∧
  wlog w' = mkStep (w_now w) k :: wlog w.
Proof.
  intros Hi Hm Hev Hp Hg Hs Hlaw. pose proof (record_steady k Hev _ _ _ Hm) as Hst.
  injection Hm as _ <-. unfold record. simpl. rewrite rev_app_distr. split_and!; try done.
  - by apply (inv_record topo v0 seen G w k p).
  - split; [done|done|]. intros i Hne Hi'. split; [done|]. simpl. rewrite rev_app_distr.
    cbn [rev app custody_at]. unfold custody_step. rewrite decide_False; congruence.
Qed.

(** What is [live] at the end of a task was so throughout. *)
Lemma later_live {A} (m : NM world A) (w w' : world) a :
  steps_in (rng_later (H := H) (ids_later seen live)) m → m w = Some (a, w') → live (w_rng w') → live (w_rng w).
Proof. intros Hm Hw. apply (Hm _ _ _ Hw). Qed.

Lemma f64_later r x r' : rng_f64 r = (x, r') → ids_later seen live r r'.
Proof using Hids. apply ids_f64. Qed.
Lemma u128_later r i r' : rng_u128 r = (i, r') → ids_later seen live r r'.
Proof using Hids. apply ids_u128. Qed.

Lemma reach_live start (w w' : world) :
  Reach rng_f64 rng_u128 timer_elapsed topo start w w' → live (w_rng w') → live (w_rng w).
Proof using Hids.
  intros Hr. by apply (reach_later _ _ _ _ (ids_later seen live) f64_later u128_later _ _ _ Hr).
Qed.

Lemma packet_id_fresh G (w w' : world) i :
  inv G w → new_packet_id rng_u128 w = Some (i, w') → live (w_rng w') →
  inv G w' ∧ w' = set_w_rng (w_rng w') w ∧ G !! i = None ∧ ¬ seen (w_rng w) i ∧
  custody_at (wlog w) i = Nowhere ∧ seen (w_rng w') i ∧ ∀ p, carried p G w G w'.
Proof using Hids.
  unfold new_packet_id. destruct (rng_u128 (w_rng w)) as [y r] eqn:E. intros Hi [= <- <-] Hlive.
  destruct (ids_drawn _ _ _ E) as (Hsx & Hno). specialize (Hno Hlive).
  destruct (ids_u128 _ _ _ E) as [Hmono _]. simpl. set (x := wrap128 y) in *. split_and!; try done.
  - by apply (inv_view topo v0 seen G w).
  - destruct (G !! x) eqn:Ex; [|done]. exfalso. apply Hno, (iv_seen _ _ _ _ _ Hi). right. by eexists.
  - destruct (custody_at (wlog w) x) eqn:Ec; [done|exfalso..];
      apply Hno, (iv_seen _ _ _ _ _ Hi); left; by rewrite Ec.
  - intros p. apply steady_carried; [by apply steady_same|done|done].
Qed.

Lemma draw_carried G (w w' : world) x :
  inv G w → draw_f64 rng_f64 w = Some (x, w') →
  inv G w' ∧ w' = set_w_rng (w_rng w') w ∧ ∀ p, carried p G w G w'.
Proof using Hids.
  unfold draw_f64. destruct (rng_f64 (w_rng w)) as [y r] eqn:E. intros Hi [= <- <-].
  destruct (ids_f64 _ _ _ E) as [Hmono _]. simpl. split_and!; try done.
  - by apply (inv_view topo v0 seen G w).
  - intros p. apply steady_carried; [by apply steady_same|done|done].
Qed.

(** ** A packet enters a node *)
Lemma enqueue_carried G w u w' n b :
  inv G w → G !! d_id (b_data b) = None → queued_item topo (wlog w) n b →
  seen (w_rng w) (d_id (b_data b)) → enqueue n b w = Some (u, w') →
  ∃ G', inv G' w' ∧ carried (d_id (b_data b)) G w G' w'.
Proof.
  intros Hi Hg Hst Hs Hm. unfold enqueue in Hm.
  apply nm_bind_inv in Hm as (nd & w1 & Hn & Hm). unfold get_node in Hn. nm_inv_step Hn.
  apply nm_bind_inv in Hm as ([ok nd'] & w1 & He & Hm). nm_inv_step He.
  unfold enqueue_outbound in He. destruct (reserve _ _) as [okr avail].
  destruct okr; [destruct (n_outbound_open nd); [|done]|]; injection He as <- <-.
  - injection Hm as _ <-. exists (<[d_id (b_data b) := Queued n]> G). split.
    + apply (inv_put_node _ _ _ _ _ _ nd); try done; [|by apply inv_insert].
      intros _. simpl. eapply lane_perm; [apply Permutation_cons_append|].
      by apply (lane_push (λ b, d_id (b_data b))); [apply (iv_queued _ _ _ _ _ Hi)|..].
    + eapply carried_trans; [apply carried_place|].
      apply steady_carried; [|done|done]. by apply (put_node_steady n nd (set_n_outbound (n_outbound nd ++ [b]) (set_n_available avail nd)) w _ ()).
  - exists G. destruct (stored_node _ _ _ _ _ _ Hi Hn Hst) as [Hd Hc].
    eapply record_carried in Hm as (? & ? & _); [by split|done|done|done|done|done|].
    split; [done|]. by eexists.
Qed.

(** A duplicate is announced and stored. *)
Lemma duplicate_carried G w u w' n nd nd0 b :
  inv G w → w_nodes w !! n = Some nd0 → n_id nd0 = n_id nd → is_down nd0 = false →
  G !! d_id (b_data b) = None → seen (w_rng w) (d_id (b_data b)) →
  custody_at (wlog w) (d_id (b_data b)) = Nowhere → b_in_node_since b = w_now w →
  (_ ← track_injected_failures nd (b_data b) true 0 false; enqueue n b) w = Some (u, w') →
  ∃ G', inv G' w' ∧ carried (d_id (b_data b)) G w G' w'.
Proof.
  intros Hi Hn Eid Hup Hg Hs Hc Hsince Hm. apply nm_bind_inv in Hm as ([] & w1 & Htr & Hm).
  unfold track_injected_failures in Htr.
  apply nm_bind_inv in Htr as ([] & w2 & [= <-] & Htr).
  apply nm_bind_inv in Htr as ([] & w2 & Htr & [= ->]).
  pose proof (td_wired _ _ _ (iv_told _ _ _ _ _ Hi)) as Hw.
  eapply record_carried in Htr as (Hi1 & C1 & Er & En & _ & _ & _ & _ & Eg); [|done..|].
  2: { unfold lawful. simpl. rewrite <-Eid. split_and!; [by apply (wi_node _ _ _ Hw n)|done|].
       destruct (td_node _ _ _ (iv_told _ _ _ _ _ Hi) _ _ Hn) as [-> _]. unfold node_update. by rewrite Hup. }
  simpl in C1. eapply enqueue_carried in Hm as (G' & Hi' & C'); [|done|done| |by rewrite Er].
  { exists G'. split; [done|]. by eapply carried_trans. }
  unfold queued_item. apply (node_stored G w1 n nd0); [done|by rewrite En|].
  rewrite Eg, Hsince, Eid. cbn [custody_at]. unfold custody_step. by rewrite decide_True.
Qed.

(** The packet is stored, and perhaps a duplicate of it. *)
Lemma store_carried G w u w' n nd data (duplicate : bool) :
  inv G w → w_nodes w !! n = Some nd → is_down nd = false → G !! d_id data = None →
  seen (w_rng w) (d_id data) → custody_at (wlog w) (d_id data) = At (n_id nd) (w_now w) →
  (maybe_duplicate ←
     (if duplicate then
        id ← new_packet_id rng_u128;
        mret (Some (mkBuffered (w_now w) (mkData id true (d_source_endpoint data)
                      (d_source_id data) (d_transmit data) (d_number data))))
      else mret None);
   _ ← enqueue n (mkBuffered (w_now w) data);
   match maybe_duplicate with
   | Some duplicate =>
       _ ← track_injected_failures nd (b_data duplicate) true 0 false;
       enqueue n duplicate
   | None => mret ()
   end) w = Some (u, w') → live (w_rng w') →
  ∃ G', inv G' w' ∧ carried (d_id data) G w G' w'.
Proof using Hids.
  intros Hi Hn Hup Hg Hs Hc Hm Hlive. apply nm_bind_inv in Hm as (dup & w1 & Hdup & Hm).
  pose proof (later_live _ _ _ _ (store_later _ n _ nd dup) Hm Hlive) as Hlive1.
  assert (inv G w1 ∧ carried (d_id data) G w G w1 ∧ w_log w1 = w_log w ∧ w_nodes w1 = w_nodes w ∧
    ∀ b, dup = Some b → G !! d_id (b_data b) = None ∧ ¬ seen (w_rng w) (d_id (b_data b)) ∧
      b_in_node_since b = w_now w ∧ seen (w_rng w1) (d_id (b_data b)) ∧
      custody_at (wlog w) (d_id (b_data b)) = Nowhere) as (Hi1 & C1 & Elog & En & Hdup1).
  { destruct duplicate; [|injection Hdup as <- <-; by split_and!].
    apply nm_bind_inv in Hdup as (i & w2 & Hi2 & [= <- <-]).
    eapply packet_id_fresh in Hi2 as (Hi2 & Ew & ? & ? & ? & ? & C2); [|done..].
    split_and!; try done; [by rewrite Ew..|]. by intros b [= <-]. }
  clear Hdup. apply nm_bind_inv in Hm as ([] & w2 & Henq & Hm).
  apply (enqueue_carried G w1) in Henq as (G2 & Hi2 & C2); [|done|done| |by apply (ca_seen _ _ _ _ _ C1)].
  2: { unfold queued_item. simpl. rewrite Elog. by eapply node_stored. }
  simpl in C2. pose proof (carried_trans _ _ _ _ _ _ _ C1 C2) as C.
  destruct dup as [b|]; [|injection Hm as _ <-; by exists G2].
  destruct (Hdup1 b eq_refl) as (Hgb & Hub & Hsince & Hsb & Hcb).
  assert (d_id (b_data b) ≠ d_id data) as Hne by (intros Heq; apply Hub; by rewrite Heq).
  destruct (ca_rest _ _ _ _ _ C2 _ Hne Hsb) as [Hg2 Hc2]. rewrite Elog in Hc2.
  pose proof (ca_steady _ _ _ _ _ C) as Hst.
  destruct (fmap_facts_lookup node_facts (w_nodes w2) (w_nodes w) n nd) as
    (nd2 & Hn2 & [= _ Eid _ Es _]); [symmetry; apply (st_nodes _ _ Hst)|done|].
  eapply (duplicate_carried G2 w2 _ _ _ _ nd2) in Hm as (G3 & Hi3 & C3); try done; [|..|congruence|
    by apply (ca_seen _ _ _ _ _ C2)|congruence|by rewrite (st_now _ _ Hst)].
  - exists G3. split; [done|]. by eapply carried_new.
  - unfold is_down in *. by rewrite <-Es.
Qed.

(** [forward] moves the packet it is given, wherever it comes from. *)
Lemma forward_carried G w u w' n data :
  inv G w → G !! d_id data = None → seen (w_rng w) (d_id data) →
  (∀ nd, w_nodes w !! n = Some nd →
     lawful_s (wlog w) (mkStep (w_now w) (in_node_step nd data (is_down nd)))) →
  forward rng_f64 rng_u128 n data w = Some (u, w') → live (w_rng w') →
  ∃ G', inv G' w' ∧ carried (d_id data) G w G' w'.
Proof using Hids.
  intros Hi Hg Hs Hlaw Hm Hlive. unfold forward in Hm.
  apply nm_bind_inv in Hm as (nd & w1 & Hn & Hm). unfold get_node in Hn. nm_inv_step Hn.
  specialize (Hlaw nd Hn). destruct (is_down nd) eqn:Hd.
  { exists G. by eapply record_carried in Hm as (? & ? & _). }
  apply nm_bind_inv in Hm as ([] & w1 & Hrec & Hm).
  assert (w_now w1 = w_now w) as Hnow by (by injection Hrec as <-).
  eapply record_carried in Hrec as (Hi1 & C1 & Er & En & _ & _ & _ & _ & Eg); [|done..].
  assert (custody_at (wlog w1) (d_id data) = At (n_id nd) (w_now w1)) as Hc.
  { rewrite Eg, Hnow. cbn [custody_at]. unfold custody_step. by rewrite decide_True. }
  rewrite <-En in Hn. pose proof (node_stored _ _ _ _ _ _ Hi1 Hn Hc) as Hst.
  rewrite <-Er in Hs. simpl in C1. clear Hlaw Hi En Er Eg. case_bool_decide as Hep.
  { apply nm_bind_inv in Hm as (w2 & w3 & [= <- <-] & Hm).
    apply nm_bind_inv in Hm as (q & w2 & Hq & Hm). nm_inv_step Hq. injection Hm as _ <-.
    exists (<[d_id data := Inbound n]> G). split.
    - apply inv_put_inbound; [|by apply inv_insert]. simpl.
      eapply lane_perm; [symmetry; apply heap_items_push|].
      apply (lane_push (λ p, d_id (p_data p)) G _ _ (mkPrioritized data (w_now w1) 0));
        [by apply (iv_inbound _ _ _ _ _ Hi1)|done|by exists (w_now w1)].
    - eapply carried_trans; [exact C1|]. eapply carried_trans; [apply carried_place|].
      apply steady_carried; [by apply steady_same|done|done]. }
  apply nm_bind_inv in Hm as (roll & w2 & Hroll & Hm).
  apply draw_carried with (G := G) in Hroll as (Hi2 & Ew2 & C2); [|done]. specialize (C2 (d_id data)).
  apply (ca_seen _ _ _ _ _ C2) in Hs. rewrite Ew2 in Hm, Hi2, C2. simpl in Hs.
  pose proof (carried_trans _ _ _ _ _ _ _ C1 C2) as C. clear Ew2 C1 C2.
  destruct (f64_lt roll (n_packet_loss_ratio nd)).
  - exists G. eapply record_carried in Hm as (? & ? & _); [|done..|].
    + split; [done|by eapply carried_trans].
    + split; [by destruct (stored_node _ _ _ _ _ _ Hi1 Hn Hst)|by exists (w_now w1)].
  - apply nm_bind_inv in Hm as (t & w3 & [= <- <-] & Hm).
    apply (store_carried G (set_w_rng (w_rng w2) w1) _ _ n nd data) in Hm as (G' & Hi' & C'); [|done..]. exists G'. split; [done|].
    by eapply carried_trans.
Qed.

(** *** A host sends a packet *)
Lemma try_send_inv G w u w' n transmit :
  inv G w → try_send rng_f64 rng_u128 n transmit w = Some (u, w') → live (w_rng w') → ∃ G', inv G' w'.
Proof using Hids.
  intros Hi Hm Hlive. unfold try_send in Hm.
  apply nm_bind_inv in Hm as ([] & w1 & Ha & Hm). apply nassert_inv in Ha as [_ ->].
  apply nm_bind_inv in Hm as (data & w1 & Hdata & Hm). unfold in_transit_data in Hdata.
  apply nm_bind_inv in Hdata as (nd & w2 & Hn & Hdata). unfold get_node in Hn. nm_inv_step Hn.
  apply nm_bind_inv in Hdata as (i & w2 & Hi2 & Hdata).
  apply nm_bind_inv in Hdata as (ep & w3 & Hep & Hdata). nm_inv_step Hep.
  apply nm_bind_inv in Hdata as (w3 & w4 & [= <- <-] & Hdata).
  apply nm_bind_inv in Hdata as ([] & w3 & [= <-] & [= <- <-]).
  pose proof (later_live _ _ _ _ (forward_later _ _ (ids_later seen live) f64_later u128_later _ _) Hm Hlive) as Hlive2.
  eapply packet_id_fresh in Hi2 as (Hi2 & Ew & Hg & _ & Hc & Hs & _); [|done|exact Hlive2].
  apply (forward_carried G) in Hm as (G' & ? & _); [by exists G'| |done|done| |done].
  - by apply (inv_view topo v0 seen G w2).
  - rewrite Ew. simpl. intros nd' Hnd'. simplify_eq.
    destruct (wi_node _ _ _ (td_wired _ _ _ (iv_told _ _ _ _ _ Hi)) _ _ Hn) as (Hd & _ & Hh).
    split; [done|]. simpl. rewrite Hc. apply Hh. by eexists.
Qed.

(** ** A link delivers packets *)
Lemma steady_settled (w w' : world) l (lk lk' : @NetworkLink H) ts :
  steady w w' → w_links w !! l = Some lk → w_links w' !! l = Some lk' →
  settled (wlog w) lk ts → settled (wlog w') lk' ts.
Proof.
  intros [Hnow _ _ _ _ Hl (ks & Hks & Hlog)] Hlk Hlk'.
  destruct (told_same_app (w_log w) (w_now w) ks Hks) as (_ & _ & _ & S4 & S5).
  rewrite <-Hlog in S4, S5. destruct (fmap_facts_lookup _ _ _ _ _ Hl Hlk') as (lk2 & Hlk2 & [= Ei _ Es Ed _ _]).
  simplify_eq. unfold settled. rewrite Ei, Es, Ed. setoid_rewrite S4. by rewrite S5.
Qed.

(** Packets in the hands of the link's task: they have left the queue. *)
Definition in_hand (G : places) (w : world) (l : link_ref) (p : PrioritizedInTransitData) : Prop :=
  G !! d_id (p_data p) = None ∧ arrival_time p ≤ w_now w ∧
  ∃ lk, w_links w !! l = Some lk ∧ transit_item (wlog w) (w_now w) lk p.

Lemma in_hand_seen G w l p : inv G w → in_hand G w l p → seen (w_rng w) (d_id (p_data p)).
Proof.
  intros Hi (_ & _ & lk & _ & Hc & _). apply (iv_seen _ _ _ _ _ Hi). left. by rewrite Hc.
Qed.

Lemma carried_in_hand p G w G' w' l x :
  inv G w → carried p G w G' w' → d_id (p_data x) ≠ p → in_hand G w l x → in_hand G' w' l x.
Proof.
  intros Hi [Hst Hn Hr] Hne Hx. pose proof (in_hand_seen _ _ _ _ Hi Hx) as Hs.
  destruct Hx as (Hg & Ha & lk & Hlk & Hc & Hd & Hle & Hset). destruct (Hr _ Hne Hs) as [E1 E2].
  pose proof (st_links _ _ Hst) as Hl. symmetry in Hl.
  destruct (fmap_facts_lookup _ _ _ _ _ Hl Hlk) as (lk' & Hlk' & [= Ei _ _ _ Ed _]).
  split; [congruence|]. rewrite (st_now _ _ Hst). split; [done|]. exists lk'. split; [done|].
  split; [by rewrite E2, Hc, Ei|]. split_and!; [by rewrite <-Ed|done|]. by eapply steady_settled.
Qed.

Lemma deliver_carried G w u w' l p :
  inv G w → in_hand G w l p → deliver rng_f64 rng_u128 topo l (delivered_of p) w = Some (u, w') → live (w_rng w') →
  ∃ G', inv G' w' ∧ carried (d_id (p_data p)) G w G' w'.
Proof using Hids.
  intros Hi Hp Hm Hlive. pose proof (in_hand_seen _ _ _ _ Hi Hp) as Hs.
  destruct Hp as (Hg & Ha & lk & Hlk & Hc & Hd & Hle & Hset). unfold deliver in Hm.
  rewrite (nm_bind_eq _ _ _ lk w) in Hm by by apply get_net_link_eq. simpl in Hm.
  pose proof (iv_told _ _ _ _ _ Hi) as Ht. destruct (was_down_after (p_sent p) lk) eqn:Hdown.
  { exists G. eapply record_carried in Hm as (? & ? & _); [by split|done|done|done|done|done|].
    exists (p_sent p). exact Hc. }
  apply nm_bind_inv in Hm as (n & w1 & Htgt & Hm). nm_inv_step Htgt.
  apply (forward_carried G) in Hm; [done..| |done]. intros nd Hn.
  pose proof (td_wired _ _ _ Ht) as Hw. destruct (wi_link _ _ _ Hw _ _ Hlk) as (_ & md & Hmd & [W1 _ W3 _]).
  split; [by apply (wi_node _ _ _ Hw n)|]. simpl. rewrite Hc. split_and!.
  - exists md. split_and!; [done|by apply (W3 n)|]. unfold arrival_time in Ha. simpl. lia.
  - intros d Hd' Hle'. destruct Hset as [Hset|[(d' & Hd2 & Hle2)|[_ Hset]]]; [done| |].
    + apply (td_link _ _ _ Ht _ _ Hlk). unfold was_down_after in Hdown. rewrite Hd2 in Hdown.
      rewrite Hd2. f_equal. apply Z.ltb_ge in Hdown. lia.
    + apply Hset in Hd'. lia.
  - simpl. destruct (td_node _ _ _ Ht _ _ Hn) as [-> _]. unfold node_update. by destruct (is_down nd).
Qed.

Lemma deliver_all G w u w' l new :
  inv G w → NoDup ((λ p, d_id (p_data p)) <$> new) → (∀ p, p ∈ new → in_hand G w l p) →
  nforeach (deliver rng_f64 rng_u128 topo l) (delivered_of <$> new) w = Some (u, w') → live (w_rng w') →
  ∃ G', inv G' w'.
Proof using Hids.
  revert G w. induction new as [|p new IH]; intros G w Hi Hnd Hp Hm Hlive; simpl in Hm.
  { injection Hm as _ <-. by exists G. }
  rewrite fmap_cons, NoDup_cons in Hnd. destruct Hnd as [Hnot Hnd].
  apply nm_bind_inv in Hm as ([] & w1 & H1 & H2).
  pose proof (later_live _ _ _ _
    (deliver_all_later _ _ topo (ids_later seen live) f64_later u128_later l _) H2 Hlive) as Hlive1.
  eapply deliver_carried in H1 as (G1 & Hi1 & C1); [|done|apply Hp; left|exact Hlive1].
  apply (IH G1 w1); try done. intros x Hx. eapply carried_in_hand; [exact Hi|done| |].
  - intros Heq. apply Hnot. rewrite <-Heq. apply list_elem_of_fmap. by exists x.
  - apply Hp. by right.
Qed.

(** Packets that have left their place together. *)
Lemma inv_delete_all {A} (id : A → Z) q l G w :
  NoDup (id <$> l) → (∀ a, a ∈ l → G !! id a = Some q ∧ ¬ occupied w (id a) q) → inv G w →
  ∃ G', inv G' w ∧ (∀ a, a ∈ l → G' !! id a = None) ∧ ∀ i, i ∉ id <$> l → G' !! i = G !! i.
Proof.
  induction l as [|a l IH]; intros Hnd Hl Hi.
  { exists G. split_and!; try done. by intros a ?%not_elem_of_nil. }
  rewrite fmap_cons, NoDup_cons in Hnd. destruct Hnd as [Ha Hnd].
  destruct IH as (G1 & Hi1 & Hn1 & Hsame); [done|intros b Hb; apply Hl; by right|done|].
  destruct (Hl a (list_elem_of_here _ _)) as [Hg Ho]. rewrite <-Hsame in Hg by done.
  exists (delete (id a) G1). split; [by eapply inv_delete|]. split.
  - intros b [->|Hb]%elem_of_cons; [by rewrite lookup_delete_eq|].
    destruct (decide (id b = id a)) as [->|]; [by rewrite lookup_delete_eq|].
    rewrite lookup_delete_ne by done. by apply Hn1.
  - intros i. rewrite fmap_cons, not_elem_of_cons. intros [Hne Hi']. rewrite lookup_delete_ne by done.
    by apply Hsame.
Qed.

Lemma run_forwarder_inv G w u w' l :
  inv G w → run_forwarder rng_f64 rng_u128 timer_elapsed topo l w = Some (u, w') → live (w_rng w') →
  ∃ G', inv G' w'.
Proof using Hids.
  intros Hi Hm Hlive. unfold run_forwarder in Hm.
  apply nm_bind_inv in Hm as (w1 & w2 & [= <- <-] & Hm).
  apply nm_bind_inv in Hm as (f & w1 & Hf & Hm). nm_inv_step Hf.
  apply nm_bind_inv in Hm as (lk & w1 & Hlk & Hm). unfold get_net_link in Hlk. nm_inv_step Hlk.
  apply nm_bind_inv in Hm as ([[res f'] queue] & w1 & Hpoll & Hm). nm_inv_step Hpoll.
  apply nm_bind_inv in Hm as ([] & w1 & [= <-] & Hm).
  apply poll_takes in Hpoll as (new & Hperm & Hdue & Hres).
  pose proof (iv_transit _ _ _ _ _ Hi _ _ Hlk) as Hlane. unfold transit_items in Hlane.
  apply (lane_perm _ _ _ _ _ _ Hperm), lane_app in Hlane as ([Hnd Hnew] & Hrest & Hdisj).
  set (w1 := set_w_links (<[l := set_l_in_transit queue lk]> (w_links w)) w) in *.
  assert (inv G w1) as Hi1.
  { by apply (inv_put_link topo v0 seen G w l lk); try done; intros ? ?; left. }
  assert (w_links w1 !! l = Some (set_l_in_transit queue lk)) as Hlk1 by (simpl; by rewrite lookup_insert_eq).
  destruct res as [|delivered|].
  - injection Hm as _ <-. exists G. by apply (inv_view topo v0 seen G w1).
  - destruct Hres as [[= ->]|[[[=] _]|[=]]].
    apply nm_bind_inv in Hm as ([] & w2 & Ha & Hm). apply nassert_inv in Ha as [_ ->].
    apply nm_bind_inv in Hm as ([] & w2 & Hd & [= _ <-]).
    destruct (inv_delete_all (λ p, d_id (p_data p)) (Transit l) new G w1 Hnd) as (G1 & Hi2 & Hnone & _);
      [|done|].
    { intros p Hp. split; [by apply Hnew|]. intros (lk' & b & Hl' & Hb & Heq).
      rewrite Hlk1 in Hl'. injection Hl' as <-. by apply (Hdisj p b Hp Hb). }
    apply (deliver_all G1) in Hd as (G2 & Hi3); [|done|done| |exact Hlive].
    + exists G2. by apply (inv_view topo v0 seen G2 w2).
    + intros p Hp. split; [by apply Hnone|]. split; [by apply Hdue|].
      eexists. split; [exact Hlk1|]. by apply Hnew.
  - done.
Qed.

(** ** A host reads packets *)
Lemma read_packet_carried G w u w' n d size t :
  inv G w → G !! d_id (dv_data d) = None → stored topo (wlog w) n (d_id (dv_data d)) t →
  read_packet n d size w = Some (u, w') → inv G w' ∧ carried (d_id (dv_data d)) G w G w'.
Proof.
  intros Hi Hg Hst Hm. unfold read_packet in Hm.
  apply nm_bind_inv in Hm as (nd & w1 & Hn & Hm). unfold get_node in Hn. nm_inv_step Hn.
  apply nm_bind_inv in Hm as ([] & w1 & Hrec & Hm). apply nassert_inv in Hm as [_ ->].
  destruct (stored_node _ _ _ _ _ _ Hi Hn Hst) as [Hd Hc].
  eapply record_carried in Hrec as (? & ? & _); [by split|done|done|done|done| |].
  - apply (iv_seen _ _ _ _ _ Hi). left. by rewrite Hc.
  - split; [done|]. by exists t.
Qed.

Lemma read_all G w u w' n (out : list (PrioritizedInTransitData * Z)) :
  inv G w → NoDup ((λ x, d_id (p_data x.1)) <$> out) →
  (∀ x, x ∈ out → G !! d_id (p_data x.1) = None ∧ inbound_item topo (wlog w) n x.1) →
  nforeach (λ '(d, size), read_packet n d size) ((λ x, (delivered_of x.1, x.2)) <$> out) w = Some (u, w') →
  inv G w'.
Proof.
  revert w. induction out as [|[p size] out IH]; intros w Hi Hnd Hp Hm; simpl in Hm.
  { by injection Hm as _ <-. }
  rewrite fmap_cons, NoDup_cons in Hnd. destruct Hnd as [Hnot Hnd].
  apply nm_bind_inv in Hm as ([] & w1 & H1 & H2).
  destruct (Hp (p, size) (list_elem_of_here _ _)) as [Hg [t Ht]].
  apply (read_packet_carried G w () w1 n (delivered_of p) size t) in H1 as [Hi1 [_ _ C1]]; [|done..].
  apply (IH w1); try done. intros x Hx. destruct (Hp x (list_elem_of_further _ _ _ Hx)) as [Hgx [tx Htx]].
  split; [done|]. exists tx. unfold stored in *. destruct (C1 (d_id (p_data x.1))) as [_ ->]; [| |done].
  - intros Heq. apply Hnot, list_elem_of_fmap. exists x. split; [by symmetry|done].
  - apply (iv_seen _ _ _ _ _ Hi). left. by destruct Htx as (? & _ & ->).
Qed.

Lemma zip_delivered (new : list PrioritizedInTransitData) (bufs : list Z) :
  zip (delivered_of <$> new) bufs = (λ x, (delivered_of x.1, x.2)) <$> zip new bufs.
Proof. revert bufs. induction new as [|p new IH]; intros [|b bufs]; simpl; [done..|]. by f_equal. Qed.

Lemma NoDup_fmap_zip {A} (id : A → Z) l (bufs : list Z) :
  NoDup (id <$> l) → NoDup ((λ x, id x.1) <$> zip l bufs).
Proof.
  revert bufs. induction l as [|a l IH]; intros [|b bufs]; simpl; try (by constructor).
  rewrite !NoDup_cons. intros [Ha Hl]. split; [|by apply IH].
  intros ([x y] & Heq & Hx%elem_of_zip_l)%list_elem_of_fmap. apply Ha, list_elem_of_fmap. by exists x.
Qed.

Lemma poll_recv_inv G w res w' n meta_len bufs :
  inv G w → poll_recv timer_elapsed n meta_len bufs w = Some (res, w') → ∃ G', inv G' w'.
Proof.
  intros Hi Hm. unfold poll_recv in Hm.
  apply nm_bind_inv in Hm as ([] & w1 & Ha & Hm). apply nassert_inv in Ha as [_ ->].
  apply nm_bind_inv in Hm as (w1 & w2 & [= <- <-] & Hm).
  apply nm_bind_inv in Hm as (q & w1 & Hq & Hm). nm_inv_step Hq.
  apply nm_bind_inv in Hm as ([[r f'] q'] & w1 & Hpoll & Hm). nm_inv_step Hpoll.
  apply nm_bind_inv in Hm as ([] & w1 & [= <-] & Hm).
  apply poll_takes in Hpoll as (new & Hperm & _ & Hres).
  pose proof (iv_inbound _ _ _ _ _ Hi _ _ Hq) as Hlane.
  apply (lane_perm _ _ _ _ _ _ Hperm), lane_app in Hlane as ([Hnd Hnew] & Hrest & Hdisj).
  match type of Hm with _ ?x = _ => set (w1 := x) in * end.
  assert (inv G w1) as Hi1.
  { apply (inv_view topo v0 seen G (set_w_inbound (<[n := q']> (w_inbound w)) w)); try done.
    by apply inv_put_inbound. }
  destruct r as [|delivered|].
  - injection Hm as _ <-. by exists G.
  - destruct Hres as [[= ->]|[[[=] _]|[=]]].
    apply nm_bind_inv in Hm as ([] & w2 & Hd & [= _ <-]).
    destruct (inv_delete_all (λ p, d_id (p_data p)) (Inbound n) new G w1 Hnd) as (G1 & Hi2 & Hnone & _);
      [|done|].
    { intros p Hp. split; [by apply Hnew|]. intros (x & b & Hx & Hb & Heq).
      simpl in Hx. rewrite lookup_insert_eq in Hx. injection Hx as <-. by apply (Hdisj p b Hp Hb). }
    rewrite zip_delivered in Hd.
    assert (∀ x, x ∈ zip new (take (Z.to_nat meta_len) bufs) → x.1 ∈ new) as Hin.
    { intros [p b] Hx. by apply elem_of_zip_l in Hx. }
    exists G1. eapply (read_all G1 w1); [done| | |exact Hd].
    + by apply (NoDup_fmap_zip (λ p, d_id (p_data p))).
    + intros x Hx%Hin. split; [by apply Hnone|]. by apply Hnew.
  - done.
Qed.

(** ** The task of a node offers a packet to the links *)
Lemma anomalies_carried G w (w' : world) l an :
  inv G w → generate_packet_anomalies rng_f64 l w = Some (an, w') →
  inv G w' ∧ w' = set_w_rng (w_rng w') w ∧ (∀ p, carried p G w G w') ∧ 0 ≤ a_extra_delay an.
Proof using Hids.
  intros Hi Hm. unfold generate_packet_anomalies in Hm.
  apply nm_bind_inv in Hm as (lk & w1 & Hlk & Hm). unfold get_net_link in Hlk. nm_inv_step Hlk.
  apply nm_bind_inv in Hm as (x & w1 & Hx & Hm).
  apply (draw_carried G) in Hx as (Hi1 & E1 & C1); [|done].
  apply nm_bind_inv in Hm as (y & w2 & Hy & [= <- <-]).
  apply (draw_carried G) in Hy as (Hi2 & E2 & C2); [|done].
  split_and!; [done| |intros p; by eapply carried_trans|].
  - rewrite E2 at 1. by rewrite E1 at 1.
  - simpl. case_match; [|done].
    destruct (wi_link _ _ _ (td_wired _ _ _ (iv_told _ _ _ _ _ Hi)) _ _ Hlk) as (_ & md & _ & [_ W2 _ _]).
    done.
Qed.

Lemma push_all G w u w' since n data links x ls :
  inv G w → (∀ l an, l ∈ ls → is_Some (w_links w !! l) → 0 ≤ a_extra_delay an →
    offered_ok topo v0 G w l (mkOutgoing since n data an links x)) →
  nforeach (λ l,
    anomalies ← generate_packet_anomalies rng_f64 l;
    lk ← get_net_link l;
    put_net_link l (set_l_outgoing (l_outgoing lk ++ [mkOutgoing since n data anomalies links x]) lk))
    ls w = Some (u, w') → inv G w'.
Proof using Hids.
  revert w. induction ls as [|l ls IH]; intros w Hi Ho Hm; simpl in Hm; [by injection Hm as _ <-|].
  apply nm_bind_inv in Hm as ([] & w1 & Hl & Hm).
  apply nm_bind_inv in Hl as (an & w2 & Han & Hl).
  apply (anomalies_carried G) in Han as (Hi2 & Ew & _ & Hex); [|done].
  apply nm_bind_inv in Hl as (lk & w3 & Hlk & Hl). unfold get_net_link in Hlk. nm_inv_step Hlk.
  injection Hl as <-. rewrite Ew in Hi2, Hlk, Hm. clear Ew. revert Hm. apply IH.
  - apply (inv_put_link topo v0 seen _ _ l lk); try done. simpl.
    intros q [Hq| ->%list_elem_of_singleton]%elem_of_app; [by left|right].
    apply (offered_mono topo v0 G w); try done. apply Ho; [left|by eexists|done].
  - intros m an' Hin Hm Hex'. apply (offered_mono topo v0 G w); try done. apply Ho; [by right| |done].
    simpl in Hm. apply lookup_insert_is_Some' in Hm as [<-|Hm]; [by eexists|done].
Qed.

Lemma run_buffer_inv G w u w' n :
  inv G w → run_buffer rng_f64 topo n w = Some (u, w') → ∃ G', inv G' w'.
Proof using Hids.
  intros Hi Hm. unfold run_buffer in Hm.
  apply nm_bind_inv in Hm as (nd & w1 & Hn & Hm). unfold get_node in Hn. nm_inv_step Hn.
  pose proof (iv_queued _ _ _ _ _ Hi _ _ Hn) as Hlane.
  destruct (n_outbound nd) as [|packet rest] eqn:Hout; [injection Hm as _ <-; by exists G|].
  apply nm_bind_inv in Hm as (route & w1 & Hr & Hm). nm_inv_step Hr.
  destruct route; cycle 1.
  { injection Hm as _ <-. exists G. apply (inv_put_node topo v0 seen G w n nd); try done.
    intros _. apply lane_nil. }
  apply nm_bind_inv in Hm as ([] & w1 & [= <-] & Hm).
  apply nm_bind_inv in Hm as (x & w1 & [= <- <-] & Hm).
  apply nm_bind_inv in Hm as ([] & w1 & [= <-] & Hm).
  apply nm_bind_inv in Hm as (links & w1 & Hlinks & Hm). nm_inv_step Hlinks.
  apply lane_cons in Hlane as ([Hg Hst] & Hrest & Hne).
  set (id := d_id (b_data packet)) in *. set (wa := set_w_nodes _ w) in *.
  pose proof (iv_told _ _ _ _ _ Hi) as Ht. pose proof (td_wired _ _ _ Ht) as Hw.
  assert (inv G wa) as Ha by (by apply (inv_put_node topo v0 seen G w n nd)).
  assert (seen (w_rng wa) id) as Hseen by (apply (iv_seen _ _ _ _ _ Ha); right; by eexists).
  apply (inv_delete topo v0 seen _ _ id (Queued n)), inv_new_watch in Ha; [|done|].
  2: { intros (nd' & b & Hn' & Hb & Heq). simpl in Hn'. rewrite lookup_insert_eq in Hn'.
       injection Hn' as <-. by apply (Hne b Hb). }
  set (wb := set_w_handled _ _) in *.
  apply (inv_insert topo v0 seen _ _ id (Offered n (w_next w))) in Ha; [|by rewrite lookup_delete_eq|done].
  eexists. eapply push_all in Hm; [exact Hm|exact Ha|].
  intros l an Hl [lk Hlk] Hex. destruct (all_links_source _ _ _ _ _ Hlinks Hl) as (a & d & Hin & Hla).
  destruct (wi_link _ _ _ Hw _ _ Hlk) as (_ & md & Hmd & [_ _ _ W4]).
  split; simpl; [lia|done| |].
  - exists (l_id lk), md, (n_id nd). split_and!; [by apply (td_link_id _ _ _ Ht)|done| |by apply (W4 n nd a d)].
    by apply (wi_node _ _ _ Hw n).
  - intros _. rewrite lookup_insert_eq. split; [done|]. exact Hst.
Qed.

(** ** The task of a link *)

(** A step of the task that handles packet [p]. *)
Definition keeps_inv (l : link_ref) (p : OutgoingPacket) (w w' : world) : Prop :=
  ∀ G, inv G w → offered_ok topo v0 G w l p → ∃ G', inv G' w' ∧ offered_ok topo v0 G' w' l p.

#[export] Instance keeps_inv_preorder l p : PreOrder (keeps_inv l p).
Proof.
  split; [intros w G ??; by exists G|]. intros x y z Hxy Hyz G Hx Hp.
  destruct (Hxy G Hx Hp) as (G' & ? & ?). by apply (Hyz G').
Qed.

(** Whether the packet is for the other links. *)
Definition same_packet (p q : OutgoingPacket) : Prop :=
  o_in_node_since q = o_in_node_since p ∧ o_src_node q = o_src_node p ∧ o_data q = o_data p ∧
  o_anomalies q = o_anomalies p ∧ o_handled q = o_handled p.

Lemma offered_same G (w : world) l p q :
  same_packet p q → offered_ok topo v0 G w l p → offered_ok topo v0 G w l q.
Proof. intros (E1 & E2 & E3 & E4 & E5) [O1 O2 O3 O4]. split; rewrite ?E1, ?E2, ?E3, ?E4, ?E5; done. Qed.

Lemma set_phase_inv l p ph :
  (∀ q, phase_packet ph = Some q → same_packet p q) → steps_in (keeps_inv l p) (set_phase l ph : NM world _).
Proof.
  intros Hph w u w' [= _ <-] G Hi Hp. exists G. split.
  - apply inv_set_phase; [|done]. intros q Hq. eapply offered_same; [by apply Hph|done].
  - by apply (offered_mono topo v0 G w).
Qed.

Lemma set_permit_inv l p b : steps_in (keeps_inv l p) (set_permit l b : NM world _).
Proof.
  intros w u w' Hm G Hi Hp. unfold set_permit in Hm.
  apply nm_bind_inv in Hm as (lk & w1 & Hl & Hm). unfold get_net_link in Hl. nm_inv_step Hl.
  injection Hm as _ <-. exists G. split; [|by apply (offered_mono topo v0 G w)].
  apply (inv_put_link topo v0 seen G w l lk); try done. by left.
Qed.

Lemma offered_handled (G G' : places) (w w' : world) l p :
  (w_next w ≤ w_next w')%nat → w_handled w' !! o_handled p = Some true →
  offered_ok topo v0 G w l p → offered_ok topo v0 G' w' l p.
Proof. intros Hn Hh [O1 O2 O3 _]. split; [lia|done..|]. rewrite Hh. congruence. Qed.

(** A link that handles a packet is the first to do so. *)
Lemma handle_inv G w l p :
  inv G w → offered_ok topo v0 G w l p → w_handled w !! o_handled p = Some false →
  inv (delete (d_id (o_data p)) G) (set_w_handled (<[o_handled p := true]> (w_handled w)) w) ∧
  stored topo (wlog w) (o_src_node p) (d_id (o_data p)) (o_in_node_since p) ∧
  seen (w_rng w) (d_id (o_data p)).
Proof.
  intros Hi [O1 O2 O3 O4] Hh. destruct (O4 Hh) as [Hg Hst]. split_and!; [|done|].
  - eapply inv_delete; [by apply inv_set_handled|exact Hg|]. simpl. by rewrite lookup_insert_eq.
  - apply (iv_seen _ _ _ _ _ Hi). right. by eexists.
Qed.

(** A link that is up may send the packet. *)
Lemma send_lawful G w l lk p nd :
  inv G w → w_links w !! l = Some lk → w_nodes w !! o_src_node p = Some nd → l_status lk = LinkStatusUp →
  (∃ lid md nid, links_by_id topo !! lid = Some l ∧ v_link_metadata v0 !! lid = Some md ∧
    nodes_by_id topo !! nid = Some (o_src_node p) ∧ nid = lm_source_node_id md) →
  stored topo (wlog w) (o_src_node p) (d_id (o_data p)) (o_in_node_since p) →
  cleared_from_buffer (o_in_node_since p) nd = false →
  lawful_s (wlog w) (mkStep (w_now w) (PacketInTransit (mkInTransit (d_id (o_data p)) (n_id nd) (l_id lk)))).
Proof.
  intros Hi Hlk Hn Hup (lid & md & nid & Hl & Hmd & Hnid & Hsrc) Hst Hclear.
  pose proof (iv_told _ _ _ _ _ Hi) as Ht. pose proof (td_wired _ _ _ Ht) as Hw.
  destruct (stored_node _ _ _ _ _ _ Hi Hn Hst) as [Hd Hc].
  destruct (td_link_known _ _ _ Ht _ _ Hl) as (lk' & Hlk' & Hlid). simplify_eq.
  destruct (wi_by_id _ _ _ Hw _ _ Hnid) as (nd' & Hnd' & Hnid'). simplify_eq.
  split; [done|]. exists (o_in_node_since p). split; [done|]. split_and!; simpl.
  - by exists md.
  - by apply (wi_link _ _ _ Hw l).
  - destruct (td_link _ _ _ Ht _ _ Hlk) as [Hs _]. rewrite Hup in Hs. symmetry in Hs. simpl in Hs.
    apply bool_decide_eq_false in Hs. by destruct (link_status_at _ _).
  - destruct (td_node _ _ _ Ht _ _ Hn) as [_ ->]. intros c Hcl. unfold cleared_from_buffer in Hclear.
    rewrite Hcl in Hclear. by apply Z.ltb_ge in Hclear.
Qed.

(** A packet sent now is settled. *)
Lemma settled_now (w : world) l lk :
  told topo v0 w → w_links w !! l = Some lk → l_status lk = LinkStatusUp →
  settled (wlog w) lk (w_now w).
Proof.
  intros Ht Hlk Hup. destruct (link_last_down (wlog w) (l_id lk)) as [d|] eqn:Hd.
  - pose proof (last_down_went_down _ _ _ Hd) as Hwd. destruct (Z.eq_dec d (w_now w)) as [->|Hne].
    { by left. }
    right; right. rewrite Hup, Hd. split; [done|]. intros d' [= <-].
    destruct Hwd as (s & Hs & _ & <-). rewrite list_elem_of_In, <-in_rev, <-list_elem_of_In in Hs.
    pose proof (td_past _ _ _ Ht s Hs). lia.
  - right; right. rewrite Hup, Hd. by split.
Qed.

Lemma send_inv G w w' u l p nd :
  inv G w → w_nodes w !! o_src_node p = Some nd → G !! d_id (o_data p) = None →
  offered_ok topo v0 G w l p → seen (w_rng w) (d_id (o_data p)) →
  stored topo (wlog w) (o_src_node p) (d_id (o_data p)) (o_in_node_since p) →
  cleared_from_buffer (o_in_node_since p) nd = false →
  (lk ← get_net_link l;
   t ← now;
   '(lk', nd', step, _) ← nsome (link_send t nd (o_data p) (o_anomalies p) lk);
   _ ← record_step step;
   _ ← put_net_link l lk';
   put_node (o_src_node p) nd') w = Some (u, w') →
  ∃ G', inv G' w' ∧ w_handled w' = w_handled w ∧ w_next w' = w_next w.
Proof.
  intros Hi Hn Hg Hof Hs Hst Hclear Hm.
  apply nm_bind_inv in Hm as (lk & w1 & Hl & Hm). unfold get_net_link in Hl. nm_inv_step Hl.
  apply nm_bind_inv in Hm as (t & w1 & [= <- <-] & Hm).
  apply nm_bind_inv in Hm as ([[[lk' nd'] step] woken] & w1 & Hsend & Hm). nm_inv_step Hsend.
  apply link_send_facts in Hsend as Hfacts. destruct Hfacts as (Hlf & Hnf & _).
  apply link_send_inv in Hsend as (_ & Hup & -> & _ & -> & _ & _ & _ & Hout & _ & _ & d & Hd & Hq).
  assert (d_id d = d_id (o_data p)) as Hdid by (subst d; by destruct (congestion_experienced _)).
  apply nm_bind_inv in Hm as ([] & w1 & Hrec & Hm).
  pose proof (send_lawful _ _ _ _ _ _ Hi Hl Hn Hup (of_source _ _ _ _ _ _ Hof) Hst Hclear) as Hlaw.
  assert (w_now w1 = w_now w) as Hnow by (by injection Hrec as <-).
  eapply record_carried in Hrec as (Hi1 & C1 & Er & En & El & _ & Eh & Ex & Eg); [|done..].
  simpl in C1. rewrite <-El in Hl. rewrite <-En in Hn. rewrite <-Er in Hs.
  assert (custody_at (wlog w1) (d_id d) = Flying (l_id lk) (w_now w1)) as Hc.
  { rewrite Eg, Hnow, Hdid. cbn [custody_at]. unfold custody_step. by rewrite decide_True. }
  apply nm_bind_inv in Hm as ([] & w2 & [= <-] & [= _ <-]).
  exists (<[d_id d := Transit l]> G). split; [|by rewrite <-Eh, <-Ex].
  apply (inv_put_node topo v0 seen _ (set_w_links (<[l := lk']> (w_links w1)) w1) _ nd); try done.
  apply (inv_put_link topo v0 seen _ w1 l lk); try done; [| |apply inv_insert; [done|congruence..]].
  - intros _. unfold transit_items. rewrite Hq. simpl.
    eapply lane_perm; [symmetry; apply heap_items_push|].
    apply (lane_push (λ p, d_id (p_data p)) G _ _ (mkPrioritized d (w_now w) _)); [|simpl; by rewrite Hdid|].
    + by apply (iv_transit _ _ _ _ _ Hi1).
    + split; [by rewrite <-Hnow|]. simpl. pose proof (of_delay _ _ _ _ _ _ Hof). split_and!; [lia|lia|].
      rewrite <-Hnow. apply (settled_now w1 l); [apply Hi1|done|done].
  - intros q. rewrite Hout. by left.
Qed.

Lemma finish_packet_inv l p q :
  same_packet p q → steps_in (keeps_inv l p) (finish_packet l q : NM world _).
Proof.
  intros Hpq w u w' Hm G Hi Hp. unfold finish_packet in Hm.
  pose proof (offered_same _ _ _ _ _ Hpq Hp) as Hq.
  apply nm_bind_inv in Hm as (handled & w1 & Hh & Hm). unfold is_handled in Hh. nm_inv_step Hh.
  apply nm_bind_inv in Hm as ([] & w1 & Hbody & Hset).
  assert (∃ G', inv G' w1 ∧ offered_ok topo v0 G' w1 l p) as (G' & Hi' & Hp').
  2: { by apply (set_phase_inv l p AwaitPacket) in Hset; [by apply (Hset G')|]. }
  destruct handled; [injection Hbody as <-; by exists G|].
  destruct (handle_inv _ _ _ _ Hi Hq Hh) as (Hi1 & Hst & Hs).
  apply nm_bind_inv in Hbody as ([] & w2 & [= <-] & Hbody).
  apply nm_bind_inv in Hbody as (nd & w3 & Hn & Hbody). unfold get_node in Hn. nm_inv_step Hn.
  set (w2 := set_w_handled _ w) in *. set (G1 := delete _ G) in *.
  assert (G1 !! d_id (o_data q) = None) as Hg1 by apply lookup_delete_eq.
  assert (w_handled w2 !! o_handled p = Some true) as Hh2.
  { destruct Hpq as (_ & _ & _ & _ & <-). apply lookup_insert_eq. }
  assert (offered_ok topo v0 G1 w2 l q) as Hq2.
  { eapply offered_handled; [|by destruct Hpq as (_ & _ & _ & _ & ->)|exact Hq]. done. }
  destruct (cleared_from_buffer (o_in_node_since q) nd) eqn:Hclear.
  - eapply record_carried in Hbody as (Hi2 & _ & _ & _ & _ & _ & Eh & Ex & _); [|done..|].
    + exists G1. split; [done|]. eapply offered_handled; [|by rewrite Eh|exact Hp]. by rewrite Ex.
    + destruct (stored_node _ _ _ _ _ _ Hi1 Hn Hst) as [Hd Hc]. split; [done|]. by eexists.
  - eapply send_inv in Hbody as (G' & Hi' & Eh & Ex); [|done..]. exists G'. split; [done|].
    eapply offered_handled; [|by rewrite Eh|exact Hp]. by rewrite Ex.
Qed.

Lemma same_packet_refl p : same_packet p p.
Proof. by split_and!. Qed.
Lemma same_packet_some p : ∀ q, Some p = Some q → same_packet p q.
Proof. intros q [= <-]. apply same_packet_refl. Qed.

(** Reads of the world. *)
Lemma same_world_inv {A} l p (m : NM world A) :
  (∀ w a w', m w = Some (a, w') → w' = w) → steps_in (keeps_inv l p) m.
Proof. intros Hm w a w' ->%Hm. reflexivity. Qed.

Lemma get_node_inv l p n : steps_in (keeps_inv l p) (get_node n : NM world _).
Proof. apply same_world_inv. intros w a w' Hm. unfold get_node in Hm. by nm_inv_step Hm. Qed.
Lemma get_net_link_inv l p m : steps_in (keeps_inv l p) (get_net_link m : NM world _).
Proof. apply same_world_inv. intros w a w' Hm. unfold get_net_link in Hm. by nm_inv_step Hm. Qed.
Lemma is_handled_inv l p q : steps_in (keeps_inv l p) (is_handled q : NM world _).
Proof. apply same_world_inv. intros w a w' Hm. unfold is_handled in Hm. by nm_inv_step Hm. Qed.
Lemma is_fired_inv l p c : steps_in (keeps_inv l p) (is_fired c : NM world _).
Proof. apply same_world_inv. by intros w a w' [= _ <-]. Qed.
Lemma now_inv l p : steps_in (keeps_inv l p) (now : NM world _).
Proof. apply same_world_inv. by intros w a w' [= _ <-]. Qed.

Create HintDb carry discriminated.
Hint Resolve get_node_inv get_net_link_inv is_handled_inv is_fired_inv now_inv set_permit_inv
  same_packet_refl : carry.

Ltac carry :=
  repeat first
    [ solve [eauto 2 with carry nocore]
    | (apply set_phase_inv; first [done | apply same_packet_some])
    | (apply finish_packet_inv; solve [by split_and!])
    | apply steps_in_ret; apply _
    | apply steps_in_get; apply _
    | apply steps_in_some; apply _
    | apply steps_in_assert; apply _
    | apply steps_in_panic
    | apply steps_in_bind; [apply _| |intros ?]
    | case_match ].

Lemma yield_loop_inv l p : steps_in (keeps_inv l p) (yield_loop l p : NM world _).
Proof.
  unfold yield_loop. destruct (o_preferred_links p) as [|pl rest]; [carry|]. set (p' := mkOutgoing _ _ _ _ _ _).
  assert (same_packet p p') by by split_and!.
  assert (steps_in (keeps_inv l p) (finish_packet l p' : NM world _)) by by apply finish_packet_inv.
  case_bool_decide; [done|]. apply steps_in_bind; [apply _|carry|intros handled].
  destruct handled; [done|]. apply set_phase_inv. by intros q [= <-].
Qed.
Hint Resolve yield_loop_inv : carry.

Lemma sleep_done_inv l p : steps_in (keeps_inv l p) (sleep_done l p : NM world _).
Proof. unfold sleep_done. carry. Qed.
Hint Resolve sleep_done_inv : carry.

Lemma sleep_loops_inv fuel l p :
  steps_in (keeps_inv l p) (sleep_loop fuel l p : NM world _) ∧
  steps_in (keeps_inv l p) (wait_for_node fuel l p : NM world _) ∧
  steps_in (keeps_inv l p) (recheck_link fuel l p : NM world _).
Proof.
  induction fuel as [|fuel (IH1 & IH2 & IH3)]; simpl.
  { split_and!; apply steps_in_panic. }
  split_and!; carry; done.
Qed.

Lemma run_link_inv G w u w' l :
  inv G w → run_link timer_elapsed l w = Some (u, w') → ∃ G', inv G' w'.
Proof.
  intros Hi Hm. unfold run_link in Hm.
  apply nm_bind_inv in Hm as (w0 & w1 & [= <- <-] & Hm).
  apply nm_bind_inv in Hm as (ph & w1 & Hph & Hm). nm_inv_step Hph.
  pose proof (λ fuel l p, proj1 (sleep_loops_inv fuel l p)) as Hsleep.
  pose proof (λ fuel l p, proj1 (proj2 (sleep_loops_inv fuel l p))) as Hwait.
  pose proof (λ fuel l p, proj2 (proj2 (sleep_loops_inv fuel l p))) as Hcheck.
  assert (∀ p, steps_in (keeps_inv l p) (acquire_permit timer_elapsed l p : NM world _)) as Hacquire
    by (intros p; unfold acquire_permit, start_sleep; carry).
  assert (∀ p, steps_in (keeps_inv l p) (start_packet timer_elapsed l p : NM world _)) as Hstart
    by (intros p; unfold start_packet; carry).
  assert (∀ p (m : NM world ()) w0, steps_in (keeps_inv l p) m → inv G w0 →
    offered_ok topo v0 G w0 l p → m w0 = Some (u, w') → ∃ G', inv G' w') as Hgo.
  { intros p m w0 Hk Hi0 Hp Hw. destruct (Hk _ _ _ Hw G Hi0 Hp) as (G' & ? & _). by exists G'. }
  pose proof (λ p, iv_phase _ _ _ _ _ Hi _ _ p Hph) as Hok.
  destruct ph as [|p|p d|p c|p c|p]; simpl in Hok;
    try (eapply (Hgo p); [|done|by apply Hok|exact Hm]; by carry).
  apply nm_bind_inv in Hm as (lk & w1 & Hl & Hm). unfold get_net_link in Hl. nm_inv_step Hl.
  destruct (l_outgoing lk) as [|p rest] eqn:Hout; [injection Hm as _ <-; by exists G|].
  apply nm_bind_inv in Hm as ([] & w1 & [= <-] & Hm).
  assert (offered_ok topo v0 G w l p) as Hp.
  { apply (iv_outgoing _ _ _ _ _ Hi l lk); [done|]. rewrite Hout. left. }
  eapply (Hgo p); [by apply Hstart| | |exact Hm]; [|by apply (offered_mono topo v0 G w)].
  apply (inv_put_link topo v0 seen G w l lk); try done. intros q Hq. left. rewrite Hout. by right.
Qed.

(** ** Events, and whole executions *)
Lemma process_event_inv G w u w' e :
  inv G w → process_event topo e w = Some (u, w') → inv G w'.
Proof.
  intros Hi Hm. destruct u, e as [e|e]; simpl in Hm.
  - apply (process_link_event_told topo v0) in Hm as [Ht Hu]; [|apply Hi]. by eapply inv_undisturbed.
  - apply (process_node_event_told topo v0) in Hm as [Ht Hu]; [|apply Hi]. by eapply inv_undisturbed.
Qed.

Lemma process_events_inv {A} (f : A → NetworkEventKind) G w u w' l :
  inv G w → nforeach (λ e, process_event topo (f e)) l w = Some (u, w') → inv G w'.
Proof.
  revert w. induction l as [|e l IH]; intros w Hi Hm; simpl in Hm; [by injection Hm as _ <-|].
  apply nm_bind_inv in Hm as ([] & w1 & H1 & H2). apply (IH w1); [|done]. by eapply process_event_inv.
Qed.

Lemma run_events_inv G w u w' s :
  inv G w → run_events timer_elapsed topo s w = Some (u, w') → inv G w'.
Proof.
  intros Hi Hm. unfold run_events in Hm. apply nm_bind_inv in Hm as (w1 & w2 & [= <- <-] & Hm).
  destruct (w_events w) as [|e rest]; [by injection Hm as _ <-|].
  destruct (timer_elapsed _ _); [|by injection Hm as _ <-].
  apply nm_bind_inv in Hm as ([] & w1 & [= <-] & Hm). eapply process_event_inv; [|exact Hm].
  by apply (inv_view topo v0 seen G w).
Qed.

Lemma reach_inv start w w' :
  Reach rng_f64 rng_u128 timer_elapsed topo start w w' → live (w_rng w') → (∃ G, inv G w) → ∃ G, inv G w'.
Proof using Hids.
  induction 1 as [|x y z Hs Hr IH]; [done|]. intros Hlive [G Hi]. apply IH; [done|].
  pose proof (reach_live _ _ _ Hr Hlive) as Hlive'. clear Hr IH Hlive.
  destruct Hs; eauto using run_buffer_inv, run_link_inv, run_forwarder_inv, run_events_inv,
    try_send_inv, poll_recv_inv, inv_advance.
Qed.

(** A network in which nothing has happened holds no packet. *)
Lemma pristine_inv w : told topo v0 w → pristine w → inv ∅ w.
Proof.
  intros Ht [P1 P2 P3 P4 P5 P6]. split; rewrite ?P1; try done.
  - intros n nd (_ & _ & ->)%P3. apply lane_nil.
  - intros l lk (_ & Hq & _)%P4. unfold transit_items. rewrite Hq. simpl. rewrite heap_items_new. apply lane_nil.
  - intros n q ->%P6. simpl. rewrite heap_items_new. apply lane_nil.
  - intros l lk p (Ho & _)%P4. rewrite Ho. by intros ?%not_elem_of_nil.
  - by intros l ph p ->%P5.
  - intros x. rewrite P2, lookup_empty. by intros [].
  - intros p [Hp|Hp]; [done|]. rewrite lookup_empty in Hp. by destruct Hp.
Qed.
End network.
