(* ===== verification/NetworkExample.v ===== *)
(** * An example network

    Two hosts connected by a link in each direction, and scripted executions
    of it, on which the theorems about the network are instantiated.  The
    random numbers are all 0 and so are the ratios, so nothing is lost, duplicated
    or delayed at random, and packet ids are counted up. *)

From Stdlib Require Import Init.Byte.
From S2P Require Import Prelude Float Ip Spec Event Transmit SimStep Replayed Verifier History.
From S2P Require Import Heap InboundQueue Node Link Network NetworkInit NetworkInv NetworkRng.

Definition host_A : Ipv4Cidr := mkCidr 167772161 24.
Definition host_B : Ipv4Cidr := mkCidr 167772162 24.

Definition net_spec : NetworkSpec :=
  let zero := f64_of_Z 0 in
  mkSpec
    [mkNodeSpec "A" 3000 Host [mkInterface [host_A] []] zero zero;
     mkNodeSpec "B" 3000 Host [mkInterface [host_B] []] zero zero]
    [mkLinkSpec "ab" (as_ip_addr host_A) (as_ip_addr host_B) (from_millis 5) 12000000 zero 0 zero;
     mkLinkSpec "ba" (as_ip_addr host_B) (as_ip_addr host_A) (from_millis 5) 12000000 zero 0 zero].

(** [A]'s buffer is cleared after 2 ms and the link [ab] goes down after 3 ms. *)
Definition net_events : NetworkEvents :=
  NetworkEvents_new
    [mkEvent (from_millis 3) (LinkEvent (link_status_only "ab" LinkDown));
     mkEvent (from_millis 2) (NodeEvent (mkNodeEvent "A" None true))]
    (nodes net_spec) (links net_spec).

Definition seq_f64 (r : Z) : f64 * Z := (f64_of_Z 0, r).
Definition seq_u128 (r : Z) : Z * Z := (r, r + 1).

(** The generator records what it draws. *)
Definition net_rng : Type := Z * list Z.
Definition net_seed (seed : Z) : net_rng := (seed, []).
Definition net_f64 : net_rng → f64 * net_rng := recorded_f64 seq_f64.
Definition net_u128 : net_rng → Z * net_rng := recorded_u128 seq_u128.
Definition net_timer (deadline now : Z) : bool := deadline <=? now.

#[export] Existing Instance inbound_heap.
Abbreviation net_heap := (list PrioritizedInTransitData).

Definition no_world : World net_heap net_rng :=
  mkWorld 0 ∅ ∅ ∅ ∅ ∅ ∅ ∅ ∅ 0 [] (net_seed 0) 0 [].
Definition net_start : Topology * World net_heap net_rng :=
  match initialize 0 net_spec net_events (net_seed 0) 0 false with
  | Ok x => x
  | _ => (mkTopology ∅ ∅ ∅ ∅ ∅, no_world)
  end.
Definition net_topo : Topology := fst net_start.
Definition net_world : World net_heap net_rng := snd net_start.

Lemma net_initialize :
  initialize 0 net_spec net_events (net_seed 0) 0 false = Ok (net_topo, net_world).
Proof. vm_compute. reflexivity. Qed.

(** A packet of 1500 bytes for [B]. *)
Definition net_packet : OwnedTransmit :=
  mkTransmit (mkSocketAddr (as_ip_addr host_B) HOST_PORT) None (replicate 1472 Byte.x00) None.

Abbreviation net_exec := (exec_all net_f64 net_u128 net_timer net_topo 0).
Definition ms (n : N) : Action := Wait (n * 1000000).
Definition net_run (l : list Action) : World net_heap net_rng := default no_world (net_exec l net_world).

Definition deliver_script : list Action :=
  [TrySend 0%nat net_packet; RunBuffer 0%nat; RunLink 0%nat; RunForwarder 0%nat; ms 6;
   RunForwarder 0%nat; PollRecv 1%nat 1 [2000]].

Lemma net_deliver : net_exec deliver_script net_world = Some (net_run deliver_script).
Proof. vm_compute. reflexivity. Qed.

Lemma net_reach l w :
  net_exec l net_world = Some w → Reach net_f64 net_u128 net_timer net_topo 0 net_world w.
Proof. apply exec_all_reach. Qed.

Lemma net_delivered :
  Reach net_f64 net_u128 net_timer net_topo 0 net_world (net_run deliver_script).
Proof. apply (net_reach deliver_script), net_deliver. Qed.

(** The packet waits for the task of link [ab], which sends it. *)
Definition hand_script : list Action := [TrySend 0%nat net_packet; RunBuffer 0%nat].
Definition handed_world : World net_heap net_rng := net_run hand_script.
Definition handed_packet : OutgoingPacket :=
  match w_links handed_world !! 0%nat with
  | Some lk => hd (mkOutgoing 0 0%nat (mkData 0 false (mkSocketAddr (V4 0) 0) EmptyString net_packet 0)
                     (mkAnomalies false 0) [] 0%nat) (l_outgoing lk)
  | None => mkOutgoing 0 0%nat (mkData 0 false (mkSocketAddr (V4 0) 0) EmptyString net_packet 0)
              (mkAnomalies false 0) [] 0%nat
  end.

Lemma net_handed : Reach net_f64 net_u128 net_timer net_topo 0 net_world handed_world.
Proof. apply (net_reach hand_script). vm_compute. reflexivity. Qed.

(** The buffer of [A] is cleared while the packet waits for the link's task. *)
Definition clear_script : list Action :=
  [TrySend 0%nat net_packet; RunBuffer 0%nat; ms 2; RunEvents; RunLink 0%nat].

Lemma net_clear : net_exec clear_script net_world = Some (net_run clear_script).
Proof. vm_compute. reflexivity. Qed.

(** ** Variations of the network *)
Definition start_network (spec : NetworkSpec) (events : NetworkEvents)
    : Topology * World net_heap net_rng :=
  match initialize 0 spec events (net_seed 0) 0 false with
  | Ok x => x
  | _ => (mkTopology ∅ ∅ ∅ ∅ ∅, no_world)
  end.
Definition run_network (net : Topology * World net_heap net_rng) (l : list Action)
    : option (World net_heap net_rng) :=
  exec_all net_f64 net_u128 net_timer (fst net) 0 l (snd net).

(** Without a link from [A] to [B]. *)
Definition one_way_spec : NetworkSpec := mkSpec (nodes net_spec) (drop 1 (links net_spec)).
Definition one_way_net := start_network one_way_spec (NetworkEvents_new [] (nodes one_way_spec) []).

(** With two addresses of [A], and a link from each of them; the preferred link
    [ab] is down until 10 ms and the other one, [cb], goes down at 3 ms. *)
Definition host_A' : Ipv4Cidr := mkCidr 167772163 24.
Definition two_links_spec : NetworkSpec :=
  let zero := f64_of_Z 0 in
  mkSpec
    [mkNodeSpec "A" 3000 Host [mkInterface [host_A; host_A'] []] zero zero;
     mkNodeSpec "B" 3000 Host [mkInterface [host_B] []] zero zero]
    [mkLinkSpec "ab" (as_ip_addr host_A) (as_ip_addr host_B) (from_millis 5) 12000000 zero 0 zero;
     mkLinkSpec "cb" (as_ip_addr host_A') (as_ip_addr host_B) (from_millis 5) 12000000 zero 0 zero].
Definition two_links_net := start_network two_links_spec
  (NetworkEvents_new
    [mkEvent (from_millis 3) (LinkEvent (link_status_only "cb" LinkDown));
     mkEvent (from_millis 10) (LinkEvent (link_status_only "ab" LinkUp))]
    (nodes two_links_spec) (links two_links_spec)).

(** With a bandwidth of 12 kbps: a packet takes a second. *)
Definition slow_spec : NetworkSpec :=
  mkSpec (nodes net_spec)
    [mkLinkSpec "ab" (as_ip_addr host_A) (as_ip_addr host_B) (from_millis 5) 12000
       (f64_of_Z 0) 0 (f64_of_Z 0)].
Definition slow_net := start_network slow_spec (NetworkEvents_new [] (nodes slow_spec) []).

(** Two packets are sent as fast as the link allows. *)
Definition slow_script : list Action :=
  [TrySend 0%nat net_packet; TrySend 0%nat net_packet; RunBuffer 0%nat; RunBuffer 0%nat;
   RunLink 0%nat; RunLink 0%nat; ms 1000; RunLink 0%nat].

(** With host [A] going down at 3 ms. *)
Definition down_net := start_network net_spec
  (NetworkEvents_new
    [mkEvent (from_millis 3) (NodeEvent (mkNodeEvent "A" (Some NodeDown) false))]
    (nodes net_spec) (links net_spec)).

(** A packet is handed to the link when [A] goes down. *)
Definition down_script : list Action :=
  [ms 3; TrySend 0%nat net_packet; RunBuffer 0%nat; RunEvents; RunLink 0%nat].

(** The packet is sent, and the link goes down, at 3 ms. *)
Definition same_instant_script : list Action :=
  [ms 3; TrySend 0%nat net_packet; RunBuffer 0%nat; RunLink 0%nat; RunForwarder 0%nat; RunEvents;
   RunEvents; ms 6; RunForwarder 0%nat].
