(* ===== verification/Sockets.v ===== *)
(** * The sockets of the hosts

    Models what [in-memory-network/src/quinn_interop.rs] adds to [try_send] and
    [poll_recv] of [Network]: the metadata and the buffers a read fills
    ([RecvMeta] is quinn's), and [receive], which turns them into packets. *)

From Stdlib Require Import Init.Byte.
From S2P Require Import Prelude Float Ip Spec Event Transmit SimStep Replayed Verifier History.
From S2P Require Import Heap InboundQueue Node Link Network NetworkInit NetworkInv NetworkExample.

Record RecvMeta : Type := mkRecvMeta {
  rm_addr : SocketAddr;
  rm_len : Z;
  rm_stride : Z;
  rm_ecn : option Z;
  rm_dst_ip : option IpAddr;
}.

Record BufsAndMeta : Type := mkBufsAndMeta {
  bm_bufs : list (list byte);
  bm_meta : list RecvMeta;
}.

(** [default_meta] is [RecvMeta::default()]. *)
Definition BufsAndMeta_new (default_meta : RecvMeta) (max_packet_size max_packets_per_read : nat)
    : BufsAndMeta :=
  mkBufsAndMeta (replicate max_packets_per_read (replicate max_packet_size Byte.x00))
    (replicate max_packets_per_read default_meta).

Record UdpPacket : Type := mkUdpPacket {
  up_source_addr : SocketAddr;
  up_payload : list byte;
}.

(** The metadata of a packet. *)
Definition recv_meta (data : InTransitData) : RecvMeta :=
  let transmit := d_transmit data in
  let len := Z.of_nat (length (t_contents transmit)) in
  mkRecvMeta (d_source_endpoint data) len (default len (t_segment_size transmit))
    (t_ecn transmit) (Some (sa_ip (t_destination transmit))).

(** [buf[..n].copy_from_slice(contents)]; [None] is the panic of the slice. *)
Definition write_buffer (contents buf : list byte) : option (list byte) :=
  if (length contents <=? length buf)%nat then Some (contents ++ drop (length contents) buf)
  else None.

(** The loop of [poll_recv] over the packets, the metadata and the buffers. *)
Fixpoint write_packets (delivered : list DeliveredTransmit) (bufs : list (list byte))
    (meta : list RecvMeta) : option (list (list byte) * list RecvMeta) :=
  match delivered, bufs, meta with
  | d :: delivered', buf :: bufs', _ :: meta' =>
      buf ← write_buffer (t_contents (d_transmit (dv_data d))) buf;
      '(bufs', meta') ← write_packets delivered' bufs' meta';
      Some (buf :: bufs', recv_meta (dv_data d) :: meta')
  | _, _, _ => Some (bufs, meta)
  end.

(** The loop of [receive] over the packets read; indexing and slicing panic. *)
Definition nth_packet (bm : BufsAndMeta) (i : nat) : option UdpPacket :=
  meta ← bm_meta bm !! i;
  buf ← bm_bufs bm !! i;
  if rm_len meta <=? Z.of_nat (length buf)
  then Some (mkUdpPacket (rm_addr meta) (take (Z.to_nat (rm_len meta)) buf)) else None.

Definition collect_packets (packets : nat) (bm : BufsAndMeta) : option (list UdpPacket) :=
  mapM (nth_packet bm) (seq 0 packets).

Section sockets.
Context {H : Type} {HH : BinaryHeap PrioritizedInTransitData above H} {R : Type}.
Context (timer_elapsed : Z → Z → bool).

Abbreviation world := (World H R).
Abbreviation M := (NM world).

(** A poll of [receive_raw]: [None] while no packet has arrived, and otherwise
    the number of packets. *)
Definition receive_raw (n : node_ref) (bm : BufsAndMeta) : M (option nat * BufsAndMeta) :=
  res ← poll_recv timer_elapsed n (Z.of_nat (length (bm_meta bm)))
          ((λ b, Z.of_nat (length b)) <$> bm_bufs bm);
  match res with
  | None => mret (None, bm)
  | Some delivered =>
      '(bufs, meta) ← nsome (write_packets delivered (bm_bufs bm) (bm_meta bm));
      mret (Some (length delivered), mkBufsAndMeta bufs meta)
  end.

(** A poll of [receive]. *)
Definition receive (n : node_ref) (bm : BufsAndMeta) : M (option (list UdpPacket) * BufsAndMeta) :=
  '(res, bm) ← receive_raw n bm;
  match res with
  | None => mret (None, bm)
  | Some packets => result ← nsome (collect_packets packets bm); mret (Some result, bm)
  end.

(** [local_addr]; [poll_writable] is always ready. *)
Definition local_addr (n : node_ref) : M SocketAddr :=
  nd ← get_node n; nsome (n_udp_endpoint nd).

(** ** What an application receives *)
Definition packet_of (d : DeliveredTransmit) : UdpPacket :=
  mkUdpPacket (d_source_endpoint (dv_data d)) (t_contents (d_transmit (dv_data d))).

Lemma write_buffer_take contents buf buf' :
  write_buffer contents buf = Some buf' →
  length buf' = length buf ∧ take (length contents) buf' = contents.
Proof.
  unfold write_buffer. destruct (Nat.leb_spec (length contents) (length buf)); [|done].
  intros [= <-]. rewrite length_app, length_drop, take_app_length. split; [lia|done].
Qed.

(** Reading back what was written: the packets, in order. *)
Lemma write_packets_read ds bufs meta bufs' meta' :
  write_packets ds bufs meta = Some (bufs', meta') →
  (length ds ≤ length meta)%nat → (length ds ≤ length bufs)%nat →
  ∀ i d, ds !! i = Some d →
    nth_packet (mkBufsAndMeta bufs' meta') i = Some (packet_of d).
Proof.
  revert bufs meta bufs' meta'. induction ds as [|d0 ds IH]; intros bufs meta bufs' meta'; [done|].
  destruct bufs as [|buf bufs]; [simpl; lia|]. destruct meta as [|m meta]; [simpl; lia|].
  simpl. intros (buf1 & Hb & Hw)%bind_Some Hm Hl. apply bind_Some in Hw as ([bs ms] & Hw & [= <- <-]).
  intros [|i] d; simpl.
  - intros [= <-]. apply write_buffer_take in Hb as [Hlen Htake].
    unfold nth_packet, recv_meta. simpl. rewrite Nat2Z.id, Htake.
    destruct (Z.leb_spec (Z.of_nat (length (t_contents (d_transmit (dv_data d0))))) (Z.of_nat (length buf1)));
      [done|].
    rewrite <-Htake in H0 at 1. rewrite length_take in H0. lia.
  - intros Hi. unfold nth_packet. simpl. by apply (IH _ _ _ _ Hw); [lia|lia|].
Qed.

Lemma collect_written ds bufs meta bufs' meta' :
  write_packets ds bufs meta = Some (bufs', meta') →
  (length ds ≤ length meta)%nat → (length ds ≤ length bufs)%nat →
  collect_packets (length ds) (mkBufsAndMeta bufs' meta') = Some (packet_of <$> ds).
Proof.
  intros Hw Hm Hb. unfold collect_packets. apply mapM_Some. apply Forall2_same_length_lookup.
  rewrite length_seq, length_fmap. split; [done|]. intros i j p Hi Hp.
  apply lookup_seq in Hi as [-> Hi]. simpl.
  rewrite list_lookup_fmap in Hp. apply fmap_Some in Hp as (d & Hd & ->).
  by eapply write_packets_read.
Qed.

Lemma read_packets_log n nd ds sizes w w' :
  nforeach (λ '(d, size), read_packet (H:=H) (R:=R) n d size) (zip ds sizes) w = Some ((), w') →
  w_nodes w !! n = Some nd → (length ds ≤ length sizes)%nat →
  w_inbound w' = w_inbound w ∧ w_log w' = w_log w ++
    ((λ d, mkStep (w_now w) (PacketDeliveredToApplication (generic_event nd (dv_data d)))) <$> ds).
Proof.
  revert sizes w. induction ds as [|d ds IH]; intros [|size sizes] w; simpl; try lia.
  - intros [= <-]. by rewrite app_nil_r.
  - intros [= <-]. by rewrite app_nil_r.
  - intros Hr Hn Hl. nm_inv Hr. unfold read_packet, record_step in Hr0. nm_inv Hr0.
    unfold get_node in Hr1. nm_inv Hr1.
    apply IH in Hr as [Hi Hr]; [|done|lia]. simpl in Hr, Hi. rewrite Hr, Hi. unfold record.
    by rewrite <-app_assoc.
Qed.

(** A delivery of the socket's future is at most as long as it was created for. *)
Context (Helapsed : ∀ d t, timer_elapsed d t = true → d ≤ t).

Lemma poll_ready_bound now w f q ds f' q' :
  0 < n_max_transmits f → poll timer_elapsed now w f q = Some (Ready ds, f', q') →
  Z.of_nat (length ds) ≤ n_max_transmits f ∧
  ∃ new, ds = delivered_of <$> new ∧ delivery now (n_max_transmits f) (heap_items (q_queue q)) new
    (heap_items (q_queue q')).
Proof using Helapsed.
  intros Hmax Hp.
  assert (unblocked timer_elapsed now f ∨ ∃ d, n_sleep f = Some d ∧ timer_elapsed d now = false)
    as [Hu|(d & Hs & Hu)].
  { unfold unblocked. destruct (n_sleep f) as [d|]; [|by left].
    destruct (timer_elapsed d now) eqn:E; [by left|right; eauto]. }
  - destruct (poll_unblocked _ Helapsed now w f q Hu Hmax) as
      (res & f1 & q1 & new & Hp1 & _ & Hdel & _ & [(_ & -> & _)|(_ & ->)]); [congruence|].
    assert (ds = delivered_of <$> new ∧ q1 = q') as [-> ->] by (rewrite Hp in Hp1; split; congruence).
    split; [|by exists new]. rewrite length_fmap. apply (del_bound _ _ _ _ _ Hdel).
  - rewrite (poll_blocked _ now w f q d Hs Hu Hmax) in Hp. congruence.
Qed.

(** The future of a host's socket reads at most as many packets at once as the
    caller has room for; so it is if all calls pass the same number of slots. *)
Definition socket_fits (n : node_ref) (slots : nat) (w : world) : Prop :=
  ∀ f, w_sockets w !! n = Some f → n_max_transmits f = Z.of_nat slots.

Lemma poll_recv_reads n nd slots sizes delivered w w' :
  w_nodes w !! n = Some nd → (0 < slots)%nat → socket_fits n slots w →
  poll_recv timer_elapsed n (Z.of_nat slots) sizes w = Some (Some delivered, w') →
  ∃ q q' new, w_inbound w !! n = Some q ∧ w_inbound w' !! n = Some q' ∧
    delivery (w_now w) (Z.of_nat slots) (heap_items (q_queue q)) new (heap_items (q_queue q')) ∧
    delivered = delivered_of <$> new ∧ (length delivered ≤ slots ≤ length sizes)%nat ∧
    w_log w' = w_log w ++ ((λ d, mkStep (w_now w)
      (PacketDeliveredToApplication (generic_event nd (dv_data d)))) <$> delivered).
Proof using Helapsed.
  intros Hn Hpos Hfits Hr. unfold poll_recv in Hr. nm_inv Hr.
  destruct x1 as [[res f'] q']. rename x0 into q, Hr1 into Hq, Hr2 into Hpoll.
  apply nm_bind_inv in Hr as ([] & w1 & [= <-] & Hr).
  destruct res as [|ds|]; [done| |done].
  apply nm_bind_inv in Hr as ([] & w2 & Hread & [= -> ->]).
  set (f := default _ _) in *.
  assert (n_max_transmits f = Z.of_nat slots) as Hmax.
  { unfold f. destruct (w_sockets _ !! n) eqn:Hf; [|done]. by apply Hfits. }
  apply poll_ready_bound in Hpoll as [Hlen (new & Hds & Hdel)]; [|lia].
  rewrite Hmax in *.
  apply (read_packets_log _ nd) in Hread as [Hi Hlog]; [|done|rewrite length_take; lia].
  rewrite Hi, Hlog. exists q, q', new. simpl. rewrite lookup_insert_eq. split_and!; try done; lia.
Qed.

(** The buffers of an application that reads up to [slots] packets of [size]
    bytes. *)
Definition shaped (slots size : nat) (bm : BufsAndMeta) : Prop :=
  length (bm_meta bm) = slots ∧ length (bm_bufs bm) = slots ∧
  Forall (λ b, length b = size) (bm_bufs bm).

Lemma write_packets_total ds bufs meta size :
  Forall (λ b, length b = size) bufs →
  (∀ d, d ∈ ds → (length (t_contents (d_transmit (dv_data d))) ≤ size)%nat) →
  ∃ bufs' meta', write_packets ds bufs meta = Some (bufs', meta') ∧ length bufs' = length bufs ∧
    length meta' = length meta ∧ Forall (λ b, length b = size) bufs'.
Proof.
  revert bufs meta. induction ds as [|d ds IH]; intros bufs meta Hb Hd; [by exists bufs, meta|].
  destruct bufs as [|buf bufs]; [by exists [], meta|].
  destruct meta as [|m meta]; [by exists (buf :: bufs), []|].
  apply Forall_cons in Hb as [Hlen Hb].
  destruct (IH bufs meta Hb) as (bufs' & meta' & E & E1 & E2 & Hf); [intros x Hx; apply Hd; by right|].
  pose proof (Hd d (list_elem_of_here _ _)) as Hle. simpl. unfold write_buffer at 1.
  destruct (Nat.leb_spec (length (t_contents (d_transmit (dv_data d)))) (length buf)); [|lia].
  simpl. rewrite E. simpl. do 2 eexists. split; [done|]. simpl. rewrite E1, E2.
  split_and!; [done..|]. constructor; [|done]. rewrite length_app, length_drop. lia.
Qed.

Lemma read_packets_total n nd ds sizes size (w : world) :
  w_nodes w !! n = Some nd → Forall (λ z, z = Z.of_nat size) sizes →
  (∀ d, d ∈ ds → (length (t_contents (d_transmit (dv_data d))) ≤ size)%nat) →
  ∃ w', nforeach (λ '(d, z), read_packet n d z) (zip ds sizes) w = Some ((), w') ∧
    w_sockets w' = w_sockets w.
Proof.
  revert sizes w. induction ds as [|d ds IH]; intros [|z sizes] w Hn Hz Hd; simpl; try by exists w.
  apply Forall_cons in Hz as [-> Hz]. pose proof (Hd d (list_elem_of_here _ _)) as Hle.
  unfold read_packet, mbind, NM_bind, get_node, record_step, nmodify, nassert. cbn. unfold mbind, NM_bind.
  cbn. rewrite Hn. cbn. destruct (Z.leb_spec (Z.of_nat (length (t_contents (d_transmit (dv_data d))))) (Z.of_nat size)); [|lia].
  match goal with |- context [nforeach _ _ ?x = _] => destruct (IH sizes x) as (w' & E & Es) end;
    [done|done|intros x Hx; apply Hd; by right|].
  exists w'. split; [exact E|done].
Qed.

Definition packets_of (ds : list DeliveredTransmit) : list UdpPacket := packet_of <$> ds.
Definition buffer_sizes (bm : BufsAndMeta) : list Z := (λ b, Z.of_nat (length b)) <$> bm_bufs bm.

(** [receive] returns when the packets that wait fit into the buffers. *)
Lemma receive_total n nd q slots size bm (w : world) :
  w_inbound w !! n = Some q → w_nodes w !! n = Some nd → (0 < slots)%nat → shaped slots size bm →
  socket_fits n slots w →
  (∀ p, p ∈ heap_items (q_queue q) → (length (t_contents (d_transmit (p_data p))) ≤ size)%nat) →
  ∃ res bm' (ds : option (list DeliveredTransmit)) w',
    receive n bm w = Some ((res, bm'), w') ∧ shaped slots size bm' ∧
    socket_fits n slots w' ∧ res = option_map packets_of ds ∧
    poll_recv timer_elapsed n (Z.of_nat slots) (buffer_sizes bm) w = Some (ds, w') ∧
    ∀ m, m ≠ n → w_sockets w' !! m = w_sockets w !! m.
Proof using Helapsed.
  intros Hq Hn Hpos (Hm & Hb & Hsz) Hfits Hfit.
  set (f := default (NextPacketDelivery_new (Z.of_nat slots)) (w_sockets w !! n)).
  assert (n_max_transmits f = Z.of_nat slots) as Hmax.
  { unfold f. destruct (w_sockets w !! n) eqn:Hf; [|done]. by apply Hfits. }
  destruct (poll_total timer_elapsed Helapsed (w_now w) n f q) as
    (r & f' & q' & new & Hp & Hmax' & Hperm & Hlen & Hres); [lia|].
  set (w1 := set_w_inbound (<[n := q']> (w_inbound w))
    (set_w_sockets (<[n := f']> (w_sockets w)) w)).
  assert (socket_fits n slots w1) as Hfits1.
  { intros g. simpl. rewrite lookup_insert_eq. intros [= <-]. lia. }
  assert (∃ ds w', poll_recv timer_elapsed n (Z.of_nat slots)
      (buffer_sizes bm) w = Some (ds, w') ∧ socket_fits n slots w' ∧
    (∀ m, m ≠ n → w_sockets w' !! m = w_sockets w !! m) ∧
    ∀ l, ds = Some l → l = delivered_of <$> new) as (ds & w' & Hpoll & Hfits' & Hother & Hds).
  { unfold poll_recv, buffer_sizes, mbind, NM_bind, nassert. cbn -[poll]. rewrite length_fmap, Hb, Z.leb_refl.
    cbn -[poll]. rewrite Hq. cbn -[poll]. fold f. rewrite Hp. cbn -[poll]. fold w1.
    assert (∀ m, m ≠ n → w_sockets w1 !! m = w_sockets w !! m) as Hw1.
    { intros m Hm'. simpl. by rewrite lookup_insert_ne. }
    destruct Hres as [->|[Hne ->]]; [by exists None, w1|].
    destruct (read_packets_total n nd (delivered_of <$> new)
      (take (Z.to_nat (Z.of_nat slots)) ((λ b, Z.of_nat (length b)) <$> bm_bufs bm)) size w1) as (w' & E & Es).
    - done.
    - apply Forall_take, Forall_fmap. eapply Forall_impl; [exact Hsz|]. by intros b <-.
    - intros d (p & -> & Hx)%list_elem_of_fmap. apply Hfit. rewrite Hperm, elem_of_app. by left.
    - rewrite E. exists (Some (delivered_of <$> new)), w'. split; [done|]. unfold socket_fits.
      rewrite Es. split_and!; [done..|by intros l [= <-]]. }
  assert ((length new ≤ slots)%nat) as Hle by lia.
  unfold receive, receive_raw, mbind, NM_bind. fold (buffer_sizes bm). rewrite Hm, Hpoll.
  destruct ds as [l|].
  2: { by exists None, bm, None, w'. }
  rewrite (Hds l eq_refl) in *. clear Hds.
  destruct (write_packets_total (delivered_of <$> new) (bm_bufs bm) (bm_meta bm) size Hsz)
    as (bufs' & meta' & Hw & E1 & E2 & Hsz').
  { intros d (p & -> & Hx)%list_elem_of_fmap. apply Hfit. rewrite Hperm, elem_of_app. by left. }
  rewrite Hw. cbn. rewrite (collect_written _ _ _ _ _ Hw) by (rewrite length_fmap; lia).
  cbn. do 2 eexists. exists (Some (delivered_of <$> new)), w'. split; [done|].
  split; [split_and!; simpl; congruence|]. by split_and!.
Qed.

(** The packets of a call of [receive], and what is logged. *)
Lemma receive_reads n nd bm packets bm' w w' :
  w_nodes w !! n = Some nd → (0 < length (bm_meta bm))%nat →
  socket_fits n (length (bm_meta bm)) w →
  receive n bm w = Some ((Some packets, bm'), w') →
  ∃ q q' new, w_inbound w !! n = Some q ∧ w_inbound w' !! n = Some q' ∧
    delivery (w_now w) (Z.of_nat (length (bm_meta bm))) (heap_items (q_queue q)) new
      (heap_items (q_queue q')) ∧
    packets = packet_of <$> (delivered_of <$> new) ∧
    w_log w' = w_log w ++ ((λ d, mkStep (w_now w)
      (PacketDeliveredToApplication (generic_event nd (dv_data d)))) <$> (delivered_of <$> new)).
Proof using Helapsed.
  intros Hn Hpos Hfits Hr. unfold receive in Hr.
  apply nm_bind_inv in Hr as ([res bm1] & w1 & Hraw & Hr). unfold receive_raw in Hraw.
  apply nm_bind_inv in Hraw as (delivered & w2 & Hrecv & Hraw).
  destruct delivered as [delivered|]; [|by injection Hraw as <- <- <-].
  apply poll_recv_reads with (nd := nd) in Hrecv as (q & q' & new & Hq & Hq' & Hdel & -> & [Hm Hb] & Hlog);
    [|done..].
  rewrite length_fmap in Hb. nm_inv Hraw. destruct x as [bufs meta]. injection Hraw as <- <- <-.
  rewrite (collect_written _ _ _ _ _ Hraw0) in Hr by lia. injection Hr as <- <- <-.
  by exists q, q', new.
Qed.

(** C16: What an application receives is what arrived: the packets of a call of [receive] are, in
    order of arrival, packets of the inbound queue that are due, with the addresses and contents
    they were sent with, and exactly these are logged as delivered to the application. *)
Theorem receive_faithful n nd bm packets bm' w w' :
  w_nodes w !! n = Some nd → (0 < length (bm_meta bm))%nat →
  socket_fits n (length (bm_meta bm)) w →
  receive n bm w = Some ((Some packets, bm'), w') →
  ∃ q q' new, w_inbound w !! n = Some q ∧ w_inbound w' !! n = Some q' ∧
    delivery (w_now w) (Z.of_nat (length (bm_meta bm))) (heap_items (q_queue q)) new
      (heap_items (q_queue q')) ∧
    packets = packet_of <$> (delivered_of <$> new) ∧
    w_log w' = w_log w ++ ((λ d, mkStep (w_now w)
      (PacketDeliveredToApplication (generic_event nd (dv_data d)))) <$> (delivered_of <$> new)).
Proof using Helapsed. apply receive_reads. Qed.
End sockets.

(** ** An example

    A packet is on its way to [B], which reads it after 6 ms. *)
Definition arrived_world : World net_heap net_rng :=
  net_run [TrySend 0%nat net_packet; RunBuffer 0%nat; RunLink 0%nat; RunForwarder 0%nat; ms 6;
           RunForwarder 0%nat].

Definition no_meta : RecvMeta := mkRecvMeta (mkSocketAddr (V4 0) 0) 0 0 None None.

Definition two_slots : BufsAndMeta := BufsAndMeta_new no_meta 1500 2.
Definition received : option (list UdpPacket * World net_heap net_rng) :=
  '((res, _), w') ← receive net_timer 1%nat two_slots arrived_world;
  packets ← res; Some (packets, w').

Lemma receive_faithful_witness :
  match received with
  | Some (packets, w') =>
      packets = [mkUdpPacket (mkSocketAddr (as_ip_addr host_A) HOST_PORT) (replicate 1472 Byte.x00)] ∧
      length (w_log w') = (length (w_log arrived_world) + 1)%nat
  | None => False
  end.
Proof.
  unfold received.
  destruct (receive net_timer 1%nat two_slots arrived_world) as [[[[packets|] bm'] w']|] eqn:Hr.
  2, 3: exfalso; revert Hr; vm_compute; discriminate.
  destruct (w_nodes arrived_world !! 1%nat) as [nd|] eqn:Hnd.
  2: exfalso; revert Hnd; vm_compute; discriminate.
  destruct (receive_faithful net_timer (λ d t, proj1 (Z.leb_le d t)) 1%nat nd two_slots packets bm'
    arrived_world w' Hnd) as (q & q' & new & _ & _ & _ & Hp & Hlog);
    [vm_compute; lia|intros f; vm_compute; discriminate|exact Hr|].
  simpl. assert (packets = [mkUdpPacket (mkSocketAddr (as_ip_addr host_A) HOST_PORT)
    (replicate 1472 Byte.x00)]) as Hone.
  { apply (f_equal (λ r, match r with Some ((Some p, _), _) => p | _ => [] end)) in Hr.
    rewrite <-Hr. vm_compute. reflexivity. }
  split; [exact Hone|]. rewrite Hlog, length_app, length_fmap. f_equal.
  rewrite Hone in Hp. apply (f_equal length) in Hp. rewrite length_fmap in Hp. simpl in Hp. lia.
Defined.

(** Two packets arrive at [B]; its socket first waits for up to two packets. *)
Definition shrinking_world : World net_heap net_rng :=
  net_run [PollRecv 1%nat 2 [1500; 1500]; TrySend 0%nat net_packet; RunBuffer 0%nat;
           RunLink 0%nat; TrySend 0%nat net_packet; RunBuffer 0%nat; ms 1; RunLink 0%nat;
           RunLink 0%nat; RunForwarder 0%nat; ms 7; RunForwarder 0%nat].

Definition one_slot : BufsAndMeta := BufsAndMeta_new no_meta 1500 1.

(** The future of a socket keeps the number of packets of the call that created it: an
    application that waits with two slots and later receives with one is handed two packets for
    it, and [receive] panics when it looks for the second one. *)
Theorem receive_fewer_slots_panics :
  receive net_timer 1%nat two_slots shrinking_world ≠ None ∧
  receive net_timer 1%nat one_slot shrinking_world = None.
Proof. split; [|vm_compute; reflexivity]. vm_compute. discriminate. Qed.
