(* ===== verification/Connectivity.v ===== *)
(** * The connectivity check

    Models [assert_connectivity_between_hosts] and the queries next to it in
    [in-memory-network/src/network/mod.rs], with [InboundQueue::receive]: before
    a simulation starts, both hosts send each other a packet every minute, and
    then the check waits until a packet has arrived at each of them.  The check
    runs concurrently with the tasks of the network. *)

From Stdlib Require Import Init.Byte.
From stdpp Require Import relations.
From S2P Require Import Prelude Float Ip Spec Event Transmit SimStep Heap InboundQueue Node.
From S2P Require Import Link Network NetworkInit NetworkInv NetworkSteady NetworkStart NetworkArrivals.
From S2P Require Import NetworkExample.

Definition node_status_str (nd : Node) : string :=
  match n_status nd with StatusUp => "UP" | StatusDown _ => "DOWN" end.

Definition link_status_str {H} (lk : @NetworkLink H) : string :=
  match l_status lk with LinkStatusUp => "UP" | LinkStatusDown _ => "DOWN" end.

(** [InboundQueue::receive]; the queue is passed to [poll]. *)
Definition inbound_queue_receive (max_transmits : Z) : NextPacketDelivery :=
  NextPacketDelivery_new max_transmits.

Definition CHECK_PACKETS : nat := 100.
Definition CHECK_INTERVAL : Z := from_secs 60.
Definition CHECK_TIMEOUT : Z := from_secs (3600 * 24 * 90).

(** What the check returns: the times of arrival at B and A, or whether the
    deliveries from A to B and from B to A failed. *)
Inductive CheckResult : Type :=
  | Connected (a_to_b b_to_a : Z)
  | Disconnected (a_to_b_failed b_to_a_failed : bool).

(** Where the check is suspended. *)
Inductive CheckPhase : Type :=
  | CheckStart
  | CheckSleep (sent : nat) (deadline : Z)
  | CheckAToB (deadline : Z) (receive : NextPacketDelivery)
  | CheckBToA (a_to_b : option (list DeliveredTransmit)) (deadline : Z) (receive : NextPacketDelivery)
  | CheckDone (result : CheckResult).

Section network.
Context {H : Type} {HH : BinaryHeap PrioritizedInTransitData above H}.
Context {R : Type} (rng_f64 : R → f64 * R) (rng_u128 : R → Z * R).
Context (timer_elapsed : Z → Z → bool) (topo : Topology).

Abbreviation world := (World H R).
Abbreviation M := (NM world).

Definition get_link_status (link_id : string) : M string :=
  l ← nsome (links_by_id topo !! link_id); lk ← get_net_link l; mret (link_status_str lk).

Definition get_node_status (node_id : string) : M string :=
  n ← nsome (nodes_by_id topo !! node_id); nd ← get_node n; mret (node_status_str nd).

Definition get_link_bandwidth_bps (link_id : string) : M Z :=
  l ← nsome (links_by_id topo !! link_id); lk ← get_net_link l; mret (l_bandwidth_bps lk).

(** [InMemoryNetwork::host] *)
Definition get_host (ip : IpAddr) : M node_ref :=
  n ← nsome (nodes_by_addr topo !! ip);
  nd ← get_node n;
  _ ← nassert (bool_decide (is_Some (n_udp_endpoint nd)));
  mret n.

Section check.
Context (host_a host_b : node_ref).

(** One of the two packets of an attempt. *)
Definition check_send (source target : node_ref) : M () :=
  target_node ← get_node target;
  destination ← nsome (n_udp_endpoint target_node);
  data ← in_transit_data rng_u128 source (mkTransmit destination None [Byte.x2a] None);
  forward rng_f64 rng_u128 source data.

Definition check_attempt (sent : nat) : M CheckPhase :=
  _ ← check_send host_a host_b;
  _ ← check_send host_b host_a;
  t ← now;
  mret (CheckSleep (S sent) (t + CHECK_INTERVAL)).

(** One poll of a [timeout] around the delivery to [n]: the deliveries, a
    failure, or [inl] with the future when it is still waiting. *)
Definition check_poll (n : node_ref) (deadline : Z) (receive : NextPacketDelivery)
    : M (NextPacketDelivery + option (list DeliveredTransmit)) :=
  w ← nget;
  queue ← nsome (w_inbound w !! n);
  '(res, receive', queue') ← nsome (poll timer_elapsed (w_now w) n receive queue);
  _ ← nmodify (set_w_inbound (<[n := queue']> (w_inbound w)));
  match res with
  | Ready delivered => mret (inr (Some delivered))
  | Pending =>
      mret (if timer_elapsed deadline (w_now w) then inr None else inl receive')
  | PollPanic => npanic
  end.

(** The time at which the first of the packets arrived at [n]. *)
Definition check_arrival (n : node_ref) (delivered : list DeliveredTransmit) : M Z :=
  first ← nsome (head delivered);
  nd ← get_node n;
  w ← nget;
  nsome (get_packet_arrived_at (w_log w) (d_id (dv_data first)) (n_id nd)).

Definition check_finish (a_to_b b_to_a : option (list DeliveredTransmit)) : M CheckPhase :=
  match a_to_b, b_to_a with
  | Some a_to_b, Some b_to_a =>
      t1 ← check_arrival host_b a_to_b;
      t2 ← check_arrival host_a b_to_a;
      mret (CheckDone (Connected t1 t2))
  | a_to_b, b_to_a =>
      mret (CheckDone (Disconnected (bool_decide (a_to_b = None)) (bool_decide (b_to_a = None))))
  end.

Definition check_poll_b_to_a (a_to_b : option (list DeliveredTransmit)) (deadline : Z)
    (receive : NextPacketDelivery) : M CheckPhase :=
  r ← check_poll host_a deadline receive;
  match r with
  | inl receive => mret (CheckBToA a_to_b deadline receive)
  | inr b_to_a => check_finish a_to_b b_to_a
  end.

Definition check_poll_a_to_b (deadline : Z) (receive : NextPacketDelivery) : M CheckPhase :=
  r ← check_poll host_b deadline receive;
  match r with
  | inl receive => mret (CheckAToB deadline receive)
  | inr a_to_b =>
      t ← now; check_poll_b_to_a a_to_b (t + CHECK_TIMEOUT) (inbound_queue_receive 1)
  end.

(** The check, from one suspension to the next. *)
Definition run_check (phase : CheckPhase) : M CheckPhase :=
  t ← now;
  match phase with
  | CheckStart => check_attempt 0
  | CheckSleep sent deadline =>
      if timer_elapsed deadline t then
        if (sent <? CHECK_PACKETS)%nat then check_attempt sent
        else check_poll_a_to_b (t + CHECK_TIMEOUT) (inbound_queue_receive 1)
      else mret phase
  | CheckAToB deadline receive => check_poll_a_to_b deadline receive
  | CheckBToA a_to_b deadline receive => check_poll_b_to_a a_to_b deadline receive
  | CheckDone _ => mret phase
  end.

(** The network and the check run concurrently. *)
Inductive CheckStep (start : Z) : CheckPhase * world → CheckPhase * world → Prop :=
  | CheckNetwork phase w w' :
      NetStep rng_f64 rng_u128 timer_elapsed topo start w w' →
      CheckStep start (phase, w) (phase, w')
  | CheckRun phase w phase' w' :
      run_check phase w = Some (phase', w') → CheckStep start (phase, w) (phase', w').

(** ** The invariant of the check *)

(** A delivery that was taken from the queue of [n]. *)
Definition delivered_at (w : world) (n : node_ref) (delivered : list DeliveredTransmit) : Prop :=
  ∃ d rest nd, delivered = d :: rest ∧ w_nodes w !! n = Some nd ∧
    is_Some (get_packet_arrived_at (w_log w) (d_id (dv_data d)) (n_id nd)).

Definition arrived_at (w : world) (n : node_ref) (t : Z) : Prop :=
  ∃ nd id, w_nodes w !! n = Some nd ∧ get_packet_arrived_at (w_log w) id (n_id nd) = Some t.

Definition phase_ok (w : world) (phase : CheckPhase) : Prop :=
  match phase with
  | CheckStart | CheckSleep _ _ => True
  | CheckAToB _ receive => n_max_transmits receive = 1
  | CheckBToA a_to_b _ receive =>
      n_max_transmits receive = 1 ∧ ∀ d, a_to_b = Some d → delivered_at w host_b d
  | CheckDone (Connected t1 t2) => arrived_at w host_b t1 ∧ arrived_at w host_a t2
  | CheckDone (Disconnected _ _) => True
  end.

Definition check_inv (s : CheckPhase * world) : Prop :=
  arrived s.2 ∧ host_a ∈ dom (w_inbound s.2) ∧ host_b ∈ dom (w_inbound s.2) ∧
  is_Some (w_nodes s.2 !! host_a) ∧ is_Some (w_nodes s.2 !! host_b) ∧ phase_ok s.2 s.1.

Lemma arrived_at_grows log log' id node t :
  log `prefix_of` log' → get_packet_arrived_at log id node = Some t →
  get_packet_arrived_at log' id node = Some t.
Proof.
  intros [l ->]. unfold get_packet_arrived_at. rewrite omap_app. by destruct (omap _ log).
Qed.

Lemma delivered_grows (w w' : world) n d :
  keeps_arrived w w' → w_log w `prefix_of` w_log w' → delivered_at w n d → delivered_at w' n d.
Proof.
  intros [_ Hn _] Hl (x & rest & nd & -> & Hnd & Ha). symmetry in Hn.
  destruct (fmap_facts_lookup _ _ _ _ _ Hn Hnd) as (nd' & Hnd' & [= Hid _]).
  exists x, rest, nd'. split_and!; [done|done|]. rewrite <-Hid. by eapply arrived_at_prefix.
Qed.

Lemma arrived_grows (w w' : world) n t :
  keeps_arrived w w' → w_log w `prefix_of` w_log w' → arrived_at w n t → arrived_at w' n t.
Proof.
  intros [_ Hn _] Hl (nd & id & Hnd & Ha). symmetry in Hn.
  destruct (fmap_facts_lookup _ _ _ _ _ Hn Hnd) as (nd' & Hnd' & [= Hid _]).
  exists nd', id. split; [done|]. rewrite <-Hid. by eapply arrived_at_grows.
Qed.

(** The network does not disturb the check. *)
Lemma check_inv_world phase w w' :
  keeps_arrived w w' → w_log w `prefix_of` w_log w' → check_inv (phase, w) → check_inv (phase, w').
Proof.
  intros Hk Hl (Ha & Hda & Hdb & Hna & Hnb & Hp). simpl in *. pose proof Hk as [Kd Kn Ka].
  assert (∀ n, is_Some (w_nodes w !! n) → is_Some (w_nodes w' !! n)) as Hnode.
  { intros n [nd Hnd]. symmetry in Kn.
    destruct (fmap_facts_lookup _ _ _ _ _ Kn Hnd) as (nd' & ? & _). by eexists. }
  unfold check_inv. simpl. rewrite !Kd. split; [auto|]. split; [done|]. split; [done|].
  split; [auto|]. split; [auto|]. destruct phase as [| | |a d f|[]]; simpl in *; try done.
  - destruct Hp as [Hm Hp]. split; [done|]. intros x Hx. eapply delivered_grows; eauto.
  - destruct Hp. split; by eapply arrived_grows.
Qed.

Context (Helapsed : ∀ d n, timer_elapsed d n = true → d ≤ n).

(** A poll of a delivery. *)
Lemma check_poll_run w n deadline f :
  arrived w → n ∈ dom (w_inbound w) → is_Some (w_nodes w !! n) → n_max_transmits f = 1 →
  ∃ r w', check_poll n deadline f w = Some (r, w') ∧ keeps_arrived w w' ∧ w_log w' = w_log w ∧
    match r with
    | inl f' => n_max_transmits f' = 1 ∧ timer_elapsed deadline (w_now w) = false
    | inr (Some d) => delivered_at w' n d
    | inr None => timer_elapsed deadline (w_now w) = true
    end.
Proof using Helapsed.
  intros Ha [q Hq]%elem_of_dom [nd Hn] Hmax. unfold check_poll.
  destruct (poll_total timer_elapsed Helapsed (w_now w) n f q) as
    (res & f' & q' & new & Hp & Hmax' & Hperm & _ & Hres); [lia|]. rewrite Hmax in Hmax'.
  set (w1 := set_w_inbound (<[n := q']> (w_inbound w)) w).
  assert (keeps_arrived w w1) as Hk by (by eapply take_arrived).
  unfold mbind, NM_bind, nget. cbn -[poll]. rewrite Hq. cbn -[poll]. rewrite Hp. cbn -[poll].
  destruct Hres as [->|[Hne ->]].
  - destruct (timer_elapsed deadline (w_now w)) eqn:He.
    + by exists (inr None), w1.
    + by exists (inl f'), w1.
  - exists (inr (Some (delivered_of <$> new))), w1. split_and!; try done.
    destruct new as [|p new]; [done|]. exists (delivered_of p), (delivered_of <$> new), nd.
    split_and!; try done. simpl. apply (Ha n q); [done| |done]. rewrite Hperm. left.
Qed.

Lemma delivered_times w n d t w' :
  check_arrival n d w = Some (t, w') → w' = w ∧ arrived_at w n t.
Proof.
  unfold check_arrival. intros Hm.
  apply nm_bind_inv in Hm as (x & w1 & Hx & Hm). nm_inv_step Hx.
  apply nm_bind_inv in Hm as (nd & w1 & Hn & Hm). unfold get_node in Hn. nm_inv_step Hn.
  apply nm_bind_inv in Hm as (w1 & w2 & [= <- <-] & Hm). nm_inv_step Hm.
  split; [done|]. by exists nd, (d_id (dv_data x)).
Qed.

Lemma check_arrival_total w n d :
  delivered_at w n d → ∃ t, check_arrival n d w = Some (t, w) ∧ arrived_at w n t.
Proof.
  intros (x & rest & nd & -> & Hn & [t Ht]). exists t. unfold check_arrival, mbind, NM_bind.
  cbn. unfold get_node, mbind, NM_bind. cbn. rewrite Hn. cbn. rewrite Ht. split; [done|].
  by exists nd, (d_id (dv_data x)).
Qed.

(** What is known of the arguments of [check_finish] is enough for it to
    return. *)
Lemma check_finish_run w a_to_b b_to_a :
  (∀ d, a_to_b = Some d → delivered_at w host_b d) →
  (∀ d, b_to_a = Some d → delivered_at w host_a d) →
  ∃ r, check_finish a_to_b b_to_a w = Some (CheckDone r, w) ∧ phase_ok w (CheckDone r).
Proof.
  intros Ha Hb. destruct a_to_b as [d1|], b_to_a as [d2|]; simpl.
  - destruct (check_arrival_total w host_b d1) as (t1 & E1 & H1); [auto|].
    destruct (check_arrival_total w host_a d2) as (t2 & E2 & H2); [auto|].
    exists (Connected t1 t2). unfold mbind, NM_bind. by rewrite E1, E2.
  - by eexists (Disconnected _ _).
  - by eexists (Disconnected _ _).
  - by eexists (Disconnected _ _).
Qed.

Definition keeps_check (w w' : world) : Prop :=
  keeps_arrived w w' ∧ w_log w `prefix_of` w_log w'.

#[export] Instance keeps_check_preorder : PreOrder keeps_check.
Proof. split; [by intros w|]. intros x y z [] []. split; by etrans. Qed.

Lemma extends_prefix {K} (w w' : world) : log_extends_by K w w' → w_log w `prefix_of` w_log w'.
Proof. intros [_ (ks & _ & ->)]. by apply prefix_app_r. Qed.

Lemma check_send_keeps s t : steps_in keeps_check (check_send s t).
Proof.
  unfold check_send. intros w u w' Hm.
  apply nm_bind_inv in Hm as (nd & w1 & Hn & Hm). unfold get_node in Hn. nm_inv_step Hn.
  apply nm_bind_inv in Hm as (x & w1 & Hx & Hm). nm_inv_step Hx.
  apply nm_bind_inv in Hm as (data & w1 & Hd & Hm). transitivity w1.
  - split; [|by eapply extends_prefix, in_transit_data_extends].
    eapply calm_keeps; [apply in_transit_data_calm|apply in_transit_data_extends|exact Hd].
  - split; [by eapply forward_arrived|by eapply extends_prefix, forward_extends].
Qed.

Lemma check_attempt_keeps n w phase w' :
  check_attempt n w = Some (phase, w') → keeps_check w w' ∧ ∃ d, phase = CheckSleep (S n) d.
Proof.
  unfold check_attempt. intros Hm.
  apply nm_bind_inv in Hm as ([] & w1 & H1 & Hm). apply check_send_keeps in H1.
  apply nm_bind_inv in Hm as ([] & w2 & H2 & Hm). apply check_send_keeps in H2.
  apply nm_bind_inv in Hm as (t & w3 & [= <- <-] & [= <- <-]).
  split; [by transitivity w1|by eexists].
Qed.

(** The polls of the check return when its invariant holds. *)
Lemma check_poll_b_to_a_run w a_to_b deadline f :
  check_inv (CheckBToA a_to_b deadline f, w) →
  ∃ phase w', check_poll_b_to_a a_to_b deadline f w = Some (phase, w') ∧ keeps_check w w' ∧
    phase_ok w' phase ∧
    ((∃ f', phase = CheckBToA a_to_b deadline f' ∧ timer_elapsed deadline (w_now w) = false) ∨
     ∃ r, phase = CheckDone r).
Proof using Helapsed.
  intros (Ha & Hda & Hdb & Hna & Hnb & Hm & Hd). simpl in *.
  destruct (check_poll_run w host_a deadline f) as (r & w1 & Hp & Hk & Hl & Hr); [done..|].
  assert (keeps_check w w1) as Hkc by (split; [done|by rewrite Hl]).
  assert (∀ d, a_to_b = Some d → delivered_at w1 host_b d) as Hd1.
  { intros d ->. eapply delivered_grows; [done|by rewrite Hl|by apply Hd]. }
  unfold check_poll_b_to_a, mbind, NM_bind. rewrite Hp. destruct r as [f'|b_to_a].
  - destruct Hr as [Hm' He]. do 2 eexists. split; [done|]. split; [done|]. split; [done|].
    left. by eexists.
  - destruct (check_finish_run w1 a_to_b b_to_a) as (res & Hf & Hok); [done| |].
    { by intros d ->. }
    do 2 eexists. split; [exact Hf|]. split; [done|]. split; [done|]. right. by eexists.
Qed.

Lemma check_poll_a_to_b_run w deadline f :
  check_inv (CheckAToB deadline f, w) →
  ∃ phase w', check_poll_a_to_b deadline f w = Some (phase, w') ∧ keeps_check w w' ∧
    phase_ok w' phase ∧
    ((∃ f', phase = CheckAToB deadline f' ∧ timer_elapsed deadline (w_now w) = false) ∨
     (∃ a d f', phase = CheckBToA a d f') ∨ ∃ r, phase = CheckDone r).
Proof using Helapsed.
  intros (Ha & Hda & Hdb & Hna & Hnb & Hm). simpl in *.
  destruct (check_poll_run w host_b deadline f) as (r & w1 & Hp & Hk & Hl & Hr); [done..|].
  assert (keeps_check w w1) as Hkc by (split; [done|by rewrite Hl]).
  unfold check_poll_a_to_b, mbind, NM_bind. rewrite Hp. destruct r as [f'|a_to_b].
  - destruct Hr as [Hm' He]. do 2 eexists. split; [done|]. split; [done|]. split; [done|].
    left. by eexists.
  - cbn -[check_poll_b_to_a].
    destruct (check_poll_b_to_a_run w1 a_to_b (w_now w1 + CHECK_TIMEOUT) (inbound_queue_receive 1))
      as (phase & w2 & Hrun & [Hk2 Hl2] & Hok & Hres).
    { assert (check_inv (CheckStart, w1)) as (? & ? & ? & ? & ? & _).
      { by eapply (check_inv_world CheckStart w w1); [|rewrite Hl|]. }
      unfold check_inv. simpl. split_and!; try done. by intros d ->. }
    do 2 eexists. split; [exact Hrun|]. split; [by transitivity w1|]. split; [done|].
    right. destruct Hres as [(? & -> & _)|[? ->]]; [left|right]; eauto.
Qed.

(** Every poll of the check keeps its invariant. *)
Lemma run_check_inv phase w phase' w' :
  check_inv (phase, w) → run_check phase w = Some (phase', w') →
  check_inv (phase', w') ∧ keeps_check w w'.
Proof using Helapsed.
  intros Hinv Hrun. unfold run_check in Hrun.
  apply nm_bind_inv in Hrun as (t & w1 & [= <- <-] & Hrun).
  assert (∀ p x, keeps_check w x → phase_ok x p → check_inv (p, x)) as Hdone.
  { intros p x [Hk Hl] Hp. assert (check_inv (CheckStart, w)) as Hs by (by destruct Hinv as (?&?&?&?&?&_)).
    destruct (check_inv_world _ _ _ Hk Hl Hs) as (?&?&?&?&?&_). done. }
  destruct phase as [|n d|d f|a d f|r]; simpl in Hrun.
  - apply check_attempt_keeps in Hrun as [Hk [d ->]]. split; [by apply Hdone|done].
  - destruct (timer_elapsed d (w_now w)); [|by injection Hrun as <- <-].
    case_match; [apply check_attempt_keeps in Hrun as [Hk [d' ->]]; split; [by apply Hdone|done]|].
    destruct (check_poll_a_to_b_run w (w_now w + CHECK_TIMEOUT) (inbound_queue_receive 1))
      as (? & ? & Hp & Hk & Hok & _); [by apply Hdone|].
    rewrite Hp in Hrun. injection Hrun as <- <-. split; [by apply Hdone|done].
  - destruct (check_poll_a_to_b_run w d f Hinv) as (? & ? & Hp & Hk & Hok & _).
    rewrite Hp in Hrun. injection Hrun as <- <-. split; [by apply Hdone|done].
  - destruct (check_poll_b_to_a_run w a d f Hinv) as (? & ? & Hp & Hk & Hok & _).
    rewrite Hp in Hrun. injection Hrun as <- <-. split; [by apply Hdone|done].
  - by injection Hrun as <- <-.
Qed.

Lemma check_step_inv start s s' : CheckStep start s s' → check_inv s → check_inv s'.
Proof using Helapsed.
  destruct 1 as [phase w w' Hs|phase w phase' w' Hr]; intros Hinv.
  - eapply check_inv_world; [by eapply step_arrived|by eapply step_log|done].
  - by eapply run_check_inv.
Qed.

Lemma check_steps_inv start s s' : rtc (CheckStep start) s s' → check_inv s → check_inv s'.
Proof using Helapsed. induction 1; eauto using check_step_inv. Qed.

(** It returns once its timers have elapsed. *)
Lemma run_check_total phase w :
  check_inv (phase, w) →
  (match phase with CheckAToB _ _ | CheckBToA _ _ _ => True | _ => False end) →
  ∃ phase' w', run_check phase w = Some (phase', w') ∧ keeps_check w w' ∧
    match phase with
    | CheckAToB d _ => timer_elapsed d (w_now w) = true → ∀ f, phase' ≠ CheckAToB d f
    | CheckBToA _ d _ => timer_elapsed d (w_now w) = true → ∃ r, phase' = CheckDone r
    | _ => True
    end.
Proof using Helapsed.
  intros Hinv Hw. destruct phase as [|n d|d f|a d f|r]; try done.
  - destruct (check_poll_a_to_b_run w d f Hinv) as (p & x & Hp & Hk & _ & Hres).
    exists p, x. split; [exact Hp|]. split; [done|]. intros He f' ->.
    destruct Hres as [(? & _ & ?)|[(? & ? & ? & ?)|[? ?]]]; congruence.
  - destruct (check_poll_b_to_a_run w a d f Hinv) as (p & x & Hp & Hk & _ & Hres).
    exists p, x. split; [exact Hp|]. split; [done|]. intros He.
    destruct Hres as [(? & _ & ?)|?]; [congruence|done].
Qed.
End check.
End network.

Lemma get_host_inv {H} `{!BinaryHeap PrioritizedInTransitData above H} {R} topo ip (w : World H R) n w' :
  get_host topo ip w = Some (n, w') →
  nodes_by_addr topo !! ip = Some n ∧ ∃ nd, w_nodes w !! n = Some nd ∧ is_Some (n_udp_endpoint nd).
Proof.
  unfold get_host. intros Hm.
  apply nm_bind_inv in Hm as (y & w1 & Hy & Hm). nm_inv_step Hy.
  apply nm_bind_inv in Hm as (nd & w1 & Hn & Hm). unfold get_node in Hn. nm_inv_step Hn.
  apply nm_bind_inv in Hm as ([] & w1 & Hs & [= <- _]). apply nassert_inv in Hs as [Hs _].
  case_bool_decide; [|done]. split; [done|]. by exists nd.
Qed.

(** The check starts in a freshly initialized network, with two of its hosts. *)
Lemma check_start {H} `{!BinaryHeap PrioritizedInTransitData above H} {R}
    now spec events (rng : R) start b topo (w0 : World H R) ip_a ip_b host_a host_b w w' :
  initialize now spec events rng start b = Ok (topo, w0) →
  get_host topo ip_a w0 = Some (host_a, w) → get_host topo ip_b w0 = Some (host_b, w') →
  check_inv host_a host_b (CheckStart, w0).
Proof.
  intros Hi Ha Hb. destruct (initialize_arrived topo _ _ _ _ _ _ _ Hi) as [Harr Hq].
  assert (∀ ip n x, get_host topo ip w0 = Some (n, x) →
    n ∈ dom (w_inbound w0) ∧ is_Some (w_nodes w0 !! n)) as Hhost.
  { intros ip n x (_ & nd & Hn & He)%get_host_inv. split; [by eapply Hq|by eexists]. }
  apply Hhost in Ha as [], Hb as []. by split_and!.
Qed.

Section theorems.
Context {H : Type} {HH : BinaryHeap PrioritizedInTransitData above H} {R : Type}.
Context (rng_f64 : R → f64 * R) (rng_u128 : R → Z * R) (timer_elapsed : Z → Z → bool).
Context (now : Z) (spec : NetworkSpec) (events : NetworkEvents) (rng : R) (start : Z) (b : bool).
Context (topo : Topology) (w0 : World H R) (ip_a ip_b : IpAddr) (host_a host_b : node_ref).

(** The connectivity check does not panic while it waits for the packets to arrive, in
    particular not when it looks up their arrival in the log: from every state of an execution in
    which it waits for a delivery it can run, and once its timeout of 90 days has elapsed it goes
    on to the next delivery, or returns. *)
Theorem connectivity_check_total w w' begin phase w1 :
  (∀ d n, timer_elapsed d n = true → d ≤ n) →
  initialize now spec events rng start b = Ok (topo, w0) →
  get_host topo ip_a w0 = Some (host_a, w) → get_host topo ip_b w0 = Some (host_b, w') →
  rtc (CheckStep rng_f64 rng_u128 timer_elapsed topo host_a host_b begin) (CheckStart, w0)
    (phase, w1) →
  (match phase with CheckAToB _ _ | CheckBToA _ _ _ => True | _ => False end) →
  ∃ phase' w2, run_check rng_f64 rng_u128 timer_elapsed host_a host_b phase w1 = Some (phase', w2) ∧
    w_log w1 `prefix_of` w_log w2 ∧
    match phase with
    | CheckAToB d _ => timer_elapsed d (w_now w1) = true → ∀ f, phase' ≠ CheckAToB d f
    | CheckBToA _ d _ => timer_elapsed d (w_now w1) = true → ∃ r, phase' = CheckDone r
    | _ => True
    end.
Proof.
  intros He Hi Ha Hb Hsteps Hphase.
  eapply check_steps_inv in Hsteps; [|done|by eapply check_start].
  destruct (run_check_total rng_f64 rng_u128 timer_elapsed host_a host_b He phase w1 Hsteps Hphase)
    as (p & w2 & Hr & [_ Hl] & Hp).
  by exists p, w2.
Qed.
End theorems.

(** ** Witnesses *)
Abbreviation check_step :=
  (CheckStep net_f64 net_u128 net_timer net_topo 0%nat 1%nat 0).
Abbreviation check_state := (CheckPhase * World net_heap net_rng)%type.

(** A schedule: [None] polls the check. *)
Definition check_exec (s : check_state) (a : option Action) : option check_state :=
  match a with
  | Some a => pair s.1 <$> exec net_f64 net_u128 net_timer net_topo 0 a s.2
  | None => run_check net_f64 net_u128 net_timer 0%nat 1%nat s.1 s.2
  end.
Definition check_exec_all (l : list (option Action)) (s : check_state) : option check_state :=
  foldl (λ o a, s ← o; check_exec s a) (Some s) l.

Lemma check_exec_steps s a s' : check_exec s a = Some s' → rtc check_step s s'.
Proof.
  destruct s as [phase w]. unfold check_exec. destruct a as [a|]; simpl.
  - destruct (exec _ _ _ _ _ _ _) as [w'|] eqn:He; [|done]. intros [= <-].
    apply rtc_once, CheckNetwork. by eapply exec_step.
  - destruct s' as [phase' w']. intros Hr. by apply rtc_once, CheckRun.
Qed.

Lemma check_exec_all_steps l s s' : check_exec_all l s = Some s' → rtc check_step s s'.
Proof.
  unfold check_exec_all. revert s. induction l as [|a l IH]; intros s; simpl; [by intros [= ->]|].
  destruct (check_exec s a) as [s1|] eqn:He.
  - intros Hf. etrans; [by eapply check_exec_steps|by apply IH].
  - intros Hf. exfalso. clear -Hf. induction l; [done|auto].
Qed.

(** All packets are sent; then a packet crosses the link in each direction. *)
Definition attempts : list (option Action) :=
  concat (replicate 100 [None; Some (ms 60000)]).
Definition cross : list (option Action) :=
  Some <$> [RunBuffer 0%nat; RunLink 0%nat; RunForwarder 0%nat; RunBuffer 1%nat; RunLink 1%nat;
            RunForwarder 1%nat; ms 6; RunForwarder 0%nat; RunForwarder 1%nat].
Definition check_done : option check_state :=
  check_exec_all (attempts ++ cross ++ [None]) (CheckStart, net_world).
Definition check_waits : option check_state :=
  check_exec_all (attempts ++ [None]) (CheckStart, net_world).

Definition check_result (o : option check_state) : check_state :=
  default (CheckStart, no_world) o.

Lemma net_timer_elapsed d n : net_timer d n = true → d ≤ n.
Proof. apply Z.leb_le. Qed.

(** The check waits; 90 days later it gives up on the first delivery. *)
Definition waiting_phase : CheckPhase := (check_result check_waits).1.
Definition waiting_world : World net_heap net_rng := (check_result check_waits).2.
Definition late_state : check_state :=
  (waiting_phase, advance (from_secs 10000000) waiting_world).

Lemma late_phase : late_state.1 = CheckAToB (from_secs 7782000) (inbound_queue_receive 1).
Proof. vm_compute. reflexivity. Qed.

Lemma check_waits_eq : check_waits = Some (waiting_phase, waiting_world).
Proof. vm_compute. reflexivity. Qed.

Lemma late_step : rtc check_step (waiting_phase, waiting_world) late_state.
Proof.
  assert (w_now waiting_world ≤ from_secs 10000000) as Hle by (vm_compute; discriminate).
  unfold late_state. generalize dependent waiting_world. intros w Hle.
  by apply rtc_once, CheckNetwork, StepTime.
Qed.

Lemma connectivity_check_total_witness :
  ∃ phase' w2, run_check net_f64 net_u128 net_timer 0%nat 1%nat late_state.1 late_state.2 =
    Some (phase', w2) ∧ ∀ f, phase' ≠ CheckAToB (from_secs 7782000) f.
Proof.
  destruct (connectivity_check_total net_f64 net_u128 net_timer 0 net_spec net_events (net_seed 0) 0 false
    net_topo net_world (as_ip_addr host_A) (as_ip_addr host_B) 0%nat 1%nat net_world net_world 0
    late_state.1 late_state.2 net_timer_elapsed net_initialize) as (p & w2 & Hr & _ & Hp).
  - vm_compute. reflexivity.
  - vm_compute. reflexivity.
  - transitivity (waiting_phase, waiting_world); [|exact late_step].
    apply (check_exec_all_steps (attempts ++ [None])). exact check_waits_eq.
  - vm_compute. exact I.
  - exists p, w2. split; [exact Hr|]. rewrite late_phase in Hp. apply Hp. vm_compute. reflexivity.
Defined.
