(* ===== verification/Workbench.v ===== *)
(** * What the subcommands of the workbench set up

    Models the beginning of [run] in [quinn-workbench/src/quic/simulation.rs],
    [udp/ping.rs] and [udp/throughput.rs]: the configuration is turned into a
    network, the initial statuses of its links and nodes are printed, and the
    hosts of the client and of the server are looked up.  The theorems connect the
    configuration files to the network and its verifier. *)

From S2P Require Import Prelude Float Ip Spec Event Transmit SimStep Replayed Verifier VerifierThms.
From S2P Require Import VerifierTotal Heap InboundQueue Node Link Network NetworkInit NetworkInv.
From S2P Require Import NetworkSteady NetworkStart NetworkArrivals NetworkWired NetworkExample.
From S2P Require Import Connectivity Config.

Section workbench.
Context {H : Type} {HH : BinaryHeap PrioritizedInTransitData above H}.
Context {R : Type} {QuinnJsonConfig : Type} (quinn_default : QuinnJsonConfig).

(** The specification is kept for what is printed. *)
Definition setup_network (now : Z) (config : NetworkConfig QuinnJsonConfig) (rng : R) (start : Z)
    (disable_time_warping : bool) : outcome InitError (NetworkSpec * Topology * World H R) :=
  let '(network_spec, network_events) := load config in
  '(topo, w) ← initialize now network_spec network_events rng start disable_time_warping;
  Ok (network_spec, topo, w).

(** The lines of a list of statuses: the id and the status. *)
Fixpoint status_lines (get : string → NM (World H R) string) (ids : list string)
    : NM (World H R) (list (string * string)) :=
  match ids with
  | [] => mret []
  | id :: ids => status ← get id; rest ← status_lines get ids; mret ((id, status) :: rest)
  end.

Definition link_statuses (topo : Topology) (network_spec : NetworkSpec)
    : NM (World H R) (list (string * string)) :=
  status_lines (get_link_status topo) (Spec.link_id <$> links network_spec).

Definition node_statuses (topo : Topology) (network_spec : NetworkSpec)
    : NM (World H R) (list (string * string)) :=
  status_lines (get_node_status topo) (node_id <$> nodes network_spec).

(** [quic_configs[host.id()]] *)
Definition quic_config_of (config : NetworkConfig QuinnJsonConfig) (host : node_ref)
    : NM (World H R) QuinnJsonConfig :=
  nd ← get_node host; nsome (quic_configs quinn_default (network_graph config) !! n_id nd).
End workbench.

(** ** The statuses the events start from *)
Definition link_status_text (s : UpdateLinkStatus) : string :=
  match s with LinkUp => "UP" | LinkDown => "DOWN" end.
Definition node_status_text (s : UpdateNodeStatus) : string :=
  match s with NodeUp => "UP" | NodeDown => "DOWN" end.

(** The opposite of the status that the earliest event sets; up without events. *)
Definition starting_link_status (evs : list NetworkEvent) (id : string) : string :=
  match first_status event_link_status id (sort_by_key relative_time evs) with
  | Some s => link_status_text (opposite_link s)
  | None => "UP"
  end.
Definition starting_node_status (evs : list NetworkEvent) (id : string) : string :=
  match first_status event_node_status id (sort_by_key relative_time evs) with
  | Some s => node_status_text (opposite_node s)
  | None => "UP"
  end.

(** ** Running the initial events *)
Section events.
Context {H : Type} {HH : BinaryHeap PrioritizedInTransitData above H} {R : Type}.
Context (topo : Topology).
Abbreviation world := (World H R).

Definition link_text (w : world) (id : string) : option string :=
  l ← links_by_id topo !! id; link_status_str <$> w_links w !! l.
Definition node_text (w : world) (id : string) : option string :=
  n ← nodes_by_id topo !! id; node_status_str <$> w_nodes w !! n.

(** The ids lead to the links and nodes that have them. *)
Record indexed (w : world) : Prop := mkIndexed {
  ix_link : ∀ id l, links_by_id topo !! id = Some l → ∃ lk, w_links w !! l = Some lk ∧ l_id lk = id;
  ix_node : ∀ id n, nodes_by_id topo !! id = Some n → ∃ nd, w_nodes w !! n = Some nd ∧ n_id nd = id;
}.

Lemma link_status_total w id : indexed w → is_Some (links_by_id topo !! id) →
  ∃ s, link_text w id = Some s ∧ get_link_status topo id w = Some (s, w).
Proof.
  intros [Hi _] [l Hl]. destruct (Hi id l Hl) as (lk & Hlk & _). exists (link_status_str lk).
  unfold link_text, get_link_status. rewrite Hl. simpl. rewrite Hlk. split; [done|].
  unfold mbind, NM_bind, nsome, get_net_link, nget. simpl. unfold mbind, NM_bind. by rewrite Hlk.
Qed.

Lemma node_status_total w id : indexed w → is_Some (nodes_by_id topo !! id) →
  ∃ s, node_text w id = Some s ∧ get_node_status topo id w = Some (s, w).
Proof.
  intros [_ Hi] [n Hn]. destruct (Hi id n Hn) as (nd & Hnd & _). exists (node_status_str nd).
  unfold node_text, get_node_status. rewrite Hn. simpl. rewrite Hnd. split; [done|].
  unfold mbind, NM_bind, nsome, get_node, nget. simpl. unfold mbind, NM_bind. by rewrite Hnd.
Qed.

(** What an event that names [id] makes of a status. *)
Definition updated (s : option string) (old : option string) : option string :=
  match s, old with Some s, Some _ => Some s | _, _ => old end.

Lemma updated_none o : updated None o = o.
Proof. done. Qed.

Lemma link_text_put w l lk lk' id : indexed w → w_links w !! l = Some lk → l_id lk' = l_id lk →
  ∀ w' : world, w_links w' = <[l := lk']> (w_links w) → w_nodes w' = w_nodes w →
  links_by_id topo !! l_id lk = Some l →
  indexed w' ∧ (∀ id, node_text w' id = node_text w id) ∧
  link_text w' id = if decide (l_id lk = id) then Some (link_status_str lk') else link_text w id.
Proof.
  intros [I1 I2] Hlk Hid w' Hl Hn Hl'. split_and!.
  - split; rewrite ?Hl, ?Hn; [|done]. intros i m Hm. destruct (I1 i m Hm) as (x & Hx & Hxi).
    destruct (decide (m = l)) as [->|]; [|by exists x; rewrite lookup_insert_ne].
    exists lk'. rewrite lookup_insert_eq. split; [done|]. congruence.
  - intros i. unfold node_text. by rewrite Hn.
  - unfold link_text. rewrite Hl. destruct (decide _) as [<-|Hne].
    + rewrite Hl'. simpl. by rewrite lookup_insert_eq.
    + destruct (links_by_id topo !! id) as [m|] eqn:Hm; [|done]. simpl. rewrite lookup_insert_ne; [done|].
      intros <-. destruct (I1 id l Hm) as (x & Hx & Hxi). congruence.
Qed.

Lemma link_event_run w p : indexed w →
  ∃ w', process_link_event topo p w = Some ((), w') ∧ indexed w' ∧
    (∀ id, node_text w' id = node_text w id) ∧
    ∀ id, link_text w' id = updated
      (if decide (le_link_id p = id) then link_status_text <$> le_status p else None) (link_text w id).
Proof.
  intros Hi. pose proof Hi as [I1 I2]. unfold process_link_event.
  destruct (links_by_id topo !! le_link_id p) as [l|] eqn:Hl.
  2: { exists w. split_and!; try done. intros id. destruct (decide _) as [<-|]; [|done].
       unfold link_text. rewrite Hl. simpl. by destruct (link_status_text <$> le_status p). }
  destruct (I1 _ _ Hl) as (lk & Hlk & Hid). destruct (le_status p) as [s|].
  2: { eexists. split; [reflexivity|]. split; [by split|]. split; [done|].
       intros id. simpl. by destruct (decide _). }
  destruct (link_update_status (w_now w) (w_next w) s lk) as [lk' fired] eqn:Hu.
  assert (l_id lk' = l_id lk ∧ link_status_str lk' = link_status_text s) as [Hid' Hst].
  { unfold link_update_status in Hu. unfold link_status_str.
    destruct (l_status lk) eqn:Hs, s; injection Hu as <- _; simpl; rewrite ?Hs; done. }
  unfold get_net_link, now, put_net_link. cbv [mbind NM_bind nget nsome fresh nmodify mret NM_ret].
  rewrite Hlk. simpl. rewrite Hu.
  assert (∃ w', fire fired (set_w_links (<[l:=lk']> (w_links w)) (set_w_next (S (w_next w)) w)) =
    Some ((), w') ∧ w_links w' = <[l := lk']> (w_links w) ∧ w_nodes w' = w_nodes w) as (w1 & Hf & Hl1 & Hn1).
  { destruct fired; simpl; eexists; (split; [reflexivity|done]). }
  change (w_links (set_w_next (S (w_next w)) w)) with (w_links w). rewrite Hf.
  eexists. split; [reflexivity|].
  match goal with |- indexed ?x ∧ _ => set (w' := x) end.
  assert (∀ id, indexed w' ∧ (∀ id, node_text w' id = node_text w id) ∧
    link_text w' id = if decide (l_id lk = id) then Some (link_status_str lk') else link_text w id) as Hall.
  { intros id. apply (link_text_put w l lk lk' id Hi Hlk Hid' w'); [done|done|]. by rewrite Hid. }
  destruct (Hall (le_link_id p)) as (Hi' & Hn' & _). split; [done|]. split; [done|].
  intros id. destruct (Hall id) as (_ & _ & ->). rewrite Hid, Hst. destruct (decide _) as [<-|]; [|done].
  unfold link_text. rewrite Hl. simpl. by rewrite Hlk.
Qed.

Lemma node_text_put w n nd nd' id : indexed w → w_nodes w !! n = Some nd → n_id nd' = n_id nd →
  ∀ w' : world, w_nodes w' = <[n := nd']> (w_nodes w) → w_links w' = w_links w →
  nodes_by_id topo !! n_id nd = Some n →
  indexed w' ∧ (∀ id, link_text w' id = link_text w id) ∧
  node_text w' id = if decide (n_id nd = id) then Some (node_status_str nd') else node_text w id.
Proof.
  intros [I1 I2] Hnd Hid w' Hn Hl Hn'. split_and!.
  - split; rewrite ?Hl, ?Hn; [done|]. intros i m Hm. destruct (I2 i m Hm) as (x & Hx & Hxi).
    destruct (decide (m = n)) as [->|]; [|by exists x; rewrite lookup_insert_ne].
    exists nd'. rewrite lookup_insert_eq. split; [done|]. congruence.
  - intros i. unfold link_text. by rewrite Hl.
  - unfold node_text. rewrite Hn. destruct (decide _) as [<-|Hne].
    + rewrite Hn'. simpl. by rewrite lookup_insert_eq.
    + destruct (nodes_by_id topo !! id) as [m|] eqn:Hm; [|done]. simpl. rewrite lookup_insert_ne; [done|].
      intros <-. destruct (I2 id n Hm) as (x & Hx & Hxi). congruence.
Qed.

(** The two parts of the handling of a node event. *)
Lemma node_status_run (w : world) n nd s : w_nodes w !! n = Some nd →
  ∃ nd' (w' : world), (nd ← get_node n; c ← fresh;
    let '(st, fired) := node_update_status c s (n_status nd) in
    _ ← put_node n (set_n_status st nd); fire fired) w = Some ((), w') ∧
  n_id nd' = n_id nd ∧ node_status_str nd' = node_status_text s ∧
  w_nodes w' = <[n := nd']> (w_nodes w) ∧ w_links w' = w_links w.
Proof.
  intros Hnd. destruct (node_update_status (w_next w) s (n_status nd)) as [st fired] eqn:Hu.
  exists (set_n_status st nd). unfold get_node, put_node.
  cbv [mbind NM_bind nget nsome fresh nmodify]. rewrite Hnd. simpl. rewrite Hu.
  assert (node_status_str (set_n_status st nd) = node_status_text s) as Hst.
  { unfold node_update_status in Hu. unfold node_status_str. simpl.
    destruct (n_status nd), s; by injection Hu as <- _. }
  destruct fired; simpl; eexists; (split; [reflexivity|done]).
Qed.

Lemma clear_buffer_run (w : world) n nd b : w_nodes w !! n = Some nd →
  ∃ nd' (w' : world), (if (b : bool) then nd ← get_node n; t ← now; put_node n (clear_buffer t nd) else mret ()) w =
    Some ((), w') ∧
  n_id nd' = n_id nd ∧ n_status nd' = n_status nd ∧
  w_nodes w' = <[n := nd']> (w_nodes w) ∧ w_links w' = w_links w.
Proof.
  intros Hnd. destruct b; [|by exists nd, w; rewrite insert_id].
  exists (clear_buffer (w_now w) nd). unfold get_node, put_node, now.
  cbv [mbind NM_bind nget nsome nmodify mret NM_ret]. rewrite Hnd. by eexists.
Qed.

Lemma node_event_run w p : indexed w →
  ∃ w', process_node_event topo p w = Some ((), w') ∧ indexed w' ∧
    (∀ id, link_text w' id = link_text w id) ∧
    ∀ id, node_text w' id = updated
      (if decide (ne_node_id p = id) then node_status_text <$> ne_status p else None) (node_text w id).
Proof.
  intros Hi. pose proof Hi as [I1 I2]. unfold process_node_event.
  destruct (nodes_by_id topo !! ne_node_id p) as [n|] eqn:Hn.
  2: { exists w. split_and!; try done. intros id. destruct (decide _) as [<-|]; [|done].
       unfold node_text. rewrite Hn. simpl. by destruct (node_status_text <$> ne_status p). }
  destruct (I2 _ _ Hn) as (nd & Hnd & Hid).
  assert (∃ nd1 w1, match ne_status p with
    | Some status => nd ← get_node n; c ← fresh;
        let '(st, fired) := node_update_status c status (n_status nd) in
        _ ← put_node n (set_n_status st nd); fire fired
    | None => mret () end w = Some ((), w1) ∧ n_id nd1 = n_id nd ∧
    node_status_str nd1 = default (node_status_str nd) (node_status_text <$> ne_status p) ∧
    w_nodes w1 = <[n := nd1]> (w_nodes w) ∧ w_links w1 = w_links w) as (nd1 & w1 & H1 & Hi1 & Hs1 & Hn1 & Hl1).
  { destruct (ne_status p) as [s|]; [by apply node_status_run|]. exists nd, w. by rewrite insert_id. }
  destruct (clear_buffer_run w1 n nd1 (ne_clear_buffer p)) as (nd2 & w2 & H2 & Hi2 & Hs2 & Hn2 & Hl2).
  { by rewrite Hn1, lookup_insert_eq. }
  unfold mbind at 1, NM_bind at 1. rewrite H1. unfold mbind at 1, NM_bind at 1. rewrite H2.
  eexists. split; [reflexivity|]. match goal with |- indexed ?x ∧ _ => set (w' := x) end.
  assert (∀ id, indexed w' ∧ (∀ id, link_text w' id = link_text w id) ∧
    node_text w' id = if decide (n_id nd = id) then Some (node_status_str nd2) else node_text w id) as Hall.
  { intros id. apply (node_text_put w n nd nd2 id Hi Hnd ltac:(congruence) w').
    - change (w_nodes w') with (w_nodes w2). by rewrite Hn2, Hn1, insert_insert_eq.
    - change (w_links w') with (w_links w2). congruence.
    - by rewrite Hid. }
  destruct (Hall (ne_node_id p)) as (Hi' & Hl' & _). split; [done|]. split; [done|].
  intros id. destruct (Hall id) as (_ & _ & ->). rewrite Hid. destruct (decide _) as [<-|]; [|done].
  unfold node_text. rewrite Hn. simpl. rewrite Hnd. simpl.
  assert (node_status_str nd2 = node_status_str nd1) as -> by (unfold node_status_str; by rewrite Hs2).
  rewrite Hs1. by destruct (ne_status p).
Qed.

(** The text that a list of updates of [id] leaves. *)
Definition updates {P S} (pid : P → string) (st : P → option S) (text : S → string) (id : string)
    (old : option string) (ps : list P) : option string :=
  foldl (λ old p, updated (if decide (pid p = id) then text <$> st p else None) old) old ps.

Lemma updates_filter {P S} (pid : P → string) (st : P → option S) text id ps old :
  updates pid st text id old ps = updates pid st text id old (filter (λ p, pid p = id) ps).
Proof.
  unfold updates. revert old. induction ps as [|p ps IH]; intros old; [done|]. simpl.
  rewrite filter_cons. destruct (decide (pid p = id)) as [Hp|]; simpl; [|by rewrite IH].
  rewrite (decide_True _ _ Hp). by rewrite IH.
Qed.

Lemma updates_replicate {P S} (pid : P → string) (st : P → option S) text id p s n old :
  pid p = id → st p = Some s → updates pid st text id (Some (text s)) (replicate n p) = Some (text s) ∧
  updates pid st text id (Some old) [p] = Some (text s).
Proof.
  intros Hp Hs. unfold updates. split; [|simpl; by rewrite (decide_True _ _ Hp), Hs].
  induction n as [|n IH]; simpl; [done|]. by rewrite (decide_True _ _ Hp), Hs.
Qed.

Lemma link_events_run ps w : indexed w →
  ∃ w', nforeach (process_link_event topo) ps w = Some ((), w') ∧ indexed w' ∧
    (∀ id, node_text w' id = node_text w id) ∧
    ∀ id, link_text w' id = updates le_link_id le_status link_status_text id (link_text w id) ps.
Proof.
  revert w. induction ps as [|p ps IH]; intros w Hi; [by exists w|].
  destruct (link_event_run w p Hi) as (w1 & H1 & Hi1 & Hn1 & Hl1).
  destruct (IH w1 Hi1) as (w2 & H2 & Hi2 & Hn2 & Hl2). exists w2. simpl. unfold mbind, NM_bind.
  rewrite H1. split; [done|]. split; [done|]. split; [intros id; by rewrite Hn2|].
  intros id. by rewrite Hl2, Hl1.
Qed.

Lemma node_events_run ps w : indexed w →
  ∃ w', nforeach (process_node_event topo) ps w = Some ((), w') ∧ indexed w' ∧
    (∀ id, link_text w' id = link_text w id) ∧
    ∀ id, node_text w' id = updates ne_node_id ne_status node_status_text id (node_text w id) ps.
Proof.
  revert w. induction ps as [|p ps IH]; intros w Hi; [by exists w|].
  destruct (node_event_run w p Hi) as (w1 & H1 & Hi1 & Hn1 & Hl1).
  destruct (IH w1 Hi1) as (w2 & H2 & Hi2 & Hn2 & Hl2). exists w2. simpl. unfold mbind, NM_bind.
  rewrite H1. split; [done|]. split; [done|]. split; [intros id; by rewrite Hn2|].
  intros id. by rewrite Hl2, Hl1.
Qed.

(** The initial events leave the starting statuses. *)
Lemma initial_events_run evs ns ls w :
  indexed w → (∀ id t, link_text w id = Some t → t = "UP") → (∀ id t, node_text w id = Some t → t = "UP") →
  ∃ w', (_ ← nforeach (process_link_event topo) (initial_link_events (NetworkEvents_new evs ns ls));
         nforeach (process_node_event topo) (initial_node_events (NetworkEvents_new evs ns ls))) w =
    Some ((), w') ∧ indexed w' ∧
    (∀ id, is_Some (link_text w id) → link_text w' id = Some (starting_link_status evs id)) ∧
    (∀ id, is_Some (node_text w id) → node_text w' id = Some (starting_node_status evs id)).
Proof.
  intros Hi Hl Hn. unfold NetworkEvents_new. simpl.
  destruct (link_events_run (get_initial_status_for_links_with_events
    (sort_by_key relative_time evs) ls) w Hi) as (w1 & H1 & Hi1 & Hn1 & Hl1).
  destruct (node_events_run (get_initial_status_for_nodes_with_events
    (sort_by_key relative_time evs) ns) w1 Hi1) as (w2 & H2 & Hi2 & Hl2 & Hn2).
  exists w2. unfold mbind, NM_bind. rewrite H1. split; [done|]. split; [done|].
  split; intros id [t Ht].
  - rewrite Hl2, Hl1, updates_filter, initial_links_spec, Ht, (Hl _ _ Ht).
    unfold starting_link_status. destruct (first_status _ _ _) as [s|].
    + by apply (updates_replicate _ _ _ _ _ (opposite_link s) 0).
    + by apply (updates_replicate _ _ link_status_text _ _ LinkUp _ "").
  - rewrite Hn2, Hn1, updates_filter, initial_nodes_spec, Ht, (Hn _ _ Ht).
    unfold starting_node_status. destruct (first_status _ _ _) as [s|].
    + by apply (updates_replicate _ _ _ _ _ (opposite_node s) 0).
    + by apply (updates_replicate _ _ node_status_text _ _ NodeUp _ "").
Qed.

(** The lines are printed without a panic, and printing changes nothing. *)
Lemma status_lines_run get ids (w : world) f :
  (∀ id, id ∈ ids → get id w = Some (f id, w)) →
  status_lines get ids w = Some ((λ id, (id, f id)) <$> ids, w).
Proof.
  induction ids as [|id ids IH]; intros Hget; [done|]. simpl. unfold mbind, NM_bind.
  rewrite (Hget id) by left. rewrite IH; [done|]. intros x Hx. apply Hget. by right.
Qed.
End events.

(** ** Building the network never panics *)
Lemma host_total ns : match host ns with
  | Ok nd => n_id nd = node_id ns ∧ n_status nd = StatusUp ∧
      ∃ a, head (node_addresses ns) = Some a ∧ n_udp_endpoint nd = Some (mkSocketAddr a HOST_PORT)
  | Err _ => True
  | Panic => False
  end.
Proof.
  unfold host. destruct (kind ns); [|done]. destruct (interfaces ns) as [|i0 l] eqn:Hi; [done|].
  destruct (Spec.addresses i0) as [|a0 k] eqn:Ha; [done|].
  assert (∃ a rest, node_addresses ns = a :: rest) as (a & rest & ->).
  { unfold node_addresses. rewrite Hi. simpl. rewrite Ha. simpl. eauto. }
  simpl. split_and!; [done|done|by exists a].
Qed.

(** The nodes known by their ids, and the hosts by their addresses. *)
Record registered (specs : list NetworkNodeSpec) (b : Builder) : Prop := mkRegistered {
  rg_node : ∀ n nd, bd_nodes b !! n = Some nd → (n < bd_next b)%nat ∧ n_status nd = StatusUp ∧
    (is_Some (n_udp_endpoint nd) → ∃ ns, ns ∈ specs ∧ is_host ns = true ∧ node_id ns = n_id nd);
  rg_by_id : ∀ id n, bd_by_id b !! id = Some n → ∃ nd, bd_nodes b !! n = Some nd ∧ n_id nd = id;
  rg_ids : ∀ ns, ns ∈ specs → is_Some (bd_by_id b !! node_id ns);
  rg_hosts : ∀ ns, ns ∈ specs → is_host ns = true → ∃ a n nd, head (node_addresses ns) = Some a ∧
    bd_by_addr b !! a = Some n ∧ bd_nodes b !! n = Some nd ∧ n_id nd = node_id ns ∧
    is_Some (n_udp_endpoint nd);
}.

(** A node is added; addresses are only added to the map. *)
Lemma registered_add specs b ns nd by_addr :
  registered specs b → n_id nd = node_id ns → n_status nd = StatusUp →
  (is_Some (n_udp_endpoint nd) → is_host ns = true) →
  (∀ a n, bd_by_addr b !! a = Some n → by_addr !! a = Some n) →
  (is_host ns = true → ∃ a, head (node_addresses ns) = Some a ∧ by_addr !! a = Some (bd_next b) ∧
     is_Some (n_udp_endpoint nd)) →
  registered (specs ++ [ns]) (mkBuilder by_addr (<[n_id nd := bd_next b]> (bd_by_id b))
    (<[bd_next b := nd]> (bd_nodes b)) (S (bd_next b))).
Proof.
  intros [R1 R2 R3 R4] Hid Hst Hend Hby Hhost.
  assert (∀ n x, bd_nodes b !! n = Some x → (<[bd_next b := nd]> (bd_nodes b)) !! n = Some x) as Hold.
  { intros n x Hx. rewrite lookup_insert_ne; [done|]. destruct (R1 _ _ Hx). lia. }
  split; simpl.
  - intros n x [[<- <-]|[_ Hx]]%lookup_insert_Some.
    + split_and!; [lia|done|]. intros He. exists ns. split; [apply elem_of_app; right; left|]. auto.
    + destruct (R1 _ _ Hx) as (? & ? & Hs). split_and!; [lia|done|]. intros (y & ? & ?)%Hs.
      exists y. split; [apply elem_of_app; by left|done].
  - intros id n [[<- <-]|[_ Hx]]%lookup_insert_Some; [exists nd; by rewrite lookup_insert_eq|].
    destruct (R2 _ _ Hx) as (x & ? & ?). exists x. auto.
  - intros x [Hx| ->%list_elem_of_singleton]%elem_of_app; rewrite lookup_insert_is_Some'; [|by left].
    right. by apply R3.
  - intros x [Hx| ->%list_elem_of_singleton]%elem_of_app Hh.
    + destruct (R4 x Hx Hh) as (a & n & y & ? & ? & ? & ? & ?). exists a, n, y. split_and!; auto.
    + destruct (Hhost Hh) as (a & ? & ? & ?). exists a, (bd_next b), nd. rewrite lookup_insert_eq.
      split_and!; auto.
Qed.

Lemma add_host_total specs b ns : is_host ns = true → registered specs b →
  match add_host b ns with Ok b' => registered (specs ++ [ns]) b' | Err _ => True | Panic => False end.
Proof.
  intros Hh Hb. unfold add_host. pose proof (host_total ns) as Ht. destruct (host ns) as [nd|e|]; [|done..].
  destruct Ht as (Hid & Hst & a & Ha & He). simpl. rewrite He. simpl.
  destruct (bd_by_addr b !! a) eqn:Hnone; [done|]. apply registered_add; try done.
  - intros x n Hx. rewrite lookup_insert_ne; [done|congruence].
  - intros _. exists a. rewrite He, lookup_insert_eq. split_and!; [done|done|by eexists].
Qed.

Lemma add_router_total specs b ns : is_host ns = false → registered specs b →
  match add_router b ns with Ok b' => registered (specs ++ [ns]) b' | Err _ => True | Panic => False end.
Proof.
  intros Hh Hb. unfold add_router.
  assert (match router ns with Ok nd => n_id nd = node_id ns ∧ n_status nd = StatusUp ∧
    n_udp_endpoint nd = None | Err _ => True | Panic => False end) as Ht
    by (unfold router; by destruct (node_addresses ns)).
  destruct (router ns) as [nd|e|]; [|done..]. destruct Ht as (Hid & Hst & He). simpl.
  match goal with |- context [foldM ?f ?l ?a] => pose proof (foldM_total_prefix (E:=InitError)
    (λ _ m, ∀ x n, bd_by_addr b !! x = Some n → m !! x = Some n) f l a) as Hf end.
  destruct (foldM _ _ _) as [by_addr|e|]; simpl; [|done|].
  - apply registered_add; try done; [|apply Hf; [done|]|by rewrite Hh].
    + rewrite He. by intros [].
    + intros pre x post m _ Hm. unfold add_router_address. destruct (m !! x) eqn:Hx; [done|].
      intros y n Hy. rewrite lookup_insert_ne; [auto|]. intros <-. apply Hm in Hy. congruence.
  - apply Hf; [done|]. intros pre x post m _ Hm. unfold add_router_address.
    destruct (m !! x) eqn:Hx; [done|]. intros y n Hy. rewrite lookup_insert_ne; [auto|].
    intros <-. apply Hm in Hy. congruence.
Qed.

Lemma add_hosts_total hosts : Forall (λ ns, is_host ns = true) hosts →
  match foldM add_host hosts builder_init with
  | Ok b => registered hosts b | Err _ => True | Panic => False end.
Proof.
  intros Hh. apply (foldM_total_prefix registered).
  - split; simpl; try (intros *; by rewrite lookup_empty); by intros ? ?%not_elem_of_nil.
  - intros pre ns post x ->. apply add_host_total. by apply Forall_app in Hh as [_ []%Forall_cons].
Qed.

Lemma add_routers_total hosts routers b : Forall (λ ns, is_host ns = false) routers → registered hosts b →
  match foldM add_router routers b with
  | Ok b => registered (hosts ++ routers) b | Err _ => True | Panic => False end.
Proof.
  intros Hr Hb. apply (foldM_total_prefix (λ pre, registered (hosts ++ pre))); [by rewrite app_nil_r|].
  intros pre ns post x ->. rewrite app_assoc. apply add_router_total.
  by apply Forall_app in Hr as [_ []%Forall_cons].
Qed.

Lemma add_links_total {H} `{!BinaryHeap PrioritizedInTransitData above H} ls :
  match foldM (add_link (H := H)) ls (mkLinks ∅ ∅ ∅ 0%nat) with
  | Ok b => linked ls b ∧ links_ok b | Err _ => True | Panic => False end.
Proof.
  apply (foldM_total_prefix (λ pre b, linked pre b ∧ links_ok b)).
  - split; split; simpl; try (intros *; by rewrite ?lookup_empty); [constructor|].
    by intros ? ?%not_elem_of_nil.
  - intros pre l post x _ [Hx Hok]. pose proof (linked_add pre x l) as H1. pose proof (add_link_ok x l) as H2.
    destruct (add_link x l) as [x'|e|] eqn:Hadd; [by auto|done|].
    unfold add_link in Hadd. destruct (lb_by_addr x !! _); [done|].
    by destruct (lb_by_id x !! Spec.link_id l).
Qed.

Section theorems.
Context {H : Type} {HH : BinaryHeap PrioritizedInTransitData above H} {R : Type}.

(** What holds of a network built from [spec], before and after the initial events. *)
Record registered_in (spec : NetworkSpec) (topo : Topology) (w : World H R) : Prop := mkRegisteredIn {
  ri_links : ∀ l, l ∈ links spec → is_Some (links_by_id topo !! Spec.link_id l);
  ri_nodes : ∀ ns, ns ∈ nodes spec → is_Some (nodes_by_id topo !! node_id ns);
  ri_hosts : ∀ ns, ns ∈ nodes spec → is_host ns = true → ∃ a n nd, head (node_addresses ns) = Some a ∧
    nodes_by_addr topo !! a = Some n ∧ w_nodes w !! n = Some nd ∧ n_id nd = node_id ns ∧
    is_Some (n_udp_endpoint nd);
  ri_only_hosts : ∀ n nd, w_nodes w !! n = Some nd → is_Some (n_udp_endpoint nd) →
    ∃ ns, ns ∈ nodes spec ∧ is_host ns = true ∧ node_id ns = n_id nd;
}.

Lemma registered_in_calm spec topo (w w' : World H R) :
  calm w w' → registered_in spec topo w → registered_in spec topo w'.
Proof.
  intros [_ K] [R1 R2 R3 R4]. split; [done|done|..].
  - intros ns Hns Hh. destruct (R3 ns Hns Hh) as (a & n & nd & ? & ? & Hn & ? & He).
    destruct (fmap_facts_lookup _ _ _ _ _ (eq_sym K) Hn) as (nd' & Hn' & [= E1 E2]).
    exists a, n, nd'. split_and!; [done|done|done|congruence|by rewrite <-E2].
  - intros n nd' Hn' He. destruct (fmap_facts_lookup _ _ _ _ _ K Hn') as (nd & Hn & [= E1 E2]).
    destruct (R4 n nd Hn) as (ns & ? & ? & ?); [by rewrite <-E2|]. exists ns. split_and!; [done|done|congruence].
Qed.

Lemma initialize_total now spec evs (rng : R) start dtw :
  match initialize (H := H) now spec (NetworkEvents_new evs (nodes spec) (links spec)) rng start dtw with
  | Ok (topo, w) => registered_in spec topo w ∧ indexed topo w ∧
      (∀ l, l ∈ links spec → link_text topo w (Spec.link_id l) =
        Some (starting_link_status evs (Spec.link_id l))) ∧
      (∀ ns, ns ∈ nodes spec → node_text topo w (node_id ns) =
        Some (starting_node_status evs (node_id ns)))
  | Err _ => True
  | Panic => False
  end.
Proof.
  unfold initialize. match goal with |- context [?x ≫= _] => destruct x as [[]|e|] eqn:Hc end; [|done|].
  2: { clear -Hc. repeat case_match; done. }
  clear Hc. simpl. destruct (length _ <? 2)%nat; [done|]. simpl.
  set (hosts := filter (λ n, is_host n = true) (nodes spec)).
  set (routers := filter (λ n, is_host n = false) (nodes spec)).
  assert (Forall (λ ns, is_host ns = true) hosts) as Hh.
  { apply Forall_forall. by intros ns [? _]%list_elem_of_filter. }
  assert (Forall (λ ns, is_host ns = false) routers) as Hr.
  { apply Forall_forall. by intros ns [? _]%list_elem_of_filter. }
  assert (∀ ns, ns ∈ nodes spec ↔ ns ∈ hosts ++ routers) as Hsplit.
  { intros ns. rewrite elem_of_app. subst hosts routers. rewrite !list_elem_of_filter.
    destruct (is_host ns); naive_solver. }
  pose proof (add_hosts_total hosts Hh) as H1. destruct (foldM add_host _ _) as [b|e|]; simpl; [|done..].
  pose proof (add_links_total (H := H) (links spec)) as H2.
  destruct (foldM add_link _ _) as [ls|e|]; simpl; [|done..].
  pose proof (add_routers_total hosts routers b Hr H1) as H3.
  destruct (foldM add_router _ _) as [b'|e|]; simpl; [|done..]. clear H1 b.
  set (topo := mkTopology _ _ _ _ _). set (w := mkWorld _ _ _ _ _ _ _ _ _ _ _ _ _ _).
  destruct H3 as [R1 R2 R3 R4], H2 as [[L1 L2 L3 L4] [K1 K2]].
  assert (registered_in spec topo w) as Hreg.
  { split; simpl; [done|..].
    - intros ns Hns%Hsplit. by apply R3.
    - intros ns Hns%Hsplit. by apply R4.
    - intros n nd Hn He. destruct (R1 n nd Hn) as (_ & _ & Hs). destruct (Hs He) as (ns & Hns%Hsplit & ? & ?).
      by exists ns. }
  assert (indexed topo w) as Hi by (split; simpl; [exact K2|exact R2]).
  destruct (initial_events_run topo evs (nodes spec) (links spec) w Hi) as (w' & Hw' & Hi' & Hl & Hn).
  { intros id t. unfold link_text. intros (l & _ & (lk & Hlk & ->)%fmap_Some)%bind_Some.
    unfold link_status_str. by destruct (K1 l lk Hlk) as (_ & _ & -> & _). }
  { intros id t. unfold node_text. intros (n & _ & (nd & Hnd & ->)%fmap_Some)%bind_Some.
    unfold node_status_str. by destruct (R1 n nd Hnd) as (_ & -> & _). }
  pose proof (initial_events_calm topo _ _ _ _ _ Hw') as Hcalm. simpl in Hw'. rewrite Hw'.
  split; [by eapply registered_in_calm|]. split; [done|]. split.
  - intros l Hin. apply Hl. destruct (L3 l Hin) as [r Hrr]. destruct (K2 _ _ Hrr) as (lk & Hlk & _).
    unfold link_text. simpl. rewrite Hrr. simpl. rewrite Hlk. by eexists.
  - intros ns Hin%Hsplit. apply Hn. destruct (R3 ns Hin) as [r Hrr]. destruct (R2 _ _ Hrr) as (nd & Hnd & _).
    unfold node_text. simpl. rewrite Hrr. simpl. rewrite Hnd. by eexists.
Qed.

Context {QuinnJsonConfig : Type} (quinn_default : QuinnJsonConfig).
Context (config : NetworkConfig QuinnJsonConfig).

Lemma setup_cases now (rng : R) start dtw :
  match setup_network (H := H) now config rng start dtw with
  | Ok (spec, topo, w) => spec = spec_from_json (network_graph config) ∧ registered_in spec topo w ∧
      indexed topo w ∧
      (∀ l, l ∈ links spec → link_text topo w (Spec.link_id l) =
        Some (starting_link_status (event_from_json <$> network_events config) (Spec.link_id l))) ∧
      (∀ ns, ns ∈ nodes spec → node_text topo w (node_id ns) =
        Some (starting_node_status (event_from_json <$> network_events config) (node_id ns)))
  | Err _ => True
  | Panic => False
  end.
Proof.
  unfold setup_network, load. pose proof (initialize_total now (spec_from_json (network_graph config))
    (event_from_json <$> network_events config) rng start dtw) as Hi.
  destruct (initialize _ _ _ _ _ _) as [[topo w]|e|]; [|done..]. by split.
Qed.

Lemma statuses_printed now (rng : R) start dtw :
  match setup_network (H := H) now config rng start dtw with
  | Ok (spec, topo, w) =>
      let evs := event_from_json <$> network_events config in
      link_statuses topo spec w = Some ((λ l, (lj_id l, starting_link_status evs (lj_id l))) <$>
        sj_links (network_graph config), w) ∧
      node_statuses topo spec w = Some ((λ n, (nj_id n, starting_node_status evs (nj_id n))) <$>
        sj_nodes (network_graph config), w)
  | Err _ => True
  | Panic => False
  end.
Proof.
  pose proof (setup_cases now rng start dtw) as Hs.
  destruct (setup_network _ _ _ _ _) as [[[spec topo] w]|e|]; [|done..].
  destruct Hs as (-> & [R1 R2 _ _] & Hi & Hl & Hn). split.
  - unfold link_statuses. rewrite (status_lines_run _ _ _
      (starting_link_status (event_from_json <$> network_events config))).
    { simpl. by rewrite <-!list_fmap_compose. }
    intros id (l & -> & Hin)%list_elem_of_fmap.
    destruct (link_status_total topo w _ Hi (R1 l Hin)) as (s & Hs & ->). rewrite (Hl l Hin) in Hs. by injection Hs as <-.
  - unfold node_statuses. rewrite (status_lines_run _ _ _
      (starting_node_status (event_from_json <$> network_events config))).
    { simpl. by rewrite <-!list_fmap_compose. }
    intros id (l & -> & Hin)%list_elem_of_fmap.
    destruct (node_status_total topo w _ Hi (R2 l Hin)) as (s & Hs & ->). rewrite (Hn l Hin) in Hs. by injection Hs as <-.
Qed.

(** C24: Setting a network up never panics, whatever the configuration: it is refused with an error, or
    built, and then the statuses that are printed are, for every link and node of the file, the
    opposite of the status that its earliest event sets, and UP if no event sets one. *)
Theorem setup_prints_statuses now (rng : R) start dtw :
  match setup_network (H := H) now config rng start dtw with
  | Ok (spec, topo, w) =>
      let evs := event_from_json <$> network_events config in
      link_statuses topo spec w = Some ((λ l, (lj_id l, starting_link_status evs (lj_id l))) <$>
        sj_links (network_graph config), w) ∧
      node_statuses topo spec w = Some ((λ n, (nj_id n, starting_node_status evs (nj_id n))) <$>
        sj_nodes (network_graph config), w)
  | Err _ => True
  | Panic => False
  end.
Proof. apply statuses_printed. Qed.

Lemma host_config spec (w : World H R) topo n nd :
  spec = spec_from_json (network_graph config) → registered_in spec topo w →
  w_nodes w !! n = Some nd → is_Some (n_udp_endpoint nd) →
  ∃ c, quic_config_of quinn_default config n w = Some (c, w).
Proof.
  intros -> [_ _ _ R4] Hn He. destruct (R4 n nd Hn He) as (ns & Hns & Hh & Hid).
  assert (is_Some (quic_configs quinn_default (network_graph config) !! n_id nd)) as [c Hc].
  { apply quic_configs_hosts. exists ns. split; [done|]. split; [|done].
    unfold is_host in Hh. by destruct (kind ns). }
  exists c. unfold quic_config_of, get_node. cbv [mbind NM_bind nget nsome]. rewrite Hn. by rewrite Hc.
Qed.

(** In a network that was set up, every host of the file is found by its first address, and every
    node that [host] returns is a host of the file with a QUIC configuration, so indexing the
    configurations by its id does not panic. *)
Theorem setup_finds_hosts now (rng : R) start dtw spec topo (w : World H R) :
  setup_network now config rng start dtw = Ok (spec, topo, w) →
  (∀ ns, ns ∈ nodes spec → kind ns = Host → ∃ a n, head (node_addresses ns) = Some a ∧
     get_host topo a w = Some (n, w) ∧ n_id <$> w_nodes w !! n = Some (node_id ns)) ∧
  ∀ ip n w', get_host topo ip w = Some (n, w') → w' = w ∧
     (∃ ns, ns ∈ nodes spec ∧ kind ns = Host ∧ n_id <$> w_nodes w !! n = Some (node_id ns)) ∧
     ∃ c, quic_config_of quinn_default config n w = Some (c, w).
Proof.
  intros Hset. pose proof (setup_cases now rng start dtw) as Hs. rewrite Hset in Hs.
  destruct Hs as (Hspec & Hr & _). pose proof Hr as [_ _ R3 R4].
  assert (∀ ns, is_host ns = true ↔ kind ns = Host) as Hk by (intros ns; unfold is_host; by destruct (kind ns)).
  split.
  - intros ns Hns Hh%Hk. destruct (R3 ns Hns Hh) as (a & n & nd & Ha & Hby & Hn & Hid & He).
    exists a, n. rewrite Hn. split; [done|]. split; [|simpl; by rewrite Hid].
    unfold get_host, get_node, nassert. cbv [mbind NM_bind nget nsome mret NM_ret]. rewrite Hby, Hn.
    by rewrite bool_decide_eq_true_2.
  - intros ip n w' Hget. assert (w' = w) as ->.
    { unfold get_host, get_node in Hget. by nm_inv Hget. }
    split; [done|]. apply get_host_inv in Hget as (_ & nd & Hn & He). split.
    + destruct (R4 n nd Hn He) as (ns & Hns & Hh & Hid). exists ns. rewrite Hn. simpl.
      split; [done|]. split; [by apply Hk|by rewrite Hid].
    + by eapply host_config.
Qed.

(** The numbers of an event are machine integers. *)
Definition option_typed (o : option Z) : Prop := ∀ z, o = Some z → in_u64 z.
Definition event_json_typed (e : NetworkEventJson) : Prop :=
  in_u64 (evj_relative_time_ms e) ∧ ∀ p, evj_payload e = LinkPayloadJson p →
    option_typed (lej_bandwidth_bps p) ∧ option_typed (lej_delay_ms p) ∧ option_typed (lej_extra_delay_ms p).
Definition config_typed : Prop :=
  spec_json_typed (network_graph config) ∧ Forall event_json_typed (network_events config).

(** An event as the network relies on it: its times are durations. *)
Definition fits (d : Z) : Prop := 0 ≤ d ≤ duration_max.
Definition event_typed (e : NetworkEvent) : Prop :=
  fits (relative_time e) ∧ ∀ p, ev_kind e = LinkEvent p →
    option_typed (le_bandwidth_bps p) ∧ (∀ d, le_delay p = Some d → fits d) ∧
    ∀ d, le_extra_delay p = Some d → fits d.

Lemma event_from_json_typed e : event_json_typed e → event_typed (event_from_json e).
Proof.
  intros [Ht Hp]. split; [by apply from_millis_fits|]. unfold event_from_json. simpl.
  destruct (evj_payload e) as [n|l]; [done|]. destruct (Hp l eq_refl) as (H1 & H2 & H3).
  intros p [= <-]. simpl. split; [done|].
  split; intros d (ms & Hms & ->)%fmap_Some; apply from_millis_fits; [by apply H2|by apply H3].
Qed.

Lemma load_typed :
  config_typed →
  let spec := (load config).1 in
  let events := sorted_events (load config).2 in
  spec_bounded spec ∧ Forall (λ ns, in_u64 (buffer_size_bytes ns)) (nodes spec) ∧
  Forall (λ l, in_u64 (bandwidth_bps l) ∧ fits (delay l) ∧ fits (extra_delay l)) (links spec) ∧
  sorted_by_key relative_time events ∧ Forall event_typed events.
Proof.
  intros [[Hns Hls] Hes]. unfold load. simpl.
  assert (Forall (λ ns, in_u64 (buffer_size_bytes ns)) (node_from_json <$> sj_nodes (network_graph config))) as Hn.
  { apply Forall_fmap. eapply Forall_impl; [exact Hns|]. by intros n Hn. }
  split_and!; [split| | | |]; simpl.
  - unfold spec_typed. simpl. eapply Forall_impl; [exact Hn|]. by intros ns [].
  - apply Forall_fmap. eapply Forall_impl; [exact Hls|]. intros l (_ & Hd & _). simpl.
    unfold max_delay, from_millis, ns_per_ms, ns_per_sec, in_u64 in *. lia.
  - done.
  - apply Forall_fmap. eapply Forall_impl; [exact Hls|]. intros l (Hb & Hd & Hx). simpl.
    split_and!; [done|by apply from_millis_fits..].
  - apply sort_by_key_sorted.
  - rewrite (sort_by_key_perm relative_time). apply Forall_fmap. eapply Forall_impl; [exact Hes|].
    apply event_from_json_typed.
Qed.

(** A network that was set up was initialized from the configuration. *)
Lemma setup_initialized now (rng : R) start dtw spec topo (w : World H R) :
  setup_network now config rng start dtw = Ok (spec, topo, w) → config_typed →
  initialize now spec (load config).2 rng start dtw = Ok (topo, w) ∧ spec_bounded spec ∧
  Forall (λ l, 0 ≤ extra_delay l) (links spec) ∧
  node_id <$> nodes spec = nj_id <$> sj_nodes (network_graph config).
Proof.
  intros Hset Hty. destruct (load_typed Hty) as (Hb & _ & Hl & _). unfold setup_network in Hset.
  assert (node_id <$> nodes (load config).1 = nj_id <$> sj_nodes (network_graph config)) as Hids.
  { unfold load. simpl. by rewrite <-list_fmap_compose. }
  destruct (load config) as [s evs]. simpl in *.
  destruct (initialize now s evs rng start dtw) as [[topo' w']|e|] eqn:Hi; [|done..]. injection Hset as <- <- <-.
  split_and!; [done|done| |done]. eapply Forall_impl; [exact Hl|]. by intros l (_ & _ & ? & _).
Qed.
End theorems.

(** ** Witnesses *)

(** Two hosts, a link each way, and a link that comes up after a second. *)
Definition example_config : NetworkConfig () :=
  mkNetworkConfig
    (mkSpecJson
      [mkNodeJson "client" 5000 JsonHost None [mkInterfaceJson [mkCidr 1 24] []] f64_zero f64_zero;
       mkNodeJson "server" 5000 JsonHost (Some ()) [mkInterfaceJson [mkCidr 2 24] []] f64_zero f64_zero]
      [mkLinkJson "there" (V4 1) (V4 2) 8000 50 0 f64_zero f64_zero;
       mkLinkJson "back" (V4 2) (V4 1) 8000 50 10 f64_zero f64_zero])
    [mkEventJson 1000 (LinkPayloadJson
       (mkLinkEventJson "back" (Some JsonLinkUp) None None None None None None None))].

Definition example_setup : outcome InitError (NetworkSpec * Topology * World net_heap net_rng) :=
  setup_network 0 example_config (net_seed 42) 0 false.
Definition example_network : NetworkSpec * Topology * World net_heap net_rng :=
  match example_setup with
  | Ok s => s
  | _ => (mkSpec [] [], mkTopology ∅ ∅ ∅ ∅ ∅, no_world)
  end.

Lemma example_setup_eq : example_setup = Ok (example_network.1.1, example_network.1.2, example_network.2).
Proof. vm_compute. reflexivity. Qed.

Example example_statuses :
  fst <$> link_statuses example_network.1.2 example_network.1.1 example_network.2 =
  Some [("there", "UP"); ("back", "DOWN")].
Proof. vm_compute. reflexivity. Qed.

Lemma setup_finds_hosts_witness :
  ∃ a n, head (node_addresses (node_from_json (QuinnJsonConfig := ())
    (mkNodeJson "client" 5000 JsonHost None [mkInterfaceJson [mkCidr 1 24] []] f64_zero f64_zero))) = Some a ∧
  get_host example_network.1.2 a example_network.2 = Some (n, example_network.2) ∧
  n_id <$> w_nodes example_network.2 !! n = Some "client".
Proof.
  destruct (setup_finds_hosts tt example_config 0 (net_seed 42) 0 false _ _ _ example_setup_eq) as [Hhosts _].
  apply (Hhosts (node_from_json (mkNodeJson "client" 5000 JsonHost None
    [mkInterfaceJson [mkCidr 1 24] []] f64_zero f64_zero))); [|reflexivity].
  left.
Defined.
