(* ===== verification/NetworkContents.v ===== *)
(** * The network does not alter packets

    A property of the contents of the packets that holds of everything the
    hosts send holds of everything the network stores and delivers, and a host
    only receives packets addressed to it. *)

From stdpp Require Import relations.
From S2P Require Import Prelude Float Ip Spec Event Transmit SimStep Heap InboundQueue Node.
From S2P Require Import Link Network NetworkInit NetworkInv NetworkSteady NetworkBuffers NetworkStart.
From S2P Require Import NetworkArrivals NetworkExample.

(** What the network leaves alone: everything but the id, the duplicate flag
    and the ECN codepoint. *)
Definition payload (d : InTransitData) :=
  (d_source_endpoint d, d_source_id d, d_number d,
   (t_destination (d_transmit d), t_contents (d_transmit d), t_segment_size (d_transmit d))).

Section network.
Context {H : Type} {HH : BinaryHeap PrioritizedInTransitData above H}.
Context {R : Type} (rng_f64 : R → f64 * R) (rng_u128 : R → Z * R).
Context (timer_elapsed : Z → Z → bool) (topo : Topology).
Context (P : InTransitData → Prop) (HP : ∀ d d', payload d = payload d' → P d → P d').

Abbreviation world := (World H R).

Record safe (w : world) : Prop := mkSafe {
  sf_queued : ∀ n nd b, w_nodes w !! n = Some nd → b ∈ n_outbound nd → P (b_data b);
  sf_outgoing : ∀ l lk p, w_links w !! l = Some lk → p ∈ l_outgoing lk → P (o_data p);
  sf_transit : ∀ l lk p, w_links w !! l = Some lk → p ∈ heap_items (q_queue (l_in_transit lk)) →
    P (p_data p);
  sf_phase : ∀ l ph p, w_link_tasks w !! l = Some ph → phase_packet ph = Some p → P (o_data p);
  sf_inbound : ∀ n q p, w_inbound w !! n = Some q → p ∈ heap_items (q_queue q) → P (p_data p);
  sf_address : ∀ n q p nd, w_inbound w !! n = Some q → p ∈ heap_items (q_queue q) →
    w_nodes w !! n = Some nd → n_udp_endpoint nd = Some (t_destination (d_transmit (p_data p)));
  sf_host : ∀ n q, w_inbound w !! n = Some q → is_Some (w_nodes w !! n);
}.

Definition keeps_safe (w w' : world) : Prop :=
  identity <$> w_nodes w' = identity <$> w_nodes w ∧ w_sockets w' = w_sockets w ∧ (safe w → safe w').

#[export] Instance keeps_safe_preorder : PreOrder keeps_safe.
Proof. split; [by intros w|]. intros x y z (? & ? & ?) (? & ? & ?). split_and!; [congruence..|auto]. Qed.

(** Changes of the parts that hold no packets. *)
Definition same_parts (w w' : world) : Prop :=
  w_nodes w' = w_nodes w ∧ w_links w' = w_links w ∧ w_link_tasks w' = w_link_tasks w ∧
  w_inbound w' = w_inbound w ∧ w_sockets w' = w_sockets w.

Lemma same_parts_safe w w' : same_parts w w' → keeps_safe w w'.
Proof.
  intros (E1 & E2 & E3 & E4 & E5). split; [by rewrite E1|]. split; [done|]. intros [S1 S2 S3 S4 S5 S6 S7].
  split; rewrite ?E1, ?E2, ?E3, ?E4; done.
Qed.

Lemma modify_safe (f : world → world) : (∀ w, same_parts w (f w)) → steps_in keeps_safe (nmodify f).
Proof. intros Hf w u w' [= _ <-]. by apply same_parts_safe. Qed.

Lemma put_node_safe n nd nd' (w w' : world) u :
  w_nodes w !! n = Some nd → identity nd' = identity nd →
  (∀ b, b ∈ n_outbound nd' → b ∈ n_outbound nd ∨ P (b_data b)) →
  put_node n nd' w = Some (u, w') → keeps_safe w w'.
Proof.
  intros Hn He Hb Hm. split; [by apply (put_node_calm _ _ _ _ _ _ Hn He Hm)|].
  injection Hm as _ <-. split; [done|]. intros [S1 S2 S3 S4 S5 S6 S7]. split; simpl; try done.
  - intros m md b [[<- <-]|[_ Hm]]%lookup_insert_Some Hin; [|by eapply S1].
    apply Hb in Hin as [Hin|]; [by eapply S1|done].
  - intros m q p md Hq Hp [[<- <-]|[_ Hm]]%lookup_insert_Some; [|by eapply S6].
    injection He as _ ->. by eapply S6.
  - intros m q [x Hm]%S7. destruct (decide (m = n)) as [->|].
    + rewrite lookup_insert_eq. by eexists.
    + rewrite lookup_insert_ne by done. by eexists.
Qed.

Lemma put_net_link_safe l lk lk' (w w' : world) u :
  w_links w !! l = Some lk →
  (∀ p, p ∈ l_outgoing lk' → p ∈ l_outgoing lk ∨ P (o_data p)) →
  (∀ p, p ∈ heap_items (q_queue (l_in_transit lk')) →
     p ∈ heap_items (q_queue (l_in_transit lk)) ∨ P (p_data p)) →
  put_net_link l lk' w = Some (u, w') → keeps_safe w w'.
Proof.
  intros Hl Ho Ht [= _ <-]. split; [done|]. split; [done|]. intros [S1 S2 S3 S4 S5 S6 S7]. split; simpl; try done.
  - intros m mk p [[<- <-]|[_ Hm]]%lookup_insert_Some Hin; [|by eapply S2].
    apply Ho in Hin as [Hin|]; [by eapply S2|done].
  - intros m mk p [[<- <-]|[_ Hm]]%lookup_insert_Some Hin; [|by eapply S3].
    apply Ht in Hin as [Hin|]; [by eapply S3|done].
Qed.

Lemma set_phase_safe l ph :
  (∀ p, phase_packet ph = Some p → P (o_data p)) → steps_in keeps_safe (set_phase l ph : NM world _).
Proof.
  intros Hp w u w' [= _ <-]. split; [done|]. split; [done|]. intros [S1 S2 S3 S4 S5 S6 S7]. split; simpl; try done.
  intros m mp p [[<- <-]|[_ Hm]]%lookup_insert_Some; [auto|by eapply S4].
Qed.

Lemma put_inbound_safe (w : world) n q q' :
  w_inbound w !! n = Some q →
  (∀ p, p ∈ heap_items (q_queue q') → p ∈ heap_items (q_queue q) ∨ P (p_data p) ∧
     ∀ nd, w_nodes w !! n = Some nd → n_udp_endpoint nd = Some (t_destination (d_transmit (p_data p)))) →
  keeps_safe w (set_w_inbound (<[n := q']> (w_inbound w)) w).
Proof.
  intros Hq Hp. split; [done|]. split; [done|]. intros [S1 S2 S3 S4 S5 S6 S7]. split; simpl; try done.
  - intros m x p [[<- <-]|[_ Hm]]%lookup_insert_Some Hin; [|by eapply S5].
    apply Hp in Hin as [Hin|[? _]]; [by eapply S5|done].
  - intros m x p nd [[<- <-]|[_ Hm]]%lookup_insert_Some Hin Hn; [|by eapply S6].
    apply Hp in Hin as [Hin|[_ Hx]]; [by eapply S6|auto].
  - intros m x [[<- _]|[_ Hm]]%lookup_insert_Some; by eapply S7.
Qed.

Lemma update_node_safe {A} n (f : Node → NM world A) :
  (∀ nd w a w', w_nodes w !! n = Some nd → f nd w = Some (a, w') → keeps_safe w w') →
  steps_in keeps_safe (get_node n ≫= f).
Proof.
  intros Hf w a w' Hm. apply nm_bind_inv in Hm as (nd & w1 & Hn & Hm).
  unfold get_node in Hn. nm_inv_step Hn. by eapply Hf.
Qed.

Lemma update_link_safe {A} l (f : NetworkLink → NM world A) :
  (∀ lk w a w', w_links w !! l = Some lk → f lk w = Some (a, w') → keeps_safe w w') →
  steps_in keeps_safe (get_net_link l ≫= f).
Proof.
  intros Hf w a w' Hm. apply nm_bind_inv in Hm as (lk & w1 & Hl & Hm).
  unfold get_net_link in Hl. nm_inv_step Hl. by eapply Hf.
Qed.

Create HintDb safe discriminated.

Ltac safe :=
  repeat first
    [ solve [eauto 2 with safe nocore]
    | (apply modify_safe; intros ?; by split_and!)
    | apply steps_in_ret; apply _
    | apply steps_in_get; apply _
    | apply steps_in_some; apply _
    | apply steps_in_assert; apply _
    | apply steps_in_panic
    | apply steps_in_foreach; [apply _|intros ?]
    | apply steps_in_bind; [apply _| |intros ?]
    | case_match ].

Lemma draw_safe : steps_in keeps_safe (draw_f64 (H:=H) rng_f64).
Proof.
  intros w u w'. unfold draw_f64. destruct (rng_f64 (w_rng w)). intros [= _ <-].
  by apply same_parts_safe.
Qed.
Lemma packet_id_safe : steps_in keeps_safe (new_packet_id (H:=H) rng_u128).
Proof.
  intros w u w'. unfold new_packet_id. destruct (rng_u128 (w_rng w)). intros [= _ <-].
  by apply same_parts_safe.
Qed.
Lemma fresh_safe : steps_in keeps_safe (fresh (H:=H) (R:=R)).
Proof. intros w u w' [= _ <-]. by apply same_parts_safe. Qed.
Lemma get_node_safe n : steps_in keeps_safe (get_node n : NM world _).
Proof. unfold get_node. safe. Qed.
Lemma get_net_link_safe l : steps_in keeps_safe (get_net_link l : NM world _).
Proof. unfold get_net_link. safe. Qed.
Lemma record_safe k : steps_in keeps_safe (record_step k : NM world _).
Proof. unfold record_step. safe. Qed.
Lemma is_fired_safe c : steps_in keeps_safe (is_fired c : NM world _).
Proof. unfold is_fired. safe. Qed.
Lemma is_handled_safe p : steps_in keeps_safe (is_handled p : NM world _).
Proof. unfold is_handled. safe. Qed.
Lemma set_handled_safe x b : steps_in keeps_safe (set_handled x b : NM world _).
Proof. unfold set_handled. safe. Qed.
Lemma now_safe : steps_in keeps_safe (now : NM world _).
Proof. unfold now. safe. Qed.
Lemma fire_safe c : steps_in keeps_safe (fire c : NM world _).
Proof. unfold fire. safe. Qed.
Hint Resolve draw_safe packet_id_safe fresh_safe get_node_safe get_net_link_safe record_safe
  is_fired_safe is_handled_safe set_handled_safe now_safe fire_safe : safe.

Lemma track_injected_failures_safe nd d b x c :
  steps_in keeps_safe (track_injected_failures nd d b x c : NM world _).
Proof. unfold track_injected_failures. safe. Qed.
Hint Resolve track_injected_failures_safe : safe.

(** ** The nodes *)
Lemma enqueue_safe n b : P (b_data b) → steps_in keeps_safe (enqueue n b : NM world _).
Proof.
  intros Hb. unfold enqueue. apply update_node_safe. intros nd w u w' Hn Hm.
  apply nm_bind_inv in Hm as ([ok nd'] & w1 & He & Hm). nm_inv_step He.
  unfold enqueue_outbound in He. destruct (reserve _ _) as [okr avail].
  destruct okr; [destruct (n_outbound_open nd); [|done]|]; injection He as <- <-.
  - eapply put_node_safe; [exact Hn| | |exact Hm]; [done|]. simpl.
    intros x [?| ->%list_elem_of_singleton]%elem_of_app; auto.
  - by eapply record_safe.
Qed.

Lemma forward_safe n data : P data → steps_in keeps_safe (forward rng_f64 rng_u128 n data : NM world _).
Proof using HP.
  intros Hd. unfold forward. intros w u w' Hm.
  apply nm_bind_inv in Hm as (nd & w1 & Hn & Hm). unfold get_node in Hn. nm_inv_step Hn.
  destruct (is_down nd); [by eapply record_safe|].
  apply nm_bind_inv in Hm as ([] & w1 & Hr & Hm). pose proof (record_safe _ _ _ _ Hr) as H1.
  transitivity w1; [exact H1|]. injection Hr as <-. case_bool_decide as He.
  - apply nm_bind_inv in Hm as (w2 & w3 & [= <- <-] & Hm).
    apply nm_bind_inv in Hm as (q & w2 & Hq & Hm). nm_inv_step Hq. injection Hm as _ <-.
    match type of Hq with w_inbound ?x !! _ = _ => apply (put_inbound_safe x n q _ Hq) end.
    intros p. simpl. rewrite heap_items_push.
    intros [->|Hp]%elem_of_cons; [right|by left]. split; [done|]. intros md Hmd. simpl in *. by simplify_eq.
  - revert Hm. match goal with |- ?m ?x = _ → _ => enough (steps_in keeps_safe m) as Hk by apply Hk end.
    apply steps_in_bind; [apply _|safe|intros roll]. case_match; [safe|].
    apply steps_in_bind; [apply _|safe|intros t].
    intros x v x' Hm. apply nm_bind_inv in Hm as (dup & x1 & Hdup & Hm).
    assert (keeps_safe x x1 ∧ ∀ b, dup = Some b → P (b_data b)) as [Hk1 Hdup1].
    { revert Hdup. destruct (negb _ && _); [|by intros [= <- <-]]. intros Hx.
      apply nm_bind_inv in Hx as (i & x2 & Hi & [= <- <-]). split; [by eapply packet_id_safe|].
      intros b [= <-]. simpl. by apply (HP data). }
    transitivity x1; [done|]. revert Hm.
    match goal with |- ?m ?x = _ → _ => enough (steps_in keeps_safe m) as Hk by apply Hk end.
    apply steps_in_bind; [apply _|by apply enqueue_safe|intros _].
    destruct dup as [b|]; [|safe].
    apply steps_in_bind; [apply _|safe|intros _]. apply enqueue_safe. auto.
Qed.

(** A host sends a packet that has the property. *)
Lemma in_transit_data_safe n t : steps_in keeps_safe (in_transit_data rng_u128 n t : NM world _).
Proof. unfold in_transit_data. safe. Qed.

Lemma in_transit_data_payload n t (w : world) d w' :
  in_transit_data rng_u128 n t w = Some (d, w') →
  ∃ nd, w_nodes w !! n = Some nd ∧ n_udp_endpoint nd = Some (d_source_endpoint d) ∧
    d_source_id d = n_id nd ∧ d_transmit d = t.
Proof.
  unfold in_transit_data. intros Hm.
  apply nm_bind_inv in Hm as (nd & w1 & Hn & Hm). unfold get_node in Hn. nm_inv_step Hn.
  apply nm_bind_inv in Hm as (i & w2 & Hi & Hm). exists nd. split; [done|].
  apply nm_bind_inv in Hm as (ep & w3 & Hep & Hm). nm_inv_step Hep.
  apply nm_bind_inv in Hm as (w3 & w4 & [= <- <-] & Hm).
  by apply nm_bind_inv in Hm as ([] & w5 & [= <-] & [= <- <-]).
Qed.

Lemma try_send_safe n t (w w' : world) u :
  (∀ d nd, w_nodes w !! n = Some nd → n_udp_endpoint nd = Some (d_source_endpoint d) →
     d_source_id d = n_id nd → d_transmit d = t → P d) →
  try_send rng_f64 rng_u128 n t w = Some (u, w') → keeps_safe w w'.
Proof using HP.
  intros Hp Hm. unfold try_send in Hm.
  apply nm_bind_inv in Hm as ([] & w1 & Ha & Hm). apply nassert_inv in Ha as [_ ->].
  apply nm_bind_inv in Hm as (d & w1 & Hd & Hm).
  transitivity w1; [by eapply in_transit_data_safe|].
  apply in_transit_data_payload in Hd as (nd & ? & ? & ? & ?). eapply forward_safe; [|exact Hm]. eauto.
Qed.

(** The task of a node hands a packet to the links. *)
Lemma anomalies_safe l : steps_in keeps_safe (generate_packet_anomalies rng_f64 l : NM world _).
Proof. unfold generate_packet_anomalies. safe. Qed.

Lemma run_buffer_safe n (w w' : world) u :
  run_buffer rng_f64 topo n w = Some (u, w') → safe w → keeps_safe w w'.
Proof.
  intros Hm Hs. unfold run_buffer in Hm.
  apply nm_bind_inv in Hm as (nd & w1 & Hn & Hm). unfold get_node in Hn. nm_inv_step Hn.
  destruct (n_outbound nd) as [|packet rest] eqn:Ho; [by injection Hm as _ <-|].
  assert (P (b_data packet)) as Hb by (eapply (sf_queued _ Hs); [done|rewrite Ho; left]).
  apply nm_bind_inv in Hm as (route & w1 & Hr & Hm). nm_inv_step Hr.
  destruct route; simpl in Hm.
  2: { eapply put_node_safe; [exact Hn| | |exact Hm]; [done|]. simpl. by intros x ?%not_elem_of_nil. }
  apply nm_bind_inv in Hm as ([] & w1 & Hput & Hm). transitivity w1.
  { eapply put_node_safe; [exact Hn| | |exact Hput]; [done|]. simpl. intros x Hx. left. rewrite Ho. by right. }
  revert Hm. match goal with |- ?m ?x = _ → _ => enough (steps_in keeps_safe m) as Hk by apply Hk end.
  apply steps_in_bind; [apply _|safe|intros x]. apply steps_in_bind; [apply _|safe|intros _].
  apply steps_in_bind; [apply _|safe|intros ls]. apply steps_in_foreach; [apply _|intros l].
  apply steps_in_bind; [apply _|apply anomalies_safe|intros an].
  apply update_link_safe. intros lk v u' v' Hl Hm.
  eapply put_net_link_safe; [exact Hl| | |exact Hm]; simpl; [|by intros p; left].
  intros p [?| ->%list_elem_of_singleton]%elem_of_app; auto.
Qed.

(** ** The task of a link *)
Lemma finish_packet_safe l p : P (o_data p) → steps_in keeps_safe (finish_packet l p : NM world _).
Proof using HP.
  intros Hp. unfold finish_packet. apply steps_in_bind; [apply _|safe|intros handled].
  apply steps_in_bind; [apply _| |intros []; by apply set_phase_safe]. destruct handled; [safe|].
  apply steps_in_bind; [apply _|safe|intros []].
  apply update_node_safe. intros nd w u w' Hn Hm.
  destruct (cleared_from_buffer _ _); [by eapply record_safe|].
  apply nm_bind_inv in Hm as (lk & w1 & Hl & Hm). unfold get_net_link in Hl. nm_inv_step Hl.
  apply nm_bind_inv in Hm as (t & w1 & [= <- <-] & Hm).
  apply nm_bind_inv in Hm as ([[[lk' nd'] step] woken] & w1 & Hs & Hm). nm_inv_step Hs.
  apply link_send_inv in Hs as (_ & _ & _ & _ & -> & _ & _ & _ & Eo & _ & _ & d & Hd & Et).
  apply nm_bind_inv in Hm as ([] & w1 & Hr & Hm). transitivity w1; [by eapply record_safe|].
  injection Hr as <-. apply nm_bind_inv in Hm as ([] & w2 & Hput & Hm). transitivity w2.
  - eapply (put_net_link_safe l lk lk'); [done| | |exact Hput]; [rewrite Eo; auto|].
    rewrite Et. simpl. intros x. rewrite heap_items_push. intros [->|?]%elem_of_cons; [right|by left].
    simpl. eapply HP; [|exact Hp]. rewrite Hd. by destruct (congestion_experienced _).
  - injection Hput as <-. eapply put_node_safe; [| | |exact Hm]; [done|done|]. simpl. auto.
Qed.

Lemma yield_loop_safe l p : P (o_data p) → steps_in keeps_safe (yield_loop l p : NM world _).
Proof using HP.
  intros Hp. unfold yield_loop. destruct (o_preferred_links p); [by apply finish_packet_safe|].
  case_bool_decide; [by apply finish_packet_safe|].
  apply steps_in_bind; [apply _|safe|intros handled].
  destruct handled; [by apply finish_packet_safe|]. apply set_phase_safe. by intros x [= <-].
Qed.

Lemma set_permit_safe l b : steps_in keeps_safe (set_permit l b : NM world _).
Proof.
  unfold set_permit. apply update_link_safe. intros lk w u w' Hl Hm.
  eapply put_net_link_safe; [exact Hl| | |exact Hm]; by intros p; left.
Qed.

Lemma sleep_done_safe l p : P (o_data p) → steps_in keeps_safe (sleep_done l p : NM world _).
Proof using HP.
  intros Hp. unfold sleep_done.
  apply steps_in_bind; [apply _|apply set_permit_safe|intros _; by apply yield_loop_safe].
Qed.

Ltac safe_phase :=
  repeat first
    [ by apply sleep_done_safe | by apply yield_loop_safe
    | by (apply set_phase_safe; intros ? [= <-])
    | solve [eauto 2 with safe nocore]
    | apply set_permit_safe
    | apply steps_in_ret; apply _ | apply steps_in_panic
    | apply steps_in_bind; [apply _| |intros ?] | case_match ].

Lemma sleep_loops_safe fuel l p : P (o_data p) →
  steps_in keeps_safe (sleep_loop fuel l p : NM world _) ∧
  steps_in keeps_safe (wait_for_node fuel l p : NM world _) ∧
  steps_in keeps_safe (recheck_link fuel l p : NM world _).
Proof using HP.
  intros Hp. induction fuel as [|fuel (IH1 & IH2 & IH3)]; simpl.
  { split_and!; apply steps_in_panic. }
  split_and!; safe_phase; done.
Qed.

Lemma start_sleep_safe l p : P (o_data p) → steps_in keeps_safe (start_sleep timer_elapsed l p : NM world _).
Proof using HP.
  intros Hp. unfold start_sleep. pose proof (proj1 (sleep_loops_safe sleep_fuel l p Hp)). safe_phase; done.
Qed.

Lemma acquire_permit_safe l p :
  P (o_data p) → steps_in keeps_safe (acquire_permit timer_elapsed l p : NM world _).
Proof using HP.
  intros Hp. unfold acquire_permit. pose proof (start_sleep_safe l p Hp). safe_phase; done.
Qed.

Lemma run_link_safe l (w w' : world) u :
  run_link timer_elapsed l w = Some (u, w') → safe w → keeps_safe w w'.
Proof using HP.
  intros Hm Hs. unfold run_link in Hm.
  apply nm_bind_inv in Hm as (w1 & w2 & [= <- <-] & Hm).
  apply nm_bind_inv in Hm as (ph & w1 & Hph & Hm). nm_inv_step Hph.
  pose proof (λ p, sf_phase _ Hs _ _ p Hph) as Hp.
  assert (∀ p, P (o_data p) → ∀ m : NM world (), m w = Some (u, w') → steps_in keeps_safe m →
    keeps_safe w w') as Hgo by (intros ? ? ? ? Hk; by eapply Hk).
  destruct ph as [|p|p d|p c|p c|p]; try specialize (Hp p eq_refl).
  - apply nm_bind_inv in Hm as (lk & w1 & Hl & Hm). unfold get_net_link in Hl. nm_inv_step Hl.
    destruct (l_outgoing lk) as [|p rest] eqn:Ho; [by injection Hm as _ <-|].
    assert (P (o_data p)) as Hd by (eapply (sf_outgoing _ Hs); [done|rewrite Ho; left]).
    apply nm_bind_inv in Hm as ([] & w1 & Hput & Hm). transitivity w1.
    + eapply put_net_link_safe; [exact Hl| | |exact Hput]; simpl; [|by intros x; left].
      intros x Hx. left. rewrite Ho. by right.
    + revert Hm. match goal with |- ?m ?x = _ → _ => enough (steps_in keeps_safe m) as Hk by apply Hk end.
      unfold start_packet. pose proof (acquire_permit_safe l p Hd). safe_phase; safe.
  - eapply Hgo; [done|exact Hm|by apply acquire_permit_safe].
  - eapply Hgo; [done|exact Hm|]. pose proof (proj1 (sleep_loops_safe sleep_fuel l p Hp)). safe_phase; done.
  - eapply Hgo; [done|exact Hm|].
    pose proof (proj1 (proj2 (sleep_loops_safe sleep_fuel l p Hp))). safe_phase; done.
  - eapply Hgo; [done|exact Hm|].
    pose proof (proj2 (proj2 (sleep_loops_safe sleep_fuel l p Hp))). safe_phase; done.
  - eapply Hgo; [done|exact Hm|]. by apply yield_loop_safe.
Qed.

(** ** The rest of the network *)
Lemma deliver_safe l d :
  P (dv_data d) → steps_in keeps_safe (deliver rng_f64 rng_u128 topo l d : NM world _).
Proof using HP.
  intros Hd. unfold deliver. apply steps_in_bind; [apply _|safe|intros lk]. case_match; [safe|].
  apply steps_in_bind; [apply _|safe|intros n]. by apply forward_safe.
Qed.

Lemma deliver_all_safe l ds :
  (∀ d, d ∈ ds → P (dv_data d)) →
  steps_in keeps_safe (nforeach (deliver rng_f64 rng_u128 topo l) ds : NM world _).
Proof using HP.
  induction ds as [|d ds IH]; simpl; intros Hd; [apply steps_in_ret; apply _|].
  apply steps_in_bind; [apply _|apply deliver_safe, Hd; left|intros _].
  apply IH. intros x Hx. apply Hd. by right.
Qed.

Lemma run_forwarder_safe l (w w' : world) u :
  run_forwarder rng_f64 rng_u128 timer_elapsed topo l w = Some (u, w') → safe w → keeps_safe w w'.
Proof using HP.
  intros Hm Hs. unfold run_forwarder in Hm.
  apply nm_bind_inv in Hm as (w1 & w2 & [= <- <-] & Hm).
  apply nm_bind_inv in Hm as (f & w1 & Hf & Hm). nm_inv_step Hf.
  apply nm_bind_inv in Hm as (lk & w1 & Hlk & Hm). unfold get_net_link in Hlk. nm_inv_step Hlk.
  apply nm_bind_inv in Hm as ([[res f'] queue] & w1 & Hpoll & Hm). nm_inv_step Hpoll.
  apply poll_takes in Hpoll as (new & Hperm & _ & Hres).
  assert (∀ p, p ∈ new → P (p_data p)) as Hnew.
  { intros p Hp. eapply (sf_transit _ Hs); [done|]. rewrite Hperm, elem_of_app. by left. }
  apply nm_bind_inv in Hm as ([] & w1 & Hput & Hm). transitivity w1.
  { eapply put_net_link_safe; [exact Hlk| | |exact Hput]; simpl; intros p Hp; left; [done|].
    rewrite Hperm, elem_of_app. by right. }
  revert Hm. match goal with |- ?m ?x = _ → _ => enough (steps_in keeps_safe m) as Hk by apply Hk end.
  destruct res as [|delivered|]; [safe| |apply steps_in_panic].
  destruct Hres as [[= ->]|[[[=] _]|[=]]].
  apply steps_in_bind; [apply _|safe|intros _]. apply steps_in_bind; [apply _| |intros _; safe].
  apply deliver_all_safe. by intros d (p & -> & Hp%Hnew)%list_elem_of_fmap.
Qed.

Lemma event_safe e : steps_in keeps_safe (process_event topo e : NM world _).
Proof.
  destruct e as [e|e]; simpl.
  - unfold process_link_event. case_match; [|safe].
    apply steps_in_bind; [apply _| |intros []; safe]. case_match; [|safe].
    apply update_link_safe. intros lk w v w' Hl Hm.
    apply nm_bind_inv in Hm as (c & w1 & Hc & Hm). transitivity w1; [by eapply fresh_safe|].
    injection Hc as <- <-. apply nm_bind_inv in Hm as (t & w2 & [= <- <-] & Hm).
    destruct (link_update_status _ _ _ _) as [lk' fired] eqn:He.
    apply nm_bind_inv in Hm as ([] & w2 & Hput & Hm). transitivity w2; [|by eapply fire_safe].
    unfold link_update_status in He.
    eapply put_net_link_safe; [exact Hl| | |exact Hput];
      destruct u, (l_status lk); injection He as <- <-; simpl; auto.
  - unfold process_node_event. case_match; [|safe].
    apply steps_in_bind; [apply _| |intros []; apply steps_in_bind; [apply _| |intros []; safe]].
    + case_match; [|safe]. apply update_node_safe. intros nd w v w' Hn Hm.
      apply nm_bind_inv in Hm as (c & w1 & Hc & Hm). transitivity w1; [by eapply fresh_safe|].
      injection Hc as <- <-. destruct (node_update_status _ _ _) as [st fired].
      apply nm_bind_inv in Hm as ([] & w2 & Hput & Hm). transitivity w2; [|by eapply fire_safe].
      eapply put_node_safe; [| | |exact Hput]; [exact Hn|done|]. simpl. auto.
    + case_match; [|safe]. apply update_node_safe. intros nd w v w' Hn Hm.
      apply nm_bind_inv in Hm as (t & w1 & [= <- <-] & Hm).
      eapply put_node_safe; [exact Hn| | |exact Hm]; [done|]. simpl. auto.
Qed.

Lemma run_events_safe start : steps_in keeps_safe (run_events timer_elapsed topo start : NM world _).
Proof.
  pose proof event_safe. unfold run_events. apply steps_in_bind; [apply _|safe|intros w].
  case_match; [safe|]. case_match; [|safe]. apply steps_in_bind; [apply _|safe|intros _]. done.
Qed.

(** A socket only receives packets with the property, addressed to its host. *)
Lemma poll_recv_safe n m bufs (w w' : world) res :
  poll_recv timer_elapsed n m bufs w = Some (res, w') → safe w →
  identity <$> w_nodes w' = identity <$> w_nodes w ∧ safe w' ∧
  ∀ ds d, res = Some ds → d ∈ ds → P (dv_data d) ∧
    ∀ nd, w_nodes w !! n = Some nd → n_udp_endpoint nd = Some (t_destination (d_transmit (dv_data d))).
Proof.
  intros Hm Hs. unfold poll_recv in Hm.
  apply nm_bind_inv in Hm as ([] & w1 & Ha & Hm). apply nassert_inv in Ha as [_ ->].
  apply nm_bind_inv in Hm as (w1 & w2 & [= <- <-] & Hm).
  apply nm_bind_inv in Hm as (q & w1 & Hq & Hm). nm_inv_step Hq.
  apply nm_bind_inv in Hm as ([[r f'] q'] & w1 & Hpoll & Hm). nm_inv_step Hpoll.
  apply nm_bind_inv in Hm as ([] & w1 & [= <-] & Hm).
  apply poll_takes in Hpoll as (new & Hperm & _ & Hres).
  assert (keeps_safe w (set_w_inbound (<[n := q']> (w_inbound w)) w)) as Hk.
  { eapply put_inbound_safe; [done|]. intros p Hp. left. rewrite Hperm, elem_of_app. by right. }
  match type of Hm with _ ?x = _ => set (w1 := x) in * end.
  assert (identity <$> w_nodes w1 = identity <$> w_nodes w ∧ safe w1) as [E1 Hs1].
  { destruct Hk as (_ & _ & Hk). split; [done|]. destruct (Hk Hs) as [S1 S2 S3 S4 S5 S6 S7]. by split. }
  destruct r as [|delivered|]; [..|done].
  - injection Hm as <- <-. by split_and!.
  - destruct Hres as [[= ->]|[[[=] _]|[=]]].
    apply nm_bind_inv in Hm as ([] & w2 & Hr & [= <- <-]).
    assert (keeps_safe w1 w2) as (E2 & _ & Hs2).
    { revert Hr. match goal with |- ?m ?x = _ → _ => enough (steps_in keeps_safe m) as Hx by apply Hx end.
      apply steps_in_foreach; [apply _|]. intros [d size]. unfold read_packet. safe. }
    split_and!; [congruence|auto|].
    intros ds d [= <-] (p & -> & Hp)%list_elem_of_fmap.
    assert (p ∈ heap_items (q_queue q)) as Hin by (rewrite Hperm, elem_of_app; by left).
    split; [by eapply (sf_inbound _ Hs)|]. intros nd Hn. by eapply (sf_address _ Hs).
Qed.

(** ** Executions *)
Definition sends (l : list Action) : list (node_ref * OwnedTransmit) :=
  omap (λ a, match a with TrySend n t => Some (n, t) | _ => None end) l.

(** The host [n] may send [t]. *)
Definition sends_safe (nodes : gmap node_ref (string * option SocketAddr)) (n : node_ref)
    (t : OwnedTransmit) : Prop :=
  ∀ d id, nodes !! n = Some (id, Some (d_source_endpoint d)) → d_source_id d = id →
    d_transmit d = t → P d.

(** The actions of the network itself. *)
Definition background (a : Action) : bool :=
  match a with TrySend _ _ | PollRecv _ _ _ => false | _ => true end.

Lemma exec_safe start a (w w' : world) :
  (∀ n t, a = TrySend n t → sends_safe (identity <$> w_nodes w) n t) →
  exec rng_f64 rng_u128 timer_elapsed topo start a w = Some w' → safe w →
  identity <$> w_nodes w' = identity <$> w_nodes w ∧ safe w' ∧
  (background a = true → w_sockets w' = w_sockets w).
Proof using HP.
  intros Ha Hm Hs.
  assert (keeps_safe w w' → identity <$> w_nodes w' = identity <$> w_nodes w ∧ safe w' ∧
    (background a = true → w_sockets w' = w_sockets w)) as Hgo by (intros (? & ? & ?); auto).
  destruct a as [n|l|l| |n t|n m b|d]; simpl in Hm; try apply fmap_Some in Hm as ([u w1] & Hm & ->).
  - by eapply Hgo, run_buffer_safe.
  - by eapply Hgo, run_link_safe.
  - by eapply Hgo, run_forwarder_safe.
  - by eapply Hgo, run_events_safe.
  - eapply Hgo, try_send_safe; [|exact Hm]. intros d nd Hn He Hid Ht.
    apply (Ha n t eq_refl d (n_id nd)); try done.
    rewrite lookup_fmap, Hn. simpl. unfold identity. by rewrite He.
  - eapply poll_recv_safe in Hm as (? & ? & _); done.
  - injection Hm as <-. by apply Hgo, same_parts_safe.
Qed.

Lemma exec_all_cons start a l (w : world) :
  exec_all rng_f64 rng_u128 timer_elapsed topo start (a :: l) w =
  exec rng_f64 rng_u128 timer_elapsed topo start a w ≫=
    exec_all rng_f64 rng_u128 timer_elapsed topo start l.
Proof.
  unfold exec_all. simpl. destruct (exec _ _ _ _ _ a w) as [w1|]; [done|]. by induction l.
Qed.

Lemma exec_all_safe start l (w w' : world) :
  (∀ n t, (n, t) ∈ sends l → sends_safe (identity <$> w_nodes w) n t) →
  exec_all rng_f64 rng_u128 timer_elapsed topo start l w = Some w' → safe w →
  safe w' ∧ identity <$> w_nodes w' = identity <$> w_nodes w.
Proof using HP.
  revert w. induction l as [|a l IH]; intros w Hl Hm Hs; [by injection Hm as <-|].
  rewrite exec_all_cons in Hm. apply bind_Some in Hm as (w1 & H1 & Hm).
  apply exec_safe in H1 as (E & Hs1 & _); [|..|done].
  - destruct (IH w1) as [? ->]; [|done|auto|done]. rewrite E. intros n t Hin. apply Hl.
    unfold sends in *. simpl. destruct a; simpl; try done. by right.
  - intros n t ->. apply Hl. left.
Qed.

(** Nothing is stored in the beginning. *)
Lemma initialize_safe now spec events rng start b (w0 : world) :
  initialize now spec events rng start b = Ok (topo, w0) → safe w0 ∧ w_sockets w0 = ∅.
Proof.
  intros Hinit.
  destruct (initialize_inv now spec events rng start b topo w0 Hinit) as
    (bd & ls & w & Hn & [Hl _] & _ & En & El & Et & _ & _ & _ & _ & Ei & _ & _ & Ek & Hm).
  assert (∀ n q, w_inbound w !! n = Some q → heap_items (q_queue q) = []) as Hq.
  { intros n q. rewrite Ei. apply inbound_queues_empty. }
  assert (safe w) as Hs.
  { split; rewrite ?En, ?El, ?Et.
    - intros n nd x (_ & -> & _)%Hn. by intros ?%not_elem_of_nil.
    - intros l lk p (_ & _ & _ & -> & _)%Hl. by intros ?%not_elem_of_nil.
    - intros l lk p (_ & _ & _ & _ & ->)%Hl. simpl. rewrite heap_items_new. by intros ?%not_elem_of_nil.
    - intros l ph p. rewrite lookup_fmap. by intros (? & ? & ->)%fmap_Some.
    - intros n q p ->%Hq. by intros ?%not_elem_of_nil.
    - intros n q p nd ->%Hq. by intros ?%not_elem_of_nil.
    - intros n q. rewrite Ei, En. unfold inbound_queues. rewrite lookup_omap.
      intros (nd & -> & _)%bind_Some. by eexists. }
  enough (keeps_safe w w0) as (_ & E & Hk) by (rewrite E; auto). revert Hm.
  match goal with |- ?m w = _ → _ => enough (steps_in keeps_safe m) as Hk by apply Hk end.
  pose proof (λ e, event_safe (LinkEvent e)). pose proof (λ e, event_safe (NodeEvent e)). safe; done.
Qed.
End network.

(** The packet was sent to its destination, with its contents, by the host
    with its source address. *)
Definition was_sent (sent : list (node_ref * OwnedTransmit))
    (nodes : gmap node_ref (string * option SocketAddr)) (d : InTransitData) : Prop :=
  ∃ source t id, (source, t) ∈ sent ∧ nodes !! source = Some (id, Some (d_source_endpoint d)) ∧
    d_source_id d = id ∧ t_destination t = t_destination (d_transmit d) ∧
    t_contents t = t_contents (d_transmit d) ∧ t_segment_size t = t_segment_size (d_transmit d).

Lemma was_sent_payload sent nodes d d' :
  payload d = payload d' → was_sent sent nodes d → was_sent sent nodes d'.
Proof.
  intros [= E1 E2 E3 E4 E5 E6] (source & t & id & ? & ? & ? & ? & ? & ?). exists source, t, id.
  split_and!; congruence.
Qed.

(** C3: The network delivers only what was sent, unaltered and to the right host: in every
    execution, a packet that a host's socket receives was sent by the host with its source
    address, with the same contents, to the address of the receiving host. *)
Theorem network_delivers_what_was_sent {H} `{!BinaryHeap PrioritizedInTransitData above H} {R}
    (rng_f64 : R → f64 * R) (rng_u128 : R → Z * R) (timer_elapsed : Z → Z → bool)
    now spec events rng start b topo (w0 w w' : World H R) begin actions n meta_len bufs delivered d :
  initialize now spec events rng start b = Ok (topo, w0) →
  exec_all rng_f64 rng_u128 timer_elapsed topo begin actions w0 = Some w →
  poll_recv timer_elapsed n meta_len bufs w = Some (Some delivered, w') → d ∈ delivered →
  ∃ source t sender receiver,
    TrySend source t ∈ actions ∧
    w_nodes w0 !! source = Some sender ∧ n_udp_endpoint sender = Some (d_source_endpoint (dv_data d)) ∧
    w_nodes w0 !! n = Some receiver ∧ n_udp_endpoint receiver = Some (t_destination t) ∧
    t_contents (d_transmit (dv_data d)) = t_contents t.
Proof.
  intros Hi He Hr Hd.
  set (P := was_sent (sends actions) (identity <$> w_nodes w0)).
  pose proof (was_sent_payload (sends actions) (identity <$> w_nodes w0)) as HP.
  eapply (exec_all_safe _ _ _ _ P HP) in He as [Hs E]; [| |by apply (initialize_safe _ P) in Hi as []].
  2: { intros m t Hin d' id Hm Hid Ht. exists m, t, id. by rewrite Ht. }
  assert (∃ receiver, w_nodes w !! n = Some receiver) as [receiver Hn'].
  { unfold poll_recv in Hr.
    apply nm_bind_inv in Hr as ([] & w1 & Ha & Hr). apply nassert_inv in Ha as [_ ->].
    apply nm_bind_inv in Hr as (w1 & w2 & [= <- <-] & Hr).
    apply nm_bind_inv in Hr as (q & w1 & Hq & _). nm_inv_step Hq. by eapply sf_host. }
  destruct (poll_recv_safe _ P _ _ _ _ _ _ Hr Hs) as (_ & _ & Hp).
  destruct (Hp delivered d eq_refl Hd) as [(source & t & id & Hin & Hn & _ & E1 & E2 & _) Ha].
  apply list_elem_of_omap in Hin as (a & Hin & Ht). destruct a; simplify_eq.
  rewrite lookup_fmap in Hn. apply fmap_Some in Hn as (sender & Hsd & [= _ Hep]).
  destruct (fmap_facts_lookup _ _ _ _ _ E Hn') as (receiver0 & Hn0 & [= _ Er]).
  exists source, t, sender, receiver0. split_and!; try done.
  rewrite E1, <-(Ha _ Hn'). congruence.
Qed.

(** ** Witness *)
Definition carry_script : list Action := take 6 deliver_script.
Definition read_result : option (list DeliveredTransmit) * World net_heap net_rng :=
  default (None, no_world) (poll_recv net_timer 1%nat 1 [2000] (net_run carry_script)).
Definition read_packets : list DeliveredTransmit := default [] (fst read_result).
Definition no_delivery : DeliveredTransmit :=
  mkDelivered (mkData 0 false (mkSocketAddr (V4 0) 0) EmptyString net_packet 0) 0.
Definition read_first : DeliveredTransmit := hd no_delivery read_packets.

Lemma carry_executes :
  exec_all net_f64 net_u128 net_timer net_topo 0 carry_script net_world = Some (net_run carry_script).
Proof. vm_compute. reflexivity. Qed.

Lemma read_result_eq :
  poll_recv net_timer 1%nat 1 [2000] (net_run carry_script) = Some (Some read_packets, snd read_result).
Proof. vm_compute. reflexivity. Qed.

Lemma read_first_in : read_first ∈ read_packets.
Proof. vm_compute. left. Qed.

Lemma network_delivers_what_was_sent_witness :
  ∃ source t sender receiver, TrySend source t ∈ carry_script ∧
    w_nodes net_world !! source = Some sender ∧
    n_udp_endpoint sender = Some (d_source_endpoint (dv_data read_first)) ∧
    w_nodes net_world !! 1%nat = Some receiver ∧ n_udp_endpoint receiver = Some (t_destination t) ∧
    t_contents (d_transmit (dv_data read_first)) = t_contents t.
Proof.
  exact (network_delivers_what_was_sent net_f64 net_u128 net_timer 0 net_spec net_events (net_seed 0) 0 false
    net_topo net_world (net_run carry_script) (snd read_result) 0 carry_script 1%nat 1 [2000]
    read_packets read_first net_initialize carry_executes read_result_eq read_first_in).
Defined.
