(* ===== verification/Tasks.v ===== *)
(** * Programs that run over the network

    The tools of the workbench spawn tasks that share a state of their own and
    use the sockets of two hosts, while the network takes its own steps.  This
    file has what their models share: actions of the network and of the
    application in one state, what they do to the clock and to the log, and what
    a host sends and receives. *)

From stdpp Require Import relations.
From S2P Require Import Prelude Float Ip Spec Event Transmit SimStep Heap InboundQueue Node.
From S2P Require Import Link Network NetworkInit NetworkInv NetworkArrivals Sockets Connectivity.
From S2P Require Import NetworkContents.

(** ** The network and the state of an application *)
Section state.
Context {W S : Type}.

Definition in_network {A} (m : NM W A) : NM (W * S) A :=
  λ '(w, s), '(a, w') ← m w; Some (a, (w', s)).
Definition get_state : NM (W * S) S := λ '(w, s), Some (s, (w, s)).
Definition put_state (s : S) : NM (W * S) () := λ '(w, _), Some ((), (w, s)).

Lemma in_network_inv {A} (m : NM W A) w s a y :
  in_network m (w, s) = Some (a, y) → ∃ w', m w = Some (a, w') ∧ y = (w', s).
Proof. unfold in_network. destruct (m w) as [[a' w']|]; [|done]. intros [= <- <-]. by exists w'. Qed.
End state.

Section tasks.
Context {H : Type} {HH : BinaryHeap PrioritizedInTransitData above H}.
Context {R : Type} (rng_f64 : R → f64 * R) (rng_u128 : R → Z * R).
Context (timer_elapsed : Z → Z → bool) (topo : Topology).

Abbreviation world := (World H R).

(** The steps of the network itself. *)
Definition network_task {S} (start : Z) (a : Action) : NM (world * S) () :=
  _ ← nassert (background a);
  in_network (λ w, w' ← exec rng_f64 rng_u128 timer_elapsed topo start a w; Some ((), w')).

Lemma network_task_inv {S} start a (w : world) (s : S) y :
  network_task start a (w, s) = Some ((), y) →
  ∃ w', background a = true ∧ exec rng_f64 rng_u128 timer_elapsed topo start a w = Some w' ∧ y = (w', s).
Proof.
  intros Hm. unfold network_task in Hm. apply nm_bind_inv in Hm as ([] & x1 & Hx & Hm).
  apply nassert_inv in Hx as [Hb ->]. apply in_network_inv in Hm as (w' & Hm & ->).
  destruct (exec _ _ _ _ start a w) as [w1|]; [|done]. injection Hm as ->. by exists w'.
Qed.

(** ** The clock and the log *)
Lemma network_now {A K} (m : NM world A) w a w' :
  steps_in (log_extends_by K) m → m w = Some (a, w') → w_now w' = w_now w.
Proof. intros Hm Hw. by apply Hm in Hw as [-> _]. Qed.

(** The network does not deliver packets to applications by itself. *)
Lemma exec_log start a (w w' : world) :
  background a = true → exec rng_f64 rng_u128 timer_elapsed topo start a w = Some w' →
  w_now w ≤ w_now w' ∧ ∃ l, w_log w' = w_log w ++ l ∧
    Forall (λ s, delivered_packet (step_kind s) = None) l.
Proof.
  assert (∀ {A} (m : NM world A), steps_in (log_extends_by quiet_kind) m → snd <$> m w = Some w' → w_now w ≤ w_now w' ∧
    ∃ l, w_log w' = w_log w ++ l ∧ Forall (λ s, delivered_packet (step_kind s) = None) l) as Hgo.
  { intros A m Hm ([u w1] & (Hn & ks & Hks & Hl)%Hm & ->)%fmap_Some. simpl. split; [lia|]. eexists. split; [done|].
    apply Forall_fmap. eapply Forall_impl; [exact Hks|]. by intros k []. }
  destruct a as [n|l|l| |n t|n m b|d]; simpl; try done; intros _.
  - apply Hgo, run_buffer_extends.
  - apply Hgo, run_link_extends.
  - apply Hgo, run_forwarder_extends.
  - apply Hgo, run_events_extends.
  - intros [= <-]. simpl. split; [lia|]. exists []. by rewrite app_nil_r.
Qed.

(** Reading a socket is a step of the network. *)
Lemma receive_exec n bm (w : world) res bm' w' :
  receive timer_elapsed n bm w = Some ((res, bm'), w') →
  ∃ delivered, poll_recv timer_elapsed n (Z.of_nat (length (bm_meta bm))) (buffer_sizes bm) w =
    Some (delivered, w').
Proof.
  unfold receive, receive_raw. intros Hm.
  apply nm_bind_inv in Hm as ([r bm1] & w1 & Hm & Hr).
  apply nm_bind_inv in Hm as (ds & w2 & Hp & Hm). exists ds.
  assert (w1 = w2) as ->.
  { destruct ds; [|by injection Hm as _ _ ->]. apply nm_bind_inv in Hm as ([] & w3 & Hx & Hm).
    nm_inv_step Hx. by injection Hm as _ _ ->. }
  destruct r; [|by injection Hr as _ _ <-]. apply nm_bind_inv in Hr as (x & w3 & Hx & Hr).
  nm_inv_step Hx. by injection Hr as _ _ <-.
Qed.

Lemma receive_now n bm (w : world) res w' :
  receive timer_elapsed n bm w = Some (res, w') → w_now w' = w_now w.
Proof.
  destruct res as [res bm']. intros (ds & Hp)%receive_exec.
  by eapply network_now; [apply poll_recv_extends|].
Qed.

(** The packets received are those logged as delivered. *)
Definition delivered_step (t : Z) (id : string) (d : DeliveredTransmit) : SimulationStep :=
  mkStep t (PacketDeliveredToApplication
    (mkGeneric (d_id (dv_data d)) (d_number (dv_data d)) (d_size (dv_data d)) id)).

Lemma poll_recv_log n nd slots sizes (w : world) res w' :
  (∀ d t, timer_elapsed d t = true → d ≤ t) →
  w_nodes w !! n = Some nd → (0 < slots)%nat → socket_fits n slots w →
  poll_recv timer_elapsed n (Z.of_nat slots) sizes w = Some (res, w') →
  w_log w' = w_log w ++ (delivered_step (w_now w) (n_id nd) <$> default [] res).
Proof.
  intros Helapsed Hn Hpos Hfits Hp. destruct res as [ds|].
  - by destruct (poll_recv_reads _ Helapsed _ _ _ _ _ _ _ Hn Hpos Hfits Hp) as (_ & _ & _ & _ & _ & _ & _ & _ & ->).
  - simpl. rewrite app_nil_r. unfold poll_recv in Hp.
    apply nm_bind_inv in Hp as ([] & w1 & Ha & Hp). apply nassert_inv in Ha as [_ ->].
    apply nm_bind_inv in Hp as (w1 & w2' & [= <- <-] & Hp).
    apply nm_bind_inv in Hp as (q & w1 & Hq & Hp). nm_inv_step Hq.
    apply nm_bind_inv in Hp as ([[r f'] q'] & w1 & Hpoll & Hp). nm_inv_step Hpoll.
    apply nm_bind_inv in Hp as ([] & w1 & [= <-] & Hp).
    destruct r as [|d|]; [by injection Hp as <-| |done].
    by apply nm_bind_inv in Hp as ([] & w1 & _ & [=]).
Qed.

(** ** The steps of the tasks are steps of the network *)
Abbreviation reach := (Reach rng_f64 rng_u128 timer_elapsed topo).

Lemma exec_reach start a (w w' : world) :
  exec rng_f64 rng_u128 timer_elapsed topo start a w = Some w' → reach start w w'.
Proof. intros He%exec_step. by apply rtc_once. Qed.

Lemma receive_reach start n bm (w : world) res w' :
  receive timer_elapsed n bm w = Some (res, w') → reach start w w'.
Proof. destruct res. intros [ds Hp]%receive_exec. eapply rtc_once, StepRecv, Hp. Qed.

Lemma try_send_reach start n t (w w' : world) :
  try_send rng_f64 rng_u128 n t w = Some ((), w') → reach start w w'.
Proof. intros Hs. eapply rtc_once, StepSend, Hs. Qed.

(** ** What a host sends and receives *)
Definition endpoint_of (w : world) (n : node_ref) (e : SocketAddr) : Prop :=
  ∃ id, (identity <$> w_nodes w) !! n = Some (id, Some e).

Lemma endpoint_of_identity (w w' : world) n e :
  identity <$> w_nodes w' = identity <$> w_nodes w → endpoint_of w n e → endpoint_of w' n e.
Proof. intros E [id ?]. exists id. by rewrite E. Qed.

(** A host that was found by its address. *)
Lemma host_endpoint now spec events (rng : R) start b w0 ip n (w : world) :
  initialize now spec events rng start b = Ok (topo, w0) → get_host topo ip w0 = Some (n, w) →
  endpoint_of w0 n (mkSocketAddr ip HOST_PORT) ∧ n ∈ dom (w_inbound w0).
Proof.
  intros Hi (Hip & nd & Hn & He)%get_host_inv. split.
  - exists (n_id nd). rewrite lookup_fmap, Hn. simpl. unfold identity.
    by rewrite (initialize_endpoint _ _ _ _ _ _ _ _ _ _ _ Hi Hip Hn He).
  - destruct (initialize_arrived _ _ _ _ _ _ _ _ Hi) as [_ Hq]. by eapply Hq.
Qed.

(** A host is found again. *)
Lemma get_host_again ip n e (w : world) :
  nodes_by_addr topo !! ip = Some n → endpoint_of w n e → get_host topo ip w = Some (n, w).
Proof.
  intros Hip [i Hn]. rewrite lookup_fmap in Hn. apply fmap_Some in Hn as (nd & Hn & [= _ He]).
  unfold get_host, get_node, nsome, nassert, nget. cbv [mbind NM_bind]. rewrite Hip, Hn, <-He. done.
Qed.

Lemma get_host_reached now spec events (rng : R) start b w0 ip n (w w' : world) :
  initialize now spec events rng start b = Ok (topo, w0) → reach start w0 w →
  get_host topo ip w0 = Some (n, w') → get_host topo ip w = Some (n, w).
Proof.
  intros Hi Hr Hg. edestruct host_endpoint as [He _]; [exact Hi|exact Hg|].
  apply get_host_inv in Hg as [Hip _]. eapply get_host_again; [exact Hip|].
  eapply endpoint_of_identity; [|exact He]. by apply (reach_arrived _ _ _ _ _ _ _ Hr).
Qed.

Context (Helapsed : ∀ d n, timer_elapsed d n = true → d ≤ n).
Context (P : InTransitData → Prop) (HP : ∀ d d', payload d = payload d' → P d → P d').

(** A host receives packets that fit into its buffers and that are addressed to it. *)
Lemma host_receive (w : world) n id e slots size bm :
  safe P w → (∀ d, P d → (length (t_contents (d_transmit d)) ≤ size)%nat) → (0 < slots)%nat →
  shaped slots size bm → socket_fits n slots w → n ∈ dom (w_inbound w) →
  (identity <$> w_nodes w) !! n = Some (id, Some e) →
  ∃ res bm' w' ds, receive timer_elapsed n bm w = Some ((res, bm'), w') ∧ shaped slots size bm' ∧
    socket_fits n slots w' ∧ (∀ m, m ≠ n → w_sockets w' !! m = w_sockets w !! m) ∧
    identity <$> w_nodes w' = identity <$> w_nodes w ∧ dom (w_inbound w') = dom (w_inbound w) ∧
    safe P w' ∧ res = option_map packets_of ds ∧
    w_log w' = w_log w ++ (delivered_step (w_now w) id <$> default [] ds) ∧
    ∀ d, d ∈ default [] ds → P (dv_data d) ∧ t_destination (d_transmit (dv_data d)) = e.
Proof using Helapsed.
  intros Hs Hsize Hpos Hsh Hfits [q Hq]%elem_of_dom Hn.
  rewrite lookup_fmap in Hn. apply fmap_Some in Hn as (nd & Hn & [= -> Hep]).
  destruct (receive_total timer_elapsed Helapsed n nd q slots size bm w) as
    (res & bm' & ds & w' & Hr & Hsh' & Hfits' & -> & Hp & Hother); [done..| |].
  { intros p Hp. eapply Hsize, (sf_inbound _ _ Hs); done. }
  destruct (poll_recv_safe _ _ _ _ _ _ _ _ Hp Hs) as (E & Hs' & Hds).
  destruct (poll_recv_arrived _ _ _ _ _ _ _ Hp) as [Ed _ _].
  exists (option_map packets_of ds), bm', w', ds. split_and!; try done.
  - by eapply poll_recv_log.
  - intros d Hin. destruct ds as [ds|]; [|by apply not_elem_of_nil in Hin].
    destruct (Hds ds d eq_refl Hin) as [HPd Hdest]. split; [done|].
    specialize (Hdest nd Hn). rewrite <-Hep in Hdest. by injection Hdest.
Qed.

(** The packets of [receive]. *)
Lemma received_packet ds p :
  p ∈ default [] (option_map packets_of ds) → ∃ d, d ∈ default [] ds ∧ p = packet_of d.
Proof.
  destruct ds as [ds|]; [|by intros ?%not_elem_of_nil].
  intros (d & -> & Hd)%list_elem_of_fmap. by exists d.
Qed.

(** A host sends a packet. *)
Lemma host_send (w : world) n e t w' :
  endpoint_of w n e → (∀ d, d_source_endpoint d = e → d_transmit d = t → P d) →
  try_send rng_f64 rng_u128 n t w = Some ((), w') →
  keeps_safe P w w' ∧ dom (w_inbound w') = dom (w_inbound w).
Proof using HP.
  intros [id Hn] Ht Hm. split; [|by destruct (try_send_arrived _ _ _ _ _ _ _ Hm) as [Ed _ _]].
  apply (try_send_safe _ _ P HP) in Hm; [done|]. intros d nd Hnd Hep Hid Hd. apply Ht; [|done].
  rewrite lookup_fmap, Hnd in Hn. injection Hn as _ Hn. rewrite Hep in Hn. by injection Hn.
Qed.
End tasks.
