(* ===== verification/Crossing.v ===== *)
(** * What the connectivity check reports

    Before a simulation starts, [assert_connectivity_between_hosts] runs next to
    the tasks of the network, when no socket exists yet: nobody else sends.  The
    times it returns are those at which a packet of each host arrived at the
    other one. *)

From Stdlib Require Import Init.Byte.
From stdpp Require Import relations.
From S2P Require Import Prelude Float Ip Spec Event Transmit SimStep Heap InboundQueue Node.
From S2P Require Import Link Network NetworkInit NetworkInv NetworkSteady NetworkStart NetworkArrivals.
From S2P Require Import NetworkExample Connectivity NetworkContents Tasks.

Section check.
Context {H : Type} {HH : BinaryHeap PrioritizedInTransitData above H}.
Context {R : Type} (rng_f64 : R → f64 * R) (rng_u128 : R → Z * R).
Context (timer_elapsed : Z → Z → bool) (topo : Topology) (host_a host_b : node_ref) (begin : Z).

Abbreviation world := (World H R).
Abbreviation state := (CheckPhase * World H R)%type.

(** The check and the tasks of the network, which neither send nor receive. *)
Inductive CheckAlone : state → state → Prop :=
  | AloneNetwork a phase w w' :
      background a = true → exec rng_f64 rng_u128 timer_elapsed topo begin a w = Some w' →
      CheckAlone (phase, w) (phase, w')
  | AloneCheck phase w phase' w' :
      run_check rng_f64 rng_u128 timer_elapsed host_a host_b phase w = Some (phase', w') →
      CheckAlone (phase, w) (phase', w').

(** Packet [d] is in the queue of host [n]. *)
Definition queued_at (w : world) (n : node_ref) (d : InTransitData) : Prop :=
  ∃ q p, w_inbound w !! n = Some q ∧ p ∈ heap_items (q_queue q) ∧ p_data p = d.

(** It was, at some point of the execution from [s0] to [s]. *)
Definition was_queued_at (s0 s : state) (n : node_ref) (d : InTransitData) : Prop :=
  ∃ s1, rtc CheckAlone s0 s1 ∧ rtc CheckAlone s1 s ∧ queued_at s1.2 n d.

Lemma was_queued_later s0 s s' n d : CheckAlone s s' → was_queued_at s0 s n d → was_queued_at s0 s' n d.
Proof. intros Hs (s1 & H1 & H2 & Hq). exists s1. split_and!; [done| |done]. by eapply rtc_r. Qed.

(** *** The polls *)
Section packets.
Context (P : InTransitData → Prop).

(** A poll takes packets from the queue, and the first one it returns was in it. *)
Lemma check_poll_takes n deadline f (w w' : world) r :
  check_poll timer_elapsed n deadline f w = Some (r, w') →
  w_log w' = w_log w ∧ w_nodes w' = w_nodes w ∧ (safe P w → safe P w') ∧
  (∀ m d, queued_at w' m d → queued_at w m d) ∧
  ∀ x rest, r = inr (Some (x :: rest)) → queued_at w n (dv_data x).
Proof.
  unfold check_poll. intros Hm.
  apply nm_bind_inv in Hm as (w1 & w2 & [= <- <-] & Hm).
  apply nm_bind_inv in Hm as (q & w1 & Hq & Hm). nm_inv_step Hq.
  apply nm_bind_inv in Hm as ([[res f'] q'] & w1 & Hp & Hm). nm_inv_step Hp.
  apply nm_bind_inv in Hm as ([] & w1 & [= <-] & Hm).
  apply poll_takes in Hp as (new & Hperm & _ & Hres).
  set (w1 := set_w_inbound (<[n := q']> (w_inbound w)) w) in *.
  assert (safe P w → safe P w1) as Hsafe.
  { apply put_inbound_safe with (q := q); [done|]. intros p Hp. left. rewrite Hperm, elem_of_app. by right. }
  assert (∀ m d, queued_at w1 m d → queued_at w m d) as Hqueued.
  { intros m d (q1 & p & Hq1 & Hp & Hd). simpl in Hq1.
    apply lookup_insert_Some in Hq1 as [[<- <-]|[_ Hm1]].
    - exists q, p. split_and!; [done| |done]. rewrite Hperm, elem_of_app. by right.
    - by exists q1, p. }
  destruct res as [|delivered|]; [..|done]; injection Hm as <- <-.
  - split_and!; try done. intros x rest. by case_match.
  - split_and!; try done. destruct Hres as [[= ->]|[[[=] _]|[=]]]. intros x rest [= Hx].
    destruct new as [|p new]; [done|]. injection Hx as <- _. exists q, p. split_and!; [done| |done].
    rewrite Hperm. left.
Qed.

Lemma check_arrival_inv n d (w w' : world) t :
  check_arrival n d w = Some (t, w') → w' = w ∧ ∃ x rest nd, d = x :: rest ∧ w_nodes w !! n = Some nd ∧
    get_packet_arrived_at (w_log w) (d_id (dv_data x)) (n_id nd) = Some t.
Proof.
  unfold check_arrival. intros Hm.
  apply nm_bind_inv in Hm as (x & w1 & Hx & Hm). nm_inv_step Hx.
  apply nm_bind_inv in Hm as (nd & w1 & Hn & Hm). unfold get_node in Hn. nm_inv_step Hn.
  apply nm_bind_inv in Hm as (w1 & w2 & [= <- <-] & Hm). nm_inv_step Hm.
  split; [done|]. destruct d as [|y rest]; [done|]. injection Hx as ->. by exists x, rest, nd.
Qed.

(** The result of the check, from the packets that were delivered. *)
Definition reported (w : world) (Q : node_ref → InTransitData → Prop) (n : node_ref) (t : Z) : Prop :=
  ∃ d nd, Q n d ∧ w_nodes w !! n = Some nd ∧ get_packet_arrived_at (w_log w) (d_id d) (n_id nd) = Some t.

Definition phase_reports (w : world) (Q : node_ref → InTransitData → Prop) (phase : CheckPhase) : Prop :=
  match phase with
  | CheckBToA (Some (x :: _)) _ _ => Q host_b (dv_data x)
  | CheckDone (Connected t1 t2) => reported w Q host_b t1 ∧ reported w Q host_a t2
  | _ => True
  end.

Lemma check_finish_reports (w w' : world) Q a_to_b b_to_a phase :
  check_finish host_a host_b a_to_b b_to_a w = Some (phase, w') →
  (∀ x rest, a_to_b = Some (x :: rest) → Q host_b (dv_data x)) →
  (∀ x rest, b_to_a = Some (x :: rest) → Q host_a (dv_data x)) →
  w' = w ∧ phase_reports w Q phase.
Proof.
  intros Hm Ha Hb. destruct a_to_b as [d1|], b_to_a as [d2|]; simpl in Hm; try by injection Hm as <- <-.
  apply nm_bind_inv in Hm as (t1 & w1 & H1 & Hm).
  apply check_arrival_inv in H1 as (-> & x1 & l1 & nd1 & -> & Hn1 & Ht1).
  apply nm_bind_inv in Hm as (t2 & w2 & H2 & [= <- <-]).
  apply check_arrival_inv in H2 as (-> & x2 & l2 & nd2 & -> & Hn2 & Ht2).
  split; [done|]. split; [exists (dv_data x1), nd1|exists (dv_data x2), nd2]; by eauto.
Qed.

Lemma poll_b_to_a_reports (w w' : world) Q a_to_b deadline f phase :
  check_poll_b_to_a timer_elapsed host_a host_b a_to_b deadline f w = Some (phase, w') →
  (∀ x rest, a_to_b = Some (x :: rest) → Q host_b (dv_data x)) →
  (∀ n d, queued_at w n d → Q n d) →
  w_log w' = w_log w ∧ w_nodes w' = w_nodes w ∧ (safe P w → safe P w') ∧ phase_reports w' Q phase.
Proof.
  intros Hm Ha Hq. unfold check_poll_b_to_a in Hm. apply nm_bind_inv in Hm as (r & w1 & Hp & Hm).
  apply check_poll_takes in Hp as (El & En & Hs & _ & Hd). destruct r as [f'|b_to_a].
  - injection Hm as <- <-. split_and!; try done. simpl. destruct a_to_b as [[|x rest]|]; [done| |done].
    by apply (Ha x rest).
  - apply (check_finish_reports w1 w' Q) in Hm as [-> Hr]; [done|done|].
    intros x rest ->. by apply Hq, (Hd x rest).
Qed.

Lemma poll_a_to_b_reports (w w' : world) Q deadline f phase :
  check_poll_a_to_b timer_elapsed host_a host_b deadline f w = Some (phase, w') →
  (∀ n d, queued_at w n d → Q n d) →
  w_log w' = w_log w ∧ w_nodes w' = w_nodes w ∧ (safe P w → safe P w') ∧ phase_reports w' Q phase.
Proof.
  intros Hm Hq. unfold check_poll_a_to_b in Hm. apply nm_bind_inv in Hm as (r & w1 & Hp & Hm).
  apply check_poll_takes in Hp as (El & En & Hs & Hback & Hd). destruct r as [f'|a_to_b].
  - by injection Hm as <- <-.
  - apply nm_bind_inv in Hm as (t & w2 & [= <- <-] & Hm).
    apply (poll_b_to_a_reports w1 w' Q) in Hm as (El' & En' & Hs' & Hr).
    + split_and!; [congruence..|auto|done].
    + intros x rest ->. by apply Hq, (Hd x rest).
    + auto.
Qed.
End packets.

(** *** The packets of the check *)
Context (id_a id_b : string) (ep_a ep_b : SocketAddr).

(** A packet of one host for the other. *)
Definition check_packet (d : InTransitData) : Prop :=
  t_contents (d_transmit d) = [Byte.x2a] ∧
  (d_source_id d = id_a ∧ d_source_endpoint d = ep_a ∧ t_destination (d_transmit d) = ep_b ∨
   d_source_id d = id_b ∧ d_source_endpoint d = ep_b ∧ t_destination (d_transmit d) = ep_a).

Lemma check_packet_payload d d' : payload d = payload d' → check_packet d → check_packet d'.
Proof. intros [= E1 E2 E3 E4 E5 E6]. unfold check_packet. by rewrite E1, E2, E4, E5. Qed.

Definition hosts_are (w : world) : Prop :=
  (identity <$> w_nodes w) !! host_a = Some (id_a, Some ep_a) ∧
  (identity <$> w_nodes w) !! host_b = Some (id_b, Some ep_b).

Lemma identity_lookup (w : world) n id ep nd :
  (identity <$> w_nodes w) !! n = Some (id, ep) → w_nodes w !! n = Some nd → n_id nd = id ∧ n_udp_endpoint nd = ep.
Proof. intros Hi Hn. rewrite lookup_fmap, Hn in Hi. by injection Hi. Qed.

Lemma check_send_packets (w w' : world) u source target ids eps idt ept :
  (identity <$> w_nodes w) !! source = Some (ids, Some eps) →
  (identity <$> w_nodes w) !! target = Some (idt, Some ept) →
  (ids = id_a ∧ eps = ep_a ∧ ept = ep_b ∨ ids = id_b ∧ eps = ep_b ∧ ept = ep_a) →
  check_send rng_f64 rng_u128 source target w = Some (u, w') → keeps_safe check_packet w w'.
Proof.
  intros Hs Ht Heq Hm. unfold check_send in Hm.
  apply nm_bind_inv in Hm as (nt & w1 & Hn & Hm). unfold get_node in Hn. nm_inv_step Hn.
  apply nm_bind_inv in Hm as (e & w1 & He & Hm). nm_inv_step He.
  apply nm_bind_inv in Hm as (d & w1 & Hd & Hm). transitivity w1; [by eapply in_transit_data_safe|].
  apply in_transit_data_payload in Hd as (nd & Hnd & Hep & Hid & Htr).
  destruct (identity_lookup _ _ _ _ _ Hs Hnd) as [Es1 Es2]. destruct (identity_lookup _ _ _ _ _ Ht Hn) as [_ Et].
  eapply (forward_safe _ _ check_packet check_packet_payload); [|exact Hm].
  split; [by rewrite Htr|]. rewrite Htr. simpl. rewrite Hep in Es2. injection Es2 as Es2.
  rewrite He in Et. injection Et as ->. rewrite Es2, Hid, Es1. destruct Heq as [(? & ? & ?)|(? & ? & ?)]; auto.
Qed.

Lemma hosts_keep P (w w' : world) : keeps_safe P w w' → hosts_are w → hosts_are w'.
Proof. intros (E & _ & _). unfold hosts_are. by rewrite E. Qed.

Lemma check_attempt_packets sent (w w' : world) phase :
  hosts_are w → check_attempt rng_f64 rng_u128 host_a host_b sent w = Some (phase, w') →
  keeps_safe check_packet w w' ∧ ∃ d, phase = CheckSleep (S sent) d.
Proof.
  intros Hh Hm. unfold check_attempt in Hm.
  apply nm_bind_inv in Hm as ([] & w1 & H1 & Hm).
  apply (check_send_packets _ _ _ _ _ id_a ep_a id_b ep_b) in H1; [|apply Hh|apply Hh|by left; split_and!].
  pose proof (hosts_keep _ _ _ H1 Hh) as Hh1.
  apply nm_bind_inv in Hm as ([] & w2 & H2 & Hm).
  apply (check_send_packets _ _ _ _ _ id_b ep_b id_a ep_a) in H2; [|apply Hh1|apply Hh1|by right; split_and!].
  apply nm_bind_inv in Hm as (t & w3 & [= <- <-] & [= <- <-]). split; [by transitivity w1|by eexists].
Qed.

(** *** Executions *)
Record alone_inv (s0 s : state) : Prop := mkAloneInv {
  ai_reach : rtc CheckAlone s0 s;
  ai_safe : safe check_packet s.2;
  ai_hosts : hosts_are s.2;
  ai_phase : phase_reports s.2 (was_queued_at s0 s) s.1;
}.

Lemma reported_later (w w' : world) (Q Q' : node_ref → InTransitData → Prop) phase :
  (∀ n d, Q n d → Q' n d) → identity <$> w_nodes w' = identity <$> w_nodes w → w_log w `prefix_of` w_log w' →
  phase_reports w Q phase → phase_reports w' Q' phase.
Proof.
  intros HQ E Hl. assert (∀ n t, reported w Q n t → reported w' Q' n t) as Hrep.
  { intros n t (d & nd & Hd & Hn & Ht). symmetry in E.
    destruct (fmap_facts_lookup _ _ _ _ _ E Hn) as (nd' & Hn' & [= Eid _]). exists d, nd'.
    split_and!; [by apply HQ|done|]. rewrite <-Eid. by eapply arrived_at_grows. }
  destruct phase as [| | |[[|x l]|] dl f|[t1 t2|]]; simpl; try done; [by apply HQ|]. intros []. split; auto.
Qed.

Lemma run_check_reports s0 s phase' (w' : world) :
  alone_inv s0 s → run_check rng_f64 rng_u128 timer_elapsed host_a host_b s.1 s.2 = Some (phase', w') →
  safe check_packet w' ∧ hosts_are w' ∧ phase_reports w' (was_queued_at s0 s) phase'.
Proof.
  intros [Hr Hs Hh Hp] Hm. destruct s as [phase w]. simpl in *. unfold run_check in Hm.
  apply nm_bind_inv in Hm as (t & w1 & [= <- <-] & Hm).
  assert (∀ n d, queued_at w n d → was_queued_at s0 (phase, w) n d) as Hq by (intros n d Hd; by exists (phase, w)).
  assert (∀ sent, check_attempt rng_f64 rng_u128 host_a host_b sent w = Some (phase', w') →
    safe check_packet w' ∧ hosts_are w' ∧ phase_reports w' (was_queued_at s0 (phase, w)) phase') as Hattempt.
  { intros sent (Hk & d & ->)%check_attempt_packets; [|done]. split_and!; [by apply Hk|by eapply hosts_keep|done]. }
  assert (w_nodes w' = w_nodes w → hosts_are w') as Hhosts by (intros E; unfold hosts_are; by rewrite E).
  destruct phase as [|sent d|d f|a d f|r]; simpl in Hm.
  - by apply (Hattempt 0%nat).
  - destruct (timer_elapsed d (w_now w)); [|by injection Hm as <- <-].
    case_match; [by apply (Hattempt sent)|].
    destruct (poll_a_to_b_reports check_packet _ _ (was_queued_at s0 (CheckSleep sent d, w)) _ _ _ Hm Hq) as (_ & En & Hs' & Hrep).
    split_and!; auto.
  - destruct (poll_a_to_b_reports check_packet _ _ (was_queued_at s0 (CheckAToB d f, w)) _ _ _ Hm Hq) as (_ & En & Hs' & Hrep).
    split_and!; auto.
  - destruct (poll_b_to_a_reports check_packet _ _ (was_queued_at s0 (CheckBToA a d f, w)) _ _ _ _ Hm) as (_ & En & Hs' & Hrep);
      [by intros x rest ->|done|]. split_and!; auto.
  - by injection Hm as <- <-.
Qed.

Lemma alone_step_inv s0 s s' : CheckAlone s s' → alone_inv s0 s → alone_inv s0 s'.
Proof.
  intros Hstep Hi. pose proof Hi as [Hr Hs Hh Hp].
  pose proof (λ n d, was_queued_later s0 s s' n d Hstep) as Hlater.
  assert (rtc CheckAlone s0 s') as Hr' by (by eapply rtc_r).
  destruct Hstep as [a phase w w' Hbg Hm|phase w phase' w' Hm]; simpl in *.
  - pose proof (step_log _ _ _ _ _ _ _ (exec_step _ _ _ _ _ _ _ _ Hm)) as [Hl _].
    apply (exec_safe _ _ _ _ check_packet check_packet_payload) in Hm as (E & Hs' & _); [|by intros ? ? ->|done].
    split; [done|done| |by eapply reported_later]. unfold hosts_are. simpl. by rewrite E.
  - destruct (run_check_reports s0 (phase, w) phase' w' Hi Hm) as (Hs' & Hh' & Hrep).
    split; [done|done|done|]. simpl. by eapply reported_later; [exact Hlater| | |exact Hrep].
Qed.

Lemma alone_steps_inv s0 s : rtc CheckAlone s0 s → alone_inv s0 s0 → alone_inv s0 s.
Proof.
  intros Hr Hi. revert s Hr. apply (rtc_ind_r (alone_inv s0) s0); [done|]. intros s1 s2 _ Hs Hx.
  by apply (alone_step_inv s0 s1).
Qed.
End check.

Section theorem.
Context {H : Type} {HH : BinaryHeap PrioritizedInTransitData above H} {R : Type}.
Context (rng_f64 : R → f64 * R) (rng_u128 : R → Z * R) (timer_elapsed : Z → Z → bool).
Context (topo : Topology) (w0 : World H R) (host_a host_b : node_ref) (begin : Z).

Abbreviation alone := (CheckAlone rng_f64 rng_u128 timer_elapsed topo host_a host_b begin).

(** A packet of the host with address [source], for the host [target] with address [destination], was
    delivered to that host's queue in the execution up to [s], and [t] is the time at which the log
    says that it first arrived there. *)
Definition crossed (s : CheckPhase * World H R) (source destination : IpAddr) (target : node_ref) (t : Z) : Prop :=
  ∃ d nd pre k post,
    was_queued_at rng_f64 rng_u128 timer_elapsed topo host_a host_b begin (CheckStart, w0) s target d ∧
    d_source_endpoint d = mkSocketAddr source HOST_PORT ∧
    t_destination (d_transmit d) = mkSocketAddr destination HOST_PORT ∧ t_contents (d_transmit d) = [Byte.x2a] ∧
    w_nodes s.2 !! target = Some nd ∧ n_udp_endpoint nd = Some (mkSocketAddr destination HOST_PORT) ∧
    w_log s.2 = pre ++ mkStep t (PacketInNode k) :: post ∧ in_packet_id k = d_id d ∧ in_node_id k = n_id nd ∧
    get_packet_arrived_at pre (d_id d) (n_id nd) = None.

(** C20: What the connectivity check reports, whatever the tasks of the network and the events do while it
    runs: if it succeeds, a packet that host A sent to host B was delivered to B's queue and a packet
    that B sent to A was delivered to A's, and the two times the check returns are those at which
    the log says that these packets first arrived at B and at A. *)
Theorem connectivity_arrivals now spec events rng start b ip_a ip_b w w' t1 t2 w_end :
  initialize now spec events rng start b = Ok (topo, w0) →
  get_host topo ip_a w0 = Some (host_a, w) → get_host topo ip_b w0 = Some (host_b, w') → ip_a ≠ ip_b →
  rtc alone (CheckStart, w0) (CheckDone (Connected t1 t2), w_end) →
  crossed (CheckDone (Connected t1 t2), w_end) ip_a ip_b host_b t1 ∧
  crossed (CheckDone (Connected t1 t2), w_end) ip_b ip_a host_a t2.
Proof.
  intros Hi Ha Hb Hne Hr.
  pose proof (host_endpoint _ _ _ _ _ _ _ _ _ _ _ Hi Ha) as [[ia Hia] _].
  pose proof (host_endpoint _ _ _ _ _ _ _ _ _ _ _ Hi Hb) as [[ib Hib] _].
  set (ea := mkSocketAddr ip_a HOST_PORT) in *. set (eb := mkSocketAddr ip_b HOST_PORT) in *.
  assert (ea ≠ eb) as Hep by (intros [= ?]; done).
  apply (alone_steps_inv _ _ _ _ _ _ _ ia ib ea eb) in Hr.
  2: { split; [done| |by split|done]. by apply (initialize_safe topo (check_packet ia ib ea eb)) in Hi as [? _]. }
  destruct Hr as [_ _ [Hia' Hib'] [H1 H2]]. simpl in *.
  assert (∀ n id e d (s : World H R), queued_at s n d → safe (check_packet ia ib ea eb) s →
    (identity <$> w_nodes s) !! n = Some (id, Some e) →
    t_destination (d_transmit d) = e ∧ check_packet ia ib ea eb d) as Hqueued.
  { intros n id e d s (q & p & Hq & Hp & <-) Hs Hn. rewrite lookup_fmap in Hn.
    apply fmap_Some in Hn as (nd & Hnd & [= _ He]). split; [|by eapply (sf_inbound _ _ Hs)].
    pose proof (sf_address _ _ Hs _ _ _ _ Hq Hp Hnd) as Hd. congruence. }
  assert (∀ s n d, was_queued_at rng_f64 rng_u128 timer_elapsed topo host_a host_b begin (CheckStart, w0) s n d →
    n = host_a ∨ n = host_b → check_packet ia ib ea eb d ∧
    t_destination (d_transmit d) = if decide (n = host_a) then ea else eb) as Hwas.
  { intros s n d (s1 & Hr1 & _ & Hq) Hn.
    apply (alone_steps_inv _ _ _ _ _ _ _ ia ib ea eb) in Hr1 as [_ Hs [Hx Hy] _].
    2: { split; [done| |by split|done]. by apply (initialize_safe topo (check_packet ia ib ea eb)) in Hi as [? _]. }
    case_decide as Hd; [subst n|destruct Hn as [->| ->]; [done|]].
    - by destruct (Hqueued _ _ _ _ _ Hq Hs Hx).
    - by destruct (Hqueued _ _ _ _ _ Hq Hs Hy). }
  assert (host_b ≠ host_a) as Hhosts by (intros E; rewrite E, Hia' in Hib'; injection Hib' as _ ?; done).
  split.
  - destruct H1 as (d & nd & Hd & Hn & (pre & k & post & El & Hk & Hkn & Hpre)%get_packet_arrived_at_first).
    destruct (Hwas _ _ _ Hd ltac:(by right)) as [[Hc Hp] Hdest]. rewrite decide_False in Hdest by done.
    exists d, nd, pre, k, post. destruct (identity_lookup _ _ _ _ _ Hib' Hn) as [_ ->].
    destruct Hp as [(_ & ? & ?)|(_ & _ & Hx)]; [by split_and!|congruence].
  - destruct H2 as (d & nd & Hd & Hn & (pre & k & post & El & Hk & Hkn & Hpre)%get_packet_arrived_at_first).
    destruct (Hwas _ _ _ Hd ltac:(by left)) as [[Hc Hp] Hdest]. rewrite decide_True in Hdest by done.
    exists d, nd, pre, k, post. destruct (identity_lookup _ _ _ _ _ Hia' Hn) as [_ ->].
    destruct Hp as [(_ & _ & Hx)|(_ & ? & ?)]; [congruence|by split_and!].
Qed.
End theorem.

(** ** Witness *)
Abbreviation alone_step := (CheckAlone net_f64 net_u128 net_timer net_topo 0%nat 1%nat 0).

Lemma alone_exec_steps l s s' :
  forallb (λ a, match a with Some a => background a | None => true end) l = true →
  check_exec_all l s = Some s' → rtc alone_step s s'.
Proof.
  unfold check_exec_all. revert s. induction l as [|a l IH]; intros s; simpl; [by intros _ [= ->]|].
  intros [Ha Hl]%andb_true_iff. destruct (check_exec s a) as [[phase1 w1]|] eqn:He.
  - intros Hf. eapply rtc_l; [|by apply IH]. destruct s as [phase w]. destruct a as [a|]; simpl in He.
    + destruct (exec _ _ _ _ _ _ _) as [w2|] eqn:Hx; [|done]. injection He as <- <-.
      by eapply AloneNetwork.
    + by apply AloneCheck.
  - intros Hf. exfalso. clear -Hf. induction l; [done|auto].
Qed.

Definition check_end : World net_heap net_rng := (check_result check_done).2.
Definition check_time : Z := from_secs 6000 + from_millis 6.

Lemma check_reached :
  rtc alone_step (CheckStart, net_world) (CheckDone (Connected check_time check_time), check_end).
Proof.
  apply (alone_exec_steps (attempts ++ cross ++ [None])); vm_compute; reflexivity.
Qed.

Lemma check_host_A : get_host net_topo (as_ip_addr host_A) net_world = Some (0%nat, net_world).
Proof. vm_compute. reflexivity. Qed.
Lemma check_host_B : get_host net_topo (as_ip_addr host_B) net_world = Some (1%nat, net_world).
Proof. vm_compute. reflexivity. Qed.

Lemma connectivity_arrivals_witness :
  crossed net_f64 net_u128 net_timer net_topo net_world 0%nat 1%nat 0
    (CheckDone (Connected check_time check_time), check_end) (as_ip_addr host_A) (as_ip_addr host_B) 1%nat check_time.
Proof.
  refine (proj1 (connectivity_arrivals net_f64 net_u128 net_timer net_topo net_world 0%nat 1%nat 0 0 net_spec
    net_events (net_seed 0) 0 false (as_ip_addr host_A) (as_ip_addr host_B) net_world net_world
    check_time check_time check_end net_initialize check_host_A check_host_B _ check_reached)).
  vm_compute. discriminate.
Defined.
