(* ===== verification/Ping.v ===== *)
(** * The UDP ping

    Models the tasks of [quinn-workbench/src/udp/ping.rs], run concurrently with
    the network: the server, which echoes the packets it receives, and the
    client, which sends numbered pings and reports each as received or lost.
    The reports are kept as data; the text that is printed is not modelled. *)

From Stdlib Require Import Init.Byte.
From stdpp Require Import relations.
From S2P Require Import Prelude Float Ip Spec Event Transmit SimStep Heap InboundQueue Node.
From S2P Require Import Link Network NetworkInit NetworkInv NetworkArrivals NetworkExample Sockets.
From S2P Require Import Connectivity NetworkContents Tasks Bytes.

(** ** [u64::to_le_bytes] and [u64::from_le_bytes] *)
Definition to_le_bytes (n : Z) : list byte := to_le 8 n.
(** [u64::from_le_bytes(payload.try_into().unwrap())] *)
Definition from_le_bytes (payload : list byte) : option Z :=
  if (length payload =? 8)%nat then Some (from_le payload) else None.

Lemma le_bytes_roundtrip n : 0 ≤ n ≤ u64_max → from_le_bytes (to_le_bytes n) = Some n.
Proof.
  intros Hn. unfold from_le_bytes, to_le_bytes. rewrite length_to_le. simpl Nat.eqb.
  cbv iota. f_equal. apply from_to_le. unfold u64_max in Hn. change (8 * Z.of_nat 8) with 64. lia.
Qed.

(** ** The state of the ping *)
Inductive PingReport : Type :=
  | PingLost (ping_nr ping_sent ping_lost : Z)
  | PingReceived (ping_nr ping_sent ping_received : Z).

(** [pg_sleep] is the timer of the sender, once it sleeps, and [pg_deadlines] has the tasks
    that wait for the deadline of a ping.  [pg_server_bufs] and
    [pg_client_bufs] are the [bufs_and_meta] of the server and the receiver. *)
Record Ping : Type := mkPing {
  pg_nr : Z;
  pg_sleep : option Z;
  pg_in_flight : gmap Z Z;
  pg_lost : list Z;
  pg_deadlines : list (Z * Z);
  pg_server_bufs : BufsAndMeta;
  pg_client_bufs : BufsAndMeta;
  pg_reports : list PingReport;
}.

Section ping.
Context {H : Type} {HH : BinaryHeap PrioritizedInTransitData above H}.
Context {R : Type} (rng_f64 : R → f64 * R) (rng_u128 : R → Z * R).
Context (timer_elapsed : Z → Z → bool) (topo : Topology).
Context (client_ip server_ip : IpAddr) (client server : node_ref) (deadline interval : Z).

Abbreviation world := (World H R).
Abbreviation M := (NM (world * Ping)).

Abbreviation get_ping := (get_state (W := world) (S := Ping)).
Abbreviation put_ping := (put_state (W := world) (S := Ping)).

Definition ping_init (default_meta : RecvMeta) : Ping :=
  mkPing 0 None ∅ [] [] (BufsAndMeta_new default_meta 1200 5) (BufsAndMeta_new default_meta 1200 5) [].

Definition ping_transmit (destination : IpAddr) (contents : list byte) : OwnedTransmit :=
  mkTransmit (mkSocketAddr destination HOST_PORT) None contents None.

(** An iteration of the sender: it sends a ping, spawns the task that waits
    for its deadline, and sleeps. *)
Definition ping_sender : M () :=
  s ← get_ping;
  t ← in_network now;
  if match pg_sleep s with Some d => timer_elapsed d t | None => true end then
    _ ← in_network (try_send rng_f64 rng_u128 client (ping_transmit server_ip (to_le_bytes (pg_nr s))));
    put_ping (mkPing (wrap64 (pg_nr s + 1)) (Some (t + interval)) (<[pg_nr s := t]> (pg_in_flight s))
      (pg_lost s) (pg_deadlines s ++ [(pg_nr s, t + deadline)]) (pg_server_bufs s)
      (pg_client_bufs s) (pg_reports s))
  else mret ().

(** A task that waits for the deadline of a ping. *)
Definition ping_deadline (task : nat) : M () :=
  s ← get_ping;
  t ← in_network now;
  match pg_deadlines s !! task with
  | Some (ping_nr, d) =>
      if timer_elapsed d t then
        let tasks := delete task (pg_deadlines s) in
        match pg_in_flight s !! ping_nr with
        | Some ping_sent =>
            put_ping (mkPing (pg_nr s) (pg_sleep s) (delete ping_nr (pg_in_flight s))
              (pg_lost s ++ [ping_nr]) tasks (pg_server_bufs s) (pg_client_bufs s)
              (pg_reports s ++ [PingLost ping_nr ping_sent t]))
        | None =>
            put_ping (mkPing (pg_nr s) (pg_sleep s) (pg_in_flight s) (pg_lost s) tasks
              (pg_server_bufs s) (pg_client_bufs s) (pg_reports s))
        end
      else mret ()
  | None => mret ()
  end.

(** One packet of the receiver. *)
Definition ping_received (packet : UdpPacket) : M () :=
  _ ← nassert (bool_decide (sa_ip (up_source_addr packet) = server_ip));
  ping_nr ← nsome (from_le_bytes (up_payload packet));
  s ← get_ping;
  t ← in_network now;
  match pg_in_flight s !! ping_nr with
  | Some ping_sent =>
      put_ping (mkPing (pg_nr s) (pg_sleep s) (delete ping_nr (pg_in_flight s)) (pg_lost s)
        (pg_deadlines s) (pg_server_bufs s) (pg_client_bufs s)
        (pg_reports s ++ [PingReceived ping_nr ping_sent t]))
  | None => mret ()
  end.

(** The receiver polls its socket. *)
Definition ping_receiver : M () :=
  s ← get_ping;
  '(packets, bufs) ← in_network (receive timer_elapsed client (pg_client_bufs s));
  _ ← put_ping (mkPing (pg_nr s) (pg_sleep s) (pg_in_flight s) (pg_lost s) (pg_deadlines s)
        (pg_server_bufs s) bufs (pg_reports s));
  nforeach ping_received (default [] packets).

(** The server echoes a packet. *)
Definition ping_echo (packet : UdpPacket) : M () :=
  _ ← nassert (bool_decide (sa_ip (up_source_addr packet) = client_ip));
  in_network (try_send rng_f64 rng_u128 server (ping_transmit client_ip (up_payload packet))).

Definition ping_server : M () :=
  s ← get_ping;
  '(packets, bufs) ← in_network (receive timer_elapsed server (pg_server_bufs s));
  _ ← put_ping (mkPing (pg_nr s) (pg_sleep s) (pg_in_flight s) (pg_lost s) (pg_deadlines s)
        bufs (pg_client_bufs s) (pg_reports s));
  nforeach ping_echo (default [] packets).

Inductive PingTask : Type :=
  | TaskNetwork (a : Action)
  | TaskSender
  | TaskDeadline (task : nat)
  | TaskReceiver
  | TaskServer.

(** The next step of a task; the network takes its own steps only. *)
Definition ping_task (start : Z) (task : PingTask) : M () :=
  match task with
  | TaskNetwork a => network_task rng_f64 rng_u128 timer_elapsed topo start a
  | TaskSender => ping_sender
  | TaskDeadline task => ping_deadline task
  | TaskReceiver => ping_receiver
  | TaskServer => ping_server
  end.

Definition PingStep (start : Z) (x y : world * Ping) : Prop :=
  ∃ task, ping_task start task x = Some ((), y).

(** ** Every ping is accounted for *)
Definition lost_nr (r : PingReport) : option Z :=
  match r with PingLost n _ _ => Some n | PingReceived _ _ _ => None end.
Definition received_nr (r : PingReport) : option Z :=
  match r with PingReceived n _ _ => Some n | PingLost _ _ _ => None end.

Definition in_flight_nrs (s : Ping) : list Z := (map_to_list (pg_in_flight s)).*1.
Definition received_nrs (s : Ping) : list Z := omap received_nr (pg_reports s).

(** The times of a report. *)
Definition report_ok (now : Z) (r : PingReport) : Prop :=
  match r with
  | PingLost _ sent lost => sent + deadline ≤ lost ≤ now
  | PingReceived _ sent received => sent ≤ received ≤ now
  end.

Record accounts (now : Z) (s : Ping) : Prop := mkAccounts {
  ac_rate : 0 ≤ pg_nr s ∧
    match pg_sleep s with Some d => pg_nr s * interval ≤ d ≤ now + interval | None => pg_nr s = 0 end;
  ac_all : in_flight_nrs s ++ pg_lost s ++ received_nrs s ≡ₚ seqZ 0 (pg_nr s);
  ac_lost : pg_lost s = omap lost_nr (pg_reports s);
  ac_reports : Forall (report_ok now) (pg_reports s);
  ac_tasks : ∀ k t, pg_in_flight s !! k = Some t → t ≤ now ∧ (k, t + deadline) ∈ pg_deadlines s;
  ac_deadline : ∀ k d t, (k, d) ∈ pg_deadlines s → pg_in_flight s !! k = Some t → d = t + deadline;
  ac_started : ∀ k d, (k, d) ∈ pg_deadlines s → k < pg_nr s;
}.

Lemma accounts_later now now' s : now ≤ now' → accounts now s → accounts now' s.
Proof.
  intros Hle [A1 A2 A3 A4 A5 A6 A7]. split; try done.
  - destruct (pg_sleep s); [lia|done].
  - eapply Forall_impl; [exact A4|]. intros [] ?; simpl in *; lia.
  - intros k t Hk. destruct (A5 k t Hk). split; [lia|done].
Qed.

Lemma in_flight_started now s k t : accounts now s → pg_in_flight s !! k = Some t → 0 ≤ k < pg_nr s.
Proof.
  intros Ha Hk. assert (k ∈ seqZ 0 (pg_nr s)) as Hin; [|apply elem_of_seqZ in Hin; lia].
  rewrite <-(ac_all _ _ Ha), elem_of_app. left. apply list_elem_of_fmap. exists (k, t).
  split; [done|]. by apply elem_of_map_to_list.
Qed.

Lemma in_flight_delete s k t : pg_in_flight s !! k = Some t →
  in_flight_nrs s ≡ₚ k :: (map_to_list (delete k (pg_in_flight s))).*1.
Proof.
  intros Hk. unfold in_flight_nrs. rewrite <-(map_to_list_delete _ k t) by done. done.
Qed.

(** Only the network's own steps take time. *)
Definition same_now (x y : world * Ping) : Prop := w_now y.1 = w_now x.1.

#[export] Instance same_now_preorder : PreOrder same_now.
Proof. split; [by intros x|]. unfold same_now. intros x y z ? ?. congruence. Qed.

Lemma in_network_now {A} (m : NM world A) :
  (∀ w a w', m w = Some (a, w') → w_now w' = w_now w) → steps_in same_now (in_network m).
Proof. intros Hm [w s] a y (w' & Hw & ->)%in_network_inv. by eapply Hm. Qed.

Lemma get_ping_now : steps_in same_now get_ping.
Proof. by intros [w s] s' y [= _ <-]. Qed.
Lemma put_ping_now s : steps_in same_now (put_ping s).
Proof. by intros [w s'] u y [= _ <-]. Qed.
Lemma time_now : steps_in same_now (in_network now).
Proof. apply in_network_now. by intros w a w' [= _ <-]. Qed.
Lemma send_now n t : steps_in same_now (in_network (try_send rng_f64 rng_u128 n t)).
Proof. apply in_network_now. intros w a w' Hm. eapply network_now; [apply try_send_extends|exact Hm]. Qed.
Lemma recv_now n bm : steps_in same_now (in_network (receive timer_elapsed n bm)).
Proof. apply in_network_now. intros w a w'. apply receive_now. Qed.

Ltac same_now :=
  repeat first
    [ apply get_ping_now | apply put_ping_now | apply time_now | apply send_now | apply recv_now
    | apply steps_in_ret; apply _
    | apply steps_in_some; apply _
    | apply steps_in_assert; apply _
    | apply steps_in_foreach; [apply _|intros ?]
    | apply steps_in_bind; [apply _| |intros ?]
    | case_match ].

Lemma task_now start task x y :
  ping_task start task x = Some ((), y) → w_now x.1 ≤ w_now y.1.
Proof.
  assert (∀ m, steps_in same_now m → m x = Some ((), y) → w_now x.1 ≤ w_now y.1) as Hgo.
  { intros m Hm Hx. apply Hm in Hx. unfold same_now in Hx. lia. }
  destruct task as [a| |task| |]; simpl.
  - intros Hm. destruct x as [w s]. apply network_task_inv in Hm as (w' & Hb & He & ->). by eapply exec_log.
  - apply Hgo. unfold ping_sender. same_now.
  - apply Hgo. unfold ping_deadline. same_now.
  - apply Hgo. unfold ping_receiver, ping_received. same_now.
  - apply Hgo. unfold ping_server, ping_echo. same_now.
Qed.

Section accounting.
Context (Helapsed : ∀ d n, timer_elapsed d n = true → d ≤ n) (Hinterval : 0 < interval).

Lemma sender_accounts w s y :
  0 ≤ w_now w → w_now w + interval < 2 ^ 64 * interval → accounts (w_now w) s →
  ping_sender (w, s) = Some ((), y) → accounts (w_now w) y.2.
Proof using Helapsed Hinterval.
  intros H0 Hbound Ha Hm. unfold ping_sender in Hm.
  apply nm_bind_inv in Hm as (s1 & x1 & [= <- <-] & Hm).
  apply nm_bind_inv in Hm as (t & x1 & [= <- <-] & Hm).
  destruct (match pg_sleep s with Some d => _ | None => true end) eqn:Hs; [|by injection Hm as <-].
  apply nm_bind_inv in Hm as ([] & x1 & Hx & Hm).
  apply in_network_inv in Hx as (w' & Hsend & ->). injection Hm as <-. simpl in *.
  pose proof Ha as [[A0 A1] A2 A3 A4 A5 A6 A7]. set (n := pg_nr s) in *.
  assert ((n + 1) * interval ≤ w_now w + interval) as Hrate.
  { destruct (pg_sleep s) as [d|]; [apply Helapsed in Hs; lia|lia]. }
  assert (n + 1 < 2 ^ 64) as Hn by nia.
  assert (pg_in_flight s !! n = None) as Hnone.
  { destruct (pg_in_flight s !! n) as [t|] eqn:E; [|done].
    apply (in_flight_started (w_now w)) in E; [fold n in E; lia|done]. }
  rewrite wrap64_small by (unfold in_u64; lia).
  split; simpl; try done.
  - split; [lia|]. lia.
  - unfold in_flight_nrs, received_nrs in *. simpl. rewrite map_to_list_insert by done.
    rewrite seqZ_app, <-A2 by lia. rewrite Z.add_0_l, (seqZ_cons n 1), seqZ_nil by lia.
    simpl. apply Permutation_cons_append.
  - intros k t. rewrite lookup_insert_Some. intros [[<- <-]|[Hne Hk]].
    + split; [lia|]. apply elem_of_app. right. by left.
    + destruct (A5 k t Hk). split; [lia|]. apply elem_of_app. by left.
  - intros k d t [Hin|[= -> ->]%list_elem_of_singleton]%elem_of_app.
    + rewrite lookup_insert_ne; [by apply A6|]. apply A7 in Hin. lia.
    + rewrite lookup_insert_eq. by intros [= <-].
  - intros k d [Hin%A7|[= -> ->]%list_elem_of_singleton]%elem_of_app; fold n; lia.
Qed.

Lemma deadline_accounts task w s y :
  accounts (w_now w) s → ping_deadline task (w, s) = Some ((), y) →
  y.1 = w ∧ accounts (w_now w) y.2.
Proof using Helapsed.
  intros Ha Hm. unfold ping_deadline in Hm.
  apply nm_bind_inv in Hm as (s1 & x1 & [= <- <-] & Hm).
  apply nm_bind_inv in Hm as (t & x1 & [= <- <-] & Hm).
  destruct (pg_deadlines s !! task) as [[k d]|] eqn:Htask; [|by injection Hm as <-].
  destruct (timer_elapsed d (w_now w)) eqn:He; [|by injection Hm as <-]. apply Helapsed in He.
  pose proof (list_elem_of_lookup_2 _ _ _ Htask) as Hin.
  assert (∀ x, x ∈ pg_deadlines s → x ≠ (k, d) → x ∈ delete task (pg_deadlines s)) as Hkeep.
  { intros x Hx Hne. rewrite (delete_Permutation _ _ _ Htask) in Hx. by apply elem_of_cons in Hx as [->|]. }
  assert (∀ x, x ∈ delete task (pg_deadlines s) → x ∈ pg_deadlines s) as Hsub.
  { intros x Hx. rewrite (delete_Permutation _ _ _ Htask). by right. }
  pose proof Ha as [[A0 A1] A2 A3 A4 A5 A6 A7].
  destruct (pg_in_flight s !! k) as [sent|] eqn:Hk; injection Hm as <-; split; try done;
    split; simpl; try done.
  - unfold received_nrs in *. rewrite in_flight_delete in A2 by done. unfold in_flight_nrs. simpl.
    rewrite omap_app. simpl. rewrite app_nil_r, <-A2, <-app_assoc. simpl.
    by rewrite <-!Permutation_middle.
  - by rewrite omap_app, A3.
  - apply Forall_app. split; [done|]. apply Forall_singleton. simpl.
    rewrite (A6 k d sent Hin Hk) in He. lia.
  - intros j t [Hne Hj]%lookup_delete_Some. destruct (A5 j t Hj). split; [done|].
    apply Hkeep; [done|congruence].
  - intros j e t Hj [_ Hjk]%lookup_delete_Some. by apply (A6 j); [apply Hsub|].
  - intros j e Hj%Hsub. by eapply A7.
  - intros j t Hj. destruct (A5 j t Hj). split; [done|]. apply Hkeep; [done|]. congruence.
  - intros j e t Hj%Hsub. by apply A6.
  - intros j e Hj%Hsub. by eapply A7.
Qed.

Lemma received_accounts packet w s y :
  accounts (w_now w) s → ping_received packet (w, s) = Some ((), y) →
  y.1 = w ∧ accounts (w_now w) y.2.
Proof.
  intros Ha Hm. unfold ping_received in Hm.
  apply nm_bind_inv in Hm as ([] & x1 & Hx & Hm). apply nassert_inv in Hx as [_ ->].
  apply nm_bind_inv in Hm as (k & x1 & Hx & Hm). nm_inv_step Hx. clear Hx.
  apply nm_bind_inv in Hm as (s1 & x1 & [= <- <-] & Hm).
  apply nm_bind_inv in Hm as (t & x1 & [= <- <-] & Hm).
  pose proof Ha as [[A0 A1] A2 A3 A4 A5 A6 A7].
  destruct (pg_in_flight s !! k) as [sent|] eqn:Hk; injection Hm as <-; split; try done.
  split; simpl; try done.
  - unfold received_nrs in *. rewrite in_flight_delete in A2 by done. unfold in_flight_nrs. simpl.
    rewrite omap_app. simpl. rewrite <-A2. simpl. rewrite !app_assoc. by rewrite <-Permutation_cons_append.
  - by rewrite omap_app, A3, app_nil_r.
  - apply Forall_app. split; [done|]. apply Forall_singleton. simpl.
    destruct (A5 k sent Hk). lia.
  - intros j t [Hne Hj]%lookup_delete_Some. by apply A5.
  - intros j e t Hj [_ Hjk]%lookup_delete_Some. by apply (A6 j).
Qed.

(** The buffers do not matter. *)
Lemma accounts_bufs now s b b' :
  accounts now s → accounts now (mkPing (pg_nr s) (pg_sleep s) (pg_in_flight s) (pg_lost s)
    (pg_deadlines s) b b' (pg_reports s)).
Proof. by intros []. Qed.

Lemma receiver_accounts w s y :
  accounts (w_now w) s → ping_receiver (w, s) = Some ((), y) → accounts (w_now w) y.2.
Proof.
  intros Ha Hm. unfold ping_receiver in Hm.
  apply nm_bind_inv in Hm as (s1 & x1 & [= <- <-] & Hm).
  apply nm_bind_inv in Hm as ([packets bufs] & x1 & Hx & Hm).
  apply in_network_inv in Hx as (w1 & Hr & ->). apply receive_now in Hr. rewrite <-Hr in *. clear Hr.
  apply nm_bind_inv in Hm as ([] & x1 & Hx & Hm). injection Hx as <-.
  apply (accounts_bufs _ _ (pg_server_bufs s) bufs) in Ha. revert Ha Hm.
  generalize (default [] packets). generalize (mkPing (pg_nr s) (pg_sleep s) (pg_in_flight s)
    (pg_lost s) (pg_deadlines s) (pg_server_bufs s) bufs (pg_reports s)). clear.
  intros s l. revert s. induction l as [|p l IH]; intros s Ha Hm; simpl in Hm; [by injection Hm as <-|].
  apply nm_bind_inv in Hm as ([] & [w2 s2] & H1 & Hm).
  apply received_accounts in H1 as [[= ->] H1]; [|done]. by apply IH in Hm.
Qed.

Lemma server_accounts w s y :
  accounts (w_now w) s → ping_server (w, s) = Some ((), y) → accounts (w_now w) y.2.
Proof.
  intros Ha Hm. unfold ping_server in Hm.
  apply nm_bind_inv in Hm as (s1 & x1 & [= <- <-] & Hm).
  apply nm_bind_inv in Hm as ([packets bufs] & x1 & Hx & Hm).
  apply in_network_inv in Hx as (w1 & Hr & ->).
  apply nm_bind_inv in Hm as ([] & x1 & Hx & Hm). injection Hx as <-.
  assert (∀ l w s, nforeach ping_echo l (w, s) = Some ((), y) → y.2 = s) as Hgo.
  { clear. intros l. induction l as [|p l IH]; intros w s Hm; simpl in Hm; [by injection Hm as <-|].
    apply nm_bind_inv in Hm as ([] & x1 & H1 & Hm). unfold ping_echo in H1.
    apply nm_bind_inv in H1 as ([] & x2 & Hx & H1). apply nassert_inv in Hx as [_ ->].
    apply in_network_inv in H1 as (w1 & Hs & ->). by apply IH in Hm. }
  apply Hgo in Hm as ->. by apply accounts_bufs.
Qed.

Lemma step_accounts start x y :
  0 ≤ w_now x.1 → PingStep start x y → w_now y.1 + interval < 2 ^ 64 * interval →
  accounts (w_now x.1) x.2 → accounts (w_now y.1) y.2.
Proof using Helapsed Hinterval.
  destruct x as [w s]. simpl. intros H0 [task Hm] Hb Ha. pose proof (task_now _ _ _ _ Hm) as Hle.
  simpl in Hle. apply (accounts_later (w_now w)); [done|].
  destruct task as [a| |task| |]; simpl in Hm.
  - by apply network_task_inv in Hm as (w' & _ & _ & ->).
  - eapply sender_accounts; [done|lia|done|done].
  - by eapply deadline_accounts.
  - by eapply receiver_accounts.
  - by eapply server_accounts.
Qed.

Lemma steps_accounts start default_meta w0 y :
  0 ≤ w_now w0 → rtc (PingStep start) (w0, ping_init default_meta) y →
  w_now w0 ≤ w_now y.1 ∧ (w_now y.1 + interval < 2 ^ 64 * interval → accounts (w_now y.1) y.2).
Proof using Helapsed Hinterval.
  intros H0. revert y. apply (rtc_ind_r (λ y, w_now w0 ≤ w_now y.1 ∧
    (w_now y.1 + interval < 2 ^ 64 * interval → accounts (w_now y.1) y.2))).
  - split; [done|]. intros _. split; simpl; try done.
    by intros k d ?%not_elem_of_nil.
  - intros x y _ Hs [IH1 IH2]. pose proof Hs as [task Ht]. apply task_now in Ht. split; [lia|].
    intros Hb. eapply step_accounts; [|done..|apply IH2]; lia.
Qed.
End accounting.

(** ** What travels between the client and the server *)
Section packets.
Context (Helapsed : ∀ d n, timer_elapsed d n = true → d ≤ n).

Definition client_addr : SocketAddr := mkSocketAddr client_ip HOST_PORT.
Definition server_addr : SocketAddr := mkSocketAddr server_ip HOST_PORT.

(** A ping or its echo. *)
Definition ping_packet (d : InTransitData) : Prop :=
  length (t_contents (d_transmit d)) = 8%nat ∧
  (d_source_endpoint d = client_addr ∧ t_destination (d_transmit d) = server_addr ∨
   d_source_endpoint d = server_addr ∧ t_destination (d_transmit d) = client_addr).

Lemma ping_packet_payload d d' : payload d = payload d' → ping_packet d → ping_packet d'.
Proof. intros [= E1 E2 E3 E4 E5 E6]. unfold ping_packet. by rewrite E1, E4, E5. Qed.

Record ping_inv (x : world * Ping) : Prop := mkPingInv {
  pi_safe : safe ping_packet x.1;
  pi_client : endpoint_of x.1 client client_addr;
  pi_server : endpoint_of x.1 server server_addr;
  pi_queues : client ∈ dom (w_inbound x.1) ∧ server ∈ dom (w_inbound x.1);
  pi_client_bufs : shaped 5 1200 (pg_client_bufs x.2);
  pi_server_bufs : shaped 5 1200 (pg_server_bufs x.2);
  pi_client_socket : socket_fits client 5 x.1;
  pi_server_socket : socket_fits server 5 x.1;
}.

Context (Hips : client_ip ≠ server_ip).

Lemma hosts_differ x : ping_inv x → client ≠ server.
Proof using Hips.
  intros [_ [i Hc] [j Hs] _ _ _ _ _] ->. rewrite Hc in Hs. by injection Hs.
Qed.

(** A host receives pings or echoes. *)
Lemma ping_receive x n e e' bm :
  ping_inv x → shaped 5 1200 bm → socket_fits n 5 x.1 → n ∈ dom (w_inbound x.1) →
  endpoint_of x.1 n e → (e = client_addr ∧ e' = server_addr ∨ e = server_addr ∧ e' = client_addr) →
  ∃ res bm' w', receive timer_elapsed n bm x.1 = Some ((res, bm'), w') ∧ shaped 5 1200 bm' ∧
    socket_fits n 5 w' ∧ (∀ m, m ≠ n → w_sockets w' !! m = w_sockets x.1 !! m) ∧
    identity <$> w_nodes w' = identity <$> w_nodes x.1 ∧ dom (w_inbound w') = dom (w_inbound x.1) ∧
    safe ping_packet w' ∧ ∀ p, p ∈ default [] res →
      length (up_payload p) = 8%nat ∧ up_source_addr p = e'.
Proof using Helapsed Hips.
  intros Hi Hsh Hfits Hq [id Hn] He.
  destruct (host_receive _ Helapsed ping_packet x.1 n id e 5 1200 bm) as
    (res & bm' & w' & ds & Hr & Hsh' & Hfits' & Ho & E & Ed & Hs & -> & _ & Hp); [apply Hi| |lia|done..|].
  { intros d [-> _]. lia. }
  exists (option_map packets_of ds), bm', w'. split_and!; try done.
  intros p (d & [[Hl Ha] Hdest]%Hp & ->)%received_packet. split; [done|]. simpl.
  assert (client_addr ≠ server_addr) as Hne by (by intros [=]).
  destruct Ha as [[Hx1 Hx2]|[Hx1 Hx2]], He as [[Hy1 Hy2]|[Hy1 Hy2]]; congruence.
Qed.

(** A host sends a ping or an echo. *)
Lemma ping_send_safe x n e e' contents y :
  ping_inv x → endpoint_of x.1 n e → length contents = 8%nat →
  (e = client_addr ∧ e' = server_ip ∨ e = server_addr ∧ e' = client_ip) →
  try_send rng_f64 rng_u128 n (ping_transmit e' contents) x.1 = Some ((), y) → ping_inv (y, x.2).
Proof.
  intros Hi Hn Hl He Hm. destruct x as [w s]. simpl in *.
  destruct (host_send rng_f64 rng_u128 ping_packet ping_packet_payload w n e (ping_transmit e' contents) y Hn)
    as [(E & Es & Hk) Ed]; [|done|].
  { intros d Hd Ht. unfold ping_packet. rewrite Ht, Hd. split; [done|]. simpl.
    destruct He as [[-> ->]|[-> ->]]; auto. }
  destruct Hi as [Hsafe Hc Hsv [Hq1 Hq2] Hb1 Hb2 Hf1 Hf2]. simpl in *.
  split; simpl; rewrite ?Ed; auto; try (by eapply endpoint_of_identity); unfold socket_fits; by rewrite Es.
Qed.

Lemma ping_inv_state w s s' :
  pg_client_bufs s' = pg_client_bufs s → pg_server_bufs s' = pg_server_bufs s →
  ping_inv (w, s) → ping_inv (w, s').
Proof. intros E1 E2 [I1 I2 I3 I4 I5 I6 I7 I8]. simpl in *. by split; simpl; rewrite ?E1, ?E2. Qed.

(** The invariant after a host has received packets into new buffers. *)
Lemma ping_inv_receive w s w' s' n bm :
  ping_inv (w, s) → n = client ∨ n = server →
  (pg_client_bufs s' = (if decide (n = client) then bm else pg_client_bufs s)) →
  (pg_server_bufs s' = (if decide (n = client) then pg_server_bufs s else bm)) →
  shaped 5 1200 bm → socket_fits n 5 w' → (∀ m, m ≠ n → w_sockets w' !! m = w_sockets w !! m) →
  identity <$> w_nodes w' = identity <$> w_nodes w → dom (w_inbound w') = dom (w_inbound w) →
  safe ping_packet w' → ping_inv (w', s').
Proof using Hips.
  intros Hi Hn Hc Hs Hsh Hf Ho E Ed Hsafe. pose proof (hosts_differ _ Hi) as Hne.
  destruct Hi as [I1 I2 I3 I4 I5 I6 I7 I8]. simpl in *.
  split; simpl; rewrite ?Ed; try done.
  - destruct I2 as [i ?]. exists i. by rewrite E.
  - destruct I3 as [i ?]. exists i. by rewrite E.
  - rewrite Hc. by case_decide.
  - rewrite Hs. by case_decide.
  - unfold socket_fits. destruct (decide (n = client)) as [<-|]; [done|]. by rewrite Ho.
  - unfold socket_fits. destruct Hn as [-> | ->]; [|done]. by rewrite Ho.
Qed.

Lemma received_keeps packets w s y :
  nforeach ping_received packets (w, s) = Some ((), y) → ping_inv (w, s) → ping_inv y.
Proof.
  revert s. induction packets as [|p packets IH]; intros s Hm Hi; simpl in Hm; [by injection Hm as <-|].
  apply nm_bind_inv in Hm as ([] & [w1 s1] & H1 & Hm). unfold ping_received in H1.
  apply nm_bind_inv in H1 as ([] & x1 & Hx & H1). apply nassert_inv in Hx as [_ ->].
  apply nm_bind_inv in H1 as (k & x1 & Hx & H1). nm_inv_step Hx. clear Hx.
  apply nm_bind_inv in H1 as (s2 & x1 & [= <- <-] & H1).
  apply nm_bind_inv in H1 as (t & x1 & [= <- <-] & H1).
  destruct (pg_in_flight s !! k); injection H1 as <- <-; (eapply IH; [exact Hm|]);
    [by apply (ping_inv_state w s)|done].
Qed.

Lemma echo_keeps packets x y :
  (∀ p, p ∈ packets → length (up_payload p) = 8%nat) →
  nforeach ping_echo packets x = Some ((), y) → ping_inv x → ping_inv y.
Proof.
  revert x. induction packets as [|p packets IH]; intros x Hp Hm Hi; simpl in Hm; [by injection Hm as <-|].
  apply nm_bind_inv in Hm as ([] & x1 & H1 & Hm). unfold ping_echo in H1.
  apply nm_bind_inv in H1 as ([] & x2 & Hx & H1). apply nassert_inv in Hx as [_ ->].
  destruct x as [w s]. apply in_network_inv in H1 as (w' & Hs & ->).
  eapply IH; [intros q Hq; apply Hp; by right|exact Hm|].
  eapply (ping_send_safe (w, s)); [done|apply (pi_server _ Hi)|apply Hp; left| |exact Hs]. auto.
Qed.

Lemma step_ping_inv start x y : ping_inv x → PingStep start x y → ping_inv y.
Proof using Helapsed Hips.
  destruct x as [w s]. intros Hi [task Hm]. destruct task as [a| |task| |]; simpl in Hm.
  - apply network_task_inv in Hm as (w' & Hb & He & ->).
    destruct Hi as [I1 [i I2] [j I3] I4 I5 I6 I7 I8]. simpl in *.
    destruct (step_arrived _ _ _ _ _ _ _ (exec_step _ _ _ _ _ _ _ _ He)) as [Ed _ _].
    apply (exec_safe _ _ _ _ ping_packet ping_packet_payload) in He as (E & Hs & Hsock); [|by intros ? ? ->|done].
    specialize (Hsock Hb). split; simpl; rewrite ?Ed; try done.
    + exists i. by rewrite E.
    + exists j. by rewrite E.
    + unfold socket_fits. by rewrite Hsock.
    + unfold socket_fits. by rewrite Hsock.
  - unfold ping_sender in Hm. apply nm_bind_inv in Hm as (s1 & x1 & [= <- <-] & Hm).
    apply nm_bind_inv in Hm as (t & x1 & [= <- <-] & Hm). case_match; [|by injection Hm as <-].
    apply nm_bind_inv in Hm as ([] & x1 & Hx & Hm).
    apply in_network_inv in Hx as (w' & Hs & ->). injection Hm as <-.
    apply (ping_inv_state w' s); [done|done|].
    eapply (ping_send_safe (w, s)); [done|apply (pi_client _ Hi)|apply length_to_le| |exact Hs]. auto.
  - unfold ping_deadline in Hm. apply nm_bind_inv in Hm as (s1 & x1 & [= <- <-] & Hm).
    apply nm_bind_inv in Hm as (t & x1 & [= <- <-] & Hm).
    repeat case_match; injection Hm as <-; first [exact Hi|by apply (ping_inv_state w s)].
  - unfold ping_receiver in Hm. apply nm_bind_inv in Hm as (s1 & x1 & [= <- <-] & Hm).
    apply nm_bind_inv in Hm as ([packets bufs] & x1 & Hx & Hm).
    apply in_network_inv in Hx as (w1 & Hr & ->).
    apply nm_bind_inv in Hm as ([] & x1 & Hx & Hm). injection Hx as <-.
    destruct (ping_receive (w, s) client client_addr server_addr (pg_client_bufs s)) as
      (res & bm' & w' & Hr' & Hsh & Hf & Ho & E & Ed & Hsafe & _); [done|apply Hi..|auto|].
    simpl in Hr'. rewrite Hr in Hr'. injection Hr' as -> -> ->.
    eapply received_keeps; [exact Hm|]. eapply (ping_inv_receive w s _ _ client bm'); auto.
    + simpl. by rewrite decide_True.
    + simpl. by rewrite decide_True.
  - unfold ping_server in Hm. apply nm_bind_inv in Hm as (s1 & x1 & [= <- <-] & Hm).
    apply nm_bind_inv in Hm as ([packets bufs] & x1 & Hx & Hm).
    apply in_network_inv in Hx as (w1 & Hr & ->).
    apply nm_bind_inv in Hm as ([] & x1 & Hx & Hm). injection Hx as <-.
    destruct (ping_receive (w, s) server server_addr client_addr (pg_server_bufs s)) as
      (res & bm' & w' & Hr' & Hsh & Hf & Ho & E & Ed & Hsafe & Hp); [done|apply Hi..|auto|].
    simpl in Hr'. rewrite Hr in Hr'. injection Hr' as -> -> ->.
    pose proof (hosts_differ _ Hi) as Hne.
    eapply echo_keeps; [|exact Hm|]; [by intros p Hin; apply Hp|].
    eapply (ping_inv_receive w s _ _ server bm'); auto.
    + simpl. by rewrite decide_False.
    + simpl. by rewrite decide_False.
Qed.

Lemma received_total packets w s :
  (∀ p, p ∈ packets → length (up_payload p) = 8%nat ∧ up_source_addr p = server_addr) →
  ∃ y, nforeach ping_received packets (w, s) = Some ((), y).
Proof.
  revert s. induction packets as [|p packets IH]; intros s Hp; simpl; [by eexists|].
  destruct (Hp p (list_elem_of_here _ _)) as [Hl Ha].
  assert (∃ s1, ping_received p (w, s) = Some ((), (w, s1))) as [s1 E].
  { unfold ping_received, nassert, from_le_bytes, mbind, NM_bind. rewrite Ha, Hl. simpl.
    rewrite bool_decide_eq_true_2 by done. simpl. unfold now, mbind, NM_bind. simpl.
    destruct (pg_in_flight s !! from_le (up_payload p)); by eexists. }
  unfold mbind at 1, NM_bind. rewrite E. apply IH. intros q Hq. apply Hp. by right.
Qed.

Lemma receiver_total x : ping_inv x → ∃ y, ping_receiver x = Some ((), y).
Proof using Helapsed Hips.
  destruct x as [w s]. intros Hi.
  destruct (ping_receive (w, s) client client_addr server_addr (pg_client_bufs s)) as
    (res & bm' & w' & Hr & _ & _ & _ & _ & _ & _ & Hp); [done|apply Hi..|auto|]. simpl in Hr.
  unfold ping_receiver, in_network, mbind, NM_bind. simpl. rewrite Hr. simpl. by apply received_total.
Qed.
End packets.
End ping.

(** The ping starts in a freshly initialized network. *)
Lemma ping_start {H} `{!BinaryHeap PrioritizedInTransitData above H} {R}
    now spec events (rng : R) start b topo (w0 : World H R) client_ip server_ip client server w w'
    default_meta :
  initialize now spec events rng start b = Ok (topo, w0) →
  get_host topo client_ip w0 = Some (client, w) → get_host topo server_ip w0 = Some (server, w') →
  ping_inv client_ip server_ip client server (w0, ping_init default_meta).
Proof.
  intros Hi Hc Hs.
  pose proof (host_endpoint _ _ _ _ _ _ _ _ _ _ _ Hi Hc) as [Hc1 Hc2].
  pose proof (host_endpoint _ _ _ _ _ _ _ _ _ _ _ Hi Hs) as [Hs1 Hs2].
  destruct (initialize_safe topo (ping_packet client_ip server_ip) _ _ _ _ _ _ _ Hi) as [Hsafe Hsock].
  assert (shaped 5 1200 (BufsAndMeta_new default_meta 1200 5)) as Hsh.
  { split_and!; [done|done|]. repeat constructor. }
  split; try done; intros f; simpl; by rewrite Hsock, lookup_empty.
Qed.

Section theorems.
Context {H : Type} {HH : BinaryHeap PrioritizedInTransitData above H} {R : Type}.
Context (rng_f64 : R → f64 * R) (rng_u128 : R → Z * R) (timer_elapsed : Z → Z → bool).
Context (topo : Topology) (client_ip server_ip : IpAddr) (client server : node_ref).
Context (deadline interval begin : Z) (default_meta : RecvMeta) (w0 : World H R).

Abbreviation ping_steps :=
  (rtc (PingStep rng_f64 rng_u128 timer_elapsed topo client_ip server_ip client server deadline
          interval begin)).

(** C17: The ping accounts for every packet exactly once: in every execution, over any network, the
    numbers of the pings sent so far are those in flight, those reported as lost and those
    reported as received, each number once; a lost ping was reported no earlier than its
    deadline, a received one not before it was sent, and each ping in flight has a task that
    waits for its deadline.  (The last hypothesis excludes that the counter of 64 bits
    overflows; it holds for 2^64 intervals.) *)
Theorem ping_accounting w s :
  (∀ d n, timer_elapsed d n = true → d ≤ n) → 0 < interval → 0 ≤ w_now w0 →
  ping_steps (w0, ping_init default_meta) (w, s) → w_now w + interval < 2 ^ 64 * interval →
  in_flight_nrs s ++ omap lost_nr (pg_reports s) ++ omap received_nr (pg_reports s) ≡ₚ
    seqZ 0 (pg_nr s) ∧
  pg_lost s = omap lost_nr (pg_reports s) ∧
  Forall (report_ok deadline (w_now w)) (pg_reports s) ∧
  ∀ k t, pg_in_flight s !! k = Some t → t ≤ w_now w ∧ (k, t + deadline) ∈ pg_deadlines s.
Proof.
  intros He Hi H0 Hsteps Hb.
  destruct (steps_accounts rng_f64 rng_u128 timer_elapsed topo client_ip server_ip client server
    deadline interval He Hi begin default_meta w0 (w, s) H0 Hsteps) as [_ Ha].
  destruct (Ha Hb) as [_ A2 A3 A4 A5 _ _]. simpl in *. by rewrite <-A3.
Qed.

(** The assertions of the ping hold in every execution: all packets its client receives come
    from the server and carry a ping number, so the receiver never panics; and all packets that
    reach the server come from the client. *)
Theorem ping_never_panics now spec events rng start b wc ws w s :
  (∀ d n, timer_elapsed d n = true → d ≤ n) →
  initialize now spec events rng start b = Ok (topo, w0) →
  get_host topo client_ip w0 = Some (client, wc) → get_host topo server_ip w0 = Some (server, ws) →
  client_ip ≠ server_ip → ping_steps (w0, ping_init default_meta) (w, s) →
  (∃ y, ping_receiver timer_elapsed server_ip client (w, s) = Some ((), y)) ∧
  ∃ packets bufs w', receive timer_elapsed server (pg_server_bufs s) w = Some ((packets, bufs), w') ∧
    ∀ p, p ∈ default [] packets → sa_ip (up_source_addr p) = client_ip.
Proof.
  intros He Hi Hc Hs Hne Hsteps.
  assert (ping_inv client_ip server_ip client server (w, s)) as Hinv.
  { pose proof (ping_start _ _ _ _ _ _ _ _ _ _ _ _ _ _ default_meta Hi Hc Hs) as Hstart. revert Hstart.
    clear Hi Hc Hs. induction Hsteps; [done|]. intros Hx. by eapply IHHsteps, step_ping_inv. }
  split; [by eapply receiver_total|].
  destruct (ping_receive timer_elapsed client_ip server_ip client server He Hne (w, s) server
    (server_addr server_ip) (client_addr client_ip) (pg_server_bufs s)) as
    (res & bm' & w' & Hr & _ & _ & _ & _ & _ & _ & Hp); [done|apply Hinv..|auto|].
  exists res, bm', w'. split; [exact Hr|]. intros p Hin. by destruct (Hp p Hin) as [_ ->].
Qed.
End theorems.

(** ** Witnesses *)
Abbreviation ping_state := (World net_heap net_rng * Ping)%type.

(** [A] pings [B] every 10 ms, with a deadline of a second. *)
Abbreviation example_task :=
  (ping_task net_f64 net_u128 net_timer net_topo (as_ip_addr host_A) (as_ip_addr host_B) 0%nat 1%nat
     (from_secs 1) (from_millis 10) 0).
Abbreviation example_step :=
  (PingStep net_f64 net_u128 net_timer net_topo (as_ip_addr host_A) (as_ip_addr host_B) 0%nat 1%nat
     (from_secs 1) (from_millis 10) 0).
Definition ping_start_state : ping_state := (net_world, ping_init no_meta).
Definition ping_exec (l : list PingTask) : option ping_state :=
  foldl (λ o task, x ← o; snd <$> example_task task x) (Some ping_start_state) l.

Lemma ping_exec_steps l y : ping_exec l = Some y → rtc example_step ping_start_state y.
Proof.
  unfold ping_exec. generalize ping_start_state. induction l as [|task l IH]; intros x; simpl; [by intros [= ->]|].
  destruct (example_task task x) as [[[] x1]|] eqn:He; simpl.
  - intros Hf. eapply rtc_l; [by exists task|]. by apply IH.
  - intros Hf. exfalso. clear -Hf. induction l; [done|auto].
Qed.

(** The first ping is echoed; the reply to the second one does not come. *)
Definition ping_script : list PingTask :=
  [TaskSender] ++ (TaskNetwork <$> [RunBuffer 0%nat; RunLink 0%nat; RunForwarder 0%nat; ms 6;
     RunForwarder 0%nat]) ++ [TaskServer] ++
  (TaskNetwork <$> [RunBuffer 1%nat; RunLink 1%nat; RunForwarder 1%nat; ms 6; RunForwarder 1%nat]) ++
  [TaskReceiver; TaskSender; TaskNetwork (ms 2000); TaskDeadline 1; TaskSender].
Definition ping_end : ping_state := default ping_start_state (ping_exec ping_script).

Lemma ping_end_eq : ping_exec ping_script = Some ping_end.
Proof. vm_compute. reflexivity. Qed.

Lemma ping_end_reached : rtc example_step ping_start_state (fst ping_end, snd ping_end).
Proof.
  rewrite <-surjective_pairing. apply (ping_exec_steps ping_script). exact ping_end_eq.
Qed.

Lemma ping_accounting_witness :
  pg_reports (snd ping_end) =
    [PingReceived 0 0 (from_millis 12); PingLost 1 (from_millis 12) (from_millis 2012)] ∧
  in_flight_nrs (snd ping_end) ++ omap lost_nr (pg_reports (snd ping_end)) ++
    omap received_nr (pg_reports (snd ping_end)) ≡ₚ seqZ 0 3.
Proof.
  split; [vm_compute; reflexivity|].
  refine (proj1 (ping_accounting net_f64 net_u128 net_timer net_topo (as_ip_addr host_A)
    (as_ip_addr host_B) 0%nat 1%nat (from_secs 1) (from_millis 10) 0 no_meta net_world
    (fst ping_end) (snd ping_end) net_timer_elapsed _ _ ping_end_reached _));
    [vm_compute; reflexivity|vm_compute; discriminate|vm_compute; reflexivity].
Defined.

Lemma ping_never_panics_witness :
  ∃ y, ping_receiver net_timer (as_ip_addr host_B) 0%nat (fst ping_end, snd ping_end) = Some ((), y).
Proof.
  refine (proj1 (ping_never_panics net_f64 net_u128 net_timer net_topo (as_ip_addr host_A)
    (as_ip_addr host_B) 0%nat 1%nat (from_secs 1) (from_millis 10) 0 no_meta net_world
    0 net_spec net_events (net_seed 0) 0 false net_world net_world
    (fst ping_end) (snd ping_end) net_timer_elapsed net_initialize _ _ _ ping_end_reached));
    [vm_compute; reflexivity|vm_compute; reflexivity|vm_compute; discriminate].
Defined.
