(* ===== verification/NetworkTests.v ===== *)
(** * The tests of the network

    The network of the tests in [in-memory-network/src/lib.rs], and those of them
    that do not use QUIC, run by the model of a runtime with a paused clock:
    all tasks run until they wait, and then the clock jumps to the earliest
    timer. *)

From Stdlib Require Import Init.Byte Strings.String.
From S2P Require Import Prelude Float Ip Spec Event Transmit SimStep Heap InboundQueue Node.
From S2P Require Import Link Network NetworkInit NetworkExample Sockets Connectivity.

(** ** The network *)

(** [Ipv4Cidr::from_ipv4], with [Ipv4Addr::new]. *)
Definition from_ipv4 (a b c d network_prefix : Z) : Ipv4Cidr :=
  mkCidr (((a * 256 + b) * 256 + c) * 256 + d) network_prefix.

Definition SERVER_ADDR : Ipv4Cidr := from_ipv4 88 88 88 88 24.
Definition ROUTER1_ADDR : Ipv4Cidr := from_ipv4 200 200 200 1 24.
Definition ROUTER2_ADDR : Ipv4Cidr := from_ipv4 200 200 200 2 24.
Definition CLIENT_ADDR : Ipv4Cidr := from_ipv4 1 1 1 1 24.
Definition BANDWIDTH_100_MBPS : Z := 1000 * 1000 * 100.
Definition BANDWIDTH_8_KBPS : Z := 1000 * 8.

Definition default_network_spec (bandwidth_bps : Z) : NetworkSpec :=
  let default_link_delay := from_millis 10 in
  let client_cidr := from_cidr CLIENT_ADDR in
  let server_cidr := from_cidr SERVER_ADDR in
  let zero := f64_of_Z 0 in
  let node id kind addr routes :=
    mkNodeSpec id u64_max kind [mkInterface [addr] routes] zero zero in
  let link id source target bandwidth :=
    mkLinkSpec id (as_ip_addr source) (as_ip_addr target) default_link_delay bandwidth zero 0 zero in
  let route destination next := mkRoute destination (as_ip_addr next) 0 in
  mkSpec
    [node "server" Host SERVER_ADDR [route client_cidr ROUTER1_ADDR];
     node "client" Host CLIENT_ADDR [route server_cidr ROUTER2_ADDR];
     node "router1" Router ROUTER1_ADDR
       [route client_cidr ROUTER2_ADDR; route server_cidr SERVER_ADDR];
     node "router2" Router ROUTER2_ADDR
       [route client_cidr CLIENT_ADDR; route server_cidr ROUTER1_ADDR]]
    [link "server-router1" SERVER_ADDR ROUTER1_ADDR BANDWIDTH_100_MBPS;
     link "router1-router2" ROUTER1_ADDR ROUTER2_ADDR bandwidth_bps;
     link "router2-client" ROUTER2_ADDR CLIENT_ADDR bandwidth_bps;
     link "router1-server" ROUTER1_ADDR SERVER_ADDR bandwidth_bps;
     link "router2-router1" ROUTER2_ADDR ROUTER1_ADDR bandwidth_bps;
     link "client-router2" CLIENT_ADDR ROUTER2_ADDR BANDWIDTH_100_MBPS].

(** The state of the random number generator is the next packet id: no ratio
    of the network is positive, so nothing else depends on it. *)
Definition default_network (bandwidth_bps : option Z) (events : option (list NetworkEvent))
    : outcome InitError (Topology * World net_heap net_rng) :=
  let spec := default_network_spec (default BANDWIDTH_100_MBPS bandwidth_bps) in
  initialize 0 spec (NetworkEvents_new (default [] events) (nodes spec) (links spec)) (net_seed 42) 0 false.

(** ** A runtime with a paused clock *)
Section runtime.
Context (topo : Topology).

Abbreviation world := (World net_heap net_rng).

(** A round polls every task, in the order of their creation. *)
Definition tasks (w : world) : list Action :=
  RunEvents :: (RunBuffer <$> elements (dom (w_nodes w))) ++
  (l ← elements (dom (w_links w)); [RunLink l; RunForwarder l]).

Definition round (w : world) : option world :=
  exec_all net_f64 net_u128 net_timer topo 0 (tasks w) w.

(** The tasks have nothing left to do after three rounds, in which a packet
    can get from a link through a node to the next link. *)
Definition settle (w : world) : option world := w ← round w; w ← round w; round w.

(** The timers of the tasks. *)
Definition timers (w : world) : list Z :=
  omap (λ '(_, phase), match phase with AwaitBandwidth _ d => Some d | _ => None end)
    (map_to_list (w_link_tasks w)) ++
  omap (λ '(_, f), n_sleep f) (map_to_list (w_forwarders w)) ++
  omap (λ '(_, f), n_sleep f) (map_to_list (w_sockets w)) ++
  (relative_time <$> take 1 (w_events w)).

(** The clock jumps to the earliest timer. *)
Definition next_timer (ts : list Z) (w : world) : option Z :=
  match filter (λ t, w_now w < t) ts with
  | [] => None
  | t :: ts => Some (foldr Z.min t ts)
  end.

(** [block_on], for a future that is polled from a state of type [S], with
    timers of its own: after the tasks, which may have woken it, and before
    them, as it may have woken tasks. *)
Fixpoint block_on {S A} (poll : S → NM world (S + A)) (own_timers : S → list Z) (fuel : nat)
    (s : S) (w : world) : option (A * world) :=
  match fuel with
  | O => None
  | Datatypes.S fuel =>
      w ← settle w;
      '(r, w) ← poll s w;
      match r with
      | inr a => Some (a, w)
      | inl s => w ← settle w;
                 t ← next_timer (own_timers s ++ timers w) w;
                 block_on poll own_timers fuel s (advance t w)
      end
  end.

Definition await_receive (n : node_ref) (bm : BufsAndMeta) (w : world)
    : option (nat * BufsAndMeta * world) :=
  block_on (λ bm : BufsAndMeta, '(res, bm) ← receive_raw net_timer n bm;
              mret (match res with Some packets => inr (packets, bm) | None => inl bm end))
    (λ _, []) 1000 bm w.

Definition await_connectivity (a b : node_ref) (w : world) : option (CheckResult * world) :=
  block_on (λ phase : CheckPhase, phase ← run_check net_f64 net_u128 net_timer a b phase;
              mret (match phase with CheckDone r => inr r | phase => inl phase end))
    (λ phase, match phase with
              | CheckSleep _ d => [d]
              | CheckAToB d f | CheckBToA _ d f => d :: option_list (n_sleep f)
              | _ => []
              end) 1000 CheckStart w.
End runtime.

(** ** The tests *)
Definition bytes (s : string) : list byte := String.list_byte_of_string s.

(** The hosts of a network. *)
Definition with_hosts {A} (net : outcome InitError (Topology * World net_heap net_rng))
    (f : Topology → World net_heap net_rng → node_ref → node_ref → option A) : option A :=
  match net with
  | Ok (topo, w) =>
      '(server, w) ← get_host topo (as_ip_addr SERVER_ADDR) w;
      '(client, w) ← get_host topo (as_ip_addr CLIENT_ADDR) w;
      f topo w server client
  | _ => None
  end.

(** A packet is created and forwarded from the client; the result is its id. *)
Definition test_send (client server : node_ref) (contents : list byte) : NM (World net_heap net_rng) Z :=
  nd ← get_node server;
  destination ← nsome (n_udp_endpoint nd);
  data ← in_transit_data net_u128 client (mkTransmit destination None contents None);
  _ ← forward net_f64 net_u128 client data;
  mret (d_id data).

Definition default_meta : RecvMeta := mkRecvMeta (mkSocketAddr (V4 0) 0) 0 0 None None.

(** The number of packets received, the length and contents of the first one,
    and the hops of the packet. *)
Definition send_and_receive (contents : list byte) (topo : Topology) (w : World net_heap net_rng)
    (server client : node_ref) : option (nat * Z * list byte * list (Z * string)) :=
  '(packet_id, w) ← test_send client server contents w;
  '(received, recv_result, w) ← await_receive topo server (BufsAndMeta_new default_meta 1200 10) w;
  meta ← head (bm_meta recv_result);
  buf ← head (bm_bufs recv_result);
  Some (received, rm_len meta, take (length contents) buf, get_packet_hops (w_log w) packet_id).

Definition test_packet_arrives_at_expected_time
    : option (nat * Z * list byte * list (Z * string)) :=
  with_hosts (default_network None None) (send_and_receive (bytes "hello world")).

(** The sanity check of the tests. *)
Definition test_connectivity (bandwidth_bps : option Z) : option CheckResult :=
  with_hosts (default_network bandwidth_bps None)
    (λ topo w server client, fst <$> await_connectivity topo server client w).

Definition link_event (relative_time : Z) (link_id : string) (status : UpdateLinkStatus)
    : NetworkEvent := mkEvent relative_time (LinkEvent (link_status_only link_id status)).

Definition test_packet_is_buffered_when_link_down
    : option (nat * Z * list byte * list (Z * string)) :=
  with_hosts
    (default_network None
       (Some [link_event (from_secs 0) "router2-router1" LinkDown;
              link_event (from_secs 10) "router2-router1" LinkUp]))
    (send_and_receive (replicate 1200 Byte.x2a)).

Fixpoint send_all (client server : node_ref) (packets : nat) : NM (World net_heap net_rng) (list Z) :=
  match packets with
  | O => mret []
  | S packets =>
      id ← test_send client server (replicate 1200 Byte.x2a);
      ids ← send_all client server packets;
      mret (id :: ids)
  end.

(** [while received < 4], with the assertions of the loop. *)
Fixpoint receive_all (topo : Topology) (server : node_ref) (fuel received : nat)
    (recv_result : BufsAndMeta) (w : World net_heap net_rng) : option (nat * World net_heap net_rng) :=
  if (received <? 4)%nat then
    match fuel with
    | O => None
    | S fuel =>
        '(n, recv_result, w) ← await_receive topo server recv_result w;
        meta ← head (bm_meta recv_result);
        if (1 <=? received + n)%nat && (rm_len meta =? 1200)
        then receive_all topo server fuel (received + n) recv_result w else None
    end
  else Some (received, w).

(** The times between the arrivals of four packets. *)
Definition windows (times : list Z) : list Z := zip_with (λ x y, y - x) times (drop 1 times).

Definition test_packet_is_delayed_by_buffering (bandwidth_bps : Z) : option (nat * list Z) :=
  with_hosts (default_network (Some bandwidth_bps) None)
    (λ topo w server client,
      '(packet_ids, w) ← send_all client server 4 w;
      '(received, w) ← receive_all topo server 4 0 (BufsAndMeta_new default_meta 1200 10) w;
      nd ← w_nodes w !! server;
      arrival_times ← mapM (λ id, get_packet_arrived_at (w_log w) id (n_id nd)) packet_ids;
      Some (received, windows arrival_times)).

Definition timings (l : list (Z * string)) : list (Z * string) :=
  (λ '(ms, node), (from_millis ms, node)) <$> l.

(** The network passes its tests, in the runtime with the paused clock: a packet takes 10 ms
    per link on the way from the client over both routers to the server and arrives unchanged;
    while a link is down it waits at the router before it; packets sent back to back arrive 1 ms
    apart over links of 100 Mbps, and 1228 ms apart over links of 8 kbps; and the connectivity
    check succeeds. *)
Theorem default_network_tests :
  test_packet_arrives_at_expected_time =
    Some (1%nat, 11, bytes "hello world",
      timings [(0, "client"); (10, "router2"); (20, "router1"); (30, "server")]) ∧
  test_packet_is_buffered_when_link_down =
    Some (1%nat, 1200, replicate 1200 Byte.x2a,
      timings [(0, "client"); (10, "router2"); (10010, "router1"); (10020, "server")]) ∧
  test_packet_is_delayed_by_buffering BANDWIDTH_100_MBPS =
    Some (4%nat, [from_millis 1; from_millis 1; from_millis 1]) ∧
  test_packet_is_delayed_by_buffering BANDWIDTH_8_KBPS =
    Some (4%nat, [from_millis 1228; from_millis 1228; from_millis 1228]) ∧
  test_connectivity None = Some (Connected (from_millis 30) (from_millis 30)) ∧
  is_Some (test_connectivity (Some BANDWIDTH_8_KBPS)).
Proof. split_and!; vm_compute; try reflexivity. by eexists. Qed.
