(* ===== verification/QuicTest.v ===== *)
(** * The test of QUIC over the network

    Models [test_quic_handshake_and_bidi_stream_works] ([in-memory-network/src/lib.rs]):
    the task of the server and the client, which runs in the test itself, over the
    network of [NetworkTests].  quinn is the environment, with what it documents: a
    connection is accepted once the client connects and is there for both once it
    is accepted; a stream is accepted once the client has used it; [read_to_end]
    gives everything that was written to the stream, once it is finished.  An action
    says which task runs, and whether quinn reports success; each is one [await] of the code
    with what follows up to the next. *)

From Stdlib Require Import Init.Byte.
From S2P Require Import Prelude Bytes Ip Transmit Node Link Network NetworkInit NetworkExample Connectivity NetworkTests.

Inductive ServerTask : Type :=
  | SAccepting | SHandshake | SAcceptBi | SReading | SWriting | SStopping | SDone | SPanicked.

Inductive ClientTask : Type :=
  | CConnecting | CHandshake | COpening | CWriting | CReading | CJoining | CDone | CPanicked.

#[export] Instance ServerTask_eq_dec : EqDecision ServerTask.
Proof. solve_decision. Defined.
#[export] Instance ClientTask_eq_dec : EqDecision ClientTask.
Proof. solve_decision. Defined.

(** What was written to one direction of the stream, and whether it is finished. *)
Record Stream : Type := mkPipe {
  written : list byte;
  finished : bool;
}.

Definition unused : Stream := mkPipe [] false.

Record QuicTest : Type := mkQuicTest {
  qt_server : ServerTask;
  qt_client : ClientTask;
  qt_up : Stream;
  qt_down : Stream;
}.

Definition with_server (s : ServerTask) (t : QuicTest) : QuicTest :=
  mkQuicTest s (qt_client t) (qt_up t) (qt_down t).
Definition with_client (c : ClientTask) (t : QuicTest) : QuicTest :=
  mkQuicTest (qt_server t) c (qt_up t) (qt_down t).

Inductive TestAction : Type :=
  | ServerRuns (ok : bool)
  | ClientRuns (ok : bool).

(** The addresses of the sockets of both endpoints; [None] is a panic. *)
Definition test_sockets : option (SocketAddr * SocketAddr) :=
  with_hosts (default_network None None) (λ topo w server client,
    server ← w_nodes w !! server;
    client ← w_nodes w !! client;
    server_addr ← n_udp_endpoint server;
    client_addr ← n_udp_endpoint client;
    Some (server_addr, client_addr)).

(** The test once the endpoints are there and the server was spawned. *)
Definition test_begin : QuicTest := mkQuicTest SAccepting CConnecting unused unused.

(** [server_handle]; an error is unwrapped. *)
Definition test_server_step (ok : bool) (t : QuicTest) : option QuicTest :=
  let unwrapped s := Some (with_server (if ok then s else SPanicked) t) in
  match qt_server t with
  | SAccepting => match qt_client t with CConnecting => None | _ => unwrapped SHandshake end
  | SHandshake => unwrapped SAcceptBi
  | SAcceptBi =>
      if ok then if decide (written (qt_up t) = []) then None else unwrapped SReading
      else Some (with_server SPanicked t)
  | SReading =>
      if ok then
        if finished (qt_up t) then
          Some (with_server (if decide (written (qt_up t) = bytes "hello") then SWriting else SPanicked) t)
        else None
      else Some (with_server SPanicked t)
  | SWriting =>
      Some (if ok then mkQuicTest SStopping (qt_client t) (qt_up t) (mkPipe (bytes "world") true)
            else with_server SPanicked t)
  | SStopping => unwrapped SDone
  | SDone | SPanicked => None
  end.

(** The client; at last it waits for the server. *)
Definition test_client_step (ok : bool) (t : QuicTest) : option QuicTest :=
  let unwrapped c := Some (with_client (if ok then c else CPanicked) t) in
  match qt_client t with
  | CConnecting => unwrapped CHandshake
  | CHandshake => match qt_server t with SAccepting => None | _ => unwrapped COpening end
  | COpening => unwrapped CWriting
  | CWriting =>
      Some (if ok then mkQuicTest (qt_server t) CReading (mkPipe (bytes "hello") true) (qt_down t)
            else with_client CPanicked t)
  | CReading =>
      if ok then
        if finished (qt_down t) then
          Some (with_client (if decide (written (qt_down t) = bytes "world") then CJoining else CPanicked) t)
        else None
      else Some (with_client CPanicked t)
  | CJoining =>
      match qt_server t with
      | SDone => Some (with_client CDone t)
      | SPanicked => Some (with_client CPanicked t)
      | _ => None
      end
  | CDone | CPanicked => None
  end.

Definition test_step (a : TestAction) (t : QuicTest) : option QuicTest :=
  match a with
  | ServerRuns ok => test_server_step ok t
  | ClientRuns ok => test_client_step ok t
  end.

Definition test_exec (l : list TestAction) (t : QuicTest) : option QuicTest :=
  foldl (λ o a, t ← o; test_step a t) (Some t) l.

Definition reports_success (a : TestAction) : Prop :=
  match a with ServerRuns ok | ClientRuns ok => ok = true end.

(** ** The test passes *)

(** How far a task is. *)
Definition server_rank (s : ServerTask) : nat :=
  match s with
  | SAccepting => 0 | SHandshake => 1 | SAcceptBi => 2 | SReading => 3 | SWriting => 4 | SStopping => 5
  | SDone => 6 | SPanicked => 7
  end.
Definition client_rank (c : ClientTask) : nat :=
  match c with
  | CConnecting => 0 | CHandshake => 1 | COpening => 2 | CWriting => 3 | CReading => 4 | CJoining => 5
  | CDone => 6 | CPanicked => 7
  end.

Record test_ok (steps : nat) (t : QuicTest) : Prop := mkTestOk {
  to_steps : (server_rank (qt_server t) + client_rank (qt_client t) = steps)%nat;
  to_server : qt_server t ≠ SPanicked;
  to_client : qt_client t ≠ CPanicked;
  to_up : qt_up t = if (client_rank (qt_client t) <=? 3)%nat then unused else mkPipe (bytes "hello") true;
  to_down : qt_down t = if (server_rank (qt_server t) <=? 4)%nat then unused else mkPipe (bytes "world") true;
  to_accepted : qt_server t ≠ SAccepting → qt_client t ≠ CConnecting;
  to_opened : (3 ≤ server_rank (qt_server t) → 4 ≤ client_rank (qt_client t))%nat;
  to_joined : qt_client t = CDone → qt_server t = SDone;
}.

Lemma test_step_ok n a t t' :
  reports_success a → test_ok n t → test_step a t = Some t' → test_ok (S n) t'.
Proof.
  intros Ha [T1 T2 T3 T4 T5 T6 T7 T8] Hs. destruct t as [s c up down]. simpl in *. subst up down.
  destruct a as [ok|ok]; simpl in *; subst ok;
    [unfold test_server_step in Hs|unfold test_client_step in Hs]; simpl in Hs;
    destruct s, c; simpl in *; try done; try lia; simplify_option_eq; split; simpl;
    try done; try lia; try (intros; exfalso; first [by apply T6 | by specialize (T8 eq_refl)]).
Qed.

(** Until both tasks have ended one of them can run. *)
Lemma test_progress n t : test_ok n t → qt_client t ≠ CDone → ∃ a t', reports_success a ∧ test_step a t = Some t'.
Proof.
  intros [T1 T2 T3 T4 T5 T6 T7 T8] Hc. destruct t as [s c up down]. simpl in *. subst up down.
  destruct (decide (s = SDone)) as [->|Hs].
  - exists (ClientRuns true). simpl. destruct c; simpl in *; try done; try lia; by eexists.
  - destruct (test_server_step true (mkQuicTest s c (if (client_rank c <=? 3)%nat then unused else mkPipe (bytes "hello") true)
      (if (server_rank s <=? 4)%nat then unused else mkPipe (bytes "world") true))) as [t'|] eqn:Ht.
    { by exists (ServerRuns true), t'. }
    exists (ClientRuns true). unfold test_server_step in Ht.
    destruct s, c; simpl in *; try done; try lia; try (by eexists); exfalso; by apply T6.
Qed.

Lemma test_exec_ok l n t t' :
  Forall reports_success l → test_ok n t → test_exec l t = Some t' → test_ok (n + length l) t'.
Proof.
  revert n t t'. induction l as [|a l IH] using rev_ind; intros n t t'.
  { intros _ Ht [= <-]. by rewrite Nat.add_0_r. }
  intros [Hl [Ha _]%Forall_cons]%Forall_app Ht. unfold test_exec. rewrite foldl_app. simpl.
  intros (x & Hx & Hs)%bind_Some. rewrite length_app. simpl. rewrite Nat.add_assoc, Nat.add_1_r.
  eapply test_step_ok; [exact Ha|exact (IH _ _ _ Hl Ht Hx)|done].
Qed.

(** The test of QUIC.  Both hosts have sockets.  In every order in which the tasks run,
    as long as quinn reports no error: no task panics, so both messages are the
    expected ones; the test ends, after at most twelve steps, and until then one of the
    tasks can run; when it ends the server is done too. *)
Theorem quic_test_passes l t :
  Forall reports_success l → test_exec l test_begin = Some t →
  is_Some test_sockets ∧
  qt_server t ≠ SPanicked ∧ qt_client t ≠ CPanicked ∧ (length l ≤ 12)%nat ∧
  if decide (qt_client t = CDone)
  then qt_server t = SDone ∧ written (qt_up t) = bytes "hello" ∧ written (qt_down t) = bytes "world"
  else ∃ a t', reports_success a ∧ test_step a t = Some t'.
Proof.
  intros Hl Ht. split; [by vm_compute; eexists|].
  assert (test_ok 0 test_begin) as Hbegin by (split; simpl; try done; lia).
  pose proof (test_exec_ok _ _ _ _ Hl Hbegin Ht) as Hok. pose proof Hok as [T1 T2 T3 T4 T5 _ _ T8]. simpl in T1.
  split_and!; [done..| |].
  - rewrite <- T1. destruct (qt_server t), (qt_client t); simpl; try done; lia.
  - case_decide as Hc; [|by eapply test_progress]. rewrite T4, T5, (T8 Hc), Hc. done.
Qed.

Definition quic_test_order : list TestAction :=
  let c := ClientRuns true in let s := ServerRuns true in [c; s; c; s; c; c; s; s; s; s; c; c].

Lemma quic_test_passes_witness :
  ∃ t, test_exec quic_test_order test_begin = Some t ∧ qt_client t = CDone ∧ qt_server t = SDone.
Proof.
  eexists. split; [reflexivity|]. split; [reflexivity|].
  refine (proj1 (proj2 (proj2 (proj2 (proj2 (quic_test_passes quic_test_order _ _ eq_refl)))))).
  by repeat constructor.
Defined.
