(* ===== verification/NetworkTasks.v ===== *)
(** * What one run of a task does

    The task of a link handles its packet at most once and says so in the log;
    a node that receives a packet delivers, drops or stores it; and the links
    a packet is offered to are those of the routing tables, in order of cost. *)

From stdpp Require Import relations.
From S2P Require Import Prelude Float Ip Spec Event Transmit SimStep Heap InboundQueue Node.
From S2P Require Import Link Network NetworkInv NetworkSteady NetworkBuffers.

Section tasks.
Context {H : Type} {HH : BinaryHeap PrioritizedInTransitData above H}.
Context {R : Type} (rng_f64 : R → f64 * R) (rng_u128 : R → Z * R).
Context (timer_elapsed : Z → Z → bool) (topo : Topology).

Abbreviation world := (World H R).

(** ** The task of a link *)

(** The links are what they were, as far as sending is concerned. *)
Definition sending (lk : @NetworkLink H) : string * LinkStatus * PacketPacer :=
  (l_id lk, l_status lk, l_pacer lk).
Definition same_links (w w' : world) : Prop := sending <$> w_links w' = sending <$> w_links w.

(** Nothing is handled. *)
Definition quiet (w w' : world) : Prop :=
  w_now w' = w_now w ∧ w_nodes w' = w_nodes w ∧ w_handled w' = w_handled w ∧
  w_log w' = w_log w ∧ same_links w w'.

#[export] Instance quiet_preorder : PreOrder quiet.
Proof.
  split.
  - intros w. by split_and!.
  - intros x y z (E1 & E2 & E3 & E4 & Hxy) (F1 & F2 & F3 & F4 & Hyz). unfold same_links in *.
    split_and!; congruence.
Qed.

(** The packet is handled by link [l]: it is dropped, because its node's
    buffer was cleared since the packet arrived, or sent, which gives its
    bytes back to the node's buffer and keeps the link busy. *)
Definition handles (l : link_ref) (p : OutgoingPacket) (w w' : world) : Prop :=
  w_handled w !! o_handled p = Some false ∧
  w_handled w' = <[o_handled p := true]> (w_handled w) ∧
  ∃ nd, w_nodes w !! o_src_node p = Some nd ∧
    ((cleared_from_buffer (o_in_node_since p) nd = true ∧ w_nodes w' = w_nodes w ∧ same_links w w' ∧
      w_log w' = w_log w ++ [mkStep (w_now w) (dropped_step nd (o_data p) BufferCleared)]) ∨
     (cleared_from_buffer (o_in_node_since p) nd = false ∧
      ∃ lk, w_links w !! l = Some lk ∧ l_status lk = LinkStatusUp ∧
        can_send (w_now w) (l_pacer lk) = true ∧
        w_nodes w' = <[o_src_node p :=
          set_n_available (release (d_size (o_data p)) (n_available nd)) nd]> (w_nodes w) ∧
        w_log w' = w_log w ++ [mkStep (w_now w) (PacketInTransit
          (mkInTransit (d_id (o_data p)) (n_id nd) (l_id lk)))] ∧
        sending <$> w_links w' =
          <[l := (l_id lk, l_status lk, track_send (w_now w) (d_size (o_data p)) (l_pacer lk))]>
            (sending <$> w_links w))).

Definition does (l : link_ref) (p : OutgoingPacket) (w w' : world) : Prop :=
  quiet w w' ∨ handles l p w w'.

Lemma quiet_handles l p w w1 w2 : quiet w w1 → handles l p w1 w2 → handles l p w w2.
Proof.
  intros (E1 & E2 & E3 & E4 & Hl) (Hh & Hh' & nd & Hn & Hcase). rewrite E3 in Hh, Hh'.
  rewrite E2 in Hn. split_and!; [done..|]. exists nd. split; [done|].
  destruct Hcase as [(? & ? & ? & ?)|(? & lk & Hlk & ? & ? & ? & ? & Hp)].
  - left. unfold same_links in *. split_and!; congruence.
  - right. split; [done|]. destruct (fmap_facts_lookup _ _ _ _ _ Hl Hlk) as (lk0 & ? & [= Hid Hst Hp0]).
    exists lk0. unfold same_links in Hl. rewrite <-Hid, <-Hst, <-Hp0, <-E1, <-E2, <-E4, <-Hl. by split_and!.
Qed.

Lemma handles_quiet l p w w1 w2 : handles l p w w1 → quiet w1 w2 → handles l p w w2.
Proof.
  intros (Hh & Hh' & nd & Hn & Hcase) (E1 & E2 & E3 & E4 & Hl). unfold same_links in *.
  split_and!; [done|congruence|]. exists nd. split; [done|].
  destruct Hcase as [(? & ? & ? & ?)|(? & lk & ? & ? & ? & ? & ? & Hp)].
  - left. unfold same_links. split_and!; congruence.
  - right. split; [done|]. exists lk. split_and!; congruence.
Qed.

Lemma does_bind {A B} l p (m : NM world A) (f : A → NM world B) :
  steps_in quiet m → (∀ a, steps_in (does l p) (f a)) → steps_in (does l p) (m ≫= f).
Proof.
  intros Hm Hf w b w' (a & w1 & H1%Hm & [H2|H2]%Hf)%nm_bind_inv.
  - left. by etrans.
  - right. by eapply quiet_handles.
Qed.

Lemma quiet_does {A} l p (m : NM world A) : steps_in quiet m → steps_in (does l p) m.
Proof. intros Hm w a w' ?%Hm. by left. Qed.
Lemma does_panic {A} l p : steps_in (does l p) (npanic : NM world A).
Proof. by intros w a w'. Qed.

(** *** The parts of the task that are quiet *)
Lemma modify_quiet (f : world → world) : (∀ w, quiet w (f w)) → steps_in quiet (nmodify f).
Proof. by intros Hf w u w' [= _ <-]. Qed.

Lemma put_link_quiet l lk lk' (w w' : world) u :
  w_links w !! l = Some lk → l_id lk' = l_id lk → l_status lk' = l_status lk →
  l_pacer lk' = l_pacer lk → put_net_link l lk' w = Some (u, w') → quiet w w'.
Proof.
  intros Hl H1 H2 H3 [= _ <-]. split_and!; try done. unfold same_links, sending. simpl.
  rewrite fmap_insert, H1, H2, H3. apply insert_id. by rewrite lookup_fmap, Hl.
Qed.

Lemma set_phase_quiet l ph : steps_in quiet (set_phase l ph : NM world _).
Proof. apply modify_quiet. intros w. by split_and!. Qed.

Create HintDb quiet discriminated.
Hint Resolve set_phase_quiet does_panic : quiet.

Ltac quiet :=
  repeat first
    [ solve [eauto 2 with quiet nocore]
    | apply steps_in_ret; apply _
    | apply steps_in_get; apply _
    | apply steps_in_some; apply _
    | apply steps_in_assert; apply _
    | apply steps_in_panic
    | apply does_bind; [|intros ?]
    | apply steps_in_bind; [apply _| |intros ?]
    | case_match ].
Ltac does := repeat first [progress quiet | apply quiet_does; solve [quiet]].

Lemma get_node_quiet n : steps_in quiet (get_node n : NM world _).
Proof. unfold get_node. quiet. Qed.
Lemma get_net_link_quiet l : steps_in quiet (get_net_link l : NM world _).
Proof. unfold get_net_link. quiet. Qed.
Lemma is_handled_quiet p : steps_in quiet (is_handled p : NM world _).
Proof. unfold is_handled. quiet. Qed.
Lemma is_fired_quiet c : steps_in quiet (is_fired c : NM world _).
Proof. unfold is_fired. quiet. Qed.
Lemma now_quiet : steps_in quiet (now : NM world _).
Proof. unfold now. quiet. Qed.
Hint Resolve get_node_quiet get_net_link_quiet is_handled_quiet is_fired_quiet now_quiet : quiet.

Lemma update_link_quiet l f :
  (∀ lk, l_id (f lk) = l_id lk ∧ l_status (f lk) = l_status lk ∧ l_pacer (f lk) = l_pacer lk) →
  steps_in quiet (lk ← get_net_link l; put_net_link l (f lk) : NM world _).
Proof.
  intros Hf w u w' (lk & w1 & Hl & Hp)%nm_bind_inv. unfold get_net_link in Hl. nm_inv_step Hl.
  destruct (Hf lk) as (? & ? & ?). by eapply put_link_quiet.
Qed.

Lemma set_permit_quiet l b : steps_in quiet (set_permit l b : NM world _).
Proof. unfold set_permit. by apply (update_link_quiet l (set_l_permit b)). Qed.
Hint Resolve set_permit_quiet : quiet.

(** *** The end of the task's body *)
Lemma finish_packet_does l p : steps_in (does l p) (finish_packet l p : NM world _).
Proof.
  intros w u w' Hm. unfold finish_packet in Hm.
  apply nm_bind_inv in Hm as (handled & w0 & Hh & Hm). unfold is_handled in Hh. nm_inv_step Hh.
  apply nm_bind_inv in Hm as ([] & w1 & Hbody & Hset). apply set_phase_quiet in Hset.
  destruct handled; [injection Hbody as <-; by left|].
  right. eapply handles_quiet; [|exact Hset].
  apply nm_bind_inv in Hbody as ([] & w2 & Hset1 & Hbody).
  apply nm_bind_inv in Hbody as (nd & w3 & Hn & Hbody). unfold get_node in Hn. nm_inv_step Hn.
  injection Hset1 as <-. simpl in Hn.
  destruct (cleared_from_buffer (o_in_node_since p) nd) eqn:Hc.
  - injection Hbody as <-. split_and!; [done..|]. exists nd. split; [done|]. by left.
  - apply nm_bind_inv in Hbody as (lk & w4 & Hl & Hbody).
    unfold get_net_link in Hl. nm_inv_step Hl.
    apply nm_bind_inv in Hbody as (t & w5 & [= <- <-] & Hbody).
    apply nm_bind_inv in Hbody as ([[[lk' nd'] step] woken] & w6 & Hs & Hbody). nm_inv_step Hs.
    apply link_send_inv in Hs as (? & ? & -> & Hp & -> & Hid & Hst & _).
    apply nm_bind_inv in Hbody as ([] & w7 & [= <-] & Hbody).
    apply nm_bind_inv in Hbody as ([] & w8 & [= <-] & [= <-]).
    split_and!; [done..|]. exists nd. split; [done|]. right. split; [done|]. exists lk.
    split_and!; try done. simpl. rewrite fmap_insert. unfold sending at 1. by rewrite Hp, Hid, Hst.
Qed.

Lemma yield_loop_does l p : steps_in (does l p) (yield_loop l p : NM world _).
Proof.
  unfold yield_loop. destruct (o_preferred_links p) as [|pl rest]; [apply finish_packet_does|].
  set (p' := mkOutgoing _ _ _ _ _ _).
  (* the preferred links do not matter *)
  change (does l p) with (does l p'). pose proof (finish_packet_does l p') as Hfin.
  case_bool_decide; [done|]. apply does_bind; [quiet|intros handled].
  destruct handled; [done|]. apply quiet_does. quiet.
Qed.
Hint Resolve yield_loop_does : quiet.

Lemma sleep_done_does l p : steps_in (does l p) (sleep_done l p : NM world _).
Proof. unfold sleep_done. does. Qed.
Hint Resolve sleep_done_does : quiet.

Lemma sleep_loops_do fuel l p :
  steps_in (does l p) (sleep_loop fuel l p : NM world _) ∧
  steps_in (does l p) (wait_for_node fuel l p : NM world _) ∧
  steps_in (does l p) (recheck_link fuel l p : NM world _).
Proof.
  induction fuel as [|fuel (IH1 & IH2 & IH3)]; simpl.
  { split_and!; apply steps_in_panic. }
  split_and!; does; done.
Qed.

Lemma start_sleep_does l p : steps_in (does l p) (start_sleep timer_elapsed l p : NM world _).
Proof. unfold start_sleep. does. Qed.
Hint Resolve start_sleep_does : quiet.

Lemma acquire_permit_does l p :
  steps_in (does l p) (acquire_permit timer_elapsed l p : NM world _).
Proof. unfold acquire_permit. does. Qed.
Hint Resolve acquire_permit_does : quiet.

Lemma start_packet_does l p : steps_in (does l p) (start_packet timer_elapsed l p : NM world _).
Proof. unfold start_packet. does. Qed.

(** The packet the task of a link works on next. *)
Definition task_packet (w : world) (l : link_ref) (p : OutgoingPacket) : Prop :=
  match w_link_tasks w !! l with
  | Some AwaitPacket => ∃ lk rest, w_links w !! l = Some lk ∧ l_outgoing lk = p :: rest
  | Some ph => phase_packet ph = Some p
  | None => False
  end.

Lemma run_link_does l (w w' : world) :
  run_link timer_elapsed l w = Some ((), w') →
  quiet w w' ∨ ∃ p, task_packet w l p ∧ handles l p w w'.
Proof.
  intros Hm. unfold run_link in Hm.
  apply nm_bind_inv in Hm as (w0 & w1 & [= <- <-] & Hm).
  apply nm_bind_inv in Hm as (ph & w1 & Hph & Hm). nm_inv_step Hph.
  assert (∀ p (m : NM world ()), steps_in (does l p) m → task_packet w l p →
    m w = Some ((), w') → quiet w w' ∨ ∃ p, task_packet w l p ∧ handles l p w w') as Hgo.
  { intros p m Hk Hp [?|?]%Hk; [by left|right]. by exists p. }
  unfold task_packet in *. rewrite Hph in *.
  pose proof (λ fuel l p, proj1 (sleep_loops_do fuel l p)).
  pose proof (λ fuel l p, proj1 (proj2 (sleep_loops_do fuel l p))).
  pose proof (λ fuel l p, proj2 (proj2 (sleep_loops_do fuel l p))).
  destruct ph as [|p|p d|p c|p c|p]; try (eapply Hgo; [|done|exact Hm]; by does).
  apply nm_bind_inv in Hm as (lk & w1 & Hl & Hm). unfold get_net_link in Hl. nm_inv_step Hl.
  destruct (l_outgoing lk) as [|p rest] eqn:Hout; [injection Hm as <-; by left|].
  apply nm_bind_inv in Hm as ([] & w1 & Hput & Hm).
  assert (quiet w w1) as Hq by by eapply put_link_quiet; [exact Hl| | | |exact Hput].
  destruct (start_packet_does _ _ _ _ _ Hm) as [?|?]; [left; by etrans|right].
  exists p. split; [by exists lk, rest|]. by eapply quiet_handles.
Qed.

(** *** [sleep_until_ready_to_send] does not spin

    Nothing else runs while the loop of [sleep_until_ready_to_send] does not
    wait, and the channels it would wait on have not been fired, so it waits
    or returns within one turn. *)
Definition sleep_outcome (link_up node_up : option channel) (handled : bool) (l : link_ref)
    (p : OutgoingPacket) : NM world () :=
  match link_up, node_up with
  | Some c, _ => if handled then sleep_done l p else set_phase l (AwaitLinkUp p c)
  | None, Some c => if handled then sleep_done l p else set_phase l (AwaitNodeUp p c)
  | None, None => sleep_done l p
  end.

Section outcome.
Context (w : world) (l : link_ref) (p : OutgoingPacket).
Context (lk : @NetworkLink H) (nd : Node) (handled : bool).
Context (Hi : chan_inv w) (Hl : w_links w !! l = Some lk).
Context (Hn : w_nodes w !! o_src_node p = Some nd).
Context (Hh : w_handled w !! o_handled p = Some handled).

Lemma not_fired c o : waits w c o → bool_decide (c ∈ w_fired w) = false.
Proof using Hi. intros [_ ?]%(ci_waits _ Hi). by apply bool_decide_eq_false. Qed.

Lemma sleep_loop_down fuel c :
  l_status lk = LinkStatusDown c →
  sleep_loop (S fuel) l p w = sleep_outcome (Some c) None handled l p w.
Proof using Hi Hl Hh.
  intros Hs. assert (waits w c (inl l)) as Hw by by exists lk. simpl.
  rewrite (nm_bind_eq _ _ _ _ _ (get_net_link_eq w l lk Hl)).
  rewrite (nm_bind_eq _ _ _ _ _ (is_handled_eq w p handled Hh)). rewrite Hs. simpl.
  rewrite (nm_bind_eq _ _ _ _ _ (is_fired_eq w c)), (not_fired _ _ Hw).
  by destruct handled.
Qed.

Lemma recheck_link_outcome fuel :
  recheck_link (S (S fuel)) l p w =
  sleep_outcome (notifier_for_link_up (l_status lk)) None handled l p w.
Proof using Hi Hl Hh.
  remember (S fuel) as fuel' eqn:Hfuel. simpl.
  rewrite (nm_bind_eq _ _ _ _ _ (get_net_link_eq w l lk Hl)).
  destruct (l_status lk) as [|c] eqn:Hs; [done|]. subst. apply (sleep_loop_down fuel c Hs).
Qed.

Lemma wait_for_node_outcome fuel :
  wait_for_node (S (S (S fuel))) l p w =
  match notifier_for_node_up (n_status nd) with
  | Some c => sleep_outcome None (Some c) handled l p w
  | None => sleep_outcome (notifier_for_link_up (l_status lk)) None handled l p w
  end.
Proof using Hi Hl Hn Hh.
  remember (S (S fuel)) as fuel' eqn:Hfuel. simpl.
  rewrite (nm_bind_eq _ _ _ _ _ (get_node_eq w _ nd Hn)).
  rewrite (nm_bind_eq _ _ _ _ _ (is_handled_eq w p handled Hh)).
  destruct (n_status nd) as [|c] eqn:Hs; simpl; [subst; apply recheck_link_outcome|].
  assert (waits w c (inr (o_src_node p))) as Hw by by exists nd.
  rewrite (nm_bind_eq _ _ _ _ _ (is_fired_eq w c)), (not_fired _ _ Hw).
  by destruct handled.
Qed.

Lemma sleep_loop_outcome fuel :
  sleep_loop (S (S (S (S fuel)))) l p w =
  sleep_outcome (notifier_for_link_up (l_status lk)) (notifier_for_node_up (n_status nd))
    handled l p w.
Proof using Hi Hl Hn Hh.
  destruct (l_status lk) as [|c] eqn:Hs; [|by apply sleep_loop_down].
  remember (S (S (S fuel))) as fuel' eqn:Hfuel. simpl.
  rewrite (nm_bind_eq _ _ _ _ _ (get_net_link_eq w l lk Hl)).
  rewrite (nm_bind_eq _ _ _ _ _ (is_handled_eq w p handled Hh)). rewrite Hs. simpl. subst fuel'.
  rewrite wait_for_node_outcome, Hs. simpl. by destruct (n_status nd).
Qed.
End outcome.

(** ** The arrival of a packet at a node *)

Definition says (ks : list SimulationStepKind) (w w' : world) : Prop :=
  w_log w' = w_log w ++ (mkStep (w_now w) <$> ks).

(** A packet is stored if the buffer has room for it, and dropped otherwise. *)
Definition store (nd : Node) (packet : BufferedPacket) : Node * list SimulationStepKind :=
  if d_size (b_data packet) <=? n_available nd
  then (set_n_outbound (n_outbound nd ++ [packet])
          (set_n_available (n_available nd - d_size (b_data packet)) nd), [])
  else (nd, [dropped_step nd (b_data packet) BufferFull]).

Definition duplicate_of (id : Z) (data : InTransitData) : InTransitData :=
  mkData id true (d_source_endpoint data) (d_source_id data) (d_transmit data) (d_number data).

(** What becomes of a packet that arrives at node [n]. *)
Inductive Arrival (n : node_ref) (nd : Node) (data : InTransitData) (w w' : world) : Prop :=
  | ArrivedDown :
      is_down nd = true → says [in_node_step nd data true] w w' →
      w_nodes w' = w_nodes w → w_inbound w' = w_inbound w → Arrival n nd data w w'
  | ArrivedForHost queue :
      is_down nd = false → n_udp_endpoint nd = Some (t_destination (d_transmit data)) →
      w_inbound w !! n = Some queue →
      w_inbound w' = <[n := fst (queue_send (w_now w) data 0 queue)]> (w_inbound w) →
      says [in_node_step nd data false] w w' → w_nodes w' = w_nodes w → Arrival n nd data w w'
  | ArrivedLost :
      is_down nd = false → n_udp_endpoint nd ≠ Some (t_destination (d_transmit data)) →
      f64_lt (fst (rng_f64 (w_rng w))) (n_packet_loss_ratio nd) = true →
      says [in_node_step nd data false; dropped_step nd data Random] w w' →
      w_nodes w' = w_nodes w → w_inbound w' = w_inbound w → Arrival n nd data w w'
  | ArrivedForwarded nd1 k1 :
      is_down nd = false → n_udp_endpoint nd ≠ Some (t_destination (d_transmit data)) →
      f64_lt (fst (rng_f64 (w_rng w))) (n_packet_loss_ratio nd) = false →
      f64_lt (fst (rng_f64 (w_rng w)))
        (f64_add (n_packet_loss_ratio nd) (n_packet_duplication_ratio nd)) = false →
      store nd (mkBuffered (w_now w) data) = (nd1, k1) →
      says (in_node_step nd data false :: k1) w w' →
      w_nodes w' = <[n := nd1]> (w_nodes w) → w_inbound w' = w_inbound w → Arrival n nd data w w'
  | ArrivedTwice id nd1 k1 nd2 k2 :
      is_down nd = false → n_udp_endpoint nd ≠ Some (t_destination (d_transmit data)) →
      f64_lt (fst (rng_f64 (w_rng w))) (n_packet_loss_ratio nd) = false →
      f64_lt (fst (rng_f64 (w_rng w)))
        (f64_add (n_packet_loss_ratio nd) (n_packet_duplication_ratio nd)) = true →
      id = wrap128 (fst (rng_u128 (snd (rng_f64 (w_rng w))))) →
      store nd (mkBuffered (w_now w) data) = (nd1, k1) →
      store nd1 (mkBuffered (w_now w) (duplicate_of id data)) = (nd2, k2) →
      says (in_node_step nd data false :: k1 ++
        PacketDuplicated (generic_event nd (duplicate_of id data)) :: k2) w w' →
      w_nodes w' = <[n := nd2]> (w_nodes w) → w_inbound w' = w_inbound w → Arrival n nd data w w'.

Lemma enqueue_store n packet (w w' : world) u nd :
  w_nodes w !! n = Some nd → 0 ≤ n_available nd < 2 ^ 64 →
  enqueue n packet w = Some (u, w') →
  w' = set_w_nodes (<[n := fst (store nd packet)]> (w_nodes w))
         (set_w_log (w_log w ++ (mkStep (w_now w) <$> snd (store nd packet))) w).
Proof.
  intros Hn Ha Hm. unfold enqueue in Hm. rewrite (nm_bind_eq _ _ _ _ _ (get_node_eq w _ nd Hn)) in Hm.
  apply nm_bind_inv in Hm as ([ok nd'] & w1 & He & Hm). nm_inv_step He.
  pose proof (enqueue_outbound_ok _ _ _ _ Ha He) as ->. unfold store.
  unfold enqueue_outbound, reserve in He.
  destruct (Z.ltb_spec (n_available nd) (d_size (b_data packet))) as [Hlt|Hle].
  - injection He as <-. injection Hm as _ <-.
    destruct (Z.leb_spec (d_size (b_data packet)) (n_available nd)); [lia|]. simpl.
    rewrite insert_id by done. by destruct w.
  - destruct (n_outbound_open nd); [|done]. injection He as <- _. injection Hm as _ <-.
    destruct (Z.leb_spec (d_size (b_data packet)) (n_available nd)); [|lia]. simpl.
    rewrite app_nil_r. by destruct w.
Qed.

Lemma store_available nd packet :
  0 ≤ n_available nd < 2 ^ 64 → 0 ≤ n_available (fst (store nd packet)) < 2 ^ 64.
Proof.
  pose proof (packet_size_range (d_transmit (b_data packet))) as Hsz.
  change (packet_size (d_transmit (b_data packet))) with (d_size (b_data packet)) in Hsz.
  unfold store. destruct (Z.leb_spec (d_size (b_data packet)) (n_available nd)); simpl; lia.
Qed.

Lemma store_id nd packet : n_id (fst (store nd packet)) = n_id nd.
Proof. unfold store. by destruct (_ <=? _). Qed.

Lemma forward_arrival n data (w w' : world) u nd :
  w_nodes w !! n = Some nd → 0 ≤ n_available nd < 2 ^ 64 →
  forward rng_f64 rng_u128 n data w = Some (u, w') → Arrival n nd data w w'.
Proof.
  intros Hn Ha Hm. unfold forward in Hm.
  rewrite (nm_bind_eq _ _ _ _ _ (get_node_eq w _ nd Hn)) in Hm.
  destruct (is_down nd) eqn:Hdown; [injection Hm as _ <-; by eapply ArrivedDown|].
  apply nm_bind_inv in Hm as ([] & w1 & [= <-] & Hm). case_bool_decide as Hdest.
  { apply nm_bind_inv in Hm as (w2 & w3 & [= <- <-] & Hm).
    apply nm_bind_inv in Hm as (queue & w3 & Hq & Hm). nm_inv_step Hq. simpl in Hq.
    injection Hm as _ <-. by eapply (ArrivedForHost _ _ _ _ _ queue). }
  apply nm_bind_inv in Hm as (roll & w2 & Hroll & Hm). unfold draw_f64 in Hroll. simpl in Hroll.
  destruct (rng_f64 (w_rng w)) as [x r] eqn:Hrng. injection Hroll as <- <-.
  assert (fst (rng_f64 (w_rng w)) = x) as Hx by by rewrite Hrng.
  destruct (f64_lt x (n_packet_loss_ratio nd)) eqn:Hloss.
  { injection Hm as _ <-. eapply ArrivedLost; try done; [by rewrite Hx|].
    unfold says, record. simpl. by rewrite <-app_assoc. }
  apply nm_bind_inv in Hm as (t & w3 & [= <- <-] & Hm). simpl in Hm.
  set (packet := mkBuffered (w_now w) data) in *.
  destruct (f64_lt x (f64_add (n_packet_loss_ratio nd) (n_packet_duplication_ratio nd))) eqn:Hdup;
    simpl in Hm.
  - apply nm_bind_inv in Hm as (maybe & w4 & Hid & Hm).
    apply nm_bind_inv in Hid as (id & w5 & Hid & [= <- <-]).
    unfold new_packet_id in Hid. simpl in Hid.
    destruct (rng_u128 r) as [y r'] eqn:Hrng'. injection Hid as <- <-.
    apply nm_bind_inv in Hm as ([] & w4 & He & Hm).
    apply (enqueue_store n packet _ _ _ nd) in He as ->; [|done|done].
    apply nm_bind_inv in Hm as ([] & w4 & [= <-] & Hm).
    eapply enqueue_store in Hm; [|apply lookup_insert_eq|by apply store_available].
    destruct (store nd packet) as [nd1 k1] eqn:H1. simpl in Hm.
    change (mkBuffered (w_now w) _) with (mkBuffered (w_now w) (duplicate_of (wrap128 y) data)) in Hm.
    destruct (store nd1 (mkBuffered (w_now w) (duplicate_of (wrap128 y) data))) as [nd2 k2] eqn:H2.
    subst w'. eapply (ArrivedTwice _ _ _ _ _ (wrap128 y) nd1 k1 nd2 k2); rewrite ?Hx; try done.
    + rewrite Hrng. simpl. by rewrite Hrng'.
    + unfold says, record. simpl. rewrite fmap_app, <-!app_assoc. done.
    + simpl. by rewrite insert_insert_eq.
  - apply nm_bind_inv in Hm as (maybe & w4 & [= <- <-] & Hm).
    apply nm_bind_inv in Hm as ([] & w4 & He & [= _ <-]).
    apply (enqueue_store n packet _ _ _ nd) in He as ->; [|done|done].
    destruct (store nd packet) as [nd1 k1] eqn:H1.
    eapply (ArrivedForwarded _ _ _ _ _ nd1 k1); rewrite ?Hx; try done.
    unfold says, record. simpl. by rewrite <-app_assoc.
Qed.
End tasks.
