(* ===== verification/NetworkPace.v ===== *)
(** * The traffic of a link stays within its bandwidth

    The transmissions of a link in an execution, and the time between them.
    The duration of a transmission is not the one the code computes: the
    theorem is about the bits of the packets and the bandwidth of the link's
    specification. *)

From stdpp Require Import relations.
From S2P Require Import Prelude Float Ip Spec Event Transmit SimStep Heap InboundQueue Node.
From S2P Require Import Link Network NetworkInit NetworkInv NetworkSteady NetworkBuffers NetworkTasks NetworkRng NetworkExample.

Section network.
Context {H : Type} {HH : BinaryHeap PrioritizedInTransitData above H}.
Context {R : Type} (rng_f64 : R → f64 * R) (rng_u128 : R → Z * R).
Context (timer_elapsed : Z → Z → bool) (topo : Topology) (start : Z).

Abbreviation world := (World H R).
Abbreviation reach := (Reach rng_f64 rng_u128 timer_elapsed topo start).

(** ** Only the tasks of the links use the pacers *)
Definition idle (w w' : world) : Prop :=
  w_now w' = w_now w ∧ l_pacer <$> w_links w' = l_pacer <$> w_links w.

#[export] Instance idle_preorder : PreOrder idle.
Proof. split; [by intros w|]. intros x y z [] []. split; congruence. Qed.

Lemma modify_idle (f : world → world) : (∀ w, idle w (f w)) → steps_in idle (nmodify f).
Proof. by intros Hf w u w' [= _ <-]. Qed.
Lemma draw_idle : steps_in idle (draw_f64 (H:=H) rng_f64).
Proof. intros w u w'. unfold draw_f64. destruct (rng_f64 (w_rng w)). by intros [= _ <-]. Qed.
Lemma packet_id_idle : steps_in idle (new_packet_id (H:=H) rng_u128).
Proof. intros w u w'. unfold new_packet_id. destruct (rng_u128 (w_rng w)). by intros [= _ <-]. Qed.
Lemma fresh_idle : steps_in idle (fresh (H:=H) (R:=R)).
Proof. by intros w u w' [= _ <-]. Qed.

Lemma update_link_idle {A} l (f : @NetworkLink H → NM world A) :
  (∀ lk w a w', w_links w !! l = Some lk → f lk w = Some (a, w') → idle w w') →
  steps_in idle (get_net_link l ≫= f).
Proof.
  intros Hf w a w' (lk & w1 & Hl & Hm)%nm_bind_inv. unfold get_net_link in Hl. nm_inv_step Hl. by eapply Hf.
Qed.

Lemma put_link_idle l lk lk' (w w' : world) u :
  w_links w !! l = Some lk → l_pacer lk' = l_pacer lk → put_net_link l lk' w = Some (u, w') → idle w w'.
Proof.
  intros Hl Hp [= _ <-]. split; [done|]. simpl. rewrite fmap_insert, Hp. apply insert_id.
  by rewrite lookup_fmap, Hl.
Qed.

Create HintDb idle discriminated.
Hint Resolve draw_idle packet_id_idle fresh_idle : idle.

Ltac idle :=
  repeat first
    [ solve [eauto 2 with idle nocore]
    | (apply modify_idle; intros ?; by split)
    | apply steps_in_ret; apply _
    | apply steps_in_get; apply _
    | apply steps_in_some; apply _
    | apply steps_in_assert; apply _
    | apply steps_in_panic
    | apply steps_in_foreach; [apply _|intros ?]
    | apply steps_in_bind; [apply _| |intros ?]
    | case_match ].

Lemma put_node_idle n nd : steps_in idle (put_node n nd : NM world _).
Proof. unfold put_node. idle. Qed.
Hint Resolve put_node_idle : idle.

Lemma push_idle l (f : @NetworkLink H → list OutgoingPacket) :
  steps_in idle (lk ← get_net_link l; put_net_link l (set_l_outgoing (f lk) lk) : NM world _).
Proof. apply update_link_idle. intros lk w u w' Hl Hm. by eapply put_link_idle; [exact Hl| |exact Hm]. Qed.
Hint Resolve push_idle : idle.

Lemma forward_idle n d : steps_in idle (forward rng_f64 rng_u128 n d : NM world _).
Proof. unfold forward, enqueue, get_node, record_step, now. idle. Qed.
Hint Resolve forward_idle : idle.

Lemma run_buffer_idle n : steps_in idle (run_buffer rng_f64 topo n : NM world _).
Proof.
  unfold run_buffer, get_node, set_handled, generate_packet_anomalies, track_injected_failures, record_step, now. idle.
Qed.

Lemma run_forwarder_idle l :
  steps_in idle (run_forwarder rng_f64 rng_u128 timer_elapsed topo l : NM world _).
Proof.
  unfold run_forwarder. apply steps_in_bind; [apply _|idle|intros w0].
  apply steps_in_bind; [apply _|idle|intros f]. apply update_link_idle.
  intros lk w u w' Hl Hm.
  apply nm_bind_inv in Hm as ([[res f'] queue] & w1 & Hpoll & Hm). nm_inv_step Hpoll.
  apply nm_bind_inv in Hm as ([] & w1 & Hput & Hm).
  transitivity w1; [by eapply put_link_idle; [exact Hl| |exact Hput]|]. revert Hm.
  match goal with |- ?m w1 = _ → _ => enough (steps_in idle m) as Hk by apply Hk end.
  unfold deliver, get_net_link, record_step. idle.
Qed.

Lemma process_link_event_idle e : steps_in idle (process_link_event topo e : NM world _).
Proof.
  unfold process_link_event. destruct (links_by_id topo !! _) as [l|]; [|idle].
  apply steps_in_bind; [apply _| |intros []; unfold record_step; idle].
  destruct (le_status e); [|idle]. apply update_link_idle. intros lk w v w' Hl Hm.
  apply nm_bind_inv in Hm as (c & w1 & [= <- <-] & Hm).
  apply nm_bind_inv in Hm as (t & w1 & [= <- <-] & Hm).
  destruct (link_update_status _ _ _ _) as [lk' fired] eqn:Hup.
  apply link_update_status_spec in Hup as (_ & _ & _ & Hp & _).
  apply nm_bind_inv in Hm as ([] & w1 & Hput & ->%fire_world).
  apply (put_link_idle l lk) in Hput as [E1 E2]; [|done|done]. by split.
Qed.

Lemma process_node_event_idle e : steps_in idle (process_node_event topo e : NM world _).
Proof. unfold process_node_event, get_node, fire, record_step, now. idle. Qed.
Hint Resolve process_link_event_idle process_node_event_idle : idle.

Lemma run_events_idle s : steps_in idle (run_events timer_elapsed topo s : NM world _).
Proof. unfold run_events, process_event. idle. Qed.

Lemma initial_events_idle start_links start_nodes :
  steps_in idle (_ ← nforeach (process_link_event topo) start_links;
    nforeach (process_node_event topo) start_nodes : NM world _).
Proof. idle. Qed.

Lemma try_send_idle n t : steps_in idle (try_send rng_f64 rng_u128 n t : NM world _).
Proof. unfold try_send, in_transit_data, get_node. idle. Qed.

Lemma poll_recv_idle n m b : steps_in idle (poll_recv timer_elapsed n m b : NM world _).
Proof. unfold poll_recv, read_packet, get_node, record_step. idle. Qed.

(** ** The pacer of a link *)

(** The link has bandwidth [bw]; when [A] is known, the link stays busy until its bandwidth has
    sufficed for [A] bits, times [10^9], since the origin of time. *)
Definition paced (l : link_ref) (bw : Z) (A : option Z) (w : world) : Prop :=
  ∃ lk, w_links w !! l = Some lk ∧ pacer_bandwidth_bps (l_pacer lk) = f64_of_Z bw ∧
    ∀ a, A = Some a → ∃ T, last_send (l_pacer lk) = Some T ∧ a ≤ T * bw.

Lemma same_pacers_lookup l lk (w w' : world) :
  l_pacer <$> w_links w' = l_pacer <$> w_links w → w_links w !! l = Some lk →
  ∃ lk', w_links w' !! l = Some lk' ∧ l_pacer lk' = l_pacer lk.
Proof.
  intros Hp Hl. symmetry in Hp. destruct (fmap_facts_lookup _ _ _ _ _ Hp Hl) as (lk' & ? & ?). by exists lk'.
Qed.

Lemma same_links_pacers (w w' : world) : same_links w w' → l_pacer <$> w_links w' = l_pacer <$> w_links w.
Proof.
  intros Hl. apply (f_equal (fmap snd)) in Hl. by rewrite <-!map_fmap_compose in Hl.
Qed.

(** The pacer after a transmission. *)
Definition after_send (now size : Z) (lk lk' : @NetworkLink H) : Prop :=
  can_send now (l_pacer lk) = true ∧ l_pacer lk' = track_send now size (l_pacer lk).

Lemma from_millis_bps t size bw p : 0 ≤ size < 2 ^ 37 → 0 < bw < 2 ^ 53 → pacer_bandwidth_bps p = f64_of_Z bw →
  t * bw + 8 * 10 ^ 9 * size ≤ (t + from_millis (send_duration_ms size p)) * bw.
Proof.
  intros Hs Hb Hp. assert (send_duration_ms size p = send_duration_ms size (PacketPacer_new bw)) as ->
    by (unfold send_duration_ms; by rewrite Hp).
  destruct (send_duration_exact size bw Hs Hb) as [Hd _]. unfold from_millis, ns_per_ms. lia.
Qed.

(** A transmission over link [m] uses its pacer and no other. *)
Lemma sending_pacer m l (lkm lk : @NetworkLink H) pacer (w w' : world) :
  sending <$> w_links w' = <[m := (l_id lkm, l_status lkm, pacer)]> (sending <$> w_links w) →
  w_links w !! l = Some lk →
  ∃ lk', w_links w' !! l = Some lk' ∧ l_pacer lk' = if decide (l = m) then pacer else l_pacer lk.
Proof.
  intros Hs Hl. apply (f_equal (lookup l)) in Hs. rewrite lookup_fmap in Hs. destruct (decide (l = m)) as [->|Hne].
  - rewrite lookup_insert_eq in Hs. apply fmap_Some in Hs as (lk' & ? & [= _ _ ->]). by exists lk'.
  - rewrite lookup_insert_ne, lookup_fmap, Hl in Hs by done.
    apply fmap_Some in Hs as (lk' & ? & [= _ _ ->]). by exists lk'.
Qed.

(** One step leaves the pacer of link [l] alone, or uses it. *)
Lemma step_pacer l lk (w w' : world) :
  NetStep rng_f64 rng_u128 timer_elapsed topo start w w' → w_links w !! l = Some lk →
  ∃ lk', w_links w' !! l = Some lk' ∧
    (l_pacer lk' = l_pacer lk ∨ ∃ size, after_send (w_now w) size lk lk').
Proof.
  intros Hstep Hl.
  assert (l_pacer <$> w_links w' = l_pacer <$> w_links w → ∃ lk', w_links w' !! l = Some lk' ∧
    (l_pacer lk' = l_pacer lk ∨ ∃ size, after_send (w_now w) size lk lk')) as Hidle.
  { intros Hp. destruct (same_pacers_lookup _ _ _ _ Hp Hl) as (lk' & ? & ?). eauto. }
  destruct Hstep as [n w w' Hm|m w w' Hm|m w w' Hm|w w' Hm|n t w w' Hm|n m b r w w' Hm|t w Hm].
  - by eapply Hidle, run_buffer_idle.
  - apply run_link_does in Hm as [(_ & _ & _ & _ & Hq)|(p & _ & _ & _ & nd & _ & Hcase)].
    { by apply Hidle, same_links_pacers. }
    destruct Hcase as [(_ & _ & Hq & _)|(_ & lkm & Hlkm & _ & Hc & _ & _ & Hs)].
    { by apply Hidle, same_links_pacers. }
    destruct (sending_pacer _ _ _ _ _ _ _ Hs Hl) as (lk' & Hl' & Hp). exists lk'. split; [done|].
    destruct (decide (l = m)) as [->|]; [|by left]. simplify_eq. right. by eexists.
  - by eapply Hidle, run_forwarder_idle.
  - by eapply Hidle, run_events_idle.
  - by eapply Hidle, try_send_idle.
  - by eapply Hidle, poll_recv_idle.
  - by apply Hidle.
Qed.

(** A transmission that starts when the link is not busy. *)
Lemma after_send_paced l bw A size lk lk' (w w' : world) :
  0 < bw < 2 ^ 53 → paced l bw A w → w_links w !! l = Some lk → w_links w' !! l = Some lk' →
  after_send (w_now w) size lk lk' →
  (∀ a, A = Some a → a ≤ w_now w * bw) ∧ paced l bw A w' ∧
  (0 ≤ size < 2 ^ 37 → paced l bw (Some (w_now w * bw + 8 * 10 ^ 9 * size)) w').
Proof.
  intros Hbw (lk0 & Hl & Hb & HA) Hlk Hl' [Hc Hp]. simplify_eq.
  assert (∀ a, A = Some a → a ≤ w_now w * bw) as Hnow.
  { intros a Ha. destruct (HA a Ha) as (T & HT & ?). unfold can_send in Hc. rewrite HT in Hc.
    apply Z.leb_le in Hc. nia. }
  split_and!; [done|..].
  - exists lk'. rewrite Hp. split_and!; [done..|]. intros a Ha%Hnow. eexists. split; [done|].
    pose proof (send_duration_ms_range size (l_pacer lk0)). unfold from_millis, ns_per_ms. nia.
  - intros Hs. exists lk'. rewrite Hp. split_and!; [done..|]. intros a [= <-]. eexists. split; [done|].
    by apply from_millis_bps.
Qed.

Lemma reach_paced l bw A (w w' : world) : 0 < bw < 2 ^ 53 → reach w w' → paced l bw A w → paced l bw A w'.
Proof.
  intros Hbw. induction 1 as [|x y z Hs _ IH]; [done|]. intros Hx. apply IH.
  pose proof Hx as (lk & Hl & Hb & HA).
  destruct (step_pacer _ _ _ _ Hs Hl) as (lk' & Hl' & [Hp|[size Ha]]).
  - exists lk'. rewrite Hp. by split_and!.
  - apply (after_send_paced l bw A size lk lk' x y); done.
Qed.

(** ** The transmissions of a link *)

(** The task of the link runs and sends packet [p]. *)
Definition transmits (l : link_ref) (p : OutgoingPacket) (w w' : world) : Prop :=
  run_link timer_elapsed l w = Some ((), w') ∧ task_packet w l p ∧
  ∃ k, w_log w' = w_log w ++ [mkStep (w_now w) (PacketInTransit k)].

(** An execution that contains these transmissions of link [l]: the instant of each and the bytes of its
    packet. *)
Inductive Traffic (l : link_ref) : world → list (Z * Z) → world → Prop :=
  | TrafficEnd w w' : reach w w' → Traffic l w [] w'
  | TrafficSend p sends w w1 w2 w' :
      reach w w1 → transmits l p w1 w2 → Traffic l w2 sends w' →
      Traffic l w ((w_now w1, d_size (o_data p)) :: sends) w'.

Lemma transmits_after l p lk (w w' : world) : transmits l p w w' → w_links w !! l = Some lk →
  ∃ lk', w_links w' !! l = Some lk' ∧ after_send (w_now w) (d_size (o_data p)) lk lk'.
Proof.
  intros (Hm & Hp & k & Hlog) Hl.
  apply run_link_does in Hm as [(_ & _ & _ & Hq & _)|(p' & Hp' & _ & _ & nd & _ & Hcase)].
  { rewrite Hq in Hlog. apply (f_equal length) in Hlog. rewrite length_app in Hlog. simpl in Hlog. lia. }
  assert (p' = p) as ->.
  { unfold task_packet in *. destruct (w_link_tasks w !! l) as [[]|]; simpl in *; try congruence; [|done].
    destruct Hp as (? & ? & ? & ?), Hp' as (? & ? & ? & ?). congruence. }
  destruct Hcase as [(_ & _ & _ & Hd)|(_ & lkm & Hlkm & _ & Hc & _ & _ & Hs)].
  { rewrite Hlog in Hd. by apply app_inj_2 in Hd as [_ [=]]. }
  destruct (sending_pacer _ _ _ _ _ _ _ Hs Hl) as (lk' & Hl' & Hpacer). exists lk'. split; [done|].
  rewrite decide_True in Hpacer by done. simplify_eq. by split.
Qed.

Lemma traffic_sizes l sends (w w' : world) : Traffic l w sends w' → Forall (λ s, 0 ≤ s.2) sends.
Proof.
  induction 1 as [|p sends w w1 w2 w' _ _ _ IH]; constructor; [|done].
  apply (packet_size_range (d_transmit (o_data p))).
Qed.

Definition traffic_bytes (sends : list (Z * Z)) : Z := sumZ snd sends.

Lemma traffic_paced l bw A (w w' : world) middle last :
  0 < bw < 2 ^ 53 → Forall (λ s, 0 ≤ s.2 < 2 ^ 37) middle → paced l bw (Some A) w →
  Traffic l w (middle ++ [last]) w' → A + 8 * 10 ^ 9 * traffic_bytes middle ≤ last.1 * bw.
Proof.
  intros Hbw Hsz. revert A w. induction Hsz as [|s middle Hs _ IH]; intros A w HA Ht; inversion Ht; subst.
  - match goal with Hr : reach w _, Hx : transmits _ _ _ _ |- _ => rename Hr into Hreach, Hx into Hsend end.
    eapply reach_paced in HA; [|done..]. pose proof HA as (lk & Hl & _).
    destruct (transmits_after _ _ _ _ _ Hsend Hl) as (lk' & Hl' & Ha).
    eapply after_send_paced in Ha as (Hnow & _); [|done..].
    unfold traffic_bytes. simpl. specialize (Hnow A eq_refl). lia.
  - match goal with Hr : reach w _, Hx : transmits _ _ _ _ |- _ => rename Hr into Hreach, Hx into Hsend end.
    eapply reach_paced in HA; [|done..]. pose proof HA as (lk & Hl & _).
    destruct (transmits_after _ _ _ _ _ Hsend Hl) as (lk' & Hl' & Ha).
    eapply after_send_paced in Ha as (Hnow & _ & Hp); [|done..].
    specialize (Hnow A eq_refl). eapply IH in Hp; [|done..]. unfold traffic_bytes in *. simpl in *. lia.
Qed.
End network.

(** ** From the specification *)
Section paced.
Context {H : Type} {HH : BinaryHeap PrioritizedInTransitData above H}.
Context {R : Type} (rng_f64 : R → f64 * R) (rng_u128 : R → Z * R).
Context (timer_elapsed : Z → Z → bool).

(** The links are numbered in the order of the specification. *)
Lemma add_links_numbered specs (b : @Links H) : foldM add_link specs (mkLinks ∅ ∅ ∅ 0%nat) = Ok b →
  ∀ l ls, specs !! l = Some ls → lb_links b !! l = Some (NetworkLink_new ls).
Proof.
  intros Hf. enough (lb_next b = length specs ∧
    ∀ l ls, specs !! l = Some ls → lb_links b !! l = Some (NetworkLink_new ls)) as [_ Hl] by exact Hl.
  refine (foldM_inv_prefix (λ pre (x : @Links H), lb_next x = length pre ∧
    ∀ l ls, pre !! l = Some ls → lb_links x !! l = Some (NetworkLink_new ls)) _ _ _ _ _ _ Hf); [done|].
  intros pre s post x x' _ [Hn Hx]. unfold add_link. destruct (lb_by_addr x !! _); [done|].
  destruct (lb_by_id x !! _); [done|]. intros [= <-]. simpl. rewrite length_app. split; [simpl; lia|].
  intros l ls [Hl|[Hle Hl]]%lookup_app_Some.
  - apply lookup_lt_Some in Hl as Hlt. rewrite lookup_insert_ne by lia. by apply Hx.
  - apply list_lookup_singleton_Some in Hl as [Hl <-]. replace l with (lb_next x) by lia. by rewrite lookup_insert_eq.
Qed.

Lemma initialize_paced now spec events (rng : R) start dtw topo (w0 : World H R) l ls :
  initialize now spec events rng start dtw = Ok (topo, w0) → links spec !! l = Some ls →
  paced l (bandwidth_bps ls) None w0.
Proof.
  intros Hinit Hl. unfold initialize in Hinit. inv_bind Hinit. clear Hinitm.
  inv_bind Hinit. clear Hinitm. inv_bind Hinit. inv_bind Hinit. inv_bind Hinit.
  match type of Hinit with context [match ?x with _ => _ end] =>
    destruct x as [[[] w']|] eqn:Hw; [|done] end. injection Hinit as <- <-.
  apply initial_events_idle in Hw as [_ Hp].
  assert (lb_links a2 !! l = Some (NetworkLink_new ls)) as Hlk by by eapply add_links_numbered.
  destruct (same_pacers_lookup _ _ _ _ Hp Hlk) as (lk' & Hl' & Hpacer). exists lk'. by rewrite Hpacer.
Qed.

(** C22: The traffic of a link stays within its bandwidth.  In every execution of a network, whatever
    the tasks, the hosts and the events do, take any transmissions of a link, one after the other
    (packets below 128 GiB, over a link of the specification whose bandwidth is between 1 and
    [2^53 - 1] bits per second): the bits of all packets but the last fit in the time between the
    first transmission and the last, at the bandwidth the specification gives the link. *)
Theorem traffic_within_bandwidth begin spec events (rng : R) start disable_time_warping topo
    (w0 w : World H R) l ls first middle last :
  initialize begin spec events rng start disable_time_warping = Ok (topo, w0) →
  links spec !! l = Some ls → 0 < bandwidth_bps ls < 2 ^ 53 →
  Traffic rng_f64 rng_u128 timer_elapsed topo start l w0 (first :: middle ++ [last]) w →
  Forall (λ s, s.2 < 2 ^ 37) (first :: middle) →
  8 * traffic_bytes (first :: middle) * 10 ^ 9 ≤ (last.1 - first.1) * bandwidth_bps ls.
Proof.
  intros Hinit Hls Hbw Ht Hsz.
  assert (Forall (λ s, 0 ≤ s.2 < 2 ^ 37) (first :: middle)) as Hsizes.
  { pose proof (traffic_sizes _ _ _ _ _ _ _ _ _ Ht) as Hpos. rewrite app_comm_cons in Hpos.
    apply Forall_app in Hpos as [Hpos _]. apply Forall_and. by split. }
  pose proof (initialize_paced _ _ _ _ _ _ _ _ _ _ Hinit Hls) as Hp.
  apply Forall_cons in Hsizes as [Hfirst Hmiddle]. inversion Ht as [|p sends x w1 w2 y Hreach Hsend Hrest]; subst.
  eapply reach_paced in Hp; [|done..]. pose proof Hp as (lk & Hl & _).
  destruct (transmits_after _ _ _ _ _ _ Hsend Hl) as (lk' & Hl' & Ha).
  eapply after_send_paced in Ha as (_ & _ & Hp'); [|done..]. specialize (Hp' Hfirst).
  eapply traffic_paced in Hp'; [|done..]. unfold traffic_bytes in *. simpl in *. lia.
Qed.
End paced.

(** ** Witness *)

(** The slow link sends a packet of 1500 bytes, and a second later the next one. *)
Definition slow_state (n : nat) : World net_heap net_rng := default no_world (run_network slow_net (take n slow_script)).
Definition slow_traffic : list (Z * Z) := [(0, 1500); (1000000000, 1500)].

Lemma slow_initialize :
  initialize 0 slow_spec (NetworkEvents_new [] (nodes slow_spec) []) (net_seed 0) 0 false =
    Ok (fst slow_net, snd slow_net).
Proof. vm_compute. reflexivity. Qed.

Lemma slow_reach : Reach net_f64 net_u128 net_timer (fst slow_net) 0 (snd slow_net) (slow_state 4).
Proof. apply (exec_all_reach _ _ _ _ _ (take 4 slow_script)). vm_compute. reflexivity. Qed.

Lemma slow_reach_again : Reach net_f64 net_u128 net_timer (fst slow_net) 0 (slow_state 5) (slow_state 7).
Proof. apply (exec_all_reach _ _ _ _ _ (take 2 (drop 5 slow_script))). vm_compute. reflexivity. Qed.

Definition transmitted (w : World net_heap net_rng) : OutgoingPacket :=
  match w_link_tasks w !! 0%nat, w_links w !! 0%nat with
  | Some AwaitPacket, Some lk => hd handed_packet (l_outgoing lk)
  | Some ph, _ => default handed_packet (phase_packet ph)
  | _, _ => handed_packet
  end.

Lemma slow_send : transmits net_timer 0%nat (transmitted (slow_state 4)) (slow_state 4) (slow_state 5).
Proof.
  split_and!; [vm_compute; reflexivity|vm_compute; by do 2 eexists|].
  eexists. vm_compute. reflexivity.
Qed.

Lemma slow_send_again : transmits net_timer 0%nat (transmitted (slow_state 7)) (slow_state 7) (slow_state 8).
Proof. split_and!; [vm_compute; reflexivity..|]. eexists. vm_compute. reflexivity. Qed.

Lemma traffic_within_bandwidth_witness : 8 * 1500 * 10 ^ 9 ≤ (1000000000 - 0) * 12000.
Proof.
  refine (traffic_within_bandwidth net_f64 net_u128 net_timer 0 slow_spec _ (net_seed 0) 0 false (fst slow_net)
    (snd slow_net) (slow_state 8) 0%nat (mkLinkSpec "ab" (as_ip_addr host_A) (as_ip_addr host_B) (from_millis 5) 12000
       (f64_of_Z 0) 0 (f64_of_Z 0)) (0, 1500) [] (1000000000, 1500) slow_initialize eq_refl _ _ _).
  - vm_compute. by split.
  - apply (TrafficSend _ _ _ _ _ _ (transmitted (slow_state 4)) _ _ (slow_state 4) (slow_state 5) _ slow_reach slow_send).
    apply (TrafficSend _ _ _ _ _ _ (transmitted (slow_state 7)) _ _ (slow_state 7) (slow_state 8) _ slow_reach_again
      slow_send_again).
    constructor. constructor.
  - repeat constructor.
Defined.
