(* ===== verification/NetworkProps.v ===== *)
(** * Correctness of the network

    What holds of every world the tasks of a network reach from the one
    [initialize] builds, whatever the order in which they run. *)

From stdpp Require Import relations sorting.
From S2P Require Import Prelude Float Ip Spec Event Transmit SimStep Replayed Verifier History.
From S2P Require Import VerifierInv VerifierLog VerifierThms VerifierTotal VerifierSteps.
From S2P Require Import VerifierProps Heap InboundQueue Node Link Network NetworkInit.
From S2P Require Import NetworkInv NetworkSteady NetworkLinks NetworkBuffers NetworkStart.
From S2P Require Import NetworkRoutes NetworkTasks NetworkExample.

(** ** Executions from the initial world *)
Section executions.
Context {H : Type} {HH : BinaryHeap PrioritizedInTransitData above H}.
Context {R : Type} (rng_f64 : R → f64 * R) (rng_u128 : R → Z * R).
Context (timer_elapsed : Z → Z → bool).
Context (begin : Z) (spec : NetworkSpec) (events : NetworkEvents) (rng : R) (start : Z).
Context (disable_time_warping : bool) (topo : Topology) (w0 w : World H R).
Context (Hinit : initialize begin spec events rng start disable_time_warping = Ok (topo, w0)).
Context (Hbegin : 0 ≤ begin).
Context (Hreach : Reach rng_f64 rng_u128 timer_elapsed topo start w0 w).

Lemma reach_log_ok : log_ok w.
Proof using Hinit Hbegin Hreach.
  apply (reach_log _ _ _ _ _ _ _ Hreach). by eapply initialize_log_ok.
Qed.

Lemma reach_log_sorted : sorted_by_key step_time (w_log w).
Proof using Hinit Hbegin Hreach. by destruct reach_log_ok as (? & _ & _). Qed.

Lemma reach_log_typed : Forall step_typed (w_log w).
Proof using Hinit Hbegin Hreach.
  destruct reach_log_ok as (_ & _ & Hlog). eapply Forall_impl; [exact Hlog|].
  intros s [[? _] Hk]. split; [done|]. by destruct (step_kind s).
Qed.

(** C10: The replay log is append-only and in the order of time: an execution only appends to
    the log, the steps are sorted by their times, none lies in the future, and the sort the
    verifier applies to the log before it replays it changes nothing. *)
Theorem network_log_in_time_order :
  w_log w0 `prefix_of` w_log w ∧ sorted_by_key step_time (w_log w) ∧
  Forall (λ s, 0 ≤ step_time s ≤ w_now w) (w_log w) ∧
  sort_by_key step_time (w_log w) = w_log w.
Proof using Hinit Hbegin Hreach.
  split_and!; [apply (reach_log _ _ _ _ _ _ _ Hreach)|apply reach_log_sorted| |].
  - destruct reach_log_ok as (_ & _ & Hlog). eapply Forall_impl; [exact Hlog|]. by intros s [? _].
  - apply sort_by_key_id, reach_log_sorted.
Qed.

(** C2: The network never sends over a link that is down: in the log of any execution, the
    latest status event of the link before each transmission does not say it is down, so the
    verifier's report on the log has no such error. *)
Theorem network_sends_online hash_order vspec steps v0 r :
  (∀ s, hash_order s ≡ₚ elements s) → spec_typed vspec →
  verifier_new hash_order (w_log w) vspec = Ok (steps, v0) → verify steps v0 = Ok r →
  online_sends (w_log w) ∧ ∀ n l, OfflinePacketSend n l ∉ non_fatal_errors r.
Proof using Hinit Hbegin Hreach.
  intros Horder Hspec Hnew Hverify.
  assert (online_sends (w_log w)) as Hon.
  { eapply si_online, reach_status; [exact Hreach|]. by eapply initialize_status. }
  split; [done|]. intros n l.
  rewrite (reported_iff _ Horder _ _ _ _ _ Hnew reach_log_typed Hspec Hverify) by done.
  intros (pre & s & post & Hsteps & (t & k & -> & _ & <- & _ & Hdown)%offline_send_step).
  rewrite (verifier_new_sorted _ _ _ _ _ Hnew), sort_by_key_id in Hsteps
    by apply reach_log_sorted.
  rewrite (Hon _ _ _ _ Hsteps) in Hdown. done.
Qed.

(** C4: A node never stores more than its buffer holds, in any execution: the bytes available, the
    bytes of the packets that wait to be handed to the links and the bytes of the packets that
    were handed to links, but that no link has handled yet, add up to at most the configured size of
    the buffer, and the bytes available are never negative.  (A packet that is handed to several
    links counts once: [pending] lists packets with different [already_handled] channels, and the
    theorem is for every such list.)  So the bytes of a packet stay reserved until a link sends it. *)
Theorem buffers_within_capacity n nd ps :
  Forall (λ ns, in_u64 (buffer_size_bytes ns)) (nodes spec) → w_nodes w !! n = Some nd →
  pending w n ps →
  ∃ ns, ns ∈ nodes spec ∧ node_id ns = n_id nd ∧ 0 ≤ n_available nd ∧
    n_available nd + queued nd + sumZ (λ p, d_size (o_data p)) ps ≤ buffer_size_bytes ns.
Proof using Hinit Hreach.
  intros Hsz Hn Hps. destruct (initialize_buffers _ _ _ _ _ _ _ _ Hinit Hsz) as (cap & Hcap & Hok).
  destruct (reach_buf _ _ _ _ _ _ _ _ Hreach Hok) as [g Hi].
  destruct (bi_node _ _ _ Hi _ _ Hn) as (c & Hc & Ha & Hle).
  destruct (Hcap _ _ _ Hc) as (ns & ? & ? & <-). pose proof (pending_handed _ _ _ n ps Hi Hps).
  exists ns. split_and!; [done..|lia].
Qed.

(** C11: The loop of [sleep_until_ready_to_send] terminates without spinning: entered with any
    fuel from [sleep_fuel] on, it suspends on the channel of the link if the link is down, or
    else on that of the node if the node is down, unless the packet was handled meanwhile; and
    it returns at once when both are up. *)
Theorem sleep_loop_terminates fuel l p lk nd handled :
  (sleep_fuel ≤ fuel)%nat → w_links w !! l = Some lk → w_nodes w !! o_src_node p = Some nd →
  w_handled w !! o_handled p = Some handled →
  sleep_loop fuel l p w =
    sleep_outcome (notifier_for_link_up (l_status lk)) (notifier_for_node_up (n_status nd))
      handled l p w ∧
  wait_for_node fuel l p w =
    match notifier_for_node_up (n_status nd) with
    | Some c => sleep_outcome None (Some c) handled l p w
    | None => sleep_outcome (notifier_for_link_up (l_status lk)) None handled l p w
    end ∧
  recheck_link fuel l p w =
    sleep_outcome (notifier_for_link_up (l_status lk)) None handled l p w.
Proof using Hinit Hreach.
  intros Hfuel Hl Hn Hh. unfold sleep_fuel in Hfuel.
  assert (chan_inv w) as Hi.
  { eapply reach_chan; [exact Hreach|]. by eapply initialize_chan. }
  do 5 (destruct fuel as [|fuel]; [lia|]). split_and!.
  - by apply sleep_loop_outcome.
  - by apply wait_for_node_outcome.
  - by apply recheck_link_outcome.
Qed.

(** C6: A packet that arrives at a node is accounted for exactly once: it is dropped by a node
    that is down, handed to the host it is addressed to, lost at random, or put in the node's
    buffer, together with a copy under a new id if it is duplicated; a copy for which the
    buffer has no room is dropped.  The log says which. *)
Theorem forward_accounts_for_packet n nd data w' :
  Forall (λ ns, in_u64 (buffer_size_bytes ns)) (nodes spec) →
  w_nodes w !! n = Some nd → forward rng_f64 rng_u128 n data w = Some ((), w') →
  Arrival rng_f64 rng_u128 n nd data w w'.
Proof using Hinit Hreach.
  intros Hsz Hn. destruct (initialize_buffers _ _ _ _ _ _ _ _ Hinit Hsz) as (cap & Hcap & Hok).
  destruct (reach_buf _ _ _ _ _ _ _ _ Hreach Hok) as [g Hi].
  destruct (bi_node _ _ _ Hi _ _ Hn) as (c & _ & Ha & Hle).
  pose proof (handed_nonneg _ _ _ n Hi). pose proof (queued_nonneg nd).
  intros Hm. eapply forward_arrival; [done|lia|exact Hm].
Qed.

End executions.

(** ** Single steps *)
Section steps.
Context {H : Type} {HH : BinaryHeap PrioritizedInTransitData above H}.
Context {R : Type} (rng_f64 : R → f64 * R) (rng_u128 : R → Z * R).
Context (timer_elapsed : Z → Z → bool) (topo : Topology) (start : Z) (w w' : World H R).

(** C5: The task of a link handles at most one packet in one run, and only a packet that no
    link has handled yet.  It then either drops the packet, because the buffer of its node was
    cleared since the packet arrived, or sends it over the link, which must be up and idle,
    gives its bytes back to the buffer of the node and keeps the link, and no other, busy; otherwise
    it changes nothing but the suspended tasks. *)
Theorem link_task_handles_once l :
  run_link timer_elapsed l w = Some ((), w') →
  quiet w w' ∨ ∃ p, task_packet w l p ∧ handles l p w w'.
Proof. apply run_link_does. Qed.
End steps.

Abbreviation net_theorem thm :=
  (thm net_f64 net_u128 net_timer 0 net_spec net_events (net_seed 0) 0 false net_topo net_world
     (net_run deliver_script) net_initialize).

Lemma network_log_in_time_order_witness :
  sort_by_key step_time (w_log (net_run deliver_script)) = w_log (net_run deliver_script).
Proof.
  destruct (net_theorem (@network_log_in_time_order net_heap _ net_rng)) as (_ & _ & _ & Hs).
  - lia.
  - exact net_delivered.
  - exact Hs.
Defined.

Definition net_verifier : SimulationVerifier :=
  match verifier_new hash_elements (w_log (net_run deliver_script)) net_spec with
  | Ok (_, v) => v
  | _ => empty_verifier
  end.
Definition net_report : VerifiedSimulation :=
  match verify (w_log (net_run deliver_script)) net_verifier with
  | Ok r => r
  | _ => mkVerified ∅ ∅ []
  end.

Lemma network_sends_online_witness :
  online_sends (w_log (net_run deliver_script)) ∧
  OfflinePacketSend "A" "ab" ∉ non_fatal_errors net_report.
Proof.
  destruct (net_theorem (@network_sends_online net_heap _ net_rng)) with
    (hash_order := hash_elements) (vspec := net_spec) (v0 := net_verifier) (r := net_report)
    (steps := w_log (net_run deliver_script)) as [Hon Herr].
  - lia.
  - exact net_delivered.
  - exact hash_elements_perm.
  - repeat constructor; simpl; lia.
  - vm_compute. reflexivity.
  - vm_compute. reflexivity.
  - split; [exact Hon|apply Herr].
Defined.

(** The packet was handed to link [ab], which still has to handle it. *)
Lemma handed_pending : pending handed_world 0%nat [handed_packet].
Proof.
  split; [apply NoDup_singleton|]. intros p ->%list_elem_of_singleton.
  split; [vm_compute; reflexivity|]. split; [vm_compute; reflexivity|]. exists 0%nat. left.
  destruct (w_links handed_world !! 0%nat) as [lk|] eqn:Hl; [|vm_compute in Hl; discriminate].
  exists lk. split; [exact Hl|]. vm_compute in Hl. injection Hl as <-. vm_compute. left.
Qed.

Lemma buffers_within_capacity_witness :
  ∃ nd, w_nodes handed_world !! 0%nat = Some nd ∧
    ∃ ns, ns ∈ nodes net_spec ∧ node_id ns = n_id nd ∧ 0 ≤ n_available nd ∧
      n_available nd + queued nd + (d_size (o_data handed_packet) + 0) ≤ buffer_size_bytes ns.
Proof.
  destruct (w_nodes handed_world !! 0%nat) as [nd|] eqn:Hn; [|vm_compute in Hn; discriminate].
  exists nd. split; [reflexivity|].
  apply (buffers_within_capacity net_f64 net_u128 net_timer 0 net_spec net_events (net_seed 0) 0 false net_topo
    net_world handed_world net_initialize net_handed 0%nat nd [handed_packet]).
  - repeat constructor; vm_compute; congruence.
  - exact Hn.
  - exact handed_pending.
Defined.

Lemma sleep_loop_terminates_witness :
  ∃ lk nd, w_links handed_world !! 0%nat = Some lk ∧ w_nodes handed_world !! 0%nat = Some nd ∧
    sleep_loop sleep_fuel 0%nat handed_packet handed_world =
      sleep_outcome (notifier_for_link_up (l_status lk)) (notifier_for_node_up (n_status nd))
        false 0%nat handed_packet handed_world.
Proof.
  destruct (w_links handed_world !! 0%nat) as [lk|] eqn:Hl; [|vm_compute in Hl; discriminate].
  destruct (w_nodes handed_world !! 0%nat) as [nd|] eqn:Hn; [|vm_compute in Hn; discriminate].
  exists lk, nd. split; [reflexivity|]. split; [reflexivity|].
  refine (proj1 (sleep_loop_terminates net_f64 net_u128 net_timer 0 net_spec net_events (net_seed 0) 0 false
    net_topo net_world handed_world net_initialize net_handed sleep_fuel 0%nat handed_packet lk nd
    false _ Hl Hn _)).
  - lia.
  - vm_compute. reflexivity.
Defined.

Lemma forward_accounts_for_packet_witness :
  ∃ nd w', w_nodes handed_world !! 0%nat = Some nd ∧
    Arrival net_f64 net_u128 0%nat nd (o_data handed_packet) handed_world w'.
Proof.
  destruct (w_nodes handed_world !! 0%nat) as [nd|] eqn:Hn; [|vm_compute in Hn; discriminate].
  destruct (forward net_f64 net_u128 0%nat (o_data handed_packet) handed_world) as [[[] w']|] eqn:Hf;
    [|vm_compute in Hf; discriminate].
  exists nd, w'. split; [reflexivity|].
  refine (forward_accounts_for_packet net_f64 net_u128 net_timer 0 net_spec net_events (net_seed 0) 0 false
    net_topo net_world handed_world net_initialize net_handed 0%nat nd (o_data handed_packet) w'
    _ Hn Hf).
  repeat constructor; vm_compute; congruence.
Defined.


Lemma link_task_handles_once_witness :
  ∃ w', run_link net_timer 0%nat handed_world = Some ((), w') ∧
    (quiet handed_world w' ∨ ∃ p, task_packet handed_world 0%nat p ∧ handles 0%nat p handed_world w').
Proof.
  destruct (run_link net_timer 0%nat handed_world) as [[[] w']|] eqn:Hr;
    [|vm_compute in Hr; discriminate].
  exists w'. split; [reflexivity|].
  apply (link_task_handles_once net_timer handed_world w' 0%nat Hr).
Defined.
