(* ===== verification/NetworkVerified.v ===== *)
(** * The verifier accepts what the network does

    The network refines the verifier's model of a network: whatever its tasks
    and hosts do, and in whatever order, the log they leave is accepted, and the
    errors reported for it are of the few kinds that a correct network can
    provoke. *)

From stdpp Require Import relations sorting.
From S2P Require Import Prelude Float Ip Spec Event Transmit SimStep Replayed Verifier History.
From S2P Require Import VerifierInv VerifierLog VerifierThms VerifierTotal Custody VerifierProps.
From S2P Require Import Heap InboundQueue Node Link Network NetworkInit NetworkInv NetworkSteady.
From S2P Require Import NetworkStart NetworkWired NetworkTold NetworkExample NetworkRng NetworkCustody NetworkCarry.
From S2P Require Import NetworkProps.

Section verified.
Context {H : Type} {HH : BinaryHeap PrioritizedInTransitData above H}.
Context {R : Type} (rng_f64 : R → f64 * R) (rng_u128 : R → Z * R).
Context (timer_elapsed : Z → Z → bool).
Context (seen : R → Z → Prop) (live : R → Prop) {Hids : PacketIds rng_f64 rng_u128 seen live}.
Context (begin : Z) (spec : NetworkSpec) (events : NetworkEvents) (rng : R) (start : Z).
Context (disable_time_warping : bool) (topo : Topology) (w0 w : World H R).
Context (Hinit : initialize begin spec events rng start disable_time_warping = Ok (topo, w0)).
Context (Hreach : Reach rng_f64 rng_u128 timer_elapsed topo start w0 w).
Context (Hlive : live (w_rng w)).
Context (Hnodes : NoDup (node_id <$> nodes spec)).
Context (Hextra : Forall (λ l, 0 ≤ extra_delay l) (links spec)).
Context (hash_order : gset string → list string) (steps : list SimulationStep).
Context (v0 : SimulationVerifier).
Context (Hnew : verifier_new hash_order (w_log w) spec = Ok (steps, v0)).

Lemma network_inv : ∃ G, inv topo v0 seen G w.
Proof using Hids Hlive Hinit Hreach Hnodes Hextra Hnew.
  destruct (initialize_wired _ _ _ _ _ _ _ _ Hinit Hnodes _ _ _ _ Hnew Hextra) as
    (w1 & Hw & Hpr & _ & _ & Hl1 & Hl2 & Hev).
  assert (inv topo v0 seen ∅ w1) as Hi by (by apply pristine_inv; [apply pristine_told|]).
  apply nm_bind_inv in Hev as ([] & w2 & Hlinks & Hnev).
  apply (process_events_inv topo v0 seen LinkEvent) with (G := ∅) in Hlinks; [|done].
  apply (process_events_inv topo v0 seen NodeEvent) with (G := ∅) in Hnev; [|done].
  apply (reach_inv rng_f64 rng_u128 timer_elapsed topo v0 seen live start w0 w Hreach Hlive). by exists ∅.
Qed.

(** Every step of the log continues the life of its packet. *)
Lemma network_log_lawful :
  lawful_log (v_link_metadata v0) (v_host_nodes v0) (dom (v_nodes v0)) (dom (v_links v0))
    (rev (w_log w)).
Proof using Hids Hlive Hinit Hreach Hnodes Hextra Hnew. destruct network_inv as [G HG]. apply HG. Qed.

Lemma lawful_log_elem mds hosts nids lids h s :
  lawful_log mds hosts nids lids h → s ∈ h → ∃ h', lawful mds hosts nids lids h' s.
Proof.
  induction h as [|x h IH]; simpl; [by intros _ ?%not_elem_of_nil|].
  intros [Hx Hh] [->|Hs]%elem_of_cons; eauto.
Qed.

(** The network never records an extra delay. *)
Lemma network_log_bounded :
  0 ≤ begin → w_now w ≤ duration_max - from_secs 10 → Forall step_bounded (w_log w).
Proof using Hids Hlive Hinit Hreach Hnodes Hextra Hnew.
  intros Hbegin Hnow. pose proof network_log_lawful as Hlaw.
  pose proof (reach_log_typed _ _ _ _ _ _ _ _ _ _ _ _ Hinit Hbegin Hreach) as Hty.
  destruct (reach_log_ok _ _ _ _ _ _ _ _ _ _ _ _ Hinit Hbegin Hreach) as (_ & _ & Hok).
  rewrite Forall_forall in Hty. rewrite Forall_forall in Hok. apply Forall_forall. intros s Hs.
  destruct (Hok s Hs) as [[_ Hle] _]. split_and!; [by apply Hty|lia|].
  destruct (lawful_log_elem _ _ _ _ _ s Hlaw) as [h' Hl].
  { by rewrite list_elem_of_In, <-in_rev, <-list_elem_of_In. }
  unfold lawful in Hl. by destruct (step_kind s).
Qed.

Lemma network_verified :
  (∀ s, hash_order s ≡ₚ elements s) → 0 ≤ begin → spec_bounded spec →
  w_now w ≤ duration_max - from_secs 10 → sumZ step_bytes (w_log w) < 2 ^ 64 →
  ∃ r, verify steps v0 = Ok r ∧
    ∀ e, e ∈ non_fatal_errors r →
      is_buffer_error e = true ∨ excusable (v_host_nodes v0) (rev (w_log w)) e.
Proof using Hids Hlive Hinit Hreach Hnodes Hextra Hnew.
  intros Horder Hbegin Hspec Hnow Hbytes. pose proof network_log_lawful as Hlaw.
  assert (steps = w_log w) as Hsteps.
  { rewrite (verifier_new_sorted _ _ _ _ _ Hnew). apply sort_by_key_id.
    by eapply reach_log_sorted; [exact Hinit| |exact Hreach]. }
  pose proof (network_log_bounded Hbegin Hnow) as Hb.
  pose proof (verify_results _ _ _ _ _ Horder Hnew Hspec Hb Hbytes) as Hres.
  rewrite (lawful_first_fault (v_link_metadata v0) (v_host_nodes v0)) in Hres
    by by rewrite app_nil_r, Hsteps.
  destruct Hres as [r Hr]. exists r. split; [done|]. intros e He.
  destruct (is_buffer_error e) eqn:Hbuf; [by left|right].
  assert (Forall step_typed (w_log w)) as Hty by (eapply Forall_impl; [exact Hb|]; by intros ? []).
  destruct (verify_run _ _ _ _ _ _ Horder Hnew Hty (proj1 Hspec) Hr) as (v & l & _ & _ & Herr).
  assert (e ∈ step_error_list (non_fatal_errors r)) as Hin by (by apply list_elem_of_filter).
  rewrite Herr, Hsteps in Hin. by eapply lawful_log_errors.
Qed.

End verified.

Section accepted.
Context {H : Type} {HH : BinaryHeap PrioritizedInTransitData above H}.
Context {R : Type} (rng_f64 : R → f64 * R) (rng_u128 : R → Z * R).
Context (timer_elapsed : Z → Z → bool).

(** C1: What the network does is what its verifier accepts.  Whatever the tasks, the hosts and the
    events do, and in whatever order, in every execution in which no 128-bit packet id is drawn
    twice: the verifier accepts the log, and the errors it reports for it are of the kinds a correct
    network can provoke.  No packet arrives too early, at a wrong node or over a link that went down
    later than it left, none is created by a router, sent by a node that does not hold it or over a
    link that is down, none survives the clearing of a buffer, and none is lost or dropped on
    arrival without a cause.  (The generator is any generator; [recorded_u128] writes down what it
    returns, and [drawn] reads the ids that were drawn.) *)
Theorem network_log_accepted begin spec events (rng : R) start disable_time_warping topo
    (w0 w : World H (R * list Z)) hash_order steps v0 :
  initialize begin spec events (rng, []) start disable_time_warping = Ok (topo, w0) →
  Reach (recorded_f64 rng_f64) (recorded_u128 rng_u128) timer_elapsed topo start w0 w →
  NoDup (drawn w) →
  NoDup (node_id <$> nodes spec) → Forall (λ l, 0 ≤ extra_delay l) (links spec) →
  verifier_new hash_order (w_log w) spec = Ok (steps, v0) →
  (∀ s, hash_order s ≡ₚ elements s) → 0 ≤ begin → spec_bounded spec →
  w_now w ≤ duration_max - from_secs 10 → sumZ step_bytes (w_log w) < 2 ^ 64 →
  ∃ r, verify steps v0 = Ok r ∧
    ∀ e, e ∈ non_fatal_errors r →
      is_buffer_error e = true ∨ excusable (v_host_nodes v0) (rev (w_log w)) e.
Proof.
  intros Hinit Hreach Hdrawn Hnodes Hextra Hnew.
  by apply (network_verified _ _ _ _ _ begin spec events (rng, []) start disable_time_warping topo w0 w Hinit
    Hreach Hdrawn Hnodes Hextra).
Qed.
End accepted.

(** ** Witness *)
Definition delivered_world : World net_heap net_rng := net_run deliver_script.
Definition net_verifier : SimulationVerifier :=
  match verifier_new hash_elements (w_log delivered_world) net_spec with
  | Ok (_, v) => v
  | _ => empty_verifier
  end.

Lemma net_verifier_new :
  verifier_new hash_elements (w_log delivered_world) net_spec = Ok (w_log delivered_world, net_verifier).
Proof. vm_compute. reflexivity. Qed.

Lemma net_spec_bounded : spec_bounded net_spec.
Proof.
  split; unfold spec_typed; simpl; rewrite ?Forall_cons, ?Forall_nil; simpl; split_and!; vm_compute; done.
Qed.

Lemma network_log_accepted_witness :
  ∃ r, verify (w_log delivered_world) net_verifier = Ok r ∧
    ∀ e, e ∈ non_fatal_errors r →
      is_buffer_error e = true ∨ excusable (v_host_nodes net_verifier) (rev (w_log delivered_world)) e.
Proof.
  apply (network_log_accepted seq_f64 seq_u128 net_timer 0 net_spec net_events 0 0 false net_topo net_world
    delivered_world hash_elements (w_log delivered_world) net_verifier net_initialize net_delivered).
  - apply (bool_decide_unpack _). vm_compute. exact I.
  - apply (bool_decide_unpack _). vm_compute. exact I.
  - repeat constructor; vm_compute; discriminate.
  - exact net_verifier_new.
  - exact hash_elements_perm.
  - lia.
  - exact net_spec_bounded.
  - vm_compute. discriminate.
  - vm_compute. reflexivity.
Defined.
