(* ===== verification/NetworkFindings.v ===== *)
(** * Where the network does not do what it means to

    Theorems about behaviour of the network that contradicts its intent: each
    shows the execution that exhibits it. *)

From stdpp Require Import relations.
From S2P Require Import Prelude Float Ip Spec Event Transmit SimStep Replayed Verifier History.
From S2P Require Import VerifierProps Heap InboundQueue Node Link Network NetworkInit.
From S2P Require Import NetworkInv NetworkExample.

(** A packet dropped because its node's buffer was cleared keeps its room in the buffer: an
    execution reaches a world where every packet was handled and no packet is stored or waits for
    a link, yet half of the buffer of the node is unavailable. *)
Theorem buffer_clear_leaks_room :
  Reach net_f64 net_u128 net_timer net_topo 0 net_world (net_run clear_script) ∧
  map_Forall (λ _ lk, length (l_outgoing lk) = 0%nat) (w_links (net_run clear_script)) ∧
  map_Forall (λ _ b, b = true) (w_handled (net_run clear_script)) ∧
  ∃ nd0 nd, w_nodes net_world !! 0%nat = Some nd0 ∧
    w_nodes (net_run clear_script) !! 0%nat = Some nd ∧ n_outbound nd = [] ∧
    n_available nd0 = 3000 ∧ n_available nd = 1500.
Proof.
  split_and!.
  - apply (net_reach clear_script), net_clear.
  - apply (bool_decide_unpack _). vm_compute. done.
  - apply (bool_decide_unpack _). vm_compute. done.
  - do 2 eexists. split_and!; vm_compute; reflexivity.
Qed.

(** A link can go down while its task lets the preferred links go first, and the task then
    panics: an execution reaches a world where the link is down and the task's next run fails the
    assertion that the link is up. *)
Theorem link_down_after_yield_panics :
  ∃ w lk p c, run_network two_links_net
      [ms 3; TrySend 0%nat net_packet; RunBuffer 0%nat; RunLink 1%nat; RunEvents] = Some w ∧
    Reach net_f64 net_u128 net_timer (fst two_links_net) 0 (snd two_links_net) w ∧
    w_links w !! 1%nat = Some lk ∧ l_status lk = LinkStatusDown c ∧
    w_link_tasks w !! 1%nat = Some (Yielded p) ∧ run_link net_timer 1%nat w = None.
Proof.
  destruct (run_network two_links_net [ms 3; TrySend 0%nat net_packet; RunBuffer 0%nat;
    RunLink 1%nat; RunEvents]) as [w|] eqn:Hw; [|vm_compute in Hw; discriminate].
  pose proof (exec_all_reach _ _ _ _ _ _ _ _ Hw) as Hreach.
  vm_compute in Hw. injection Hw as <-. do 4 eexists. split; [done|]. split; [exact Hreach|].
  split_and!; vm_compute; reflexivity.
Qed.

(** A packet without a route ends the task of its node, and every later packet for which the
    node's buffer has room makes the network panic. *)
Theorem missing_route_panics {H} `{!BinaryHeap PrioritizedInTransitData above H} {R}
    (rng_f64 : R → f64 * R) topo n nd packet rest (w w' : World H R) later :
  w_nodes w !! n = Some nd → n_outbound nd = packet :: rest →
  has_route_to topo (n_addresses nd) (sa_ip (t_destination (d_transmit (b_data packet)))) = Some false →
  run_buffer rng_f64 topo n w = Some ((), w') → d_size (b_data later) ≤ n_available nd →
  enqueue n later w' = None.
Proof.
  intros Hn Hout Hroute Hm Hroom. unfold run_buffer in Hm.
  rewrite (nm_bind_eq _ _ _ _ _ (get_node_eq w _ nd Hn)), Hout, Hroute in Hm.
  injection Hm as <-. unfold enqueue.
  rewrite (nm_bind_eq _ _ _ _ _ (get_node_eq _ n _ (lookup_insert_eq _ _ _))).
  unfold enqueue_outbound, reserve. simpl.
  by destruct (Z.ltb_spec (n_available nd) (d_size (b_data later))); [lia|].
Qed.

Definition same_instant_world : World net_heap net_rng := net_run same_instant_script.
Definition same_instant_verifier : SimulationVerifier :=
  match verifier_new hash_elements (w_log same_instant_world) net_spec with
  | Ok (_, v) => v
  | _ => empty_verifier
  end.
Definition same_instant_report : VerifiedSimulation :=
  match verify (w_log same_instant_world) same_instant_verifier with
  | Ok r => r
  | _ => mkVerified ∅ ∅ []
  end.

(** A packet sent in the instant in which its link goes down is delivered by the network but
    counts as lost for the verifier: an execution's log has the arrival of such a packet, and the
    verifier reports it as received over an offline link. *)
Theorem same_instant_down_disagrees :
  Reach net_f64 net_u128 net_timer net_topo 0 net_world same_instant_world ∧
  verifier_new hash_elements (w_log same_instant_world) net_spec =
    Ok (w_log same_instant_world, same_instant_verifier) ∧
  verify (w_log same_instant_world) same_instant_verifier = Ok same_instant_report ∧
  OfflinePacketReceive "B" "ab" (from_millis 3) (from_millis 3) ∈
    non_fatal_errors same_instant_report.
Proof.
  split_and!.
  - apply (net_reach same_instant_script). vm_compute. reflexivity.
  - vm_compute. reflexivity.
  - vm_compute. reflexivity.
  - apply (bool_decide_unpack _). vm_compute. exact I.
Qed.

(** The world a script leads to, and the errors the verifier reports on its
    log. *)
Definition final_world (net : Topology * World net_heap net_rng) (script : list Action)
    : World net_heap net_rng := default no_world (run_network net script).
Definition errors_of (spec : NetworkSpec) (w : World net_heap net_rng) : option (list NonFatalError) :=
  match verifier_new hash_elements (w_log w) spec with
  | Ok (steps, v) =>
      match verify steps v with Ok r => Some (non_fatal_errors r) | _ => None end
  | _ => None
  end.

(** A link that sends at its full bandwidth is reported to exceed it: the verifier counts
    the packet that leaves at the end of its window as well as the one that left at the start. *)
Theorem full_bandwidth_reported :
  Reach net_f64 net_u128 net_timer (fst slow_net) 0 (snd slow_net)
    (final_world slow_net slow_script) ∧
  errors_of slow_spec (final_world slow_net slow_script) =
    Some [LinkBandwidthExceeded "A" "ab" 1 12000 24000].
Proof.
  split; [apply (exec_all_reach _ _ _ _ _ slow_script)|]; vm_compute; reflexivity.
Qed.

(** A node that is down can send: a link that has bandwidth does not look at the status of
    the node, so it sends a packet it was handed although the node went down before. *)
Theorem down_node_sends :
  Reach net_f64 net_u128 net_timer (fst down_net) 0 (snd down_net)
    (final_world down_net down_script) ∧
  errors_of net_spec (final_world down_net down_script) = Some [NodeDownPacketSend "A" 0].
Proof.
  split; [apply (exec_all_reach _ _ _ _ _ down_script)|]; vm_compute; reflexivity.
Qed.

(** Two hosts with the same id are accepted: only the later one is found by its id, so events
    never reach the first, although ids of links and addresses are checked. *)
Definition twins_spec : NetworkSpec :=
  let zero := f64_of_Z 0 in
  mkSpec
    [mkNodeSpec "A" 3000 Host [mkInterface [host_A] []] zero zero;
     mkNodeSpec "A" 3000 Host [mkInterface [host_B] []] zero zero]
    (links net_spec).
Definition twins_events : NetworkEvents :=
  NetworkEvents_new [mkEvent 0 (NodeEvent (mkNodeEvent "A" (Some NodeDown) false))]
    (nodes twins_spec) (links twins_spec).
Definition twins_net : Topology * World net_heap net_rng :=
  match initialize 0 twins_spec twins_events (net_seed 0) 0 false with
  | Ok x => x
  | _ => (mkTopology ∅ ∅ ∅ ∅ ∅, no_world)
  end.
Definition twins_world : World net_heap net_rng :=
  default no_world (exec_all net_f64 net_u128 net_timer (fst twins_net) 0 [RunEvents] (snd twins_net)).

Theorem duplicate_node_ids_accepted :
  initialize 0 twins_spec twins_events (net_seed 0) 0 false = Ok twins_net ∧
  is_ok (verifier_new hash_elements [] twins_spec) = true ∧
  nodes_by_id (fst twins_net) !! "A" = Some 1%nat ∧
  (λ nd, (n_id nd, is_down nd)) <$> w_nodes twins_world !! 0%nat = Some ("A", false) ∧
  (λ nd, (n_id nd, is_down nd)) <$> w_nodes twins_world !! 1%nat = Some ("A", true).
Proof. split_and!; vm_compute; reflexivity. Qed.

(** A network with a link from an address that no node uses is accepted and runs, but has no
    verifier: the tools only notice when the simulation is over. *)
Definition loose_spec : NetworkSpec :=
  mkSpec (nodes net_spec)
    (links net_spec ++
     [mkLinkSpec "loose" (V4 1) (as_ip_addr host_A) (from_millis 5) 12000000 (f64_of_Z 0) 0 (f64_of_Z 0)]).

Theorem unverifiable_network_accepted :
  is_ok (initialize (H := net_heap) 0 loose_spec net_events (net_seed 0) 0 false) = true ∧
  verifier_new hash_elements [] loose_spec = Err (NoSourceNode "loose").
Proof. split; vm_compute; reflexivity. Qed.

(** ** Witness *)
Definition one_way_world : World net_heap net_rng :=
  default no_world (run_network one_way_net [TrySend 0%nat net_packet]).
Definition waiting_packet : BufferedPacket :=
  match w_nodes one_way_world !! 0%nat with
  | Some nd => hd (mkBuffered 0 (data_number 0)) (n_outbound nd)
  | None => mkBuffered 0 (data_number 0)
  end.

Lemma missing_route_panics_witness :
  ∃ w', run_buffer net_f64 (fst one_way_net) 0%nat one_way_world = Some ((), w') ∧
    enqueue 0%nat waiting_packet w' = None.
Proof.
  destruct (w_nodes one_way_world !! 0%nat) as [nd|] eqn:Hn; [|vm_compute in Hn; discriminate].
  destruct (run_buffer net_f64 (fst one_way_net) 0%nat one_way_world) as [[[] w']|] eqn:Hr;
    [|vm_compute in Hr; discriminate].
  exists w'. split; [reflexivity|].
  refine (missing_route_panics net_f64 (fst one_way_net) 0%nat nd waiting_packet []
    one_way_world w' waiting_packet Hn _ _ Hr _).
  - vm_compute in Hn. injection Hn as <-. vm_compute. reflexivity.
  - vm_compute in Hn. injection Hn as <-. vm_compute. reflexivity.
  - vm_compute in Hn. injection Hn as <-. vm_compute. congruence.
Defined.
