(* ===== verification/Report.v ===== *)
(** * The report of a simulation

    Models what is printed after a simulation: [quinn-workbench/src/util.rs], the
    errors listed by [run_and_report_stats] ([quic/mod.rs]) and by the UDP tools, and
    [get_node_ids] ([network/mod.rs]).  A report is the list of its lines, with
    the numbers that are printed; their formatting is left out.  Hash maps are
    iterated in an order that is a parameter. *)

From stdpp Require Import sorting relations.
From S2P Require Import Prelude Quinn Float Ip Spec Event Transmit SimStep Replayed Verifier History.
From S2P Require Import VerifierInv VerifierLog VerifierThms VerifierTotal Custody VerifierProps.
From S2P Require Import Heap InboundQueue Node Link Network NetworkInit NetworkInv NetworkSteady.
From S2P Require Import NetworkStart NetworkArrivals NetworkWired NetworkTold NetworkRng NetworkExample.
From S2P Require Import NetworkCustody NetworkCarry Connectivity Config Workbench Tasks NetworkProps.
From S2P Require Import NetworkVerified VerifierNew.

Inductive Line : Type :=
  | MaxBufferUsageHeader
  | MaxBufferUsage (node_id : string) (max_usage dropped_packets : Z)
  | LinkStatsHeader
  | LinkName (link_id : string)
  | LostInTransit (s : PacketStats)
  | MaxUsedBandwidth (bps : Z) (usage_ratio : f64)
  | NodeName (node_id : string) (role : option string)
  | SentPackets (s : PacketStats)
  | DuplicatedPackets (s : PacketStats)
  | MarkedPackets (s : PacketStats)
  | DroppedPackets (s : PacketStats)
  | NodeWasDown (s : PacketStats)
  | BufferWasFull (s : PacketStats)
  | BufferGotCleared (s : PacketStats)
  | RandomlyDropped (s : PacketStats)
  | ReceivedPackets (s : PacketStats)
  | OutOfOrderPackets (s : PacketStats)
  | ErrorsHeader (shown_of : option (nat * nat))
  | ErrorLine (e : NonFatalError).

(** [sort_unstable_by]: some sort; where it is used the order has no ties. *)
Definition sort_unstable {A} (le : A → A → bool) (l : list A) : list A :=
  merge_sort (λ x y, Is_true (le x y)) l.

(** By the usage, and then by the id, backwards. *)
Definition buffer_usage_le (t1 t2 : string * NodeStats) : bool :=
  match Z.compare (ns_max_buffer_usage t1.2) (ns_max_buffer_usage t2.2) with
  | Lt => true
  | Gt => false
  | Eq => String.leb t2.1 t1.1
  end.

Definition print_max_buffer_usage_per_node (stats_by_node : list (string * NodeStats)) : list Line :=
  MaxBufferUsageHeader ::
  ((λ t, MaxBufferUsage t.1 (ns_max_buffer_usage t.2) (packets (ns_dropped_buffer_full t.2))) <$>
     rev (sort_unstable buffer_usage_le stats_by_node)).

Definition id_le {A} (t1 t2 : string * A) : bool := String.leb t1.1 t2.1.

Definition print_single_node_stats (stats : NodeStats) : list Line :=
  let dropped := join (join (join (ns_dropped_injected stats) (ns_dropped_buffer_full stats))
    (ns_dropped_on_arrival stats)) (ns_dropped_buffer_cleared stats) in
  let cause line (s : PacketStats) : list Line := if packets s =? 0 then [] else [line s] in
  [SentPackets (ns_sent stats); DuplicatedPackets (ns_duplicates stats);
   MarkedPackets (ns_congestion_experienced stats); DroppedPackets dropped] ++
  (if packets dropped =? 0 then []
   else cause NodeWasDown (ns_dropped_on_arrival stats) ++
        cause BufferWasFull (ns_dropped_buffer_full stats) ++
        cause BufferGotCleared (ns_dropped_buffer_cleared stats) ++
        cause RandomlyDropped (ns_dropped_injected stats)) ++
  [ReceivedPackets (ns_received stats); OutOfOrderPackets (ns_received_out_of_order stats)].

Definition DISPLAY_MAX_ERRORS : nat := 10.

Definition print_errors (non_fatal_errors : list NonFatalError) : list Line :=
  match non_fatal_errors with
  | [] => []
  | _ =>
      let n := length non_fatal_errors in
      [ErrorsHeader (if (DISPLAY_MAX_ERRORS <? n)%nat then Some (DISPLAY_MAX_ERRORS, n) else None)]
  end ++ (ErrorLine <$> take DISPLAY_MAX_ERRORS non_fatal_errors).

Section report.
Context {H : Type} {HH : BinaryHeap PrioritizedInTransitData above H} {R : Type}.
Context (topo : Topology).
Context (iter_nodes : gmap string NodeStats → list (string * NodeStats)).
Context (iter_links : gmap string LinkStats → list (string * LinkStats)).
Context (iter_ids : gmap string node_ref → list string).
Abbreviation world := (World H R).
Abbreviation M := (NM world).

(** A loop that prints. *)
Fixpoint print_each {A} (f : A → M (list Line)) (l : list A) : M (list Line) :=
  match l with
  | [] => mret []
  | x :: l => lines ← f x; rest ← print_each f l; mret (lines ++ rest)
  end.

Definition print_link (t : string * LinkStats) : M (list Line) :=
  bandwidth_bps ← get_link_bandwidth_bps topo t.1;
  let usage_ratio := f64_mul (f64_div (f64_of_Z (max_used_bandwidth_bps t.2)) (f64_of_Z bandwidth_bps))
    (f64_of_Z 100) in
  mret [LinkName t.1; LostInTransit (dropped_in_transit t.2);
        MaxUsedBandwidth (max_used_bandwidth_bps t.2) usage_ratio].

Definition print_link_stats (verified : VerifiedSimulation) : M (list Line) :=
  let link_stats := sort_unstable id_le (iter_links (stats_by_link_ verified)) in
  lines ← print_each print_link link_stats;
  mret ((if bool_decide (stats_by_link_ verified = ∅) then [] else [LinkStatsHeader]) ++ lines).

(** [InMemoryNetwork::get_node_ids] *)
Definition get_node_ids : list string :=
  fst <$> sort_unstable id_le ((λ id, (id, ())) <$> iter_ids (nodes_by_id topo)).

Definition print_node (verified : VerifiedSimulation) (role : option string) (id : string)
    : M (list Line) :=
  stats ← nsome (stats_by_node_ verified !! id);
  mret (NodeName id role :: print_single_node_stats stats).

Definition print_node_stats (node_ids : list string) (verified : VerifiedSimulation)
    (server_node client_node : string) (verbose : bool) : M (list Line) :=
  client ← print_node verified (Some "client") client_node;
  server ← print_node verified (Some "server") server_node;
  others ← (if verbose then
              print_each (print_node verified None)
                (filter (λ id, id ≠ server_node ∧ id ≠ client_node) node_ids)
            else mret []);
  mret (client ++ server ++ others).

(** The statistics of the nodes, the buffers and the links. *)
Definition print_stats (node_ids : list string) (verified : VerifiedSimulation)
    (server_node client_node : node_ref) (verbose : bool) : M (list Line) :=
  server ← get_node server_node;
  client ← get_node client_node;
  node_lines ← print_node_stats node_ids verified (n_id server) (n_id client) verbose;
  link_lines ← print_link_stats verified;
  mret (node_lines ++ print_max_buffer_usage_per_node (iter_nodes (stats_by_node_ verified)) ++ link_lines).

(** What the QUIC simulation prints of a verified simulation. *)
Definition print_report (verified : VerifiedSimulation) (server_node client_node : node_ref)
    (verbose : bool) : M (list Line) :=
  lines ← print_stats get_node_ids verified server_node client_node verbose;
  mret (lines ++ print_errors (non_fatal_errors verified)).
End report.

(** ** The verification of the replay log *)
Inductive RunError : Type :=
  | StoreFailed
  | NoVerifier (e : NewError)
  | NotVerified (e : InvalidSimulation).

(** [tracer.verifier()?.verify()?] *)
Definition verify_simulation {H : Type} `{!BinaryHeap PrioritizedInTransitData above H} {R : Type}
    (hash_order : gset string → list string) (spec : NetworkSpec)
    : NM (World H R) (RunError + VerifiedSimulation) :=
  w ← nget;
  match verifier_new hash_order (w_log w) spec with
  | Ok (steps, v) =>
      match verify steps v with
      | Ok verified => mret (inr verified)
      | Err e => mret (inl (NotVerified e))
      | Panic => npanic
      end
  | Err e => mret (inl (NoVerifier e))
  | Panic => npanic
  end.

(** ** A report only reads the network *)
Section reads.
Context {H : Type} {HH : BinaryHeap PrioritizedInTransitData above H} {R : Type}.
Abbreviation M := (NM (World H R)).

Lemma report_reads {A} (f : A → M (list Line)) l :
  (∀ a, steps_in (=) (f a)) → steps_in (=) (print_each f l).
Proof.
  intros Hf. induction l as [|a l IH]; simpl; [apply steps_in_ret, _|].
  apply steps_in_bind; [apply _|done|intros ?]. apply steps_in_bind; [apply _|done|intros ?].
  apply steps_in_ret, _.
Qed.
End reads.

Ltac reads := repeat first
  [ apply steps_in_ret; apply _ | apply steps_in_get; apply _ | apply steps_in_some; apply _
  | apply steps_in_assert; apply _ | apply steps_in_panic | apply report_reads; intros ?
  | apply steps_in_bind; [apply _| |intros ?] | case_match ].

Section reads_net.
Context {H : Type} {HH : BinaryHeap PrioritizedInTransitData above H} {R : Type}.
Abbreviation M := (NM (World H R)).

Lemma get_host_reads topo ip : steps_in (=) (get_host topo ip : M node_ref).
Proof. unfold get_host, get_node. reads. Qed.

Lemma verify_simulation_reads hash_order spec :
  steps_in (=) (verify_simulation hash_order spec : M (RunError + VerifiedSimulation)).
Proof. unfold verify_simulation. reads. Qed.

Lemma print_stats_reads topo iter_nodes iter_links ids verified s c verbose :
  steps_in (=) (print_stats topo iter_nodes iter_links ids verified s c verbose : M (list Line)).
Proof.
  unfold print_stats, get_node, print_node_stats, print_node, print_link_stats, print_link,
    get_link_bandwidth_bps, get_net_link. reads.
Qed.
End reads_net.

(** ** Sorting *)

(** Strings are compared byte by byte; the order is total. *)
Lemma string_leb_trans s1 s2 s3 :
  String.leb s1 s2 = true → String.leb s2 s3 = true → String.leb s1 s3 = true.
Proof.
  unfold String.leb. revert s2 s3.
  induction s1 as [|c1 s1 IH]; intros [|c2 s2] [|c3 s3]; simpl; try done.
  unfold Ascii.compare.
  destruct (N.compare_spec (Ascii.N_of_ascii c1) (Ascii.N_of_ascii c2)) as [E1|E1|E1];
    destruct (N.compare_spec (Ascii.N_of_ascii c2) (Ascii.N_of_ascii c3)) as [E2|E2|E2]; try done;
    destruct (N.compare_spec (Ascii.N_of_ascii c1) (Ascii.N_of_ascii c3)) as [E3|E3|E3]; try done; try lia.
  apply IH.
Qed.

Section sort.
Context {A : Type} (le : A → A → bool).
Context (le_trans : ∀ x y z, le x y = true → le y z = true → le x z = true).
Context (le_total : ∀ x y, le x y = true ∨ le y x = true).

Lemma sort_unstable_perm l : sort_unstable le l ≡ₚ l.
Proof. apply merge_sort_Permutation. Qed.

Lemma sort_unstable_sorted l : StronglySorted (λ x y, le x y = true) (sort_unstable le l).
Proof using le_trans le_total.
  unfold sort_unstable. set (R := λ x y, Is_true (le x y)).
  assert (Transitive R) by (intros x y z; unfold R; rewrite !Is_true_true; apply le_trans).
  assert (Total R) by (intros x y; unfold R; rewrite !Is_true_true; apply le_total).
  pose proof (StronglySorted_merge_sort R l) as Hs. induction Hs as [|x k Hk IH Hx]; constructor; [done|].
  eapply Forall_impl; [exact Hx|]. intros y. apply Is_true_true.
Qed.

(** Elements that are ordered both ways are equal, so the result does not
    depend on the order of the elements. *)
Lemma sort_unstable_unique l1 l2 :
  l1 ≡ₚ l2 → (∀ x y, x ∈ l1 → y ∈ l1 → le x y = true → le y x = true → x = y) →
  sort_unstable le l1 = sort_unstable le l2.
Proof using le_trans le_total.
  intros Hp Has. apply (StronglySorted_unique_strong (λ x y, le x y = true)).
  - intros x y. rewrite !sort_unstable_perm, <-Hp. auto.
  - apply sort_unstable_sorted.
  - apply sort_unstable_sorted.
  - by rewrite !sort_unstable_perm.
Qed.
End sort.

Lemma buffer_usage_le_trans x y z :
  buffer_usage_le x y = true → buffer_usage_le y z = true → buffer_usage_le x z = true.
Proof.
  unfold buffer_usage_le.
  destruct (Z.compare_spec (ns_max_buffer_usage x.2) (ns_max_buffer_usage y.2)) as [E1|E1|E1];
    destruct (Z.compare_spec (ns_max_buffer_usage y.2) (ns_max_buffer_usage z.2)) as [E2|E2|E2]; try done;
    destruct (Z.compare_spec (ns_max_buffer_usage x.2) (ns_max_buffer_usage z.2)) as [E3|E3|E3]; try done; try lia.
  intros H1 H2. by eapply string_leb_trans.
Qed.

Lemma buffer_usage_le_total x y : buffer_usage_le x y = true ∨ buffer_usage_le y x = true.
Proof.
  unfold buffer_usage_le.
  rewrite (Z.compare_antisym (ns_max_buffer_usage x.2) (ns_max_buffer_usage y.2)).
  destruct (_ ?= _); simpl; [|by left|by right]. apply String.leb_total.
Qed.

Lemma buffer_usage_le_id x y : buffer_usage_le x y = true → buffer_usage_le y x = true → x.1 = y.1.
Proof.
  unfold buffer_usage_le.
  rewrite (Z.compare_antisym (ns_max_buffer_usage x.2) (ns_max_buffer_usage y.2)).
  destruct (_ ?= _); simpl; [|done..]. intros H1 H2. by apply String.leb_antisym.
Qed.

(** The entries of a map are determined by their keys. *)
Lemma entries_unique {A} (m : gmap string A) l x y :
  l ≡ₚ map_to_list m → x ∈ l → y ∈ l → x.1 = y.1 → x = y.
Proof.
  intros Hl. rewrite Hl. destruct x as [i a], y as [j b]. rewrite !elem_of_map_to_list. simpl.
  intros Ha Hb <-. congruence.
Qed.

Section order.
Context {H : Type} {HH : BinaryHeap PrioritizedInTransitData above H} {R : Type}.
Context (topo : Topology).

(** C29: What is printed of a verified simulation does not depend on the order in which its hash maps
    are iterated: two runs with the same statistics print the same report.  The nodes are listed
    by their largest buffer usage, the largest first, and nodes with the same usage by their ids. *)
Theorem report_independent_of_hash_order iter1 links1 ids1 iter2 links2 ids2 verified server client verbose
    (w : World H R) :
  (∀ m, iter1 m ≡ₚ map_to_list m) → (∀ m, links1 m ≡ₚ map_to_list m) → (∀ m, ids1 m ≡ₚ (map_to_list m).*1) →
  (∀ m, iter2 m ≡ₚ map_to_list m) → (∀ m, links2 m ≡ₚ map_to_list m) → (∀ m, ids2 m ≡ₚ (map_to_list m).*1) →
  print_report topo iter1 links1 ids1 verified server client verbose w =
    print_report topo iter2 links2 ids2 verified server client verbose w ∧
  ∃ nodes, nodes ≡ₚ map_to_list (stats_by_node_ verified) ∧
    print_max_buffer_usage_per_node (iter1 (stats_by_node_ verified)) = MaxBufferUsageHeader ::
      ((λ t, MaxBufferUsage t.1 (ns_max_buffer_usage t.2) (packets (ns_dropped_buffer_full t.2))) <$> nodes) ∧
    StronglySorted (λ t1 t2, ns_max_buffer_usage t2.2 < ns_max_buffer_usage t1.2 ∨
      ns_max_buffer_usage t1.2 = ns_max_buffer_usage t2.2 ∧ String.leb t1.1 t2.1 = true) nodes.
Proof.
  intros Hi1 Hl1 Hs1 Hi2 Hl2 Hs2.
  assert (∀ x y z : string * (), id_le x y = true → id_le y z = true → id_le x z = true) as Ht1
    by (intros x y z; apply string_leb_trans).
  assert (∀ x y z : string * LinkStats, id_le x y = true → id_le y z = true → id_le x z = true) as Ht2
    by (intros x y z; apply string_leb_trans).
  split.
  - assert (get_node_ids topo ids1 = get_node_ids topo ids2) as Eids.
    { unfold get_node_ids. f_equal. apply (sort_unstable_unique _ Ht1); [intros; apply String.leb_total| |].
      - by rewrite Hs1, Hs2.
      - intros [x []] [y []] _ _ H1 H2. unfold id_le in *. simpl in *. f_equal. by apply String.leb_antisym. }
    assert (sort_unstable id_le (links1 (stats_by_link_ verified)) =
      sort_unstable id_le (links2 (stats_by_link_ verified))) as Elinks.
    { apply (sort_unstable_unique _ Ht2); [intros; apply String.leb_total|by rewrite Hl1, Hl2|].
      intros x y Hx Hy H1 H2. eapply entries_unique; [apply Hl1|done|done|]. by apply String.leb_antisym. }
    assert (print_max_buffer_usage_per_node (iter1 (stats_by_node_ verified)) =
      print_max_buffer_usage_per_node (iter2 (stats_by_node_ verified))) as Enodes.
    { unfold print_max_buffer_usage_per_node. do 3 f_equal.
      apply (sort_unstable_unique _ buffer_usage_le_trans buffer_usage_le_total); [by rewrite Hi1, Hi2|].
      intros x y Hx Hy H1 H2. eapply entries_unique; [apply Hi1|done|done|]. by apply buffer_usage_le_id. }
    unfold print_report, print_stats, print_link_stats. by rewrite Eids, Elinks, Enodes.
  - exists (rev (sort_unstable buffer_usage_le (iter1 (stats_by_node_ verified)))). split_and!; [|done|].
    + by rewrite <-(Permutation_rev (sort_unstable _ _)), sort_unstable_perm, Hi1.
    + pose proof (sort_unstable_sorted _ buffer_usage_le_trans buffer_usage_le_total
        (iter1 (stats_by_node_ verified))) as Hs. revert Hs.
      generalize (sort_unstable buffer_usage_le (iter1 (stats_by_node_ verified))) as l.
      induction 1 as [|x l Hl IH Hx]; simpl; [constructor|].
      apply StronglySorted_app_2; [|done|by repeat constructor].
      intros y z Hy ->%list_elem_of_singleton. rewrite <-Permutation_rev in Hy.
      rewrite Forall_forall in Hx. specialize (Hx y Hy). unfold buffer_usage_le in Hx.
      destruct (Z.compare_spec (ns_max_buffer_usage x.2) (ns_max_buffer_usage y.2)); [|by left|done].
      right. by split.
Qed.
End order.

(** ** What the verifier reports is about the network *)

(** A packet only flies over links that are known. *)
Lemma flying_known mds hosts nids lids h p l t :
  lawful_log mds hosts nids lids h → custody_at h p = Flying l t → l ∈ lids.
Proof.
  induction h as [|s h IH]; simpl; [done|]. intros [Hs Hh]. unfold custody_step.
  destruct (decide (step_packet s = Some p)); [|by apply IH]. unfold lawful in Hs.
  destruct (step_kind s) as [k|k|k|k|k|k|k|k|ev]; try (by apply IH); try done.
  - by destruct (in_dropped_on_arrival k).
  - intros [= <- <-]. by destruct Hs as (_ & x & _ & _ & Hl & _).
Qed.

(** The links with statistics: those the log says lost a packet. *)
Lemma verify_kind_stats t k st v st' v' errs l :
  verify_kind t k st v = (Ok st', v', errs) → l ∈ dom st' →
  l ∈ dom st ∨ ∃ x, k = PacketLostInTransit x ∧ lo_link_id x = l.
Proof.
  intros Hm Hl. unfold verify_kind in Hm.
  destruct k as [k|k|k|k|k|k|k|k|ev];
    try (apply vm_bind_ok in Hm as (u & v1 & e1 & e2 & _ & Hm & _); injection Hm as <- _ _; by left).
  apply vm_bind_ok in Hm as (x & v1 & e1 & e2 & _ & Hm & _).
  destruct (v_in_flight_packets x !! lo_packet_id k).
  - apply vm_bind_ok in Hm as (u & v2 & e3 & e4 & _ & Hm & _). injection Hm as <- _ _.
    apply elem_of_dom, lookup_insert_is_Some' in Hl as [Hl|Hl]; [right; by exists k|left; by apply elem_of_dom].
  - apply vm_bind_ok in Hm as (u & v2 & e3 & e4 & _ & Hm & _). injection Hm as <- _ _. by left.
Qed.

Lemma verify_steps_stats steps l v l' v' errs id :
  verify_steps steps l v = (Ok l', v', errs) → id ∈ dom (stats_by_link l') →
  id ∈ dom (stats_by_link l) ∨
  ∃ s k, s ∈ steps ∧ step_kind s = PacketLostInTransit k ∧ lo_link_id k = id.
Proof.
  revert l v errs. induction steps as [|s steps IH]; simpl; intros l v errs Hm Hid.
  { injection Hm as <- _ _. by left. }
  apply vm_bind_ok in Hm as (l1 & v1 & e1 & e2 & H1 & H2 & _).
  destruct (IH _ _ _ H2 Hid) as [Hl|(x & k & Hx & Hk & Hl)];
    [|right; exists x, k; split; [by right|done]].
  unfold verify_step in H1. apply vm_bind_ok in H1 as ([t u] & v2 & e3 & e4 & _ & H1 & _).
  apply vm_bind_ok in H1 as (st & v3 & e5 & e6 & Hkind & H1 & _). injection H1 as <- _ _. simpl in Hl.
  eapply verify_kind_stats in Hkind; [|exact Hl]. destruct Hkind as [?|(k & Hk & ?)]; [by left|].
  right. exists s, k. split; [left|done].
Qed.

(** The verifier is built from the specification; the log only has to be sorted. *)
Lemma verifier_new_any hash_order spec log log' v :
  verifier_new hash_order [] spec = Ok (log', v) → ∃ steps, verifier_new hash_order log spec = Ok (steps, v).
Proof.
  unfold verifier_new. intros Hn. inv_bind Hn. inv_bind Hn. destruct a0 as [rls mds]. injection Hn as _ <-.
  rewrite Hnm. simpl. rewrite Hnm0. simpl. by eexists.
Qed.

Section report.
Context {H : Type} {HH : BinaryHeap PrioritizedInTransitData above H}.
Context {R : Type} (rng_f64 : R → f64 * R) (rng_u128 : R → Z * R).
Context (timer_elapsed : Z → Z → bool).
Context (seen : R → Z → Prop) (live : R → Prop) {Hfresh : PacketIds rng_f64 rng_u128 seen live}.
Context (begin : Z) (spec : NetworkSpec) (events : NetworkEvents) (rng : R) (start : Z).
Context (disable_time_warping : bool) (topo : Topology) (w0 w : World H R).
Context (Hinit : initialize begin spec events rng start disable_time_warping = Ok (topo, w0)).
Context (Hreach : Reach rng_f64 rng_u128 timer_elapsed topo start w0 w) (Hlive : live (w_rng w)).
Context (Hnodes : NoDup (node_id <$> nodes spec)).
Context (Hextra : Forall (λ l, 0 ≤ extra_delay l) (links spec)).
Context (hash_order : gset string → list string) (steps : list SimulationStep).
Context (v0 : SimulationVerifier).
Context (Hnew : verifier_new hash_order (w_log w) spec = Ok (steps, v0)).

(** The links of the verifier are links of the network. *)
Lemma verifier_links id : id ∈ dom (v_links v0) → ∃ l lk, links_by_id topo !! id = Some l ∧ w_links w !! l = Some lk.
Proof using Hfresh Hlive Hinit Hreach Hnodes Hextra Hnew.
  intros Hin. destruct (initialize_built _ _ _ _ _ _ _ _ Hinit Hnodes) as
    (b & ls & w1 & _ & Hlinked & _ & _ & _ & _ & _ & _ & _ & _ & _ & Elid & _).
  assert (∃ x, x ∈ links spec ∧ Spec.link_id x = id) as (x & Hx & <-).
  { unfold verifier_new in Hnew. inv_bind Hnew. inv_bind Hnew. destruct a0 as [rls mds].
    injection Hnew as _ <-. simpl in Hin.
    assert (∀ i, i ∈ dom rls → ∃ x, x ∈ links spec ∧ Spec.link_id x = i) as Hall; [|by apply Hall].
    refine (foldM_inv (λ acc, ∀ i, i ∈ dom acc.1 → ∃ x, x ∈ links spec ∧ Spec.link_id x = i) _ _ _ _ _ _ Hnewm0).
    - simpl. by intros i ?%elem_of_dom%lookup_empty_is_Some.
    - intros acc y acc' Hacc Hy Hstep. unfold new_link in Hstep. inv_bind Hstep. inv_bind Hstep.
      injection Hstep as <-. simpl. intros i Hi%elem_of_dom.
      apply lookup_insert_is_Some' in Hi as [<-|Hi]; [by exists y|]. by apply Hacc, elem_of_dom. }
  destruct (ln_ids _ _ Hlinked x Hx) as [l Hl]. rewrite <-Elid in Hl.
  destruct (network_inv rng_f64 rng_u128 timer_elapsed seen live begin spec events rng start
    disable_time_warping topo w0 w Hinit Hreach Hlive Hnodes Hextra hash_order steps v0 Hnew) as [G [Ht _]].
  destruct (td_link_known _ _ _ Ht _ _ Hl) as (lk & Hlk & _). by exists l, lk.
Qed.

(** The statistics are those of nodes and links of the network. *)
Lemma verified_known verified :
  (∀ s, hash_order s ≡ₚ elements s) → 0 ≤ begin → spec_typed spec → verify steps v0 = Ok verified →
  dom (stats_by_node_ verified) = dom (v_nodes v0) ∧
  ∀ id, id ∈ dom (stats_by_link_ verified) → id ∈ dom (v_links v0).
Proof using Hfresh Hlive Hinit Hreach Hnodes Hextra Hnew.
  intros Horder Hbegin Hspec Hv. unfold verify in Hv.
  destruct (verify_all steps v0) as [[[l| |] v] errs] eqn:Hall; [|done..]. injection Hv as <-. simpl.
  pose proof (reach_log_typed _ _ _ _ _ _ _ _ _ _ _ _ Hinit Hbegin Hreach) as Hty.
  destruct (verify_all_run _ _ _ _ _ _ _ _ Horder Hnew Hty Hspec Hall) as [[[_ _ _ [_ _ _ _ Sn Sl]] _ _ _ _] _].
  split; [by rewrite dom_fmap_L|]. intros id [st Hst]%elem_of_dom. unfold link_stats in Hst.
  rewrite lookup_merge in Hst. unfold diag_None in Hst.
  destruct (v_links v !! id) as [rl|] eqn:Hrl; [rewrite <-Sl; apply elem_of_dom; by exists rl|].
  assert (id ∈ dom (stats_by_link l)) as Hin.
  { apply elem_of_dom. destruct (stats_by_link l !! id); [by eexists|done]. }
  unfold verify_all in Hall. apply vm_bind_ok in Hall as (l1 & v1 & e1 & e2 & H1 & Hall & _).
  apply vm_bind_ok in Hall as (u & v2 & e3 & e4 & _ & Hall & _). injection Hall as -> _ _.
  destruct (verify_steps_stats _ _ _ _ _ _ _ H1 Hin) as [Hl|(s & k & Hs & Hk & <-)].
  { simpl in Hl. by apply elem_of_dom, lookup_empty_is_Some in Hl. }
  pose proof (network_log_lawful rng_f64 rng_u128 timer_elapsed seen live begin spec events rng start
    disable_time_warping topo w0 w Hinit Hreach Hlive Hnodes Hextra hash_order steps v0 Hnew) as Hlaw.
  assert (s ∈ rev (w_log w)) as Hs'.
  { rewrite <-Permutation_rev. rewrite (verifier_new_sorted _ _ _ _ _ Hnew) in Hs.
    by rewrite sort_by_key_perm in Hs. }
  clear -Hs' Hk Hlaw. induction (rev (w_log w)) as [|x h IH]; [by apply not_elem_of_nil in Hs'|].
  destruct Hlaw as [Hx Hh]. apply elem_of_cons in Hs' as [<-|Hs']; [|by apply IH].
  unfold lawful in Hx. rewrite Hk in Hx. destruct Hx as [t Ht]. by eapply flying_known.
Qed.

Lemma print_each_total {A} (f : A → NM (World H R) (list Line)) l :
  (∀ x, x ∈ l → ∃ lines, f x w = Some (lines, w)) → ∃ lines, print_each f l w = Some (lines, w).
Proof.
  induction l as [|x l IH]; intros Hf; [by eexists|]. simpl. unfold mbind, NM_bind.
  destruct (Hf x (list_elem_of_here _ _)) as [a ->].
  destruct IH as [b ->]; [intros y Hy; apply Hf; by right|]. by eexists.
Qed.

Context (iter_nodes : gmap string NodeStats → list (string * NodeStats)).
Context (iter_links : gmap string LinkStats → list (string * LinkStats)).
Context (iter_ids : gmap string node_ref → list string).

(** The nodes are known to the statistics. *)
Lemma print_node_total verified role n nd :
  dom (stats_by_node_ verified) = dom (v_nodes v0) → w_nodes w !! n = Some nd →
  ∃ lines, print_node (H := H) (R := R) verified role (n_id nd) w = Some (lines, w).
Proof using Hfresh Hlive Hinit Hreach Hnodes Hextra Hnew.
  intros Kn Hn. destruct (network_inv rng_f64 rng_u128 timer_elapsed seen live begin spec events rng start
    disable_time_warping topo w0 w Hinit Hreach Hlive Hnodes Hextra hash_order steps v0 Hnew) as [G [Ht _]].
  destruct (td_wired _ _ _ Ht) as [Wn _ _]. assert (n_id nd ∈ dom (v_nodes v0)) as Hi by by destruct (Wn _ _ Hn).
  rewrite <-Kn in Hi. apply elem_of_dom in Hi as [st Hst].
  unfold print_node, nsome. cbv [mbind NM_bind mret NM_ret]. rewrite Hst. by eexists.
Qed.

Lemma print_link_stats_total verified :
  (∀ m, iter_links m ≡ₚ map_to_list m) →
  (∀ id, id ∈ dom (stats_by_link_ verified) → id ∈ dom (v_links v0)) →
  ∃ lines, print_link_stats topo iter_links verified w = Some (lines, w).
Proof using Hfresh Hlive Hinit Hreach Hnodes Hextra Hnew.
  intros Hiter Kl. unfold print_link_stats. match goal with |- context [print_each ?f ?l] =>
    destruct (print_each_total f l) as [c Hc] end; [|unfold mbind, NM_bind; rewrite Hc; by eexists].
  intros [id st]. rewrite sort_unstable_perm, Hiter, elem_of_map_to_list. intros Hst.
  destruct (verifier_links id) as (l & lk & Hl & Hlk); [apply Kl, elem_of_dom; by exists st|].
  unfold print_link, get_link_bandwidth_bps, get_net_link. cbv [mbind NM_bind nsome nget mret NM_ret].
  simpl. rewrite Hl, Hlk. by eexists.
Qed.

(** The ids that are listed are those of nodes. *)
Lemma get_node_ids_known id : (∀ m, iter_ids m ≡ₚ (map_to_list m).*1) → id ∈ get_node_ids topo iter_ids →
  ∃ n nd, w_nodes w !! n = Some nd ∧ n_id nd = id.
Proof using Hfresh Hlive Hinit Hreach Hnodes Hextra Hnew.
  intros Hids Hin. destruct (network_inv rng_f64 rng_u128 timer_elapsed seen live begin spec events rng start
    disable_time_warping topo w0 w Hinit Hreach Hlive Hnodes Hextra hash_order steps v0 Hnew) as [G [Ht _]].
  destruct (td_wired _ _ _ Ht) as [_ Wid _]. unfold get_node_ids in Hin.
  apply list_elem_of_fmap in Hin as ([i []] & -> & Hi). rewrite sort_unstable_perm in Hi.
  apply list_elem_of_fmap in Hi as (j & [= ->] & Hj). rewrite Hids in Hj. simpl.
  apply list_elem_of_fmap in Hj as ([k n] & -> & Hk%elem_of_map_to_list).
  destruct (Wid _ _ Hk) as (nd & Hnd & <-). by exists n, nd.
Qed.

Lemma print_stats_total node_ids verified server client ip_s ip_c w1 w2 verbose :
  (∀ s, hash_order s ≡ₚ elements s) → (∀ m, iter_links m ≡ₚ map_to_list m) →
  (∀ id, id ∈ node_ids → ∃ n nd, w_nodes w !! n = Some nd ∧ n_id nd = id) → 0 ≤ begin → spec_typed spec →
  verify steps v0 = Ok verified →
  get_host topo ip_s w = Some (server, w1) → get_host topo ip_c w = Some (client, w2) →
  ∃ lines, print_stats topo iter_nodes iter_links node_ids verified server client verbose w = Some (lines, w).
Proof using Hfresh Hlive Hinit Hreach Hnodes Hextra Hnew.
  intros Horder Hiter Hids Hbegin Hspec Hv Hs Hc.
  destruct (verified_known verified Horder Hbegin Hspec Hv) as [Kn Kl].
  apply get_host_inv in Hs as (_ & nds & Hns & _). apply get_host_inv in Hc as (_ & ndc & Hnc & _).
  destruct (print_node_total verified (Some "client") _ _ Kn Hnc) as [a Ha].
  destruct (print_node_total verified (Some "server") _ _ Kn Hns) as [b Hb].
  destruct (print_link_stats_total verified Hiter Kl) as [lines2 H2].
  assert (∃ lines, print_node_stats (H := H) (R := R) node_ids verified (n_id nds) (n_id ndc)
    verbose w = Some (lines, w)) as [lines1 H1].
  { unfold print_node_stats, mbind, NM_bind. rewrite Ha, Hb. destruct verbose; [|by eexists].
    match goal with |- context [print_each ?f ?l] => destruct (print_each_total f l) as [c Hcc] end;
      [|rewrite Hcc; by eexists].
    intros id (_ & (n & nd & Hn & <-)%Hids)%list_elem_of_filter. by eapply print_node_total. }
  unfold print_stats, get_node. cbv [mbind NM_bind nget nsome]. rewrite Hns, Hnc, H1, H2. by eexists.
Qed.

Lemma print_report_total verified server client ip_s ip_c w1 w2 verbose :
  (∀ s, hash_order s ≡ₚ elements s) → (∀ m, iter_links m ≡ₚ map_to_list m) →
  (∀ m, iter_ids m ≡ₚ (map_to_list m).*1) → 0 ≤ begin → spec_typed spec →
  verify steps v0 = Ok verified →
  get_host topo ip_s w = Some (server, w1) → get_host topo ip_c w = Some (client, w2) →
  ∃ lines, print_report topo iter_nodes iter_links iter_ids verified server client verbose w =
    Some (lines, w).
Proof using Hfresh Hlive Hinit Hreach Hnodes Hextra Hnew.
  intros Horder Hiter Hids Hbegin Hspec Hv Hs Hc.
  destruct (print_stats_total (get_node_ids topo iter_ids) verified server client ip_s ip_c w1 w2 verbose)
    as [lines Hl]; try done; [by intros; apply get_node_ids_known|].
  unfold print_report, mbind, NM_bind. rewrite Hl. by eexists.
Qed.

(** The report of a verified simulation is printed without a panic: whatever the network did, the
    statistics know the client, the server and, with [--verbose-node-stats], every node, and every
    link with statistics is a link of the network. *)
Theorem report_never_panics verified server client ip_s ip_c w1 w2 verbose :
  (∀ s, hash_order s ≡ₚ elements s) → (∀ m, iter_links m ≡ₚ map_to_list m) →
  (∀ m, iter_ids m ≡ₚ (map_to_list m).*1) → 0 ≤ begin → spec_typed spec →
  verify steps v0 = Ok verified →
  get_host topo ip_s w = Some (server, w1) → get_host topo ip_c w = Some (client, w2) →
  ∃ lines, print_report topo iter_nodes iter_links iter_ids verified server client verbose w =
    Some (lines, w).
Proof using Hfresh Hlive Hinit Hreach Hnodes Hextra Hnew. apply print_report_total. Qed.
End report.

(** ** Simulations of a configuration *)
Section simulated.
Context {H : Type} {HH : BinaryHeap PrioritizedInTransitData above H}.
Context {R : Type} (rng_f64 : R → f64 * R) (rng_u128 : R → Z * R).
Context (timer_elapsed : Z → Z → bool).
Context (seen : R → Z → Prop) (live : R → Prop) {Hfresh : PacketIds rng_f64 rng_u128 seen live}.
Context (hash_order : gset string → list string).
Context (iter_nodes : gmap string NodeStats → list (string * NodeStats)).
Context (iter_links : gmap string LinkStats → list (string * LinkStats)).
Context (iter_ids : gmap string node_ref → list string).
Context (Horder : ∀ s, hash_order s ≡ₚ elements s) (Hlinks : ∀ m, iter_links m ≡ₚ map_to_list m).
Context (Hids : ∀ m, iter_ids m ≡ₚ (map_to_list m).*1).

(** A network that was set up from the files, whose nodes have different ids, and in which something
    happened that fits the machine. *)
Context {QuinnJsonConfig : Type} (config : NetworkConfig QuinnJsonConfig).
Context (begin : Z) (rng : R) (start : Z) (disable_time_warping : bool).
Context (spec : NetworkSpec) (topo : Topology) (w0 w : World H R).
Context (Hset : setup_network begin config rng start disable_time_warping = Ok (spec, topo, w0)).
Context (Hconfig : config_typed config) (Hnodes : NoDup (nj_id <$> sj_nodes (network_graph config))).
Context (Hreach : Reach rng_f64 rng_u128 timer_elapsed topo start w0 w) (Hlive : live (w_rng w)).
Context (Hbegin : 0 ≤ begin) (Hnow : w_now w ≤ duration_max - from_secs 10).
Context (Hbytes : sumZ step_bytes (w_log w) < 2 ^ 64).

(** The verification either refuses the network as such, or the log is accepted and everything
    that is printed of it can be. *)
Lemma simulation_reported node_ids server client ip_s ip_c w1 w2 verbose :
  node_ids = [] ∨ node_ids = get_node_ids topo iter_ids →
  get_host topo ip_s w0 = Some (server, w1) → get_host topo ip_c w0 = Some (client, w2) →
  (verifiable spec →
   ∃ verified lines, verify_simulation hash_order spec w = Some (inr verified, w) ∧
     get_host topo ip_s w = Some (server, w) ∧ get_host topo ip_c w = Some (client, w) ∧
     print_stats topo iter_nodes iter_links node_ids verified server client verbose w = Some (lines, w)) ∧
  (¬ verifiable spec → ∃ e, verify_simulation hash_order spec w = Some (inl (NoVerifier e), w)).
Proof using Hfresh Hlive Horder Hlinks Hids Hset Hconfig Hnodes Hreach Hbegin Hnow Hbytes.
  intros Hnids Hs Hc.
  destruct (setup_initialized config _ _ _ _ _ _ _ Hset Hconfig) as (Hinit & Hspec & Hextra & Hnid).
  rewrite <-Hnid in Hnodes. pose proof (verifier_new_iff hash_order (w_log w) spec) as Hiff.
  pose proof (verifier_new_cases hash_order (w_log w) spec) as Hcases.
  unfold verify_simulation, nget, mbind, NM_bind.
  destruct (verifier_new hash_order (w_log w) spec) as [[steps v]|e|] eqn:Hnew; [| |done].
  2: { split; [|by eexists]. by intros (? & ? & ?)%Hiff. }
  split; [intros _|intros Hno; destruct Hno; by apply Hiff; do 2 eexists].
  destruct (network_verified _ _ _ seen live _ _ _ _ _ _ _ _ _ Hinit Hreach Hlive Hnodes Hextra _ _ _ Hnew Horder
    Hbegin Hspec Hnow Hbytes) as (verified & Hver & _).
  pose proof (get_host_reached _ _ _ _ _ _ _ _ _ _ _ _ _ _ _ Hinit Hreach Hs) as Hs'.
  pose proof (get_host_reached _ _ _ _ _ _ _ _ _ _ _ _ _ _ _ Hinit Hreach Hc) as Hc'.
  assert (∀ id, id ∈ node_ids → ∃ n nd, w_nodes w !! n = Some nd ∧ n_id nd = id) as Hknown.
  { intros id Hin. destruct Hnids as [-> | ->]; [by apply not_elem_of_nil in Hin|].
    by eapply (get_node_ids_known _ _ _ seen live _ _ _ _ _ _ _ _ _ Hinit Hreach Hlive Hnodes Hextra _ _ _ Hnew). }
  destruct (print_stats_total _ _ _ seen live _ _ _ _ _ _ _ _ _ Hinit Hreach Hlive Hnodes Hextra _ _ _ Hnew
    iter_nodes iter_links node_ids verified _ _ _ _ _ _ verbose Horder Hlinks Hknown Hbegin
    (proj1 Hspec) Hver Hs' Hc') as [lines Hl].
  exists verified, lines. by rewrite Hver.
Qed.
End simulated.

(** ** Witnesses *)

(** The files of the network of [NetworkExample]. *)
Definition net_config : NetworkConfig QuinnJsonConfig :=
  let zero := f64_of_Z 0 in
  mkNetworkConfig
    (mkSpecJson
      [mkNodeJson "A" 3000 JsonHost None [mkInterfaceJson [host_A] []] zero zero;
       mkNodeJson "B" 3000 JsonHost None [mkInterfaceJson [host_B] []] zero zero]
      [mkLinkJson "ab" (as_ip_addr host_A) (as_ip_addr host_B) 12000000 5 0 zero zero;
       mkLinkJson "ba" (as_ip_addr host_B) (as_ip_addr host_A) 12000000 5 0 zero zero])
    [mkEventJson 3 (LinkPayloadJson
       (mkLinkEventJson "ab" (Some JsonLinkDown) None None None None None None None));
     mkEventJson 2 (NodePayloadJson (mkNodeEventJson "A" None true))].

Lemma net_setup : setup_network 0 net_config (net_seed 0) 0 false = Ok (net_spec, net_topo, net_world).
Proof. vm_compute. reflexivity. Qed.

Lemma net_config_typed : config_typed net_config.
Proof.
  split; [split|]; repeat apply Forall_cons_2; try apply Forall_nil_2.
  - by vm_compute.
  - by vm_compute.
  - by vm_compute.
  - by vm_compute.
  - split; [by vm_compute|]. intros p [= <-]. split_and!; by intros z [=].
  - split; [by vm_compute|]. by intros p [=].
Qed.

Lemma net_config_nodes : NoDup (nj_id <$> sj_nodes (network_graph net_config)).
Proof. apply (bool_decide_unpack _). vm_compute. exact I. Qed.

Lemma net_verifiable : verifiable net_spec.
Proof. apply (verifier_new_iff hash_elements (w_log delivered_world)). eexists _, _. exact net_verifier_new. Qed.

Lemma net_host ip n :
  (fst <$> get_host net_topo ip net_world) = Some n → get_host net_topo ip net_world = Some (n, net_world).
Proof.
  destruct (get_host _ _ _) as [[m w']|] eqn:Hg; [|done]. intros [= ->]. by apply get_host_reads in Hg as <-.
Qed.
Definition delivered_report : VerifiedSimulation :=
  match verify (w_log delivered_world) NetworkVerified.net_verifier with
  | Ok r => r
  | _ => mkVerified ∅ ∅ []
  end.

Lemma delivered_verified :
  verify (w_log delivered_world) NetworkVerified.net_verifier = Ok delivered_report.
Proof. vm_compute. reflexivity. Qed.

Definition keys (m : gmap string node_ref) : list string := (map_to_list m).*1.

Lemma delivered_host ip n :
  (fst <$> get_host net_topo ip delivered_world) = Some n →
  ∃ w', get_host net_topo ip delivered_world = Some (n, w').
Proof. destruct (get_host _ _ _) as [[m w']|]; [intros [= ->]; by exists w'|done]. Qed.

Lemma report_never_panics_witness :
  ∃ lines, print_report net_topo map_to_list map_to_list keys delivered_report 1%nat 0%nat true
    delivered_world = Some (lines, delivered_world).
Proof.
  destruct (delivered_host (as_ip_addr host_B) 1%nat ltac:(vm_compute; reflexivity)) as [w1 H1].
  destruct (delivered_host (as_ip_addr host_A) 0%nat ltac:(vm_compute; reflexivity)) as [w2 H2].
  apply (report_never_panics net_f64 net_u128 net_timer _ _ 0 net_spec net_events (net_seed 0) 0 false net_topo
    net_world delivered_world net_initialize net_delivered ltac:(apply (bool_decide_unpack _); vm_compute; exact I)
    ltac:(apply (bool_decide_unpack _); vm_compute; exact I)
    ltac:(repeat constructor; vm_compute; discriminate) hash_elements (w_log delivered_world)
    NetworkVerified.net_verifier net_verifier_new map_to_list map_to_list keys delivered_report
    1%nat 0%nat (as_ip_addr host_B) (as_ip_addr host_A) w1 w2 true hash_elements_perm).
  - reflexivity.
  - reflexivity.
  - lia.
  - exact (proj1 net_spec_bounded).
  - exact delivered_verified.
  - exact H1.
  - exact H2.
Defined.

Lemma report_independent_of_hash_order_witness :
  print_report net_topo map_to_list map_to_list keys delivered_report 1%nat 0%nat true delivered_world =
  print_report net_topo (λ m, rev (map_to_list m)) (λ m, rev (map_to_list m)) (λ m, rev (keys m))
    delivered_report 1%nat 0%nat true delivered_world.
Proof.
  apply (report_independent_of_hash_order net_topo map_to_list map_to_list keys (λ m, rev (map_to_list m))
    (λ m, rev (map_to_list m)) (λ m, rev (keys m)) delivered_report 1%nat 0%nat true delivered_world);
    intros m; try reflexivity; symmetry; apply Permutation_rev.
Defined.

(** The report of that execution: the one packet, sent by A and received by B. *)
Example delivered_lines :
  (λ r, firstn 2 r.1) <$> print_report net_topo map_to_list map_to_list keys delivered_report 1%nat 0%nat false
    delivered_world = Some [NodeName "A" (Some "client"); SentPackets (mkStats 1 1500)].
Proof. vm_compute. reflexivity. Qed.
