(* ===== verification/Golden.v ===== *)
(** * The golden tests

    Models [golden-tests/src/main.rs]: the loading of the test cases, the run
    of a test and the comparison of its output with the expected one, and the
    verdict.  The files are a map from paths to contents.  The workbench that is
    run, the difference that is printed and the decoding of its output are
    parameters, and so is the outcome of writing a file; the texts of internal
    errors are left out.  A file that exists can be read. *)

From Stdlib Require Import Strings.String Strings.Ascii.
From S2P Require Import Prelude.

Abbreviation files := (gmap string string).

(** [path.join(file)] *)
Definition join_path (path file : string) : string := (path ++ "/" ++ file)%string.

Record Cli : Type := mkCli {
  cli_test_name : option string;
  cli_quiet : Z;
}.

Record TestCase : Type := mkTestCase {
  tc_dir : string;
  tc_args : string;
  expected_stdout : option string;
  expected_replay_log : option string;
}.

Record InvalidOutput : Type := mkInvalidOutput {
  io_stderr : string;
  stdout_diff : option string;
  replay_log_diff : option string;
}.

Inductive Internal : Type :=
  | ProcessCrashed
  | NoReplayLog
  | StdoutNotPersisted
  | ReplayLogNotPersisted.

Inductive TestError : Type :=
  | InternalError (e : Internal)
  | InvalidOutputError (e : InvalidOutput).

(** What the process printed. *)
Record Output : Type := mkOutput { out_stdout : string; out_stderr : string }.

(** [str::split_whitespace], for ASCII *)
Definition is_whitespace (c : ascii) : bool :=
  let n := Z.of_N (N_of_ascii c) in ((9 <=? n) && (n <=? 13)) || (n =? 32).
Fixpoint split_whitespace_from (word s : string) : list string :=
  let finish := if String.eqb word "" then [] else [word] in
  match s with
  | EmptyString => finish
  | String c s =>
      if is_whitespace c then finish ++ split_whitespace_from "" s
      else split_whitespace_from (word ++ String c "")%string s
  end.
Definition split_whitespace (s : string) : list string := split_whitespace_from "" s.

Section golden.
(** The process with the given arguments, started where the files are: what it prints, and the files
    it leaves; [None] if it cannot be started. *)
Context (workbench : list string → files → option (Output * files)).
Context (diff_to_string : string → string → string).
Context (from_utf8_lossy : string → string).
(** [std::fs::write] of the contents to the path: [None] if it succeeds, and otherwise the files
    that the failed write leaves. *)
Context (write_error : string → string → files → option files).
(** The name of the asynchronous runtime, printed by the workbench *)
Context (async_rt_name : string).

Definition expected_stdout_file : string := ("expected-stdout." ++ async_rt_name)%string.
Definition expected_replay_log_file : string := ("expected-replay-log." ++ async_rt_name)%string.

Definition skipped : string := "<skipped>".

(** The comparison of an output with the expected one: the difference, if
    any; without an expected output, the current one is persisted, which may fail. *)
Definition compare_output (expected : option string) (actual path : string) (skip : bool)
    (not_persisted : Internal) (fs : files) : (Internal + option string) * files :=
  match expected with
  | Some expected =>
      (inr (if String.eqb expected actual then None
            else Some (if skip then skipped else diff_to_string expected actual)), fs)
  | None =>
      match write_error path actual fs with
      | None => (inr None, <[path := actual]> fs)
      | Some fs => (inl not_persisted, fs)
      end
  end.

Definition run_quinn_workbench (test_case : TestCase) (quiet : Z) (fs : files)
    : option TestError * files :=
  match workbench (split_whitespace (tc_args test_case)) fs with
  | None => (Some (InternalError ProcessCrashed), fs)
  | Some (command, fs) =>
      let stdout := from_utf8_lossy (out_stdout command) in
      let stderr := from_utf8_lossy (out_stderr command) in
      match fs !! "replay-log.json" with
      | None => (Some (InternalError NoReplayLog), fs)
      | Some replay_log =>
          match compare_output (expected_stdout test_case) stdout
                  (join_path (tc_dir test_case) expected_stdout_file) (2 <=? quiet) StdoutNotPersisted fs with
          | (inr stdout_diff, fs) =>
              match compare_output (expected_replay_log test_case) replay_log
                      (join_path (tc_dir test_case) expected_replay_log_file) (1 <=? quiet)
                      ReplayLogNotPersisted fs with
              | (inr replay_log_diff, fs) =>
                  (if bool_decide (is_Some stdout_diff) || bool_decide (is_Some replay_log_diff) ||
                      negb (String.eqb stderr "")
                   then Some (InvalidOutputError (mkInvalidOutput stderr stdout_diff replay_log_diff)) else None, fs)
              | (inl e, fs) => (Some (InternalError e), fs)
              end
          | (inl e, fs) => (Some (InternalError e), fs)
          end
      end
  end.

(** An entry of the directory of the tests; its name may not be UTF-8. *)
Record Entry : Type := mkEntry {
  en_path : string;
  en_is_dir : bool;
  en_name : option string;
}.

Inductive LoadError : Type := InvalidPath (path : string) | NoArgs (path : string).

(** One entry: the test case, or nothing if it is skipped. *)
Definition load_test (cli : Cli) (fs : files) (entry : Entry) : outcome LoadError (option TestCase) :=
  if negb (en_is_dir entry) then Ok None
  else
    match en_name entry with
    | None => Err (InvalidPath (en_path entry))
    | Some dir_name =>
        if match cli_test_name cli with Some name => negb (String.eqb dir_name name) | None => false end
        then Ok None
        else
          match fs !! join_path (en_path entry) "args" with
          | None => Err (NoArgs (join_path (en_path entry) "args"))
          | Some args =>
              Ok (Some (mkTestCase (en_path entry) args
                (fs !! join_path (en_path entry) expected_stdout_file)
                (fs !! join_path (en_path entry) expected_replay_log_file)))
          end
    end.

Fixpoint load_tests (cli : Cli) (fs : files) (entries : list Entry) : outcome LoadError (list TestCase) :=
  match entries with
  | [] => Ok []
  | entry :: entries =>
      t ← load_test cli fs entry;
      rest ← load_tests cli fs entries;
      Ok (match t with Some t => t :: rest | None => rest end)
  end.

(** The loop that runs the tests: the errors, in order, and whether there was one. *)
Fixpoint run_tests (test_cases : list TestCase) (quiet : Z) (errored : bool) (fs : files)
    : list (string * option TestError) * bool * files :=
  match test_cases with
  | [] => ([], errored, fs)
  | t :: test_cases =>
      let '(e, fs) := run_quinn_workbench t quiet fs in
      let errored := match e with Some _ => true | None => errored end in
      let '(results, errored, fs) := run_tests test_cases quiet errored fs in
      ((tc_dir t, e) :: results, errored, fs)
  end.

(** [main], once the name of the runtime is known: whether it succeeds. *)
Definition golden_main (cli : Cli) (entries : list Entry) (fs : files) : outcome LoadError (bool * files) :=
  test_cases ← load_tests cli fs entries;
  let '(_, errored, fs) := run_tests test_cases (cli_quiet cli) false fs in
  Ok (negb errored, fs).
End golden.

(** ** The verdict of a test *)
Section theorems.
Context (workbench : list string → files → option (Output * files)).
Context (diff_to_string : string → string → string) (from_utf8_lossy : string → string).
Context (write_error : string → string → files → option files).
Context (async_rt_name : string).

Abbreviation run := (run_quinn_workbench workbench diff_to_string from_utf8_lossy write_error async_rt_name).
Abbreviation stdout_path t := (join_path (tc_dir t) (expected_stdout_file async_rt_name)).
Abbreviation replay_log_path t := (join_path (tc_dir t) (expected_replay_log_file async_rt_name)).

Lemma join_path_inj path a b : join_path path a = join_path path b → a = b.
Proof. unfold join_path. induction path as [|c p IH]; simpl; [by intros [= ?]|intros [= ?]; by apply IH]. Qed.

(** An expected output that is missing agrees with any output. *)
Definition agrees (expected : option string) (actual : string) : Prop :=
  ∀ x, expected = Some x → x = actual.

(** The files once a missing expectation is recorded. *)
Definition record_missing (expected : option string) (path actual : string) (fs : files) : files :=
  match expected with Some _ => fs | None => <[path := actual]> fs end.

(** A missing expectation can be recorded. *)
Definition recordable (expected : option string) (path actual : string) (fs : files) : Prop :=
  expected = None → write_error path actual fs = None.

Lemma compare_output_spec expected actual path skip e fs :
  match compare_output diff_to_string write_error expected actual path skip e fs with
  | (inr diff, fs') => (diff = None ↔ agrees expected actual) ∧ recordable expected path actual fs ∧
      fs' = record_missing expected path actual fs
  | (inl _, _) => ¬ recordable expected path actual fs
  end.
Proof.
  unfold compare_output, agrees, recordable. destruct expected as [x|].
  - split; [|done]. destruct (String.eqb_spec x actual) as [->|Hne]; split; try done.
    + intros _ y. by intros [= <-].
    + intros Hy. by specialize (Hy x eq_refl).
  - destruct (write_error path actual fs); [by intros H%(λ H, H eq_refl)|]. by split; [split|].
Qed.

(** The outcome of a run whose process ran and left a replay log. *)
Lemma run_spec t quiet fs out fs1 log e fs2 :
  workbench (split_whitespace (tc_args t)) fs = Some (out, fs1) → fs1 !! "replay-log.json" = Some log →
  run t quiet fs = (e, fs2) →
  let stdout := from_utf8_lossy (out_stdout out) in
  let recorded := record_missing (expected_stdout t) (stdout_path t) stdout fs1 in
  let fine := recordable (expected_stdout t) (stdout_path t) stdout fs1 ∧
    recordable (expected_replay_log t) (replay_log_path t) log recorded in
  (e = None ↔ agrees (expected_stdout t) stdout ∧
     agrees (expected_replay_log t) log ∧ from_utf8_lossy (out_stderr out) = "" ∧ fine) ∧
  (fine → fs2 = record_missing (expected_replay_log t) (replay_log_path t) log recorded).
Proof.
  intros Hw Hlog Hrun. cbv zeta. unfold run_quinn_workbench in Hrun. rewrite Hw, Hlog in Hrun.
  match type of Hrun with context [compare_output ?d ?we ?x ?a ?p ?k ?er fs1] =>
    pose proof (compare_output_spec x a p k er fs1) as H1; destruct (compare_output d we x a p k er fs1) as [[e1|d1] f1] end.
  { injection Hrun as <- <-. split; [split; [done|]|]; [intros (_ & _ & _ & ? & _)|intros [? _]]; by destruct H1. }
  match type of Hrun with context [compare_output ?d ?we ?x ?a ?p ?k ?er f1] =>
    pose proof (compare_output_spec x a p k er f1) as H2; destruct (compare_output d we x a p k er f1) as [[e2|d2] f2] end;
    destruct H1 as (D1 & R1 & ->).
  { injection Hrun as <- <-. split; [split; [done|]|]; [intros (_ & _ & _ & _ & ?)|intros [_ ?]]; by destruct H2. }
  destruct H2 as (D2 & R2 & ->). rewrite <-D1, <-D2. clear D1 D2. injection Hrun as <- <-.
  split; [|done]. destruct d1, d2; simpl; try (split; [done|by intros (? & ? & ?)]).
  destruct (String.eqb_spec (from_utf8_lossy (out_stderr out)) "") as [He|He]; simpl; split; try done.
  by intros (_ & _ & ? & _).
Qed.

(** The loop runs every test, in order; it has an error if one of them has. *)
Lemma run_tests_errored tests quiet errored fs results errored' fs' :
  run_tests workbench diff_to_string from_utf8_lossy write_error async_rt_name tests quiet errored fs =
    (results, errored', fs') →
  results.*1 = tc_dir <$> tests ∧
  (errored' = false ↔ errored = false ∧ Forall (λ r, r.2 = None) results).
Proof.
  revert errored fs results errored' fs'.
  induction tests as [|t tests IH]; simpl; intros errored fs results errored' fs' Hm.
  { injection Hm as <- <- <-. split; [done|]. split; [by split|by intros []]. }
  destruct (run t quiet fs) as [e fs1].
  destruct (run_tests _ _ _ _ _ tests quiet _ fs1) as [[rs er] fs2] eqn:Hrest. injection Hm as <- <- <-.
  destruct (IH _ _ _ _ _ Hrest) as [Hd He]. split; [by rewrite fmap_cons, Hd|]. rewrite He, Forall_cons. simpl.
  destruct e; naive_solver.
Qed.

(** C32: A golden test passes exactly when the workbench ran, left a replay log, printed nothing to its
    standard error, its output and its replay log are the expected ones, where they exist, and those
    that do not exist can be written to their files, first the output and then the replay log; and
    the tests succeed exactly when every one of them passes, each being run. *)
Theorem golden_verdict :
  (∀ t quiet fs, (run t quiet fs).1 = None ↔ ∃ out fs1 log,
     workbench (split_whitespace (tc_args t)) fs = Some (out, fs1) ∧ fs1 !! "replay-log.json" = Some log ∧
     agrees (expected_stdout t) (from_utf8_lossy (out_stdout out)) ∧ agrees (expected_replay_log t) log ∧
     from_utf8_lossy (out_stderr out) = "" ∧
     recordable (expected_stdout t) (stdout_path t) (from_utf8_lossy (out_stdout out)) fs1 ∧
     recordable (expected_replay_log t) (replay_log_path t) log
       (record_missing (expected_stdout t) (stdout_path t) (from_utf8_lossy (out_stdout out)) fs1)) ∧
  ∀ cli entries fs tests, load_tests async_rt_name cli fs entries = Ok tests →
    ∃ results fs', results.*1 = tc_dir <$> tests ∧
      golden_main workbench diff_to_string from_utf8_lossy write_error async_rt_name cli entries fs =
        Ok (bool_decide (Forall (λ r, r.2 = None (A := TestError)) results), fs') ∧
      run_tests workbench diff_to_string from_utf8_lossy write_error async_rt_name tests (cli_quiet cli) false fs =
        (results, negb (bool_decide (Forall (λ r, r.2 = None (A := TestError)) results)), fs').
Proof.
  split.
  - intros t quiet fs. destruct (run t quiet fs) as [e fs2] eqn:Hrun. simpl. split.
    + intros ->. pose proof Hrun as Hr. unfold run_quinn_workbench in Hr.
      destruct (workbench (split_whitespace (tc_args t)) fs) as [[out fs1]|] eqn:Hw; [|done].
      destruct (fs1 !! "replay-log.json") as [log|] eqn:Hlog; [|done]. exists out, fs1, log.
      destruct (run_spec _ _ _ _ _ _ _ _ Hw Hlog Hrun) as [[Hp _] _]. split; [done|]. split; [done|].
      destruct (Hp eq_refl) as (? & ? & ? & ? & ?). by split_and!.
    + intros (out & fs1 & log & Hw & Hlog & Hall). by apply (run_spec _ _ _ _ _ _ _ _ Hw Hlog Hrun).
  - intros cli entries fs tests Hload.
    destruct (run_tests workbench diff_to_string from_utf8_lossy write_error async_rt_name tests (cli_quiet cli) false fs)
      as [[results errored] fs'] eqn:Hrun.
    destruct (run_tests_errored _ _ _ _ _ _ _ Hrun) as [Hd He]. exists results, fs'. split; [done|].
    assert (errored = negb (bool_decide (Forall (λ r, r.2 = None (A := TestError)) results))) as Herr.
    { case_bool_decide as Hall; simpl; [by apply He; split|]. destruct errored; [done|].
      by destruct He as [[_ ?] _]. }
    unfold golden_main. rewrite Hload. simpl. rewrite Hrun, Herr, negb_involutive. done.
Qed.

(** C33: What a test records is what it then expects: after a test that passed, the test case that is
    loaded expects exactly the output and the replay log of that run, so a second run passes, and
    changes no expectation, if and only if the workbench repeats them without an error. *)
Theorem golden_rerun cli entry t quiet fs out fs1 log fs2 :
  (∀ args fs out fs', workbench args fs = Some (out, fs') →
     ∀ file, fs' !! join_path (en_path entry) file = fs !! join_path (en_path entry) file) →
  load_test async_rt_name cli fs entry = Ok (Some t) →
  workbench (split_whitespace (tc_args t)) fs = Some (out, fs1) → fs1 !! "replay-log.json" = Some log →
  run t quiet fs = (None, fs2) →
  ∃ t', load_test async_rt_name cli fs2 entry = Ok (Some t') ∧ tc_args t' = tc_args t ∧
    expected_stdout t' = Some (from_utf8_lossy (out_stdout out)) ∧ expected_replay_log t' = Some log ∧
    ∀ out' fs3 log', workbench (split_whitespace (tc_args t)) fs2 = Some (out', fs3) →
      fs3 !! "replay-log.json" = Some log' → (run t' quiet fs2).2 = fs3 ∧
      ((run t' quiet fs2).1 = None ↔ from_utf8_lossy (out_stdout out') = from_utf8_lossy (out_stdout out) ∧
         log' = log ∧ from_utf8_lossy (out_stderr out') = "").
Proof.
  intros Hframe Hload Hw Hlog Hrun. destruct (run_spec _ _ _ _ _ _ _ _ Hw Hlog Hrun) as [[Hp _] Hfs].
  destruct (Hp eq_refl) as (A1 & A2 & _ & Hfine). apply Hfs in Hfine. clear Hfs. rename Hfine into Hfs. unfold load_test in *.
  destruct (en_is_dir entry); [|done]. simpl in *. destruct (en_name entry) as [name|]; [|done].
  destruct (match cli_test_name cli with Some n => _ | None => _ end); [done|].
  destruct (fs !! join_path (en_path entry) "args") as [args|] eqn:Hargs; [|done]. injection Hload as <-.
  simpl in *. set (so := join_path (en_path entry) (expected_stdout_file async_rt_name)) in *.
  set (rl := join_path (en_path entry) (expected_replay_log_file async_rt_name)) in *.
  assert (so ≠ rl ∧ so ≠ join_path (en_path entry) "args" ∧ rl ≠ join_path (en_path entry) "args") as (N1 & N2 & N3).
  { split_and!; intros E%join_path_inj; unfold expected_stdout_file, expected_replay_log_file in E; simpl in E; discriminate E. }
  assert (fs2 !! join_path (en_path entry) "args" = Some args ∧
    fs2 !! so = Some (from_utf8_lossy (out_stdout out)) ∧ fs2 !! rl = Some log) as (F1 & F2 & F3).
  { pose proof (Hframe _ _ _ _ Hw) as Hf. rewrite Hfs. unfold record_missing.
    pose proof (Hf (expected_stdout_file async_rt_name)) as E1. fold so in E1.
    pose proof (Hf (expected_replay_log_file async_rt_name)) as E2. fold rl in E2.
    pose proof (Hf "args") as E3.
    destruct (fs !! so) as [x|] eqn:Hso, (fs !! rl) as [y|] eqn:Hrl;
      rewrite ?(A1 _ eq_refl), ?(A2 _ eq_refl) in *;
      split_and!; simplify_map_eq; congruence. }
  rewrite F1. eexists. split; [reflexivity|]. simpl. split_and!; [done|done|done|].
  intros out' fs3 log' Hw' Hlog'.
  match goal with |- context [run ?t ?q ?f] => destruct (run t q f) as [e f2] eqn:Hrun';
    pose proof (run_spec t q f out' fs3 log' e f2 Hw' Hlog' Hrun') as [Hv Hf2] end.
  simpl in *. rewrite F2, F3 in *. unfold recordable in *. split; [by apply Hf2|]. rewrite Hv.
  unfold agrees. split.
  - intros (B1 & B2 & B3 & _). split_and!; [by symmetry; apply B1|by symmetry; apply B2|done].
  - intros (B1 & B2 & B3). split_and!; [by intros ? [= <-]|by intros ? [= <-]|done..].
Qed.
End theorems.

(** ** Witnesses *)

(** A workbench that prints [ok] and leaves an empty log. *)
Definition example_workbench (args : list string) (fs : files) : option (Output * files) :=
  Some (mkOutput "ok" "", <["replay-log.json" := "[]"]> fs).
Definition example_entry : Entry := mkEntry "tests/first" true (Some "first").
Definition example_files : files := {["tests/first/args" := "ping --duration-ms 10"]}.
Definition example_case : TestCase := mkTestCase "tests/first" "ping --duration-ms 10" None None.
Definition example_run : option TestError * files :=
  run_quinn_workbench example_workbench (λ _ _, "") (λ s, s) (λ _ _ _, None) "tokio" example_case 0 example_files.

Example example_args : split_whitespace " ping  --duration-ms 10 " = ["ping"; "--duration-ms"; "10"].
Proof. vm_compute. reflexivity. Qed.

Lemma example_frame args fs out fs' : example_workbench args fs = Some (out, fs') →
  ∀ file, fs' !! join_path (en_path example_entry) file = fs !! join_path (en_path example_entry) file.
Proof. intros [= _ <-] file. by rewrite lookup_insert_ne by (unfold join_path; simpl; discriminate). Qed.

Lemma golden_rerun_witness : ∃ t', load_test "tokio" (mkCli None 0) example_run.2 example_entry = Ok (Some t') ∧
  expected_stdout t' = Some "ok" ∧ expected_replay_log t' = Some "[]".
Proof.
  destruct (golden_rerun example_workbench (λ _ _, "") (λ s, s) (λ _ _ _, None) "tokio" (mkCli None 0) example_entry
    example_case 0 example_files (mkOutput "ok" "") (<["replay-log.json" := "[]"]> example_files) "[]"
    example_run.2 example_frame) as (t' & H1 & _ & H2 & H3 & _).
  - vm_compute. reflexivity.
  - vm_compute. reflexivity.
  - vm_compute. reflexivity.
  - vm_compute. reflexivity.
  - exists t'. exact (conj H1 (conj H2 H3)).
Defined.

Lemma golden_verdict_witness : ∃ results fs', results.*1 = ["tests/first"] ∧
  golden_main example_workbench (λ _ _, "") (λ s, s) (λ _ _ _, None) "tokio" (mkCli None 0) [example_entry] example_files =
    Ok (bool_decide (Forall (λ r, r.2 = None (A := TestError)) results), fs').
Proof.
  destruct (golden_verdict example_workbench (λ _ _, "") (λ s, s) (λ _ _ _, None) "tokio") as [_ Hmain].
  destruct (Hmain (mkCli None 0) [example_entry] example_files [example_case]) as (results & fs' & H1 & H2 & _);
    [vm_compute; reflexivity|].
  exists results, fs'. exact (conj H1 H2).
Defined.

(** A directory that cannot be written to: the test fails, although its output would be accepted. *)
Example example_unwritable :
  run_quinn_workbench example_workbench (λ _ _, "") (λ s, s) (λ _ _ fs, Some fs) "tokio" example_case 0
    example_files =
  (Some (InternalError StdoutNotPersisted), <["replay-log.json" := "[]"]> example_files).
Proof. vm_compute. reflexivity. Qed.
