(* ===== verification/PingRun.v ===== *)
(** * Running the UDP ping

    Models [run] of [quinn-workbench/src/udp/ping.rs] around the tasks of [Ping]: it
    looks up the hosts, sleeps while the tasks run, stores the replay log and
    reports. *)

From stdpp Require Import relations.
From S2P Require Import Prelude Float Ip Spec Event Transmit SimStep Replayed Verifier Cli.
From S2P Require Import VerifierThms VerifierTotal VerifierProps VerifierNew Heap InboundQueue Node Link.
From S2P Require Import Network NetworkInit NetworkInv NetworkArrivals NetworkRng NetworkExample Sockets Connectivity.
From S2P Require Import Config Workbench NetworkContents Tasks Ping NetworkVerified Report.

Inductive PingMain : Type :=
  | PingSleeping (deadline : Z)
  | PingFinished (result : RunError + list Line).

Section run.
Context {H : Type} {HH : BinaryHeap PrioritizedInTransitData above H}.
Context {R : Type} (rng_f64 : R → f64 * R) (rng_u128 : R → Z * R).
Context (timer_elapsed : Z → Z → bool) (hash_order : gset string → list string).
Context (iter_nodes : gmap string NodeStats → list (string * NodeStats)).
Context (iter_links : gmap string LinkStats → list (string * LinkStats)).
Context (iter_ids : gmap string node_ref → list string).
Context (spec : NetworkSpec) (topo : Topology) (simulation_start : Z) (opt : PingOpt).

Abbreviation world := (World H R).
Abbreviation M := (NM (world * Ping * PingMain)).

Definition ping_server_ip : IpAddr := server_ip_address (ping_network opt).
Definition ping_client_ip : IpAddr := client_ip_address (ping_network opt).

(** The hosts; [None] if the capture file of one could not be created. *)
Definition ping_hosts (server_pcap client_pcap : bool) : NM world (option (node_ref * node_ref)) :=
  server_node ← get_host topo ping_server_ip;
  if negb server_pcap then mret None else
  client_node ← get_host topo ping_client_ip;
  if negb client_pcap then mret None else
  mret (Some (server_node, client_node)).

Context (client server : node_ref).

(** What is reported in the end. *)
Definition ping_report : NM world (RunError + list Line) :=
  r ← verify_simulation hash_order spec;
  match r with
  | inl e => mret (inl e)
  | inr verified =>
      server_node ← get_host topo ping_server_ip;
      client_node ← get_host topo ping_client_ip;
      lines ← print_stats topo iter_nodes iter_links (get_node_ids topo iter_ids) verified
        server_node client_node true;
      mret (inr lines)
  end.

(** The next step of [run]; [stored] tells whether the replay log could be written. *)
Definition ping_main (stored : bool) : M () :=
  phase ← get_state;
  t ← in_network (in_network now);
  match phase with
  | PingSleeping deadline =>
      if timer_elapsed deadline t then
        result ← (if stored then in_network (in_network ping_report) else mret (inl StoreFailed));
        put_state (PingFinished result)
      else mret ()
  | PingFinished _ => mret ()
  end.

Inductive PingRunTask : Type :=
  | RunPing (task : PingTask)
  | RunMain (stored : bool).

Definition ping_run_task (task : PingRunTask) : M () :=
  match task with
  | RunPing task =>
      in_network (ping_task rng_f64 rng_u128 timer_elapsed topo ping_client_ip ping_server_ip client server
        (from_millis (ping_deadline_ms opt)) (from_millis (ping_interval_ms opt)) simulation_start task)
  | RunMain stored => ping_main stored
  end.

Definition PingRun (x y : world * Ping * PingMain) : Prop := ∃ task, ping_run_task task x = Some ((), y).

Abbreviation ping_step := (PingStep rng_f64 rng_u128 timer_elapsed topo ping_client_ip ping_server_ip client
  server (from_millis (ping_deadline_ms opt)) (from_millis (ping_interval_ms opt)) simulation_start).
Abbreviation reach := (Reach rng_f64 rng_u128 timer_elapsed topo simulation_start).

(** ** The steps of the tasks are steps of the network *)
Definition reaches {S} (x y : world * S) : Prop := reach x.1 y.1.

#[export] Instance reaches_preorder {S} : PreOrder (reaches (S := S)).
Proof. unfold reaches. split; [intros x; reflexivity|]. intros x y z ? ?. by etrans. Qed.

Lemma in_network_reaches {S A} (m : NM world A) :
  (∀ w a w', m w = Some (a, w') → reach w w') → steps_in (reaches (S := S)) (in_network m).
Proof. intros Hm [w s] a y (w' & Hw & ->)%in_network_inv. by eapply Hm. Qed.

Lemma get_reaches {S} : steps_in (reaches (S := S)) get_state.
Proof. intros [w s] a y [= _ <-]. reflexivity. Qed.
Lemma put_reaches {S} (s : S) : steps_in (reaches (S := S)) (put_state s).
Proof. intros [w s'] a y [= _ <-]. apply rtc_refl. Qed.

Lemma now_reaches {S} : steps_in (reaches (S := S)) (in_network now).
Proof. apply in_network_reaches. intros w a w' [= _ <-]. reflexivity. Qed.

Lemma send_reaches {S} n t : steps_in (reaches (S := S)) (in_network (try_send rng_f64 rng_u128 n t)).
Proof. apply in_network_reaches. intros w [] w'. apply try_send_reach. Qed.

Lemma receive_reaches {S} n bm : steps_in (reaches (S := S)) (in_network (receive timer_elapsed n bm)).
Proof. apply in_network_reaches. intros w a w'. apply receive_reach. Qed.

Ltac reaches :=
  repeat first
    [ apply now_reaches | apply send_reaches | apply receive_reaches
    | apply get_reaches | apply put_reaches
    | apply steps_in_ret; apply _
    | apply steps_in_some; apply _
    | apply steps_in_assert; apply _
    | apply steps_in_foreach; [apply _|intros ?]
    | apply steps_in_bind; [apply _| |intros ?]
    | case_match ].
Lemma ping_task_reaches task : steps_in reaches
  (ping_task rng_f64 rng_u128 timer_elapsed topo ping_client_ip ping_server_ip client server
    (from_millis (ping_deadline_ms opt)) (from_millis (ping_interval_ms opt)) simulation_start task).
Proof.
  destruct task as [a| |task| |]; simpl.
  - intros [w s] [] y (w' & _ & He & ->)%network_task_inv. by eapply exec_reach.
  - unfold ping_sender. reaches.
  - unfold ping_deadline. reaches.
  - unfold ping_receiver, ping_received. reaches.
  - unfold ping_server, ping_echo. reaches.
Qed.

Lemma ping_report_reads : steps_in (=) ping_report.
Proof.
  unfold ping_report. apply steps_in_bind; [apply _|apply verify_simulation_reads|intros [e|v]];
    [apply steps_in_ret, _|].
  apply steps_in_bind; [apply _|apply get_host_reads|intros s].
  apply steps_in_bind; [apply _|apply get_host_reads|intros c].
  apply steps_in_bind; [apply _|apply print_stats_reads|intros l]. apply steps_in_ret, _.
Qed.

(** [run] itself does nothing to the network or the ping. *)
Lemma ping_main_reads stored x y : ping_main stored x = Some ((), y) → y.1 = x.1.
Proof.
  destruct x as [x phase]. unfold ping_main. intros Hm.
  apply nm_bind_inv in Hm as (p & x1 & [= <- <-] & Hm).
  apply nm_bind_inv in Hm as (t & x1 & Ht & Hm). apply in_network_inv in Ht as (x2 & Ht & ->).
  destruct x as [w s]. apply in_network_inv in Ht as (w1 & [= _ <-] & ->).
  destruct phase as [d|r]; [|by injection Hm as <-].
  destruct (timer_elapsed d t); [|by injection Hm as <-].
  apply nm_bind_inv in Hm as (r & [x1 p] & Hr & Hm). injection Hm as <-.
  destruct stored; [|by injection Hr as _ <- _].
  apply in_network_inv in Hr as (x2 & Hr & [= -> ->]). apply in_network_inv in Hr as (w2 & Hr & ->).
  by apply ping_report_reads in Hr as <-.
Qed.

Lemma ping_run_steps x y : rtc PingRun x y → rtc ping_step x.1 y.1 ∧ reach x.1.1 y.1.1.
Proof.
  induction 1 as [x|x y z [task Hm] _ [IH1 IH2]]; [done|]. destruct task as [task|stored]; simpl in Hm.
  - destruct x as [x p]. apply in_network_inv in Hm as (x' & Hm & ->). simpl in *.
    split; [eapply rtc_l; [by exists task|done]|]. etrans; [|exact IH2]. by apply ping_task_reaches in Hm.
  - apply ping_main_reads in Hm. rewrite <-Hm. done.
Qed.
End run.

(** ** From the configuration to the report *)
Section reported.
Context {H : Type} {HH : BinaryHeap PrioritizedInTransitData above H}.
Context {R : Type} (rng_f64 : R → f64 * R) (rng_u128 : R → Z * R).
Context (timer_elapsed : Z → Z → bool).
Context (Helapsed : ∀ d n, timer_elapsed d n = true → d ≤ n).
Context (hash_order : gset string → list string).
Context (iter_nodes : gmap string NodeStats → list (string * NodeStats)).
Context (iter_links : gmap string LinkStats → list (string * LinkStats)).
Context (iter_ids : gmap string node_ref → list string).
Context (Horder : ∀ s, hash_order s ≡ₚ elements s) (Hlinks : ∀ m, iter_links m ≡ₚ map_to_list m).
Context (Hids : ∀ m, iter_ids m ≡ₚ (map_to_list m).*1).

(** C18: The UDP ping, from its configuration to its report.  In every execution over a network that was
    set up from the files, between two hosts with different addresses: all packets the client
    receives come from the server and carry the number of a ping, so the receiver never panics,
    and all packets that reach the server come from the client; and once the duration has passed,
    in an execution in which no packet id was drawn twice, the next step of [run] returns without a panic: the log is verified and the report printed if
    the network has a verifier, and otherwise that is the error. *)
Theorem ping_run_reports {QuinnJsonConfig} (config : NetworkConfig QuinnJsonConfig) opt now (rng : R)
    spec topo (w0 w wh : World H (R * list Z)) server client default_meta s phase :
  setup_network now config (rng, []) now false = Ok (spec, topo, w0) → config_typed config →
  NoDup (nj_id <$> sj_nodes (network_graph config)) → 0 ≤ now →
  ping_hosts topo opt true true w0 = Some (Some (server, client), wh) →
  ping_client_ip opt ≠ ping_server_ip opt →
  rtc (PingRun (recorded_f64 rng_f64) (recorded_u128 rng_u128) timer_elapsed hash_order iter_nodes iter_links
    iter_ids spec topo now opt client server)
    (w0, ping_init default_meta, PingSleeping (now + from_millis (ping_duration_ms opt))) (w, s, phase) →
  (∃ y, ping_receiver timer_elapsed (ping_server_ip opt) client (w, s) = Some ((), y)) ∧
  (∃ packets bufs w', receive timer_elapsed server (pg_server_bufs s) w = Some ((packets, bufs), w') ∧
     ∀ p, p ∈ default [] packets → sa_ip (up_source_addr p) = ping_client_ip opt) ∧
  ∀ deadline, phase = PingSleeping deadline → timer_elapsed deadline (w_now w) = true → NoDup (drawn w) →
    w_now w ≤ duration_max - from_secs 10 → sumZ step_bytes (w_log w) < 2 ^ 64 →
    ∃ result, ping_main timer_elapsed hash_order iter_nodes iter_links iter_ids spec topo opt true (w, s, phase) =
        Some ((), (w, s, PingFinished result)) ∧
      (verifiable spec → ∃ lines, result = inr lines) ∧
      (¬ verifiable spec → ∃ e, result = inl (NoVerifier e)).
Proof using Helapsed Horder Hlinks Hids.
  intros Hset Hconfig Hnodes Hbegin Hhosts Hne [Hsteps Hr]%ping_run_steps. simpl in *.
  destruct (setup_initialized config _ _ _ _ _ _ _ Hset Hconfig) as (Hinit & _).
  unfold ping_hosts in Hhosts. apply nm_bind_inv in Hhosts as (srv & w1 & Hs & Hhosts).
  pose proof (get_host_reads _ _ _ _ _ Hs) as <-. apply nm_bind_inv in Hhosts as (cl & w2 & Hc & Hhosts).
  pose proof (get_host_reads _ _ _ _ _ Hc) as <-. injection Hhosts as -> -> _.
  destruct (ping_never_panics (recorded_f64 rng_f64) (recorded_u128 rng_u128) timer_elapsed topo _ _ client server _ _ now default_meta w0
    now spec _ (rng, []) now false _ _ w s Helapsed Hinit Hc Hs Hne Hsteps) as [Hrecv Hsrv].
  split; [done|]. split; [done|]. intros deadline -> Hdeadline Hdrawn Hnow Hbytes.
  destruct (simulation_reported _ _ timer_elapsed _ _ hash_order iter_nodes iter_links
    iter_ids Horder Hlinks Hids config now (rng, []) now false spec topo w0 w Hset Hconfig Hnodes
    Hr Hdrawn Hbegin Hnow Hbytes (get_node_ids topo iter_ids) _ _ _ _ _ _ true ltac:(by right) Hs Hc) as [Hyes Hno].
  unfold ping_main, in_network, ping_report, get_state, put_state, mbind, NM_bind. simpl. rewrite Hdeadline.
  destruct (verifier_new_dec spec) as [Hv|Hv].
  - destruct (Hyes Hv) as (verified & lines & -> & -> & -> & ->). exists (inr lines).
    split; [done|]. split; [by exists lines|done].
  - destruct (Hno Hv) as [e ->]. exists (inl (NoVerifier e)). split; [done|]. split; [done|by exists e].
Qed.
End reported.

(** ** Witnesses *)

(** [A] pings [B] every 10 ms for a second, with a deadline of a second. *)
Definition ping_opt : PingOpt :=
  mkPingOpt 1000 10 1000 (mkNetworkOpt (as_ip_addr host_A) (as_ip_addr host_B) false 0 0 "graph.json" "events.json").

Abbreviation ping_run_state := (World net_heap net_rng * Ping * PingMain)%type.
Abbreviation main_task :=
  (ping_run_task net_f64 net_u128 net_timer hash_elements map_to_list map_to_list keys net_spec net_topo 0
     ping_opt 0%nat 1%nat).
Abbreviation main_run :=
  (PingRun net_f64 net_u128 net_timer hash_elements map_to_list map_to_list keys net_spec net_topo 0
     ping_opt 0%nat 1%nat).
Definition main_start : ping_run_state := (ping_start_state, PingSleeping (from_millis 1000)).
Definition main_exec (l : list PingRunTask) : option ping_run_state :=
  foldl (λ o task, x ← o; snd <$> main_task task x) (Some main_start) l.

Lemma main_exec_steps l y : main_exec l = Some y → rtc main_run main_start y.
Proof.
  unfold main_exec. generalize main_start. induction l as [|task l IH]; intros x; simpl; [by intros [= ->]|].
  destruct (main_task task x) as [[[] x1]|] eqn:He; simpl.
  - intros Hf. eapply rtc_l; [by exists task|]. by apply IH.
  - intros Hf. exfalso. clear -Hf. induction l; [done|auto].
Qed.

Definition main_script : list PingRunTask := RunPing <$> ping_script.
Definition main_end : ping_run_state := default main_start (main_exec main_script).

Lemma main_end_reached : rtc main_run main_start (fst (fst main_end), snd (fst main_end), snd main_end).
Proof. apply (main_exec_steps main_script). vm_compute. reflexivity. Qed.

Lemma main_hosts : ping_hosts net_topo ping_opt true true net_world = Some (Some (1%nat, 0%nat), net_world).
Proof.
  unfold ping_hosts, mbind, NM_bind. change (ping_server_ip _) with (as_ip_addr host_B).
  rewrite (net_host (as_ip_addr host_B) 1%nat) by (vm_compute; reflexivity). simpl.
  change (ping_client_ip _) with (as_ip_addr host_A).
  rewrite (net_host (as_ip_addr host_A) 0%nat) by (vm_compute; reflexivity). done.
Qed.

Lemma ping_run_reports_witness :
  ∃ lines, ping_main net_timer hash_elements map_to_list map_to_list keys net_spec net_topo ping_opt true
    (fst (fst main_end), snd (fst main_end), snd main_end) =
    Some ((), (fst (fst main_end), snd (fst main_end), PingFinished (inr lines))).
Proof.
  destruct (ping_run_reports seq_f64 seq_u128 net_timer net_timer_elapsed
    hash_elements map_to_list map_to_list keys hash_elements_perm
    ltac:(reflexivity) ltac:(reflexivity) net_config ping_opt 0 0 net_spec net_topo net_world (fst (fst main_end))
    net_world 1%nat 0%nat no_meta (snd (fst main_end)) (snd main_end) net_setup net_config_typed net_config_nodes
    ltac:(lia) main_hosts ltac:(vm_compute; discriminate) main_end_reached) as (_ & _ & Hmain).
  destruct (Hmain (from_millis 1000)) as (result & Hm & Hyes & _).
  - vm_compute. reflexivity.
  - vm_compute. reflexivity.
  - apply (bool_decide_unpack _). vm_compute. exact I.
  - vm_compute. discriminate.
  - vm_compute. reflexivity.
  - destruct (Hyes net_verifiable) as [lines ->]. exists lines. exact Hm.
Defined.
