(* ===== verification/ThroughputRun.v ===== *)
(** * Running the throughput test

    Models the tasks of [quinn-workbench/src/udp/throughput.rs], run concurrently
    with the network: the sender, the server that notes what arrives, and [run]
    itself, which sleeps, stores the replay log, cancels the others and reports. *)

From Stdlib Require Import Init.Byte.
From stdpp Require Import relations.
From S2P Require Import Prelude Float Ip Spec Event Transmit SimStep Replayed Verifier Throughput Cli.
From S2P Require Import VerifierThms VerifierTotal VerifierProps.
From S2P Require Import Cancel Heap InboundQueue Node Link Network NetworkInit NetworkInv NetworkStart.
From S2P Require Import NetworkArrivals NetworkRng NetworkExample Sockets Connectivity Config Workbench.
From S2P Require Import NetworkContents Tasks NetworkProps NetworkVerified VerifierNew Report.

(** ** The state of the tasks *)
Section state.
Context {L E : Type} {EL : EventListener L E}.

(** [sv_cancelled] is the future of the current [select_biased]. *)
Record Server : Type := mkServer {
  sv_cancelled : Cancelled L;
  sv_bufs : BufsAndMeta;
  sv_arrived : list (Z * Z);
  sv_ended : bool;
}.

Inductive Sender : Type :=
  | SenderStart
  | SenderSleeping (deadline : Z)
  | SenderEnded.

(** [run] after it spawned the tasks; it returns the throughput and the lines
    of the report. *)
Inductive Main : Type :=
  | MainSleeping (deadline : Z)
  | MainJoining
  | MainReturned (result : RunError + Z * list Line).

Record Test : Type := mkTest {
  tt_token : CancellationToken E;
  tt_server : Server;
  tt_sender : Sender;
  tt_main : Main;
}.

Definition test_init (default_meta : RecvMeta) (deadline : Z) : Test :=
  mkTest CancellationToken_new
    (mkServer CancelledStart (BufsAndMeta_new default_meta 1200 20) [] false)
    SenderStart (MainSleeping deadline).

Section tasks.
Context {H : Type} {HH : BinaryHeap PrioritizedInTransitData above H}.
Context {R : Type} (rng_f64 : R → f64 * R) (rng_u128 : R → Z * R).
Context (timer_elapsed : Z → Z → bool) (hash_order : gset string → list string).
Context (iter_nodes : gmap string NodeStats → list (string * NodeStats)).
Context (iter_links : gmap string LinkStats → list (string * LinkStats)).
Context (spec : NetworkSpec) (topo : Topology) (simulation_start : Z).

Abbreviation world := (World H R).
Abbreviation M := (NM (world * Test)).
Abbreviation get_test := (get_state (W := world) (S := Test)).
Abbreviation put_test := (put_state (W := world) (S := Test)).

(** The hosts, and the bandwidth to send with. *)
Definition test_hosts (opt : ThroughputOpt) : NM world (node_ref * node_ref * Z) :=
  server ← get_host topo (server_ip_address (throughput_network opt));
  client ← get_host topo (client_ip_address (throughput_network opt));
  send_bps ← nsome (match choose_send_bps (E := ()) (throughput_send_bps opt) (links spec) with
                    | Ok bps => Some bps | _ => None end);
  mret (server, client, send_bps).

Context (client_ip server_ip : IpAddr) (client server : node_ref) (send_bps : Z).

(** *** The server *)
Definition test_arrived (packet : UdpPacket) : M () :=
  _ ← nassert (bool_decide (sa_ip (up_source_addr packet) = client_ip));
  s ← get_test;
  t ← in_network now;
  let sv := tt_server s in
  let arrived := (Z.max 0 (t - simulation_start), Z.of_nat (length (up_payload packet))) in
  put_test (mkTest (tt_token s)
    (mkServer (sv_cancelled sv) (sv_bufs sv) (sv_arrived sv ++ [arrived]) (sv_ended sv))
    (tt_sender s) (tt_main s)).

(** A poll of the [select_biased]: the cancellation comes first. *)
Definition test_server : M () :=
  s ← get_test;
  let sv := tt_server s in
  if sv_ended sv then mret () else
  '(ready, f, token) ← nsome (poll_cancelled (sv_cancelled sv) (tt_token s));
  if (ready : bool) then
    put_test (mkTest token (mkServer f (sv_bufs sv) (sv_arrived sv) true) (tt_sender s) (tt_main s))
  else
    '(packets, bufs) ← in_network (receive timer_elapsed server (sv_bufs sv));
    match packets with
    | None => put_test (mkTest token (mkServer f bufs (sv_arrived sv) false) (tt_sender s) (tt_main s))
    | Some packets =>
        _ ← put_test (mkTest token (mkServer CancelledStart bufs (sv_arrived sv) false)
              (tt_sender s) (tt_main s));
        nforeach test_arrived packets
    end.

(** *** The sender *)
Definition test_transmit (size : Z) : OwnedTransmit :=
  mkTransmit (mkSocketAddr server_ip 8080) None (replicate (Z.to_nat size) Byte.x00) None.

Definition test_sender : M () :=
  s ← get_test;
  t ← in_network now;
  if match tt_sender s with
     | SenderStart => true | SenderSleeping d => timer_elapsed d t | SenderEnded => false end
  then
    if is_cancelled (tt_token s) then put_test (mkTest (tt_token s) (tt_server s) SenderEnded (tt_main s))
    else
      sizes ← nsome (interval_packets send_bps);
      _ ← nforeach (λ size, in_network (try_send rng_f64 rng_u128 client (test_transmit size))) sizes;
      put_test (mkTest (tt_token s) (tt_server s) (SenderSleeping (t + from_millis send_interval_ms))
        (tt_main s))
  else mret ().

(** *** [run] *)

(** What is reported of the packets that arrived. *)
Definition test_report (arrived : list (Z * Z)) : NM world (RunError + Z * list Line) :=
  match max_smoothed_throughput (E := ()) arrived with
  | Ok max_smoothed_throughput_bps =>
      r ← verify_simulation hash_order spec;
      match r with
      | inl e => mret (inl e)
      | inr verified =>
          server_node ← get_host topo server_ip;
          client_node ← get_host topo client_ip;
          lines ← print_stats topo iter_nodes iter_links [] verified server_node client_node false;
          mret (inr (max_smoothed_throughput_bps, lines ++ print_errors (non_fatal_errors verified)))
      end
  | _ => npanic
  end.

(** [stored] tells whether the replay log could be written. *)
Definition test_main (stored : bool) : M () :=
  s ← get_test;
  t ← in_network now;
  match tt_main s with
  | MainSleeping deadline =>
      if timer_elapsed deadline t then
        put_test (if stored then mkTest (cancel (tt_token s)) (tt_server s) (tt_sender s) MainJoining
                  else mkTest (tt_token s) (tt_server s) (tt_sender s) (MainReturned (inl StoreFailed)))
      else mret ()
  | MainJoining =>
      if sv_ended (tt_server s) then
        result ← in_network (test_report (sv_arrived (tt_server s)));
        put_test (mkTest (tt_token s) (tt_server s) (tt_sender s) (MainReturned result))
      else mret ()
  | MainReturned _ => mret ()
  end.

Inductive TestTask : Type :=
  | TestNetwork (a : Action)
  | TestServer
  | TestSender
  | TestMain (stored : bool).

(** The next step of a task. *)
Definition test_task (task : TestTask) : M () :=
  match task with
  | TestNetwork a => network_task rng_f64 rng_u128 timer_elapsed topo simulation_start a
  | TestServer => test_server
  | TestSender => test_sender
  | TestMain stored => test_main stored
  end.

Definition TestRun (x y : world * Test) : Prop := ∃ task, test_task task x = Some ((), y).

(** ** What travels and what arrives *)
Definition client_endpoint : SocketAddr := mkSocketAddr client_ip HOST_PORT.
Definition server_endpoint : SocketAddr := mkSocketAddr server_ip HOST_PORT.

Definition test_packet (d : InTransitData) : Prop :=
  (length (t_contents (d_transmit d)) ≤ 1200)%nat ∧ d_source_endpoint d = client_endpoint ∧
  t_destination (d_transmit d) = server_endpoint.

Lemma test_packet_payload d d' : payload d = payload d' → test_packet d → test_packet d'.
Proof. intros [= E1 E2 E3 E4 E5 E6]. unfold test_packet. by rewrite E1, E4, E5. Qed.

Definition overhead : Z := UDP_OVERHEAD + if is_ipv4 server_ip then IPV4_OVERHEAD else IPV6_OVERHEAD.

(** The time and the size of a delivery to the application of a node, as the
    replay log has it. *)
Definition delivery_to (id : string) (s : SimulationStep) : option (Z * Z) :=
  g ← delivered_packet (step_kind s);
  if bool_decide (g_node_id g = id) then
    Some (Z.max 0 (step_time s - simulation_start), g_packet_size_bytes g - overhead)
  else None.

Definition arrivals (id : string) (log : list SimulationStep) : list (Z * Z) := omap (delivery_to id) log.

Lemma arrivals_cons id s l : arrivals id (s :: l) = option_list (delivery_to id s) ++ arrivals id l.
Proof. unfold arrivals. simpl. by destruct (delivery_to id s). Qed.

Lemma arrivals_app id l l' : arrivals id (l ++ l') = arrivals id l ++ arrivals id l'.
Proof. apply omap_app. Qed.

Lemma arrivals_quiet id l :
  Forall (λ s, delivered_packet (step_kind s) = None) l → arrivals id l = [].
Proof.
  induction 1 as [|s l Hs _ IH]; [done|]. rewrite arrivals_cons, IH. unfold delivery_to. by rewrite Hs.
Qed.

(** The deliveries of packets of the test, as the server notes them. *)
Definition noted (t : Z) (p : UdpPacket) : Z * Z :=
  (Z.max 0 (t - simulation_start), Z.of_nat (length (up_payload p))).

Lemma arrivals_delivered id t ds :
  (∀ d, d ∈ ds → test_packet (dv_data d)) →
  arrivals id (delivered_step t id <$> ds) = noted t <$> packets_of ds.
Proof.
  induction ds as [|d ds IH]; intros Hd; [done|].
  destruct (Hd d (list_elem_of_here _ _)) as (Hl & _ & Hdest).
  rewrite fmap_cons, arrivals_cons, IH by (intros x Hx; apply Hd; by right).
  unfold delivery_to. simpl. rewrite bool_decide_eq_true_2 by done. simpl. f_equal. unfold noted, packet_of. simpl. f_equal. unfold d_size, packet_size, overhead.
  rewrite Hdest. simpl. rewrite wrap64_small; [lia|].
  unfold in_u64, UDP_OVERHEAD, IPV4_OVERHEAD, IPV6_OVERHEAD. case_match; lia.
Qed.

Lemma test_arrived_all packets tok f b l e snd mn (w : world) :
  (∀ p, p ∈ packets → sa_ip (up_source_addr p) = client_ip) →
  nforeach test_arrived packets (w, mkTest tok (mkServer f b l e) snd mn) =
    Some ((), (w, mkTest tok (mkServer f b (l ++ (noted (w_now w) <$> packets)) e) snd mn)).
Proof.
  revert l. induction packets as [|p packets IH]; intros l Hp; simpl; [by rewrite app_nil_r|].
  assert (test_arrived p (w, mkTest tok (mkServer f b l e) snd mn) =
    Some ((), (w, mkTest tok (mkServer f b (l ++ [noted (w_now w) p]) e) snd mn))) as E1.
  { unfold test_arrived, nassert. rewrite bool_decide_eq_true_2 by (apply Hp; left). done. }
  unfold mbind at 1, NM_bind. rewrite E1, IH by (intros q Hq; apply Hp; by right). by rewrite <-app_assoc.
Qed.

(** ** The invariant of the tasks *)
Context (id : string) (Helapsed : ∀ d n, timer_elapsed d n = true → d ≤ n) (Hbps : 0 ≤ send_bps).

Definition main_ok (t : CancellationToken E) (m : Main) : Prop :=
  match m with MainJoining => ct_cancelled t = true | _ => True end.

Record world_inv (arrived : list (Z * Z)) (w : world) : Prop := mkWorldInv {
  wi_safe : safe test_packet w;
  wi_client : endpoint_of w client client_endpoint;
  wi_server : (identity <$> w_nodes w) !! server = Some (id, Some server_endpoint);
  wi_queue : server ∈ dom (w_inbound w);
  wi_socket : socket_fits server 20 w;
  wi_arrived : arrived = arrivals id (w_log w);
  wi_sizes : Forall (λ a, 0 ≤ a.2 ≤ 1200) arrived;
}.

Record test_inv (x : world * Test) : Prop := mkTestInv {
  ti_world : world_inv (sv_arrived (tt_server x.2)) x.1;
  ti_bufs : shaped 20 1200 (sv_bufs (tt_server x.2));
  ti_future : future_ok (tt_token x.2) (sv_cancelled (tt_server x.2));
  ti_waits : sv_ended (tt_server x.2) = false → sv_cancelled (tt_server x.2) ≠ CancelledDone;
  ti_main : main_ok (tt_token x.2) (tt_main x.2);
}.

Abbreviation reach := (Reach rng_f64 rng_u128 timer_elapsed topo simulation_start).

(** The invariant of the world across steps that deliver nothing. *)
Lemma world_inv_quiet l (w w' : world) :
  identity <$> w_nodes w' = identity <$> w_nodes w → dom (w_inbound w') = dom (w_inbound w) →
  w_sockets w' = w_sockets w → (safe test_packet w → safe test_packet w') →
  (∃ k, w_log w' = w_log w ++ k ∧ Forall (λ s, delivered_packet (step_kind s) = None) k) →
  world_inv l w → world_inv l w'.
Proof.
  intros Eid Ed Es Hs (k & Hl & Hk) [I1 I2 I3 I4 I5 I6 I7]. split; rewrite ?Eid, ?Ed; auto.
  - by eapply endpoint_of_identity.
  - unfold socket_fits. by rewrite Es.
  - by rewrite Hl, arrivals_app, (arrivals_quiet _ k), app_nil_r.
Qed.

Lemma network_step a x y :
  test_inv x → network_task rng_f64 rng_u128 timer_elapsed topo simulation_start a x = Some ((), y) →
  test_inv y ∧ reach x.1 y.1.
Proof.
  destruct x as [w s]. intros [I1 I2 I3 I4 I5] (w' & Hb & He & ->)%network_task_inv.
  simpl in *. split; [|by eapply exec_reach]. split; try done. simpl.
  destruct (exec_log _ _ _ _ _ _ _ _ Hb He) as [_ Hl].
  destruct (step_arrived _ _ _ _ _ _ _ (exec_step _ _ _ _ _ _ _ _ He)) as [Ed _ _].
  apply (exec_safe _ _ _ _ test_packet test_packet_payload) in He as (Eid & Hs & Hsock);
    [|by intros ? ? ->|apply I1].
  by apply (world_inv_quiet _ w); auto.
Qed.

(** *** The server *)
Lemma server_step x :
  test_inv x → ∃ y, test_server x = Some ((), y) ∧ test_inv y ∧ reach x.1 y.1 ∧
    (ct_cancelled (tt_token x.2) = true → sv_ended (tt_server y.2) = true).
Proof using Helapsed.
  destruct x as [w [tok [f b l e] snd mn]]. intros Hi. pose proof Hi as [I1 I2 I3 I4 I5]. simpl in *.
  unfold test_server, mbind, NM_bind. simpl. destruct e; [by eexists|].
  destruct (poll_cancelled_spec tok f (I4 eq_refl) I3) as (f' & tok' & Hp & Hle & Hc & Hf' & Hd).
  unfold nsome. rewrite Hp. unfold is_cancelled in *. destruct (ct_cancelled tok) eqn:Hcan.
  { eexists. split; [reflexivity|]. split; [|done]. split; simpl; try done.
    destruct mn; simpl in *; auto. }
  destruct I1 as [W1 W2 W3 W4 W5 W6 W7].
  destruct (host_receive timer_elapsed Helapsed test_packet w server id server_endpoint 20 1200 b) as
    (res & b' & w' & ds & Hr & Hsh & Hfits & Ho & Eid & Ed & Hs & -> & Hlog & Hds); [done|by intros d []|lia|done..|].
  unfold in_network. simpl. rewrite Hr. simpl.
  assert (∀ k f2, k = l ++ (noted (w_now w) <$> default [] (option_map packets_of ds)) →
    future_ok tok' f2 → f2 ≠ CancelledDone →
    test_inv (w', mkTest tok' (mkServer f2 b' k false) snd mn)) as Hinv.
  { intros k f2 -> Hf2 Hn2. split; simpl; try done.
    - split; rewrite ?Eid, ?Ed; try done; [by eapply endpoint_of_identity| |].
      + rewrite Hlog, arrivals_app, arrivals_delivered, <-W6 by (intros d Hin%Hds; apply Hin).
        by destruct ds.
      + apply Forall_app. split; [done|]. apply Forall_fmap, Forall_forall.
        intros p (d & [(Hl & _) _]%Hds & ->)%received_packet. simpl. lia.
    - destruct mn; simpl in *; try done. congruence. }
  assert (reach w w') as Hreach by (by eapply receive_reach).
  pose proof (receive_now _ _ _ _ _ _ Hr) as Hnow.
  destruct ds as [ds|]; simpl in *.
  - rewrite test_arrived_all, Hnow.
    + eexists. split; [reflexivity|]. split; [by apply Hinv|]. split; [done|simpl; congruence].
    + intros p (d & -> & Hin)%list_elem_of_fmap. simpl. by destruct (Hds d Hin) as [(_ & -> & _) _].
  - eexists. split; [reflexivity|]. split; [|by split].
    apply Hinv; [by rewrite app_nil_r|done|]. intros Hx%Hd. congruence.
Qed.

(** *** The sender *)
Lemma test_sends_keep sizes l w (s : Test) y :
  Forall (λ z, 0 < z ≤ max_bytes_per_transmit) sizes → world_inv l w →
  nforeach (λ size, in_network (try_send rng_f64 rng_u128 client (test_transmit size))) sizes (w, s) =
    Some ((), y) →
  ∃ w', y = (w', s) ∧ world_inv l w' ∧ reach w w'.
Proof.
  intros Hz. revert w. induction Hz as [|z sizes Hz _ IH]; intros w Hi Hm; simpl in Hm.
  { injection Hm as <-. by exists w. }
  apply nm_bind_inv in Hm as ([] & x1 & Hx & Hm). apply in_network_inv in Hx as (w1 & Hs & ->).
  assert (world_inv l w1) as Hi1.
  { pose proof Hi as [W1 W2 W3 W4 W5 W6 W7].
    destruct (host_send rng_f64 rng_u128 test_packet test_packet_payload w client client_endpoint
      (test_transmit z) w1 W2) as [(Eid & Es & Hk) Ed]; [|done|].
    { intros d Hd Ht. unfold test_packet. rewrite Ht, Hd. simpl. rewrite length_replicate.
      unfold max_bytes_per_transmit in Hz. split; [lia|done]. }
    apply try_send_extends in Hs as (_ & ks & Hks & Hl). apply (world_inv_quiet _ w); auto.
    eexists. split; [exact Hl|]. apply Forall_fmap. eapply Forall_impl; [exact Hks|]. by intros k []. }
  destruct (IH _ Hi1 Hm) as (w' & -> & Hi' & Hr). exists w'. split_and!; [done..|].
  etrans; [by eapply try_send_reach|exact Hr].
Qed.

Lemma sender_step x y :
  test_inv x → test_sender x = Some ((), y) → test_inv y ∧ reach x.1 y.1.
Proof using Hbps.
  destruct x as [w s]. intros Hi Hm. unfold test_sender in Hm.
  apply nm_bind_inv in Hm as (s1 & x1 & [= <- <-] & Hm).
  apply nm_bind_inv in Hm as (t & x1 & [= <- <-] & Hm).
  destruct (match tt_sender s with SenderStart => true | _ => _ end); [|by injection Hm as <-].
  pose proof Hi as [I1 I2 I3 I4 I5]. destruct (is_cancelled (tt_token s)); [by injection Hm as <-|].
  apply nm_bind_inv in Hm as (sizes & x1 & Hz & Hm). nm_inv_step Hz.
  apply nm_bind_inv in Hm as ([] & x1 & Hx & Hm).
  assert (0 ≤ send_bytes_per_interval send_bps) as Hn.
  { unfold send_bytes_per_interval, send_interval_ms. change (1000 / 50) with 20. divlia. }
  unfold interval_packets in Hz. destruct (send_loop_total _ _ Hn (packets_of_fuel _ Hn)) as (k & Hk & _ & Hall & _).
  rewrite Hz in Hk. injection Hk as <-.
  eapply test_sends_keep in Hx as (w' & -> & Hi' & Hr); [|exact Hall|exact I1]. by injection Hm as <-.
Qed.

(** *** [run] *)
Lemma test_report_reads arrived : steps_in (=) (test_report arrived).
Proof.
  unfold test_report. destruct (max_smoothed_throughput _); [|apply steps_in_panic..].
  apply steps_in_bind; [apply _|apply verify_simulation_reads|intros [e|v]]; [apply steps_in_ret, _|].
  apply steps_in_bind; [apply _|apply get_host_reads|intros s]. apply steps_in_bind; [apply _|apply get_host_reads|intros c].
  apply steps_in_bind; [apply _|apply print_stats_reads|intros l]. apply steps_in_ret, _.
Qed.

Lemma main_step stored x y :
  test_inv x → test_main stored x = Some ((), y) → test_inv y ∧ y.1 = x.1.
Proof.
  destruct x as [w s]. intros Hi Hm. pose proof Hi as [I1 I2 I3 I4 I5]. unfold test_main in Hm. simpl in *.
  apply nm_bind_inv in Hm as (s1 & x1 & [= <- <-] & Hm).
  apply nm_bind_inv in Hm as (t & x1 & [= <- <-] & Hm).
  destruct (tt_main s) as [d| |r] eqn:Hmain.
  - destruct (timer_elapsed d _); [|by injection Hm as <-]. injection Hm as <-.
    destruct stored; split; try done; split; simpl; try done. by apply cancel_le.
  - destruct (sv_ended (tt_server s)) eqn:Hend; [|by injection Hm as <-].
    apply nm_bind_inv in Hm as (r & x1 & Hx & Hm).
    apply in_network_inv in Hx as (w1 & Hr%test_report_reads & ->). subst w1. injection Hm as <-.
    split; [|done]. split; simpl; try done. by rewrite Hend.
  - by injection Hm as <-.
Qed.

Lemma run_step x y : test_inv x → TestRun x y → test_inv y ∧ reach x.1 y.1.
Proof using Helapsed Hbps.
  intros Hi [task Hm]. destruct task as [a| | |stored]; simpl in Hm.
  - by eapply network_step.
  - destruct (server_step x Hi) as (y' & Hy & ? & ? & _). rewrite Hm in Hy. by injection Hy as <-.
  - by eapply sender_step.
  - destruct (main_step _ _ _ Hi Hm) as [? ->]. by split.
Qed.

Lemma run_steps x y : test_inv x → rtc TestRun x y → test_inv y ∧ reach x.1 y.1.
Proof using Helapsed Hbps.
  intros Hi Hs. induction Hs as [|x y z Hxy _ IH]; [by split|].
  destruct (run_step _ _ Hi Hxy) as [Hy Hr]. destruct (IH Hy) as [Hz Hr']. split; [done|]. by etrans.
Qed.

(** The arrivals are in the order of the log. *)
Lemma arrivals_sorted log : sorted_by_key step_time log → sorted_by_key fst (arrivals id log).
Proof.
  unfold sorted_by_key. induction 1 as [|x l Hl IH Hx]; [constructor|]. rewrite arrivals_cons.
  destruct (delivery_to id x) as [a|] eqn:Ha; [|done]. simpl. constructor; [done|].
  rewrite Forall_forall in Hx. apply Forall_forall. intros b (y & Hb & Hy)%list_elem_of_omap.
  specialize (Hx y Hb). unfold delivery_to in *. apply bind_Some in Ha as (g & _ & Ha), Hy as (g' & _ & Hy).
  do 2 case_bool_decide; simplify_eq. simpl. lia.
Qed.

Lemma arrivals_time now log :
  Forall (λ s, 0 ≤ step_time s ≤ now ∧ kind_typed (step_kind s)) log → 0 ≤ now → 0 ≤ simulation_start →
  Forall (λ a, 0 ≤ a.1 ≤ now) (arrivals id log).
Proof.
  intros Hl H0 Hs. rewrite Forall_forall in Hl. apply Forall_forall.
  intros a (s & Hin & Ha)%list_elem_of_omap. destruct (Hl s Hin) as [Ht _]. unfold delivery_to in Ha.
  apply bind_Some in Ha as (g & _ & Ha). case_bool_decide; simplify_eq. simpl. lia.
Qed.

End tasks.
End state.

Section theorems.
Context {L E : Type} {EL : EventListener L E}.
Context {H : Type} {HH : BinaryHeap PrioritizedInTransitData above H}.
Context {R : Type} (rng_f64 : R → f64 * R) (rng_u128 : R → Z * R).
Context (timer_elapsed : Z → Z → bool) (hash_order : gset string → list string).
Context (iter_nodes : gmap string NodeStats → list (string * NodeStats)).
Context (iter_links : gmap string LinkStats → list (string * LinkStats)).
Context (begin : Z) (spec : NetworkSpec) (events : NetworkEvents) (rng : R) (simulation_start : Z).
Context (topo : Topology) (w0 : World H R).
Context (client_ip server_ip : IpAddr) (client server : node_ref) (send_bps deadline : Z).
Context (default_meta : RecvMeta) (wc ws w : World H R) (s : Test (L := L) (E := E)).

(** The test runs in a freshly initialized network, in which its hosts were found. *)
Context (Helapsed : ∀ d n, timer_elapsed d n = true → d ≤ n) (Hbps : 0 ≤ send_bps).
Context (Hinit : initialize begin spec events rng simulation_start false = Ok (topo, w0)).
Context (Hclient : get_host topo client_ip w0 = Some (client, wc)).
Context (Hserver : get_host topo server_ip w0 = Some (server, ws)).
Context (Hrun : rtc (TestRun rng_f64 rng_u128 timer_elapsed hash_order iter_nodes iter_links spec topo
  simulation_start client_ip server_ip client server send_bps) (w0, test_init default_meta deadline) (w, s)).

Lemma test_reached : ∃ id,
  test_inv simulation_start client_ip server_ip client server id (w, s) ∧
  Reach rng_f64 rng_u128 timer_elapsed topo simulation_start w0 w.
Proof using Helapsed Hbps Hinit Hclient Hserver Hrun.
  destruct (host_endpoint _ _ _ _ _ _ _ _ _ _ _ Hinit Hclient) as [Hc _].
  destruct (host_endpoint _ _ _ _ _ _ _ _ _ _ _ Hinit Hserver) as [[id Hs] Hq]. exists id.
  eapply run_steps in Hrun as [Hi Hr]; [by split|done|done|].
  destruct (initialize_safe topo (test_packet client_ip server_ip) _ _ _ _ _ _ _ Hinit) as [Hsafe Hsock].
  assert (shaped 20 1200 (BufsAndMeta_new default_meta 1200 20)) as Hsh.
  { split_and!; [done|done|]. repeat constructor. }
  split; try done. split; try done.
  - intros f. simpl. by rewrite Hsock, lookup_empty.
  - simpl. rewrite arrivals_quiet; [done|]. by eapply initialize_quiet.
Qed.

(** C38: The throughput test measures what the network delivers.  In every execution, over any network,
    what the server has noted is what the replay log has as deliveries to its application: all of
    them, in order, each with its time and its size of at most 1200 bytes; the server never panics,
    since all packets it receives come from the client; and once the test is cancelled its next step
    ends it. *)
Theorem throughput_measures_deliveries :
  (∃ nd, w_nodes w !! server = Some nd ∧
     sv_arrived (tt_server s) = arrivals simulation_start server_ip (n_id nd) (w_log w)) ∧
  Forall (λ a, 0 ≤ a.2 ≤ 1200) (sv_arrived (tt_server s)) ∧
  ∃ y, test_server timer_elapsed simulation_start client_ip server (w, s) = Some ((), y) ∧
    (is_cancelled (tt_token s) = true → sv_ended (tt_server y.2) = true).
Proof using Helapsed Hbps Hinit Hclient Hserver Hrun.
  destruct test_reached as (id & Hi & _). pose proof Hi as [[_ _ Hs _ _ Ha Hsz] _ _ _ _].
  rewrite lookup_fmap in Hs. apply fmap_Some in Hs as (nd & Hn & [= -> _]).
  split; [by exists nd|]. split; [done|].
  destruct (server_step rng_f64 rng_u128 _ topo _ _ _ _ _ _ Helapsed _ Hi) as (y & Hy & _ & _ & Hc). by exists y.
Qed.

End theorems.

(** ** From the configuration to the report *)
Section reported.
Context {L E : Type} {EL : EventListener L E}.
Context {H : Type} {HH : BinaryHeap PrioritizedInTransitData above H}.
Context {R : Type} (rng_f64 : R → f64 * R) (rng_u128 : R → Z * R).
Context (timer_elapsed : Z → Z → bool) (hash_order : gset string → list string).
Context (iter_nodes : gmap string NodeStats → list (string * NodeStats)).
Context (iter_links : gmap string LinkStats → list (string * LinkStats)).
Context (Helapsed : ∀ d n, timer_elapsed d n = true → d ≤ n).
Context (Horder : ∀ s, hash_order s ≡ₚ elements s) (Hlinks : ∀ m, iter_links m ≡ₚ map_to_list m).

(** C37: The throughput test, from its configuration to its report.  In every execution over a network
    that was set up from the files, with node ids that differ, in which no packet id is drawn twice: when [run] waits for the server and
    the server has ended, the next step of [run] returns without a panic.  If no two nodes share
    an address and every link connects two of them, then the log is verified, the report is
    printed, and the throughput it states is the largest number of bits per second that arrived
    within 100 ms, of all the packets the log has as delivered; otherwise [run] fails since there
    is no verifier for the network. *)
Theorem throughput_run_reports {QuinnJsonConfig} (config : NetworkConfig QuinnJsonConfig) opt now (rng : R)
    spec topo (w0 w wh : World H (R * list Z)) server client send_bps default_meta (s : Test (L := L) (E := E)) stored :
  setup_network now config (rng, []) now false = Ok (spec, topo, w0) → config_typed config →
  NoDup (nj_id <$> sj_nodes (network_graph config)) → 0 ≤ now →
  test_hosts spec topo opt w0 = Some ((server, client, send_bps), wh) → 0 ≤ send_bps →
  let client_ip := client_ip_address (throughput_network opt) in
  let server_ip := server_ip_address (throughput_network opt) in
  rtc (TestRun (recorded_f64 rng_f64) (recorded_u128 rng_u128) timer_elapsed hash_order iter_nodes iter_links
    spec topo now client_ip server_ip client server send_bps)
    (w0, test_init default_meta (now + from_millis (throughput_duration_ms opt))) (w, s) →
  NoDup (drawn w) →
  w_now w ≤ duration_max - from_secs 10 → sumZ step_bytes (w_log w) < 2 ^ 64 →
  80 * sumZ snd (sv_arrived (tt_server s)) < 2 ^ 64 →
  tt_main s = MainJoining → sv_ended (tt_server s) = true →
  ∃ nd result, w_nodes w !! server = Some nd ∧
    test_main timer_elapsed hash_order iter_nodes iter_links spec topo client_ip server_ip stored (w, s) =
      Some ((), (w, mkTest (tt_token s) (tt_server s) (tt_sender s) (MainReturned result))) ∧
    (verifiable spec → ∃ lines, result = inr
       (reference_throughput (arrivals now server_ip (n_id nd) (w_log w)), lines)) ∧
    (¬ verifiable spec → ∃ e, result = inl (NoVerifier e)).
Proof using Helapsed Horder Hlinks.
  intros Hset Hconfig Hnodes Hbegin Hhosts Hbps client_ip server_ip Hrun Hdrawn Hnow Hbytes Hsum Hmain Hend.
  subst client_ip server_ip.
  destruct (setup_initialized config _ _ _ _ _ _ _ Hset Hconfig) as (Hinit & _).
  unfold test_hosts in Hhosts. apply nm_bind_inv in Hhosts as (srv & w1 & Hs & Hhosts).
  pose proof (get_host_reads _ _ _ _ _ Hs) as <-. apply nm_bind_inv in Hhosts as (cl & w2 & Hc & Hhosts).
  pose proof (get_host_reads _ _ _ _ _ Hc) as <-. apply nm_bind_inv in Hhosts as (b & w2 & _ & [= -> -> -> _]).
  destruct (test_reached (recorded_f64 rng_f64) (recorded_u128 rng_u128) _ _ _ _ _ _ _ _ _ _ _ _ _ _ _ _ _ _ _ _ _ _ Helapsed Hbps Hinit Hc Hs Hrun)
    as (id & [[_ Hce Hse _ _ Ha Hsz] _ _ _ _] & Hr). simpl in Hse, Ha, Hsz.
  rewrite lookup_fmap in Hse. apply fmap_Some in Hse as (nd & Hnd & [= -> _]).
  destruct (reach_log_ok _ _ _ _ _ _ _ _ _ _ _ _ Hinit Hbegin Hr) as (Hsorted & H0 & Hok).
  assert (max_smoothed_throughput (E := ()) (sv_arrived (tt_server s)) =
    Ok (reference_throughput (sv_arrived (tt_server s)))) as Hmax.
  { apply max_smoothed_reference; [rewrite Ha; by apply arrivals_sorted| |done].
    pose proof (arrivals_time now (server_ip_address (throughput_network opt)) (n_id nd) _ _ Hok H0 Hbegin) as Ht. rewrite <-Ha in Ht.
    rewrite Forall_forall in Hsz, Ht. intros p Hp. split; [by apply Hsz|].
    specialize (Ht p Hp). unfold window_duration, from_millis, from_secs, ns_per_ms, ns_per_sec in *. lia. }
  destruct (simulation_reported _ _ timer_elapsed _ _ hash_order iter_nodes iter_links
    (λ m, (map_to_list m).*1) Horder Hlinks ltac:(done) config now (rng, []) now false spec topo w0 w Hset
    Hconfig Hnodes Hr Hdrawn Hbegin Hnow Hbytes [] _ _ _ _ _ _ false ltac:(by left) Hs Hc) as [Hyes Hno].
  exists nd. unfold test_main, mbind, NM_bind. simpl. rewrite Hmain, Hend. unfold in_network, test_report.
  rewrite Hmax. unfold mbind, NM_bind. rewrite <-Ha.
  destruct (verifier_new_dec spec) as [Hv|Hv].
  - destruct (Hyes Hv) as (verified & lines & -> & Hs' & Hc' & Hl). eexists (inr _). rewrite Hs', Hc', Hl.
    split_and!; [done..|by eexists|done].
  - destruct (Hno Hv) as [e ->]. exists (inl (NoVerifier e)). split_and!; [done..|by eexists].
Qed.
End reported.

(** ** Witnesses *)
Abbreviation run_state := (World net_heap net_rng * Test (L := nat) (E := list bool))%type.

(** [A] sends 200 kbit/s to [B], for a second. *)
Abbreviation run_task :=
  (test_task (L := nat) (E := list bool) net_f64 net_u128 net_timer hash_elements map_to_list map_to_list
     net_spec net_topo 0 (as_ip_addr host_A) (as_ip_addr host_B) 0%nat 1%nat 200000).
Abbreviation run_relation :=
  (TestRun (L := nat) (E := list bool) net_f64 net_u128 net_timer hash_elements map_to_list map_to_list
     net_spec net_topo 0 (as_ip_addr host_A) (as_ip_addr host_B) 0%nat 1%nat 200000).
Definition run_start : run_state := (net_world, test_init no_meta (from_secs 1)).
Definition run_exec (l : list TestTask) : option run_state :=
  foldl (λ o task, x ← o; snd <$> run_task task x) (Some run_start) l.

Lemma run_exec_steps l y : run_exec l = Some y → rtc run_relation run_start y.
Proof.
  unfold run_exec. generalize run_start. induction l as [|task l IH]; intros x; simpl; [by intros [= ->]|].
  destruct (run_task task x) as [[[] x1]|] eqn:He; simpl.
  - intros Hf. eapply rtc_l; [by exists task|]. by apply IH.
  - intros Hf. exfalso. clear -Hf. induction l; [done|auto].
Qed.

(** Two packets make up the first 50 ms; the first one arrives. *)
Definition run_script : list TestTask :=
  [TestServer; TestSender] ++
  (TestNetwork <$> [RunBuffer 0%nat; RunLink 0%nat; RunForwarder 0%nat; ms 6; RunForwarder 0%nat]) ++
  [TestServer; TestNetwork (ms 1000); TestMain true; TestServer].
Definition run_end : run_state := default run_start (run_exec run_script).

Lemma run_end_reached : rtc run_relation run_start (fst run_end, snd run_end).
Proof.
  rewrite <-surjective_pairing. apply (run_exec_steps run_script). vm_compute. reflexivity.
Qed.

Lemma throughput_measures_deliveries_witness :
  sv_arrived (tt_server (snd run_end)) = [(from_millis 6, 1200)] ∧
  Forall (λ a, 0 ≤ a.2 ≤ 1200) (sv_arrived (tt_server (snd run_end))).
Proof.
  split; [vm_compute; reflexivity|].
  refine (proj1 (proj2 (throughput_measures_deliveries net_f64 net_u128 net_timer hash_elements map_to_list
    map_to_list 0 net_spec net_events (net_seed 0) 0 net_topo net_world (as_ip_addr host_A) (as_ip_addr host_B)
    0%nat 1%nat 200000 (from_secs 1) no_meta net_world net_world (fst run_end) (snd run_end) net_timer_elapsed _
    net_initialize (net_host (as_ip_addr host_A) 0%nat _) (net_host (as_ip_addr host_B) 1%nat _)
    run_end_reached))); [lia|vm_compute; reflexivity..].
Defined.

Definition run_opt : ThroughputOpt :=
  mkThroughputOpt 1000 (Some 200000)
    (mkNetworkOpt (as_ip_addr host_A) (as_ip_addr host_B) false 0 0 "graph.json" "events.json").

Lemma run_hosts : test_hosts net_spec net_topo run_opt net_world = Some ((1%nat, 0%nat, 200000), net_world).
Proof.
  unfold test_hosts, mbind, NM_bind. change (server_ip_address _) with (as_ip_addr host_B).
  rewrite (net_host (as_ip_addr host_B) 1%nat) by (vm_compute; reflexivity).
  change (client_ip_address _) with (as_ip_addr host_A).
  rewrite (net_host (as_ip_addr host_A) 0%nat) by (vm_compute; reflexivity). done.
Qed.

Lemma throughput_run_reports_witness :
  ∃ nd result, w_nodes (fst run_end) !! 1%nat = Some nd ∧
    test_main net_timer hash_elements map_to_list map_to_list net_spec net_topo (as_ip_addr host_A)
      (as_ip_addr host_B) true (fst run_end, snd run_end) =
      Some ((), (fst run_end, mkTest (tt_token (snd run_end)) (tt_server (snd run_end))
        (tt_sender (snd run_end)) (MainReturned result))) ∧
    ∃ lines, result = inr
      (reference_throughput (arrivals 0 (as_ip_addr host_B) (n_id nd) (w_log (fst run_end))), lines).
Proof.
  destruct (throughput_run_reports seq_f64 seq_u128 net_timer hash_elements map_to_list map_to_list
    net_timer_elapsed hash_elements_perm ltac:(reflexivity)
    net_config run_opt 0 0 net_spec net_topo net_world (fst run_end) net_world 1%nat 0%nat 200000 no_meta
    (snd run_end) true net_setup net_config_typed net_config_nodes ltac:(lia) run_hosts ltac:(lia) run_end_reached)
    as (nd & result & Hn & Hm & Hyes & _).
  - apply (bool_decide_unpack _). vm_compute. exact I.
  - vm_compute. discriminate.
  - vm_compute. reflexivity.
  - vm_compute. reflexivity.
  - vm_compute. reflexivity.
  - vm_compute. reflexivity.
  - exists nd, result. split; [exact Hn|]. split; [exact Hm|]. apply Hyes, net_verifiable.
Defined.

(** The throughput that is reported: 1200 bytes in 100 ms. *)
Example run_reported : ∃ y lines,
  run_task (TestMain true) run_end = Some ((), y) ∧ tt_main y.2 = MainReturned (inr (96000, lines)).
Proof. do 2 eexists. split; vm_compute; reflexivity. Qed.
