(* ===== verification/QuicRun.v ===== *)
(** * A run of the QUIC simulation

    Models [QuicSimulation::run] ([quinn-workbench/src/quic/simulation.rs]) from the
    point where both endpoints exist: it spawns the connections of the client,
    waits for them, and then for the tasks of the server.  The client and the
    server are those of [QuicClient] and [QuicServer]. *)

From Stdlib Require Import Init.Byte.
From stdpp Require Import relations.
From S2P Require Import Prelude Ip Cli QuicClient QuicServer.

(** ** [run] *)
Inductive SimError : Type :=
  | ClientErrored
  | ServerErrored (e : ServerError)
  | ServerCrashed.

(** It spawns connections and sleeps a millisecond after each, waits for the
    tasks of the connections, or for those of the server. *)
Inductive SimPhase : Type :=
  | Spawning (sleep : option Z)
  | JoiningClients (task : nat)
  | Collecting (handled : nat)
  | SimReturned (result : option SimError).

(** The connections that were spawned are the first [qs_spawned] of the client;
    the semaphore for them has a permit for each. *)
Record Sim : Type := mkSim {
  qs_client : Client;
  qs_server : Listener;
  qs_spawned : Z;
  qs_phase : SimPhase;
}.

Definition sim_init (now : Z) (opts : QuicOpt) : Sim :=
  mkSim (client_init now opts) server_listen 0 (Spawning None).

Inductive SimAction : Type :=
  | SimUntil (t : Z)
  | SimClient (i : nat) (e : ConnEvent)
  | SimServer (e : ServerEvent)
  | SimMain.

Section sim.
Context (timer_elapsed : Z → Z → bool) (opts : QuicOpt).

(** The next step of [run]; [None] while it waits, or if it panics. *)
Definition sim_main (s : Sim) : option Sim :=
  let client := qs_client s in
  let total_connections := length (q_conns client) in
  let continue phase := Some (mkSim client (qs_server s) (qs_spawned s) phase) in
  match qs_phase s with
  | Spawning sleep =>
      if match sleep with Some d => timer_elapsed d (q_now client) | None => true end then
        if qs_spawned s <? concurrent_connections opts then
          _ ← connection_name (qs_spawned s);
          Some (mkSim client (qs_server s) (qs_spawned s + 1)
            (Spawning (Some (q_now client + from_millis 1))))
        else continue (JoiningClients 0)
      else None
  | JoiningClients task =>
      match q_conns client !! task with
      | None => continue (Collecting 0)
      | Some c =>
          match c_phase c with
          | ConnDone => continue (JoiningClients (S task))
          | ConnFailed => continue (SimReturned (Some ClientErrored))
          | _ => None
          end
      end
  | Collecting handled =>
      match sl_conns (qs_server s) !! handled with
      | None => if sl_listening (qs_server s) then None else continue (SimReturned None)
      | Some c =>
          match sc_phase c with
          | ServerEnded ServedOk =>
              continue (if (total_connections <=? S handled)%nat then SimReturned None
                        else Collecting (S handled))
          | ServerEnded (ServedErr e) => continue (SimReturned (Some (ServerErrored e)))
          | ServerEnded ServedPanic => continue (SimReturned (Some ServerCrashed))
          | _ => None
          end
      end
  | SimReturned _ => None
  end.

Definition sim_step (a : SimAction) (s : Sim) : option Sim :=
  match a with
  | SimUntil t =>
      client ← client_action timer_elapsed (request_interval opts) (Until t) (qs_client s);
      Some (mkSim client (qs_server s) (qs_spawned s) (qs_phase s))
  | SimClient i e =>
      if Z.of_nat i <? qs_spawned s then
        client ← client_action timer_elapsed (request_interval opts) (Work i e) (qs_client s);
        Some (mkSim client (qs_server s) (qs_spawned s) (qs_phase s))
      else None
  | SimServer e =>
      server ← listener_step (response (Z.to_nat (response_size opts))) e (qs_server s);
      Some (mkSim (qs_client s) server (qs_spawned s) (qs_phase s))
  | SimMain => sim_main s
  end.

Definition sim_exec (l : list SimAction) (s : Sim) : option Sim :=
  foldl (λ o a, s ← o; sim_step a s) (Some s) l.

(** ** What holds of a run *)
Abbreviation content := (response (Z.to_nat (response_size opts))).
Abbreviation total := (Z.to_nat (concurrent_connections opts)).

Definition served_ok (c : ServerConn) : Prop := sc_phase c = ServerEnded ServedOk.

Record sim_inv (s : Sim) : Prop := mkSimInv {
  si_client : client_ok (request_interval opts) opts (qs_client s);
  si_conns : length (q_conns (qs_client s)) = total;
  si_server : ∀ c, c ∈ sl_conns (qs_server s) → server_conn_ok content c;
  si_joining : ∀ k, qs_phase s = JoiningClients k →
    ∀ c, c ∈ take k (q_conns (qs_client s)) → c_phase c = ConnDone;
  si_joined : (∃ h, qs_phase s = Collecting h) ∨ qs_phase s = SimReturned None →
    ∀ c, c ∈ q_conns (qs_client s) → c_phase c = ConnDone;
  si_collecting : ∀ h, qs_phase s = Collecting h →
    ((h ≤ length (sl_conns (qs_server s)))%nat ∧ (h = 0 ∨ h < total)%nat) ∧ ∀ c, c ∈ take h (sl_conns (qs_server s)) → served_ok c;
  si_collected : qs_phase s = SimReturned None →
    (∀ c, c ∈ take total (sl_conns (qs_server s)) → served_ok c) ∧
    ((total ≤ length (sl_conns (qs_server s)))%nat ∨ sl_listening (qs_server s) = false);
  si_failed : ∀ e, qs_phase s = SimReturned (Some e) → match e with
    | ClientErrored => ∃ i c, q_conns (qs_client s) !! i = Some c ∧ c_phase c = ConnFailed
    | ServerErrored e => ∃ i c, sl_conns (qs_server s) !! i = Some c ∧ (i = 0 ∨ i < total)%nat ∧
        sc_phase c = ServerEnded (ServedErr e)
    | ServerCrashed => ∃ i c, sl_conns (qs_server s) !! i = Some c ∧ (i = 0 ∨ i < total)%nat ∧
        sc_phase c = ServerEnded ServedPanic
    end;
}.

(** A changed element of a list. *)
Lemma insert_keeps {A} (P : A → Prop) (l : list A) (i j : nat) x y c :
  l !! i = Some x → (P x → P y) → l !! j = Some c → P c → ∃ c', <[i:=y]> l !! j = Some c' ∧ P c'.
Proof.
  intros Hx Hxy Hj Hc. destruct (decide (i = j)) as [->|].
  - exists y. rewrite list_lookup_insert_eq by (by eapply lookup_lt_Some). split; [done|]. apply Hxy. congruence.
  - exists c. by rewrite list_lookup_insert_ne.
Qed.

(** Updates that keep a property keep it for a prefix. *)
Lemma take_insert_keeps {A} (P : A → Prop) k l i x y :
  l !! i = Some x → (P x → P y) → (∀ c, c ∈ take k l → P c) → ∀ c, c ∈ take k (<[i:=y]> l) → P c.
Proof.
  intros Hx Hxy Hl c (j & Hj)%list_elem_of_lookup. apply lookup_take_Some in Hj as [Hj Hlt].
  apply list_lookup_insert_Some in Hj as [(-> & <- & _)|[_ Hj]].
  - apply Hxy, Hl, list_elem_of_lookup. exists j. by rewrite lookup_take_lt.
  - apply Hl, list_elem_of_lookup. exists j. by rewrite lookup_take_lt.
Qed.

Lemma conn_ended_stays ph now e r c r' c' :
  ph = ConnDone ∨ ph = ConnFailed →
  conn_step timer_elapsed (request_interval opts) now e r c = Some (r', c') →
  c_phase c = ph → c_phase c' = ph.
Proof.
  intros Hph Hm Hp. unfold conn_step in Hm. rewrite Hp in Hm.
  destruct e as [| | | |task ok|], Hph as [-> | ->]; try done;
  destruct (c_tasks c !! task) as [[]|]; by simplify_eq.
Qed.

Lemma server_ended_stays r e c c' :
  server_conn_step content e c = Some c' → sc_phase c = ServerEnded r → sc_phase c' = ServerEnded r.
Proof.
  unfold server_conn_step. intros Hm Hp. rewrite Hp in Hm. destruct e as [ok|[]|task e| |b]; try done.
  apply bind_Some in Hm as (s & _ & Hm). by apply bind_Some in Hm as (s' & _ & [= <-]).
Qed.

Lemma sim_client_inv a s client :
  requests opts < 2 ^ 31 → (∀ d n, timer_elapsed d n = true → d ≤ n) → sim_inv s →
  client_action timer_elapsed (request_interval opts) a (qs_client s) = Some client →
  sim_inv (mkSim client (qs_server s) (qs_spawned s) (qs_phase s)).
Proof.
  intros Hr He [I1 I2 I3 I4 I5 I6 I7 I8] Hm. destruct a as [i e|t]; simpl in Hm.
  - pose proof Hm as Hok. eapply client_step_ok in Hok; [|done..]. unfold client_step in Hm.
    apply bind_Some in Hm as (c & Hc & Hm). apply bind_Some in Hm as ([r c'] & Hst & [= <-]).
    split; simpl; try done.
    + by rewrite length_insert.
    + intros k Hk. eapply take_insert_keeps; [exact Hc| |by apply I4]. by eapply conn_ended_stays; [left|].
    + intros Hp. rewrite <-(take_ge (<[i:=c']> _) (length (<[i:=c']> (q_conns (qs_client s))))) by done.
      eapply take_insert_keeps; [exact Hc| |]; [by eapply conn_ended_stays; [left|]|].
      intros x Hx. apply (I5 Hp). by eapply elem_of_take in Hx as (j & Hj & _); eapply list_elem_of_lookup_2.
    + intros err Herr. specialize (I8 err Herr). destruct err; [|done|done]. destruct I8 as (j & x & Hj & Hf). exists j.
      eapply (insert_keeps (λ c, c_phase c = ConnFailed)); [exact Hc| |exact Hj|exact Hf].
      by eapply conn_ended_stays; [right|].
  - destruct (Z.leb_spec (q_now (qs_client s)) t) as [Hle|]; [|done]. injection Hm as <-. split; simpl; try done.
    destruct I1 as [K1 K2 K3 K4]. split; simpl; try done. intros c Hc. eapply conn_ok_later; [exact Hle|by apply K1].
Qed.

Lemma sim_server_inv e s server :
  sim_inv s → listener_step content e (qs_server s) = Some server →
  sim_inv (mkSim (qs_client s) server (qs_spawned s) (qs_phase s)).
Proof.
  intros [I1 I2 I3 I4 I5 I6 I7 I8] Hm. split; simpl; try done.
  - by eapply listener_step_ok.
  - intros h Hh. destruct (I6 h Hh) as [[Hle Hb] Hall]. unfold listener_step in Hm. destruct e as [inc|task e].
    + destruct (sl_listening _); [|done]. injection Hm as <-. destruct inc; simpl; [|done].
      rewrite length_app, take_app_le by done. split; [split; [lia|done]|done].
    + apply bind_Some in Hm as (c & Hc & Hm). apply bind_Some in Hm as (c' & Hs & [= <-]). simpl.
      rewrite length_insert. split; [by split|]. eapply take_insert_keeps; [exact Hc| |exact Hall]. by eapply server_ended_stays.
  - intros Hp. destruct (I7 Hp) as [Hall Hor]. unfold listener_step in Hm. destruct e as [inc|task e].
    + destruct (sl_listening _) eqn:Hli; [|done]. destruct Hor as [Hle|]; [|done].
      injection Hm as <-. destruct inc; simpl; [|by split; [|left]].
      rewrite length_app, take_app_le by done. split; [done|left; lia].
    + apply bind_Some in Hm as (c & Hc & Hm). apply bind_Some in Hm as (c' & Hs & [= <-]). simpl.
      rewrite length_insert. split; [|done]. eapply take_insert_keeps; [exact Hc| |exact Hall]. by eapply server_ended_stays.
  - intros err Herr. specialize (I8 err Herr).
    assert (∀ r i c, sl_conns (qs_server s) !! i = Some c → sc_phase c = ServerEnded r →
      ∃ c', sl_conns server !! i = Some c' ∧ sc_phase c' = ServerEnded r) as Hkeep.
    { intros r i c Hi Hr. unfold listener_step in Hm. destruct e as [inc|task e].
      - destruct (sl_listening _); [|done]. injection Hm as <-. destruct inc; simpl; [|by exists c].
        exists c. by rewrite lookup_app_l by (by eapply lookup_lt_Some).
      - apply bind_Some in Hm as (d & Hd & Hm). apply bind_Some in Hm as (d' & Hst & [= <-]). simpl.
        eapply (insert_keeps (λ c, sc_phase c = ServerEnded r)); [exact Hd| |exact Hi|exact Hr].
        by eapply server_ended_stays. }
    destruct err as [|err|]; [done|..]; destruct I8 as (i & c & Hi & Hlt & Hr);
      destruct (Hkeep _ i c Hi Hr) as (c' & ? & ?); by exists i, c'.
Qed.

Lemma sim_main_inv s s' : sim_inv s → sim_main s = Some s' → sim_inv s'.
Proof.
  intros [I1 I2 I3 I4 I5 I6 I7 I8] Hm. unfold sim_main in Hm. destruct (qs_phase s) as [sl|k|h|r] eqn:Hp; [..|done].
  - destruct (match sl with Some _ => _ | None => _ end); [|done].
    destruct (qs_spawned s <? concurrent_connections opts).
    + apply bind_Some in Hm as (n & _ & [= <-]). split; simpl; try done; by intros [[? [=]]|[=]].
    + injection Hm as <-. split; simpl; try done; [by intros k [= <-] c ?%not_elem_of_nil|by intros [[? [=]]|[=]]].
  - specialize (I4 k eq_refl). destruct (q_conns (qs_client s) !! k) as [c|] eqn:Hc.
    + destruct (c_phase c) eqn:Hph; try done; injection Hm as <-; split; simpl; try done; try by intros [[? [=]]|[=]].
      * intros j [= <-]. rewrite (take_S_r _ _ _ Hc). by intros x [Hx| ->%list_elem_of_singleton]%elem_of_app; [apply I4|].
      * intros err [= <-]. by exists k, c.
    + injection Hm as <-. split; simpl; try done.
      * intros _ c Hin. apply I4. rewrite take_ge; [done|]. by apply lookup_ge_None.
      * intros j [= <-]. split; [split; [lia|by left]|]. by intros c ?%not_elem_of_nil.
  - destruct (I6 h eq_refl) as [[Hle Hb] Hall]. assert (∀ c, c ∈ q_conns (qs_client s) → c_phase c = ConnDone) as Hd by (apply I5; left; by exists h).
    destruct (sl_conns (qs_server s) !! h) as [c|] eqn:Hc.
    + destruct (sc_phase c) as [| | | |[|e|]] eqn:Hph; try done; injection Hm as <-.
      * assert (∀ x, x ∈ take (S h) (sl_conns (qs_server s)) → served_ok x) as Hall'.
        { rewrite (take_S_r _ _ _ Hc). by intros x [Hx| ->%list_elem_of_singleton]%elem_of_app; [apply Hall|]. }
        apply lookup_lt_Some in Hc. rewrite I2. destruct (Nat.leb_spec total (S h)); split; simpl; try done.
        -- intros _. split; [|left; lia]. intros x Hx. apply Hall'.
           apply elem_of_take in Hx as (j & Hj & Hlt). apply elem_of_take. exists j. split; [done|lia].
        -- intros j [= <-]. split; [split; [lia|by right]|done].
      * split; simpl; try done. intros err [= <-]. by exists h, c.
      * split; simpl; try done. intros err [= <-]. by exists h, c.
    + destruct (sl_listening (qs_server s)) eqn:Hli; [done|]. injection Hm as <-. split; simpl; try done.
      intros _. split; [|by right]. intros x Hx. apply Hall. apply lookup_ge_None in Hc.
      rewrite take_ge by done. apply elem_of_take in Hx as (j & Hj & _). by eapply list_elem_of_lookup_2.
Qed.

Lemma sim_exec_inv now l s :
  (∀ d n, timer_elapsed d n = true → d ≤ n) →
  0 ≤ requests opts < 2 ^ 31 → 0 ≤ concurrent_streams_per_connection opts →
  sim_exec l (sim_init now opts) = Some s → sim_inv s.
Proof.
  intros He [Hr Hr'] Hst. unfold sim_exec. revert s. induction l as [|a l IH] using rev_ind; intros s Hm.
  - injection Hm as <-. split; simpl; try done.
    + by apply client_init_ok.
    + by rewrite length_replicate.
    + by intros c ?%not_elem_of_nil.
    + by intros [[? [=]]|[=]].
  - rewrite foldl_app in Hm. simpl in Hm. apply bind_Some in Hm as (x & Hx & Hm). apply IH in Hx as Hi.
    destruct a as [t|i e|e|]; simpl in Hm.
    + apply bind_Some in Hm as (c & Hc & [= <-]). by eapply (sim_client_inv (Until t)).
    + destruct (_ <? _); [|done]. apply bind_Some in Hm as (c & Hc & [= <-]). by eapply (sim_client_inv (Work i e)).
    + apply bind_Some in Hm as (c & Hc & [= <-]). by eapply sim_server_inv.
    + by eapply sim_main_inv.
Qed.
End sim.

Section theorems.
Context (timer_elapsed : Z → Z → bool) (now : Z) (opts : QuicOpt).
Context (Helapsed : ∀ d n, timer_elapsed d n = true → d ≤ n).
Context (Hrequests : 0 ≤ requests opts < 2 ^ 31) (Hstreams : 0 ≤ concurrent_streams_per_connection opts).
Context (Hconns : 0 < concurrent_connections opts).

Abbreviation reached l s := (sim_exec timer_elapsed opts l (sim_init now opts) = Some s).
Abbreviation total := (Z.to_nat (concurrent_connections opts)).
Abbreviation client_conns s := (q_conns (qs_client s)).
Abbreviation server_conns s := (sl_conns (qs_server s)).

Lemma sim_result l s r :
  reached l s → qs_phase s = SimReturned r →
  match r with
  | None =>
      sumZ (λ c, Z.of_nat (length (c_tasks c))) (client_conns s) = requests opts ∧
      (∀ c t, c ∈ client_conns s → t ∈ c_tasks c → answered t) ∧
      ((total ≤ length (server_conns s))%nat ∨ sl_listening (qs_server s) = false) ∧
      ∀ c, c ∈ take total (server_conns s) → sc_phase c = ServerEnded ServedOk ∧
        ∀ st, st ∈ sc_streams c → served (response (Z.to_nat (response_size opts))) st
  | Some ClientErrored => ∃ c, c ∈ client_conns s ∧ c_phase c = ConnFailed
  | Some (ServerErrored e) => ∃ c, c ∈ server_conns s ∧ sc_phase c = ServerEnded (ServedErr e)
  | Some ServerCrashed => ∃ c, c ∈ server_conns s ∧ sc_phase c = ServerEnded ServedPanic
  end.
Proof using Helapsed Hrequests Hstreams Hconns.
  intros Hm Hp. destruct (sim_exec_inv _ _ _ _ _ Helapsed Hrequests Hstreams Hm) as [I1 I2 I3 I4 I5 I6 I7 I8].
  destruct r as [err|].
  - specialize (I8 err Hp). destruct err; destruct I8 as (i & c & Hc & Hr); exists c;
      (split; [by eapply list_elem_of_lookup_2|]); [done|apply Hr|apply Hr].
  - destruct (all_done_ok _ _ _ I1) as [H1 H2]; [lia|apply I5; by right|]. destruct (I7 Hp) as [H3 H4].
    split_and!; try done. intros c Hc. split; [by apply H3|]. intros st. apply ended_served; [|by apply H3].
    apply I3. apply elem_of_take in Hc as (j & Hj & _). by eapply list_elem_of_lookup_2.
Qed.

(** C34: What the result of a run means.  If [run] returns without an error, then every request was
    made exactly once and answered, and the server has handled as many connections as the client
    made (unless its endpoint was closed), on each of which every stream read the request and was
    sent the whole response; if it returns an error, then a connection of the client failed, or the
    task of a connection of the server failed or crashed, as the error says. *)
Theorem quic_run_result l s r :
  reached l s → qs_phase s = SimReturned r →
  match r with
  | None =>
      sumZ (λ c, Z.of_nat (length (c_tasks c))) (client_conns s) = requests opts ∧
      (∀ c t, c ∈ client_conns s → t ∈ c_tasks c → answered t) ∧
      ((total ≤ length (server_conns s))%nat ∨ sl_listening (qs_server s) = false) ∧
      ∀ c, c ∈ take total (server_conns s) → sc_phase c = ServerEnded ServedOk ∧
        ∀ st, st ∈ sc_streams c → served (response (Z.to_nat (response_size opts))) st
  | Some ClientErrored => ∃ c, c ∈ client_conns s ∧ c_phase c = ConnFailed
  | Some (ServerErrored e) => ∃ c, c ∈ server_conns s ∧ sc_phase c = ServerEnded (ServedErr e)
  | Some ServerCrashed => ∃ c, c ∈ server_conns s ∧ sc_phase c = ServerEnded ServedPanic
  end.
Proof using Helapsed Hrequests Hstreams Hconns. apply sim_result. Qed.

(** The steps that [run] still has to take. *)
Definition joins_left (s : Sim) : nat :=
  match qs_phase s with
  | Spawning _ => 0
  | JoiningClients k => S (total - k) + total
  | Collecting h => total - h
  | SimReturned _ => 0
  end.

Lemma main_progress s :
  sim_inv opts s → (∀ sleep, qs_phase s ≠ Spawning sleep) →
  (∀ c, c ∈ client_conns s → ended c = true) → (total ≤ length (server_conns s))%nat →
  (∀ c, c ∈ take total (server_conns s) → ∃ r, sc_phase c = ServerEnded r) →
  (∃ r, qs_phase s = SimReturned r) ∨
  ∃ s', sim_main timer_elapsed opts s = Some s' ∧ (joins_left s' < joins_left s)%nat ∧
    (∀ sleep, qs_phase s' ≠ Spawning sleep) ∧ qs_client s' = qs_client s ∧ qs_server s' = qs_server s.
Proof using Hconns.
  intros [_ I2 _ I4 _ I6 _ _] Hsp Hc Hlen Hs. unfold sim_main, joins_left.
  destruct (qs_phase s) as [sl|k|h|r] eqn:Hp; [by destruct (Hsp sl)|right|right|left; by exists r].
  - destruct (client_conns s !! k) as [c|] eqn:Hk.
    + pose proof (Hc c (list_elem_of_lookup_2 _ _ _ Hk)) as He. apply lookup_lt_Some in Hk. unfold ended in He.
      destruct (c_phase c); try done; (eexists; split; [reflexivity|]); simpl; split_and!; try done; lia.
    + eexists. split; [reflexivity|]. simpl. split_and!; try done; lia.
  - destruct (I6 h eq_refl) as [[_ Hb] _]. assert (h < total)%nat as Hh by lia.
    destruct (lookup_lt_is_Some_2 (server_conns s) h) as [c Hk]; [lia|]. rewrite Hk.
    destruct (Hs c) as [r Hr].
    { apply list_elem_of_lookup. exists h. by rewrite lookup_take_lt. }
    rewrite Hr, I2. destruct r; [destruct (Nat.leb_spec total (S h))|..];
      (eexists; split; [reflexivity|]); simpl; split_and!; try done; lia.
Qed.

(** C35: The run comes to an end.  While [run] spawns connections it never panics, since the number of
    connections was checked; and once it has spawned them, if all connections of the client and the
    tasks of as many connections of the server have ended, it returns after at most two steps per
    connection and one more. *)
Theorem quic_run_returns l s :
  reached l s →
  (∀ sleep, qs_phase s = Spawning sleep → check_connections opts = Ok () →
     match sleep with Some d => timer_elapsed d (q_now (qs_client s)) = true | None => True end →
     ∃ s', sim_main timer_elapsed opts s = Some s') ∧
  ((∀ sleep, qs_phase s ≠ Spawning sleep) →
   (∀ c, c ∈ client_conns s → ended c = true) → (total ≤ length (server_conns s))%nat →
   (∀ c, c ∈ take total (server_conns s) → ∃ r, sc_phase c = ServerEnded r) →
   ∃ steps s' r, (steps ≤ 2 * total + 1)%nat ∧
     sim_exec timer_elapsed opts (replicate steps SimMain) s = Some s' ∧ qs_phase s' = SimReturned r).
Proof using Helapsed Hrequests Hstreams Hconns.
  intros Hm. pose proof (sim_exec_inv _ _ _ _ _ Helapsed Hrequests Hstreams Hm) as Hi. split.
  - intros sleep Hp Hcheck Hsleep. unfold sim_main. rewrite Hp.
    assert (match sleep with Some d => timer_elapsed d (q_now (qs_client s)) | None => true end = true) as ->
      by by destruct sleep.
    destruct (Z.ltb_spec (qs_spawned s) (concurrent_connections opts)) as [Hlt|]; [|by eexists].
    unfold check_connections, max_connections in Hcheck.
    destruct (Z.ltb_spec (90 - 65) (concurrent_connections opts)); [done|].
    unfold connection_name. destruct (Z.leb_spec (qs_spawned s + 65) 255); [by eexists|lia].
  - intros Hsp Hc Hlen Hs.
    assert (joins_left s ≤ 2 * total + 1)%nat as Hle by (unfold joins_left; case_match; lia).
    enough (∃ steps s' r, (steps ≤ joins_left s)%nat ∧
      sim_exec timer_elapsed opts (replicate steps SimMain) s = Some s' ∧ qs_phase s' = SimReturned r)
      as (steps & s' & r & ? & ? & ?) by (exists steps, s', r; split_and!; [lia|done..]).
    clear Hm Hle. remember (joins_left s) as m eqn:Hm. assert (joins_left s ≤ m)%nat as Hle by lia. clear Hm.
    revert s Hi Hsp Hc Hlen Hs Hle. induction m as [|m IH]; intros s Hi Hsp Hc Hlen Hs Hle;
      (destruct (main_progress s Hi Hsp Hc Hlen Hs) as [[r Hr]|(s1 & H1 & Hlt & Hsp1 & Ec & Es)];
        [exists 0%nat, s, r; split_and!; [lia|done..]|]); [lia|].
    destruct (IH s1) as (steps & s' & r & Hn & Hx & Hr); rewrite ?Ec, ?Es; try done; [by eapply sim_main_inv|lia|].
    exists (S steps), s', r. split_and!; [lia| |done]. unfold sim_exec in *. simpl. by rewrite H1.
Qed.
End theorems.

(** Without connections the run waits for one that nobody makes. *)
Lemma no_connections_hang timer_elapsed opts s :
  qs_phase s = Collecting 0 → sl_conns (qs_server s) = [] → sl_listening (qs_server s) = true →
  sim_main timer_elapsed opts s = None.
Proof. intros Hp Hc Hl. unfold sim_main. by rewrite Hp, Hc, Hl. Qed.

(** ** Witnesses *)

(** One request over one connection. *)
Definition sim_opts : QuicOpt :=
  mkQuicOpt false 1 1 1 24 None true
    (mkNetworkOpt (V4 167772161) (V4 167772162) false 0 0 "graph.json" "events.json").

(** The connection is made and the request answered; then everything ends. *)
Definition sim_requests : list SimAction :=
  [SimMain; SimClient 0 (Connect true); SimServer (AcceptConn true); SimServer (OnConn 0 (Established true));
   SimClient 0 TakeRequest; SimClient 0 AcquirePermit; SimServer (OnConn 0 (AcceptBi true));
   SimServer (OnConn 0 (OnStream 0 (ReadToEnd (Some QuicClient.request))));
   SimServer (OnConn 0 (OnStream 0 (WriteAll true true))); SimServer (OnConn 0 (OnStream 0 (Stopped true)));
   SimClient 0 (RequestDone 0 true); SimClient 0 TakeRequest; SimClient 0 JoinTask; SimClient 0 JoinTask;
   SimServer (OnConn 0 (AcceptBi false)); SimServer (OnConn 0 JoinStream); SimServer (OnConn 0 JoinStream);
   SimServer (OnConn 0 (ConnClosed true)); SimUntil (from_millis 1); SimMain].
Definition sim_joins : list SimAction := replicate 3 SimMain.

Definition sim_run (l : list SimAction) : Sim :=
  default (sim_init 0 sim_opts) (sim_exec example_timer sim_opts l (sim_init 0 sim_opts)).

Lemma sim_requests_reached :
  sim_exec example_timer sim_opts sim_requests (sim_init 0 sim_opts) = Some (sim_run sim_requests).
Proof. vm_compute. reflexivity. Qed.
Lemma sim_joined_reached :
  sim_exec example_timer sim_opts (sim_requests ++ sim_joins) (sim_init 0 sim_opts) =
    Some (sim_run (sim_requests ++ sim_joins)).
Proof. vm_compute. reflexivity. Qed.

Lemma quic_run_result_witness :
  sumZ (λ c, Z.of_nat (length (c_tasks c))) (q_conns (qs_client (sim_run (sim_requests ++ sim_joins)))) = 1 ∧
  length (sl_conns (qs_server (sim_run (sim_requests ++ sim_joins)))) = 1%nat.
Proof.
  split; [|vm_compute; reflexivity].
  refine (proj1 (quic_run_result example_timer 0 sim_opts example_timer_elapsed _ _ _
    (sim_requests ++ sim_joins) (sim_run (sim_requests ++ sim_joins)) None sim_joined_reached _));
    [by vm_compute|by vm_compute|by vm_compute|vm_compute; reflexivity].
Defined.

Lemma quic_run_returns_witness :
  ∃ steps s' r, (steps ≤ 3)%nat ∧
    sim_exec example_timer sim_opts (replicate steps SimMain) (sim_run sim_requests) = Some s' ∧
    qs_phase s' = SimReturned r.
Proof.
  refine (proj2 (quic_run_returns example_timer 0 sim_opts example_timer_elapsed _ _ _ sim_requests
    (sim_run sim_requests) sim_requests_reached) _ _ _ _);
    [by vm_compute|by vm_compute|by vm_compute|by vm_compute| |by vm_compute; lia|].
  - apply Forall_forall. vm_compute. repeat constructor.
  - apply Forall_forall. vm_compute. repeat constructor. by eexists.
Defined.
