(* ===== verification/QuicMain.v ===== *)
(** * The QUIC subcommand, from its configuration to its report

    Models [QuicSimulation::run] ([quinn-workbench/src/quic/simulation.rs]) as a
    whole, with the connectivity check in a network of its own and the network of
    the requests, and [run_and_report_stats] ([quic/mod.rs]), which reports what
    happened.  quinn is the environment: it sends and receives packets when it
    chooses, and decides what becomes of connections and requests. *)

From stdpp Require Import relations.
From Stdlib Require Import Init.Byte.
From S2P Require Import Prelude Float Ip Spec Event Transmit SimStep Replayed Verifier Cli QuicClient.
From S2P Require Import QuicServer VerifierThms VerifierTotal VerifierProps VerifierNew Heap InboundQueue.
From S2P Require Import Node Link Network NetworkInit NetworkInv NetworkStart NetworkArrivals NetworkRng NetworkExample.
From S2P Require Import Connectivity Config Workbench Tasks NetworkVerified Report QuicRun.
From S2P Require Import Quinn Certificate Endpoints.

Inductive QuicError : Type :=
  | InvalidOptions (e : QuicOptError)
  | ConfigNotLoaded
  | NotInitialized (e : InitError)
  | NotConnected (a_to_b_failed b_to_a_failed : bool)
  | EndpointsNotCreated (e : SetupError)
  | SimulationFailed (e : SimError)
  | NotReported (e : RunError).

Section quic.
Context {H : Type} {HH : BinaryHeap PrioritizedInTransitData above H}.
Context {R : Type} (rng_f64 : R → f64 * R) (rng_u128 : R → Z * R) (with_seed : Z → R).
Context (timer_elapsed : Z → Z → bool) (hash_order : gset string → list string).
Context (iter_nodes : gmap string NodeStats → list (string * NodeStats)).
Context (iter_links : gmap string LinkStats → list (string * LinkStats)).
Context (iter_ids : gmap string node_ref → list string).
Context (fill : R → list byte * R) (idle_timeout : Z → option Z) (env : Environment).
Abbreviation world := (World H R).

(** The clock when a network is initialized, and the instant that is its start; both
    count from the creation of its tracer. *)
Record Clock : Type := mkClock {
  ck_now : Z;
  ck_start : Z;
}.

(** A network with its tracer. *)
Record Kept : Type := mkKept {
  kp_clock : Clock;
  kp_spec : NetworkSpec;
  kp_topo : Topology;
  kp_world : world;
}.

Definition with_world (w : world) (k : Kept) : Kept := mkKept (kp_clock k) (kp_spec k) (kp_topo k) w.

(** [QuicReturned] has the network that [run] leaves behind, if it got that far,
    and its result. *)
Inductive QuicState : Type :=
  | QuicChecking (k : Kept) (server_node client_node : node_ref) (check : CheckPhase)
  | QuicRequesting (k : Kept) (s : Sim)
  | QuicReturned (tracer_and_network : option Kept) (result : option QuicError)
  | QuicPanicked.

Inductive QuicAction : Type :=
  | QuicNetwork (a : Action)
  | QuicPeer (a : SimAction)
  | QuicMain.

Section run.
Context (opts : QuicOpt) (config : NetworkConfig QuinnJsonConfig) (draw : Z * Z).
Context (check_clock clock : Clock).

Definition server_ip : IpAddr := server_ip_address (quic_network opts).
Definition client_ip : IpAddr := client_ip_address (quic_network opts).
Definition network_rng : R := with_seed (choose_seeds draw opts).2.

(** A network of the configuration. *)
Definition quic_setup (clock : Clock) : outcome InitError Kept :=
  '(spec, topo, w) ← setup_network (ck_now clock) config network_rng (ck_start clock) (disable_time_warping opts);
  Ok (mkKept clock spec topo w).

(** The id of the host with an address. *)
Definition host_id (topo : Topology) (ip : IpAddr) : NM world string :=
  host ← get_host topo ip;
  nd ← get_node host;
  mret (n_id nd).

(** The endpoints of the two hosts, with a random number generator of their own. *)
Definition quic_endpoints (topo : Topology) (w : world)
    : outcome SetupError (ServerEndpoint * ClientEndpoint) * Setup (R := R) :=
  create_endpoints fill idle_timeout env (fst <$> host_id topo server_ip w) (fst <$> host_id topo client_ip w)
    (λ id, quic_configs QuinnJsonConfig_default (network_graph config) !! id)
    (mkSetup (with_seed (choose_seeds draw opts).1) []).

(** From the second network to the first request. *)
Definition quic_requests : QuicState :=
  match quic_setup clock with
  | Ok k =>
      match (quic_endpoints (kp_topo k) (kp_world k)).1 with
      | Ok _ =>
          match check_connections opts with
          | Ok _ => QuicRequesting k (sim_init (ck_now clock) opts)
          | Err e => QuicReturned (Some k) (Some (InvalidOptions e))
          | Panic => QuicPanicked
          end
      | Err e => QuicReturned (Some k) (Some (EndpointsNotCreated e))
      | Panic => QuicPanicked
      end
  | Err e => QuicReturned None (Some (NotInitialized e))
  | Panic => QuicPanicked
  end.

(** From the beginning of [run] to the connectivity check, if there is one. *)
Definition quic_start : QuicState :=
  match quic_setup check_clock with
  | Ok k =>
      match (_ ← link_statuses (kp_topo k) (kp_spec k); node_statuses (kp_topo k) (kp_spec k)) (kp_world k) with
      | None => QuicPanicked
      | Some _ =>
          if disable_time_warping opts then quic_requests else
          match (server_node ← get_host (kp_topo k) server_ip; client_node ← get_host (kp_topo k) client_ip;
                 mret (server_node, client_node)) (kp_world k) with
          | Some ((server_node, client_node), _) => QuicChecking k server_node client_node CheckStart
          | None => QuicPanicked
          end
      end
  | Err e => QuicReturned None (Some (NotInitialized e))
  | Panic => QuicPanicked
  end.

(** A step of a network, of the client or the server, or of [run]. *)
Definition quic_step (a : QuicAction) (st : QuicState) : option QuicState :=
  match st, a with
  | QuicChecking k s c check, QuicNetwork a =>
      w ← exec rng_f64 rng_u128 timer_elapsed (kp_topo k) (ck_start (kp_clock k)) a (kp_world k);
      Some (QuicChecking (with_world w k) s c check)
  | QuicChecking k s c check, QuicMain =>
      match check with
      | CheckDone (Connected _ _) => Some quic_requests
      | CheckDone (Disconnected a_to_b b_to_a) => Some (QuicReturned None (Some (NotConnected a_to_b b_to_a)))
      | _ =>
          '(check, w) ← run_check rng_f64 rng_u128 timer_elapsed s c check (kp_world k);
          Some (QuicChecking (with_world w k) s c check)
      end
  | QuicRequesting k s, QuicNetwork a =>
      w ← exec rng_f64 rng_u128 timer_elapsed (kp_topo k) (ck_start (kp_clock k)) a (kp_world k);
      s ← sim_step timer_elapsed opts (SimUntil (w_now w)) s;
      Some (QuicRequesting (with_world w k) s)
  | QuicRequesting k s, QuicPeer a =>
      match a with
      | SimClient _ _ | SimServer _ => s ← sim_step timer_elapsed opts a s; Some (QuicRequesting k s)
      | _ => None
      end
  | QuicRequesting k s, QuicMain =>
      match qs_phase s with
      | SimReturned result => Some (QuicReturned (Some k) (SimulationFailed <$> result))
      | _ => s ← sim_step timer_elapsed opts SimMain s; Some (QuicRequesting k s)
      end
  | _, _ => None
  end.

Definition quic_exec (l : list QuicAction) (st : QuicState) : option QuicState :=
  foldl (λ o a, st ← o; quic_step a st) (Some st) l.
End run.

(** [run_and_report_stats] up to [run]; [config] is what could be loaded. *)
Definition quic_begin (opts : QuicOpt) (config : option (NetworkConfig QuinnJsonConfig)) (draw : Z * Z)
    (check_clock clock : Clock) : QuicState :=
  match validate_opts opts, config with
  | Ok _, Some config => quic_start opts config draw check_clock clock
  | Ok _, None => QuicReturned None (Some ConfigNotLoaded)
  | Err e, _ => QuicReturned None (Some (InvalidOptions e))
  | Panic, _ => QuicPanicked
  end.

(** The rest of [run_and_report_stats]: what it prints and its result; [stored]
    tells whether the log could be written. *)
Definition report_stats (opts : QuicOpt) (stored : bool) (tracer_and_network : option Kept)
    (result : option QuicError) : option (list Line * option QuicError) :=
  match tracer_and_network with
  | None => Some ([], result)
  | Some (mkKept _ spec topo w) =>
      if negb stored then Some ([], Some (NotReported StoreFailed)) else
      fst <$>
        (r ← verify_simulation hash_order spec;
         match r with
         | inl e => mret ([], Some (NotReported e))
         | inr verified =>
             server_node ← get_host topo (server_ip opts);
             client_node ← get_host topo (client_ip opts);
             lines ← print_report topo iter_nodes iter_links iter_ids verified server_node client_node
               (verbose_node_stats opts);
             mret (lines, result)
         end) w
  end.
End quic.

(** ** From the configuration to the report *)
Section theorems.
Context {H : Type} {HH : BinaryHeap PrioritizedInTransitData above H}.
Context {R : Type} (rng_f64 : R → f64 * R) (rng_u128 : R → Z * R) (with_seed : Z → R).
Context (timer_elapsed : Z → Z → bool) (hash_order : gset string → list string).
Context (iter_nodes : gmap string NodeStats → list (string * NodeStats)).
Context (iter_links : gmap string LinkStats → list (string * LinkStats)).
Context (iter_ids : gmap string node_ref → list string).
Context (fill : R → list byte * R) (idle_timeout : Z → option Z) (env : Environment).
Context (Hidle : ∀ d, idle_timeout d =
  if d / ns_per_ms <=? varint_max then Some (d / ns_per_ms) else None).
Context (opts : QuicOpt) (config : NetworkConfig QuinnJsonConfig) (draw : Z * Z).
Abbreviation configs := (quic_configs QuinnJsonConfig_default (network_graph config)).
Context (Hsound : ∀ s c qs qc, configs !! s = Some qs → configs !! c = Some qc → sound env qs qc).
Context (check_clock clock : Clock) (Hcheck : 0 ≤ ck_now check_clock) (Hclock : 0 ≤ ck_now clock).
Context (Hconfig : config_typed config).
Context (Hips : ∀ ip, ip = server_ip opts ∨ ip = client_ip opts →
  ∃ n, n ∈ nodes (load config).1 ∧ kind n = Host ∧ head (node_addresses n) = Some ip).

Abbreviation kept := (Kept (H := H) (R := R)).
Abbreviation state := (QuicState (H := H) (R := R)).
Abbreviation setup := (quic_setup (H := H) with_seed opts config draw).
Abbreviation requests_from := (quic_requests (H := H) with_seed fill idle_timeout env opts config draw clock).
Abbreviation start_from := (quic_start (H := H) with_seed fill idle_timeout env opts config draw check_clock clock).
Abbreviation step :=
  (quic_step rng_f64 rng_u128 with_seed timer_elapsed fill idle_timeout env opts config draw clock).
Abbreviation steps :=
  (quic_exec rng_f64 rng_u128 with_seed timer_elapsed fill idle_timeout env opts config draw clock).

(** The network was set up, and then something happened in it. *)
Definition set_up (k : kept) : Prop :=
  0 ≤ ck_now (kp_clock k) ∧ ∃ w0,
  setup_network (ck_now (kp_clock k)) config (network_rng with_seed opts draw) (ck_start (kp_clock k))
    (disable_time_warping opts) = Ok (kp_spec k, kp_topo k, w0) ∧
  Reach rng_f64 rng_u128 timer_elapsed (kp_topo k) (ck_start (kp_clock k)) w0 (kp_world k).

Definition quic_inv (st : state) : Prop :=
  match st with
  | QuicChecking _ _ _ _ => True
  | QuicRequesting k s => set_up k ∧ check_connections opts = Ok () ∧
      ∃ l, sim_exec timer_elapsed opts l (sim_init (ck_now (kp_clock k)) opts) = Some s
  | QuicReturned None result => result ≠ None
  | QuicReturned (Some k) _ => set_up k
  | QuicPanicked => False
  end.

Lemma setup_host (spec : NetworkSpec) topo (w : World H R) now start ip :
  setup_network now config (network_rng with_seed opts draw) start (disable_time_warping opts) = Ok (spec, topo, w) →
  ip = server_ip opts ∨ ip = client_ip opts →
  ∃ n c, get_host topo ip w = Some (n, w) ∧ quic_config_of QuinnJsonConfig_default config n w = Some (c, w).
Proof using Hips.
  intros Hset Hip. destruct (setup_finds_hosts QuinnJsonConfig_default config _ _ _ _ _ _ _ Hset) as [Hhosts Hfound].
  destruct (Hips ip Hip) as (ns & Hns & Hk & Ha).
  assert (ns ∈ nodes spec) as Hns'.
  { unfold setup_network in Hset. destruct (load config) as [s evs]. simpl in Hns.
    destruct (initialize _ _ _ _ _ _) as [[t x]|e|]; [|done..]. by injection Hset as <- _ _. }
  destruct (Hhosts ns Hns' Hk) as (a & n & Ha' & Hg & _).
  assert (a = ip) as -> by congruence. destruct (Hfound ip n w Hg) as (_ & _ & c & Hc). by exists n, c.
Qed.

Lemma quic_setup_cases ck :
  match setup ck with
  | Ok k => kp_clock k = ck ∧
      setup_network (ck_now ck) config (network_rng with_seed opts draw) (ck_start ck) (disable_time_warping opts) =
        Ok (kp_spec k, kp_topo k, kp_world k)
  | Err _ => True
  | Panic => False
  end.
Proof.
  unfold quic_setup. pose proof (setup_cases (H := H) config (ck_now ck) (network_rng with_seed opts draw) (ck_start ck)
    (disable_time_warping opts)) as Hc.
  by destruct (setup_network _ _ _ _ _) as [[[spec topo] w]|e|].
Qed.

Lemma setup_host_id (spec : NetworkSpec) topo (w : World H R) now start ip :
  setup_network now config (network_rng with_seed opts draw) start (disable_time_warping opts) = Ok (spec, topo, w) →
  ip = server_ip opts ∨ ip = client_ip opts →
  ∃ id c, host_id topo ip w = Some (id, w) ∧ configs !! id = Some c.
Proof using Hips.
  intros Hset Hip. destruct (setup_host _ _ _ _ _ ip Hset Hip) as (n & c & Hn & Hc).
  unfold quic_config_of, get_node in Hc. cbv [mbind NM_bind nget nsome] in Hc.
  destruct (w_nodes w !! n) as [nd|] eqn:Hnd; [|done]. destruct (configs !! n_id nd) as [c'|] eqn:Hc'; [|done].
  exists (n_id nd), c'. split; [|done]. unfold host_id, get_node. cbv [mbind NM_bind nget nsome mret NM_ret].
  by rewrite Hn, Hnd.
Qed.

Lemma quic_endpoints_total spec topo (w : World H R) now start :
  setup_network now config (network_rng with_seed opts draw) start (disable_time_warping opts) = Ok (spec, topo, w) →
  (quic_endpoints with_seed fill idle_timeout env opts config draw topo w).1 ≠ Panic.
Proof using Hips Hsound Hidle.
  intros Hset. destruct (setup_host_id _ _ _ _ _ (server_ip opts) Hset ltac:(by left)) as (s & qs & Hs & Hqs).
  destruct (setup_host_id _ _ _ _ _ (client_ip opts) Hset ltac:(by right)) as (c & qc & Hc & Hqc).
  unfold quic_endpoints. rewrite Hs, Hc. simpl.
  pose proof (endpoints_never_panic fill idle_timeout env Hidle s c (λ id, configs !! id) qs qc
    (with_seed (choose_seeds draw opts).1) Hqs Hqc (Hsound s c qs qc Hqs Hqc)) as Hp. done.
Qed.

Lemma quic_requests_inv : quic_inv requests_from.
Proof using Hips Hclock Hsound Hidle.
  unfold quic_requests. pose proof (quic_setup_cases clock) as Hc.
  destruct (setup clock) as [k|e|]; [|done..]. destruct Hc as [Hstart Hset].
  assert (set_up k) as Hk by (split; rewrite Hstart; [done|by exists (kp_world k)]).
  pose proof (quic_endpoints_total _ _ _ _ _ Hset) as Hend. destruct (quic_endpoints _ _ _ _ _ _ _ _ _).1; [|done..].
  destruct (check_connections opts) as [[]|e|] eqn:Hmax; [|done|by unfold check_connections in Hmax; case_match].
  split_and!; [done|done|]. exists []. by rewrite Hstart.
Qed.

Lemma quic_start_inv : quic_inv start_from.
Proof using Hconfig Hips Hcheck Hclock Hsound Hidle.
  unfold quic_start. pose proof (quic_setup_cases check_clock) as Hc.
  destruct (setup check_clock) as [k|e|]; [|done..]. destruct Hc as [Hstart Hset].
  pose proof (statuses_printed (H := H) config (ck_now check_clock) (network_rng with_seed opts draw) (ck_start check_clock)
    (disable_time_warping opts)) as Hst. rewrite Hset in Hst. destruct Hst as [Hl Hn].
  destruct (setup_host _ _ _ _ _ (server_ip opts) Hset ltac:(by left)) as (s & _ & Hs & _).
  destruct (setup_host _ _ _ _ _ (client_ip opts) Hset ltac:(by right)) as (c & _ & Hcl & _).
  unfold mbind at 1, NM_bind at 1. rewrite Hl, Hn. destruct (disable_time_warping opts).
  { by apply quic_requests_inv. }
  unfold mbind, NM_bind. by rewrite Hs, Hcl.
Qed.

Lemma quic_step_inv a st st' : quic_inv st → step a st = Some st' → quic_inv st'.
Proof using Hips Hclock Hsound Hidle.
  intros Hi Hm. destruct st as [k s c ph|k s|tn r|]; [..|done|done].
  - destruct a as [a|a|]; [|done|]; simpl in *.
    + by apply bind_Some in Hm as (w & He & [= <-]).
    + destruct ph as [| | | |[]]; try (by apply bind_Some in Hm as ([check w] & _ & [= <-]));
        injection Hm as <-; [apply quic_requests_inv|done].
  - destruct Hi as (Hk & Hc & l & Hs).
    assert (∀ a s', sim_step timer_elapsed opts a s = Some s' →
      ∃ l, sim_exec timer_elapsed opts l (sim_init (ck_now (kp_clock k)) opts) = Some s') as Hgo.
    { intros b s' Hb. exists (l ++ [b]). unfold sim_exec in *. rewrite foldl_app, Hs. done. }
    destruct a as [a|a|]; simpl in Hm.
    + apply bind_Some in Hm as (w & He & Hm). apply bind_Some in Hm as (s' & Hs' & [= <-]).
      split_and!; [|done|by eapply (Hgo (SimUntil (w_now w)))]. destruct Hk as (H0 & w0 & Hset & Hr). split; [done|].
      exists w0. split; [done|]. simpl. etrans; [exact Hr|]. by eapply rtc_once, exec_step.
    + assert (∀ s', sim_step timer_elapsed opts a s = Some s' → quic_inv (QuicRequesting k s')) as Hp.
      { intros s' Hs'. split_and!; [done|done|by eapply Hgo]. }
      destruct a; try done; apply bind_Some in Hm as (s' & Hs' & [= <-]); by apply Hp.
    + destruct (qs_phase s) as [sl|n|n|r]; [..|by injection Hm as <-];
        apply bind_Some in Hm as (s' & Hs' & [= <-]); (split_and!; [done|done|by eapply (Hgo SimMain)]).
Qed.

Lemma quic_exec_inv l st : steps l start_from = Some st → quic_inv st.
Proof using Hconfig Hips Hcheck Hclock Hsound Hidle.
  unfold quic_exec. revert st. induction l as [|a l IH] using rev_ind; intros st Hm.
  - injection Hm as <-. by apply quic_start_inv.
  - rewrite foldl_app in Hm. simpl in Hm. apply bind_Some in Hm as (x & Hx & Hm).
    eapply quic_step_inv; [|exact Hm]. by apply IH.
Qed.

(** A success comes from a simulation that returned without an error. *)
Lemma quic_succeeded l st tn : steps l st = Some (QuicReturned tn None) → st ≠ QuicReturned tn None →
  ∃ l' k s, l = l' ++ [QuicMain] ∧ steps l' st = Some (QuicRequesting k s) ∧ tn = Some k ∧
    qs_phase s = SimReturned None.
Proof.
  intros Hm Hne. destruct l as [|a l _] using rev_ind; [by injection Hm|]. unfold quic_exec in Hm.
  rewrite foldl_app in Hm. simpl in Hm. apply bind_Some in Hm as (x & Hx & Hm).
  assert (requests_from ≠ QuicReturned tn None) as Hreq.
  { unfold quic_requests. by repeat case_match. }
  destruct x as [k s c ph|k s|tn' r|]; [..|done|done]; (destruct a as [a|a|]; [|try done|]); simpl in Hm.
  - by apply bind_Some in Hm as (w & _ & ?).
  - destruct ph as [| | | |[]]; try (by apply bind_Some in Hm as ([] & _ & ?)); simplify_eq.
  - apply bind_Some in Hm as (w & _ & Hm). by apply bind_Some in Hm as (s' & _ & ?).
  - destruct a; try done; by apply bind_Some in Hm as (s' & _ & ?).
  - destruct (qs_phase s) as [sl|n|n|[r|]] eqn:Hp; try (by apply bind_Some in Hm as (s' & _ & ?)); simplify_eq.
    exists l, k, s. by split_and!.
Qed.

(** What [run] leaves behind is reported. *)
Lemma report_stats_total (seen : R → Z → Prop) (live : R → Prop) `{!PacketIds rng_f64 rng_u128 seen live} k result :
  (∀ s, hash_order s ≡ₚ elements s) → (∀ m, iter_links m ≡ₚ map_to_list m) →
  (∀ m, iter_ids m ≡ₚ (map_to_list m).*1) → NoDup (nj_id <$> sj_nodes (network_graph config)) →
  set_up k → live (w_rng (kp_world k)) → w_now (kp_world k) ≤ duration_max - from_secs 10 → sumZ step_bytes (w_log (kp_world k)) < 2 ^ 64 →
  (verifiable (kp_spec k) → ∃ lines,
     report_stats hash_order iter_nodes iter_links iter_ids opts true (Some k) result = Some (lines, result)) ∧
  (¬ verifiable (kp_spec k) → ∃ e,
     report_stats hash_order iter_nodes iter_links iter_ids opts true (Some k) result =
       Some ([], Some (NotReported (NoVerifier e)))).
Proof using Hconfig Hips.
  intros Horder Hlinks Hids Hnodes (H0 & w0 & Hset & Hr) Hlive Hnow Hbytes.
  destruct k as [[now start] spec topo w]. simpl in *.
  destruct (setup_host _ _ _ _ _ (server_ip opts) Hset ltac:(by left)) as (s & _ & Hs & _).
  destruct (setup_host _ _ _ _ _ (client_ip opts) Hset ltac:(by right)) as (c & _ & Hcl & _).
  destruct (simulation_reported rng_f64 rng_u128 timer_elapsed seen live hash_order iter_nodes iter_links
    iter_ids Horder Hlinks Hids config now _ start _ spec topo w0 w Hset Hconfig Hnodes Hr Hlive H0 Hnow Hbytes
    (get_node_ids topo iter_ids) _ _ _ _ _ _ (verbose_node_stats opts) ltac:(by right) Hs Hcl) as [Hyes Hno].
  split.
  - intros (verified & lines & Hv & Hs' & Hc' & Hl)%Hyes. unfold report_stats, mbind, NM_bind. simpl.
    rewrite Hv, Hs', Hc'. unfold print_report, mbind, NM_bind. rewrite Hl. by eexists.
  - intros [e He]%Hno. exists e. unfold report_stats, mbind, NM_bind. simpl. by rewrite He.
Qed.
End theorems.

Section reported.
Context {H : Type} {HH : BinaryHeap PrioritizedInTransitData above H}.
Context {R : Type} (rng_f64 : R → f64 * R) (rng_u128 : R → Z * R) (with_seed : Z → R).
Context (timer_elapsed : Z → Z → bool).
Context (Helapsed : ∀ d n, timer_elapsed d n = true → d ≤ n).
Context (hash_order : gset string → list string).
Context (iter_nodes : gmap string NodeStats → list (string * NodeStats)).
Context (iter_links : gmap string LinkStats → list (string * LinkStats)).
Context (iter_ids : gmap string node_ref → list string).
Context (Horder : ∀ s, hash_order s ≡ₚ elements s) (Hlinks : ∀ m, iter_links m ≡ₚ map_to_list m).
Context (Hids : ∀ m, iter_ids m ≡ₚ (map_to_list m).*1).

End reported.

(** ** Witnesses *)
Definition net_fill : net_rng → list byte * net_rng := unrecorded counting_fill.

Abbreviation main_exec :=
  (quic_exec net_f64 net_u128 net_seed net_timer net_fill quinn_timeout open_environment sim_opts net_config (0, 0)
     (mkClock 0 0)).
Definition main_begin : QuicState (H := net_heap) (R := net_rng) :=
  quic_begin net_seed net_fill quinn_timeout open_environment sim_opts (Some net_config) (0, 0)
    (mkClock 0 0) (mkClock 0 0).

(** The check sends its packets, one crosses the link each way; then the request is made. *)
Definition main_check : list QuicAction :=
  concat (replicate 100 [QuicMain; QuicNetwork (ms 60000)]) ++
  (QuicNetwork <$> [RunBuffer 0%nat; RunLink 0%nat; RunForwarder 0%nat; RunBuffer 1%nat; RunLink 1%nat;
     RunForwarder 1%nat; ms 6; RunForwarder 0%nat; RunForwarder 1%nat]) ++ [QuicMain; QuicMain].
Definition main_requests : list QuicAction :=
  (λ a, match a with SimMain => QuicMain | SimUntil _ => QuicNetwork (ms 1) | a => QuicPeer a end) <$>
    (sim_requests ++ sim_joins).
Definition main_end : QuicState :=
  default QuicPanicked (main_exec (main_check ++ main_requests ++ [QuicMain]) main_begin).
Definition main_kept : option Kept :=
  match main_end with QuicReturned k _ => k | _ => None end.

Lemma net_config_sound s c qs qc :
  quic_configs QuinnJsonConfig_default (network_graph net_config) !! s = Some qs →
  quic_configs QuinnJsonConfig_default (network_graph net_config) !! c = Some qc → sound open_environment qs qc.
Proof.
  assert (∀ id q, quic_configs QuinnJsonConfig_default (network_graph net_config) !! id = Some q →
    q = QuinnJsonConfig_default) as Hdefault.
  { intros id q. unfold quic_configs. simpl. rewrite lookup_insert_Some. intros [[_ <-]|[_ Hq]]; [done|].
    rewrite lookup_insert_Some in Hq. by destruct Hq as [[_ <-]|[_ ?]]. }
  intros ->%Hdefault ->%Hdefault. split_and!; try done. by intros ? t [-> | ->].
Qed.

Lemma main_reached :
  main_exec (main_check ++ main_requests ++ [QuicMain]) main_begin = Some (QuicReturned main_kept None).
Proof. vm_compute. reflexivity. Qed.

