(* ===== verification/Main.v ===== *)
(** * The entry point

    Models [quinn-workbench/src/main.rs]: what a command loads and runs.  The file
    system and [serde] are parameters: a file can be opened or not, and parsing
    it gives the fields that were ignored and, unless it fails, the value. *)

From stdpp Require Import sorting.
From S2P Require Import Prelude Ip Spec Config Cli Report.

Inductive LoadError : Type :=
  | FileNotOpened (path : string)
  | FileNotParsed (path : string).

Inductive Warning : Type :=
  | UnknownFields (path : string) (fields : list string).

(** What a command runs, on which runtime. *)
Inductive Run {QuinnJsonConfig : Type} : Type :=
  | RunQuic (rt : Runtime) (opt : QuicOpt)
  | RunPing (rt : Runtime) (opt : PingOpt) (config : NetworkConfig QuinnJsonConfig)
  | RunThroughput (rt : Runtime) (opt : ThroughputOpt) (config : NetworkConfig QuinnJsonConfig)
  | PrintRuntime.

Section main.
Context {File QuinnJsonConfig : Type} (open_file : string → option File).
Context (parse_graph : File → list string * option (NetworkSpecJson QuinnJsonConfig)).
Context (parse_events : File → list string * option (list RawNetworkEventJson)).
Context (hash_order : gset string → list string).

Definition load_json {T} (parse : File → list string * option T) (path : string)
    : list Warning * outcome LoadError T :=
  match open_file path with
  | None => ([], Err (FileNotOpened path))
  | Some file =>
      let '(ignored, parsed) := parse file in
      match parsed with
      | None => ([], Err (FileNotParsed path))
      | Some parsed =>
          let unused := sort_unstable String.leb (hash_order (list_to_set ignored)) in
          (match unused with [] => [] | _ => [UnknownFields path unused] end, Ok parsed)
      end
  end.

(** An event is converted while it is parsed. *)
Definition parse_events_json (file : File) : list string * option (list NetworkEventJson) :=
  let '(ignored, parsed) := parse_events file in
  (ignored, raws ← parsed;
     mapM (λ raw, match event_try_from raw with Ok e => Some e | _ => None end) raws).

Definition load_network_config (cli : NetworkOpt) : list Warning * outcome LoadError (NetworkConfig QuinnJsonConfig) :=
  let '(graph_warnings, graph) := load_json parse_graph (network_graph_path cli) in
  match graph with
  | Ok network_graph =>
      let '(event_warnings, events) := load_json parse_events_json (network_events_path cli) in
      (graph_warnings ++ event_warnings, events ← events; Ok (mkNetworkConfig network_graph events))
  | Err e => (graph_warnings, Err e)
  | Panic => (graph_warnings, Panic)
  end.

Definition main (command : Command) : list Warning * outcome LoadError Run :=
  match command with
  | Quic opt =>
      let delay_mode := if disable_time_warping opt then Wait else TimeWarp in
      ([], Ok (RunQuic (new_rt delay_mode) opt))
  | Ping opt =>
      let '(warnings, config) := load_network_config (ping_network opt) in
      (warnings, config ← config; Ok (RunPing (new_rt TimeWarp) opt config))
  | Throughput opt =>
      let '(warnings, config) := load_network_config (throughput_network opt) in
      (warnings, config ← config; Ok (RunThroughput (new_rt TimeWarp) opt config))
  | Rt => ([], Ok PrintRuntime)
  end.

(** ** The warning about unknown fields *)
Context (Horder : ∀ s, hash_order s ≡ₚ elements s).

Lemma unused_fields ignored :
  let unused := sort_unstable String.leb (hash_order (list_to_set ignored)) in
  (∀ f, f ∈ unused ↔ f ∈ ignored) ∧ NoDup unused ∧ StronglySorted (λ x y, String.leb x y = true) unused.
Proof using Horder.
  simpl. split_and!.
  - intros f. rewrite sort_unstable_perm, Horder, elem_of_elements. apply elem_of_list_to_set.
  - rewrite sort_unstable_perm, Horder. apply NoDup_elements.
  - apply sort_unstable_sorted; [apply string_leb_trans|apply String.leb_total].
Qed.

(** A file that is parsed is warned about exactly if it has fields that are not known; the warning
    lists each of them once, sorted.  A file that cannot be opened or parsed is the error. *)
Theorem load_json_warns {T} (parse : File → list string * option T) path :
  match open_file path with
  | None => load_json parse path = ([], Err (FileNotOpened path))
  | Some file =>
      match parse file with
      | (_, None) => load_json parse path = ([], Err (FileNotParsed path))
      | ([], Some x) => load_json parse path = ([], Ok x)
      | (ignored, Some x) => ∃ fields, load_json parse path = ([UnknownFields path fields], Ok x) ∧
          (∀ f, f ∈ fields ↔ f ∈ ignored) ∧ NoDup fields ∧
          StronglySorted (λ x y, String.leb x y = true) fields
      end
  end.
Proof using Horder.
  unfold load_json. destruct (open_file path) as [file|]; [|done].
  destruct (parse file) as [ignored [x|]]; [|by destruct ignored].
  destruct (unused_fields ignored) as (Hin & Hnd & Hs). revert Hin Hnd Hs.
  generalize (sort_unstable String.leb (hash_order (list_to_set ignored))). intros unused Hin Hnd Hs.
  destruct ignored as [|f ignored].
  - destruct unused as [|u unused]; [done|]. destruct (not_elem_of_nil u). apply Hin. left.
  - destruct unused as [|u unused]; [|by eexists].
    destruct (not_elem_of_nil f). apply Hin. left.
Qed.
End main.

(** The order of the hash set does not matter. *)
Theorem load_json_order {File T} open_file order1 order2 (parse : File → list string * option T) path :
  (∀ s, order1 s ≡ₚ elements s) → (∀ s, order2 s ≡ₚ elements s) →
  load_json open_file order1 parse path = load_json open_file order2 parse path.
Proof.
  intros H1 H2. unfold load_json. destruct (open_file path) as [file|]; [|done].
  destruct (parse file) as [ignored parsed].
  rewrite (sort_unstable_unique String.leb string_leb_trans String.leb_total (order1 (list_to_set ignored))
    (order2 (list_to_set ignored))); [done|by rewrite H1, H2|].
  intros x y _ _ Hx Hy. by apply String.leb_antisym.
Qed.

(** The clock is paused unless time warping is disabled, which only the QUIC command can. *)
Theorem main_clock {File QuinnJsonConfig} open_file
    (parse_graph : File → list string * option (NetworkSpecJson QuinnJsonConfig)) parse_events hash_order command warnings run :
  main open_file parse_graph parse_events hash_order command = (warnings, Ok run) →
  match run with
  | RunQuic rt opt => start_paused rt = negb (disable_time_warping opt) ∧ command = Quic opt
  | RunPing rt opt _ => start_paused rt = true ∧ command = Ping opt
  | RunThroughput rt opt _ => start_paused rt = true ∧ command = Throughput opt
  | PrintRuntime => command = Rt
  end.
Proof.
  destruct command as [opt|opt|opt|]; simpl.
  - intros [= _ <-]. by destruct (disable_time_warping opt).
  - destruct (load_network_config _ _ _ _ _) as [ws [c|e|]]; simpl; [by intros [= _ <-]|done..].
  - destruct (load_network_config _ _ _ _ _) as [ws [c|e|]]; simpl; [by intros [= _ <-]|done..].
  - by intros [= _ <-].
Qed.
